(* ===== verification/_CoqProject ===== *)
-Q . S2P
Prelude.v
CircularBuffer.v
CircularBufferSpec.v
Kernel.v
CharDriver.v
KernelRules.v
CharDriverSpec.v
CharDriverWrite.v
CharDriverRead.v
CharDriverLife.v
CharDriverTrace.v
CharDriverDemo.v
CharDriverThreads.v
CharDriverViews.v
CharDriverRace.v
SystemCalls.v
SystemCallsSpec.v
Threading.v
ThreadingSpec.v
LinkedList.v
LinkedListSpec.v
Writer.v
ServerThread.v
ServerThreadSpec.v
ServerDevice.v
Server.v
ServerSpec.v
ServerDemo.v
ServerAddress.v
Timestamp.v
CecConst.v
CecMsg.v
CecRecord.v
CecTimer.v
CecTuner.v
CecAudio.v
CecSpec.v
CecPlainSpec.v
CecServiceSpec.v
CecBlockSpec.v
CecVariantSpec.v
CecRobust.v
CecTheory.v
CecDevice.v
CecDemo.v
BsdQueue.v
BsdQueueCells.v
BsdQueueSpec.v
BsdListSpec.v
BsdTailqSpec.v
BsdPool.v
BsdDemo.v
Bits.v
ByteOrder.v
ByteOrderSpec.v
ByteOrderMem.v
CpuSet.v
Fields.v
BitFields.v
BitFieldsSpec.v
Codes.v
BitMaps.v
Sequencer.v
Usb.v
UsbLayouts.v
Bsearch.v
TimeVal.v
VirtioRing.v
Tlv.v
Obstack.v
ObstackSpec.v
ObstackRep.v
ObstackOpsSpec.v
ObstackVersions.v
ObstackTheory.v
ObstackDemo.v
RecordWalk.v
Netlink.v
Cmsg.v
Tables.v
