(* ===== verification/Prelude.v ===== *)
(** * A verification library for the AESD assignments repository

    This library models the programs of the repository in Rocq and proves what they do.
    Definitions are translated from the sources under [src/] function by function and
    keep their names; they run, so the witnesses evaluate them on concrete inputs.

    ** The programs and how they fit together

    - The character driver [aesd-char-driver/]: a ring of ten write commands
      ([aesd-circular-buffer.c]) under a Linux character device ([main.c]).  Writes are
      assembled until a newline, then become the newest command; the oldest of ten is
      dropped and freed; reads return the rest of the command at the file position.
    - The socket server [server/]: [aesdsocket.cpp] accepts connections, a thread per
      connection ([server_thread]) appends each received line to [/dev/aesdchar] under a
      mutex and sends the whole device back; [server.h] keeps the table of threads,
      [queue.h] is a list of threads.  In the configuration without the device a further
      thread ([timestamp_thread]) appends the time to the log every ten seconds.
    - Three examples: process creation ([examples/systemcalls]), a mutex shared by
      threads ([examples/threading]), the test set-up ([examples/autotest-validate]), and
      the file writer ([finder-app/writer.c]).
    - The messages of HDMI consumer electronics control, which the repository carries as
      the headers [linux/cec.h] and [linux/cec-funcs.h] of its cross compiler's sysroot
      ([finder-app/arm64_libc]): a hundred and fifty functions that write the messages
      two devices exchange ([cec_msg_x]) or read their operands ([cec_ops_x]).
    - The list macros of the sysroot's [sys/queue.h], the model of the server's own
      [queue.h]: six families of intrusive lists.
    - The other headers of the sysroot that hold code, in macros or inline functions.
      Values: byte order ([linux/swab.h], [linux/byteorder/], [endian.h]), fields packed
      into words ([linux/bcache.h], [linux/nilfs2_ondisk.h], ...), numbers packed into one
      ([bits/sysmacros.h], [asm-generic/ioctl.h], [bits/waitstatus.h], ...), bit maps
      ([sys/select.h], [sys/param.h], ...), sets of processors ([bits/cpu-set.h]), times
      ([sys/time.h]).  Memory: object stacks ([obstack.h]), rings ([linux/virtio_ring.h]),
      binary search ([bits/stdlib-bsearch.h]).  Buffers of records that tell their own
      length: netlink messages, ancillary data ([bits/socket.h]), packet filter tables,
      messages of TIPC, descriptors of USB ([linux/usb/]), events for a sequencer
      ([linux/soundcard.h]).

    ** Conventions

    C code that changes a state is a function in the monad [M St A] of this file: it
    returns a value and a state ([Ret]), goes wrong ([UB], with the reason: a null or
    dangling pointer, an index out of bounds, a double free, a misused lock, an int
    overflow, a missing return, an abort), or runs out of fuel.  Theorems are total:
    [wp m s Q] says that the run returns and satisfies [Q], so the fuel was enough and
    nothing undefined happened; where the code does go wrong a theorem says exactly when.
    Unsigned integers are residues ([uwrap]), signed ones of the kernel wrap ([swrap]),
    signed ones of user programs must stay in range.  Heaps are finite maps from block
    numbers; a pointer is [NULL], the poison pointer of [kmalloc(0)] or a block.

    Code outside the repository is a class of parameters with a class of documented laws:
    [KernelApi]/[KernelLaws] (kernel memory, user copies, mutex, registration),
    [UnixApi]/[UnixLaws] (processes), [PthreadApi]/[PthreadLaws] (threads),
    [NodeMalloc], [StdioApi], [ServerApi]/[ServerLaws] and [NetApi]/[NetLaws] (sockets),
    [TimeApi]/[TimeLaws] (the timer, the time and the log of the timestamp thread),
    [AddressApi]/[AddressLaws] (addresses, the options and signals of [main]),
    [CecFramework]/[CecFrameworkLaws] (the step that fills in a physical address),
    [Compiler] (what [__builtin_constant_p] says), [Conversions]/[ConversionsLaws] and
    [Le32]/[Le32Laws] (the conversions of the kernel), [ObstackApi] (the functions that
    allocate and free chunks), [SeqProgram]/[SeqProgramLaws] (the function a program supplies
    to the sequencer macros, and what the device takes of a patch).
    Inside the library classes are the contracts between components: [LogFile] (the file
    of the server, implemented by the driver), [Queue]/[QueueLaws] (six families of lists),
    [ObstackOps]/[ObstackOpsLaws] (two versions of the object stack macros), with
    [ObstackLaws] for what a chunk allocator keeps, [Records]/[RecordsLaws] (the formats of
    records), [Fields]/[FieldsLaws] and [Layout]/[LayoutLaws] (fields of a word, of a
    structure), [BitMap]/[BitMapLaws] (maps over arrays of words), [SeqBuffer] (two ways
    to advance the event buffer).
    Each component has an instance that satisfies the laws, in its [*Demo] file or at the
    end of its last file, and applies its theorems to a concrete run.

    ** Files

    - [Prelude]: integers, bytes, outcomes, the state monad, its total-correctness rules,
      and lemmas on lists that the components share.
    - [CircularBuffer], [CircularBufferSpec]: the ring.  The loops have fuel one more than
      the number of slots they visit.  [wf] is the invariant of the struct and [contents]
      its abstraction to the list of entries, oldest first; adding refines [spec_add] (keep the ten
      newest), the search refines indexing in the concatenation, and the wrap of the 32
      bit totals is shown to lose data beyond 4 GiB.
    - [Kernel], [KernelRules]: the machine under the driver: heap, user memory, log,
      mutex, and an instance of it; a rule for each service; who owns which block.
    - [CharDriver]: every function of [main.c].
    - [CharDriverSpec]: the abstract device [adev] and the refinement relation
      [represents].
    - [CharDriverWrite], [CharDriverRead], [CharDriverLife]: each handler refines its
      abstract operation on every branch: what it returns, what it leaves in memory, that
      it releases the mutex, what it leaks, and where it faults; each branch is named by the
      answers of the kernel that lead to it.
    - [CharDriverTrace]: any interleaving of system calls on any number of open files; the
      device always holds the ten newest complete commands, and no call faults; reading from
      the start with requests of any size gives of each stored command as much as was asked
      for, until the end or the first refusal.  [CharDriverDemo]: the module on
      concrete inputs.
    - [CharDriverThreads]: each handler as a tree of statements, between any two of which
      other calls run; uninterrupted it is the handler.  [CharDriverViews]: what a call
      holds while others run, a rule for each statement.  [CharDriverRace]: every schedule
      of reads, writes, seeks and closes is free of faults and can be completed while the
      device has room, and the schedule in which a close reads memory a write has freed.
    - [SystemCalls], [SystemCallsSpec]: [fork] runs the rest of the
      function twice; what [do_exec] and [do_exec_redirect] run, write and report.
    - [Threading], [ThreadingSpec]: one step per statement of
      [threadfunc] and the relation [tstep] that interleaves threads; mutual exclusion,
      and that every schedule ends with every thread complete.
    - [LinkedList], [LinkedListSpec]: the methods of [linkedList] on a
      heap of nodes, related to the sequence they store.  A walk has one step more fuel
      than there are nodes in memory.
    - [Writer]: the writer and the functions of the test set-up.
    - [ServerThread], [ServerThreadSpec]: the connection thread, with the file it logs to
      behind the interface [LogFile], each call on it with a failure of its own; the line that
      is cut out of a message, a whole round, and the error paths.
    - [ServerDevice], [ServerDemo]: the interface implemented by the abstract device; what
      a client of server and driver together gets back.
    - [Server], [ServerSpec]: the server class, the accept loop, the
      signal handler, the joins and the status of [main]; the invariant of the thread table, a
      whole run, and the run after a thread could not be created.  [ServerAddress]: the other
      methods of the class and the start of [main].
    - [Timestamp]: the timestamp thread: for each time the timer goes off a line with the
      time the clock gave then; how the thread ends and what it frees.
    - [CecConst]: the constants of [cec.h], with the opcodes and the values of each operand
      in lists.  [CecMsg]: [struct cec_msg], access to its sixteen bytes (an index outside
      them is undefined), and the inline functions of [cec.h].
    - [CecRecord], [CecTimer], [CecTuner], [CecAudio]: the functions of [cec-funcs.h] in the order of the header.  A union is the
      words it occupies, with a view for each member, so that a member that was not the
      one written reads what the memory holds.
    - [CecSpec]: what a message function promises.  [typed] is the invariant of the
      structure; a [codec] pairs a builder with its parser and describes the bytes of the
      operands in arithmetic; [codec_sound] is the contract (the builder stays within the
      array and the parser reads back what was built), [codec_ok] adds that the bytes are
      those of the description, with the symbolic execution that proves it.
    - [CecPlainSpec], [CecServiceSpec], [CecVariantSpec], [CecBlockSpec]: the codecs and their contracts: operands at fixed places, digital services, messages
      with variants, strings, blocks and descriptors, capability discovery.  [CecRobust]:
      every parser on arbitrary bytes.
    - [CecTheory]: all codecs together: round trip, typing, framing (of all but the one
      message whose builder writes the opcode of another), no overrun, a request and its
      answer, the table of opcodes.  [CecDevice]: constants fit their bits, classes
      of addresses, kinds of device, refusals, what a receiver reads where a builder
      and a parser disagree, and a recording source of an unknown type.  [CecDemo]: the framework instance and concrete messages.
    - [BsdQueue]: the macros of [sys/queue.h] over a memory of two words per head or entry.
      [BsdQueueCells]: the cells of a list, how they fall apart at an element, loops.
      [BsdQueueSpec]: the interface [Queue]/[QueueLaws], lists as sequences.
      [BsdListSpec], [BsdTailqSpec]: each family is an
      instance; the other direction, the concatenations, a loop that removes what it visits.
      [BsdPool]: any number of lists over a pool of elements, proved against the interface.
      [BsdDemo]: all families, and a concrete run.
    - [Bits]: fields of bits of a number, shared by the files that follow.
    - [ByteOrder], [ByteOrderSpec], [ByteOrderMem]: swaps and conversions of values, through
      pointers and in place, on hosts of either order; memory as bytes, and its regions.
    - [CpuSet]: the macros on sets of processors, those that take a size and those for
      [cpu_set_t], refine operations on sets.
    - [Fields], [BitFields], [BitFieldsSpec]: accessors of packed fields; a field holds the
      last value written to it, whatever is written to the others, and writing back the old
      values restores the structure.  [Codes]: macros that
      pack numbers into one and take them out.  [BitMaps]: six kinds of bit map refine
      sets of numbers.
    - [Sequencer]: the macros that format events, and what the device receives of them and
      of the patches.
    - [Usb]: queries on endpoints, accessors of audio units.  [UsbLayouts]: every packed
      structure of the USB headers as the list of its names and widths, against a table of
      byte offsets and the size macros.
    - [Bsearch], [TimeVal], [VirtioRing]: one small header each.
    - [Tlv]: the messages of TIPC, one TLV and lists of them.
    - [Obstack]: both versions of every macro.  [ObstackSpec]: chunks and the objects in
      them, as the invariant of a stack.  [ObstackRep], [ObstackOpsSpec]: what each macro
      does to it.  [ObstackVersions]: the versions agree.  [ObstackTheory]: any program
      leaves the objects it finished where they are.  [ObstackDemo]: an allocator.
    - [RecordWalk]: buffers of records against the interface [Records]: a walk visits what
      was put in and stays inside.  [Netlink], [Cmsg], [Tables]: the formats.

    ** Bounds

    The retry loops of the server end after eleven rounds because the counter is compared
    with 10; the joins have fuel 256 for an index of eight bits.  The round and schedule
    theorems hold for any number of rounds, system calls and threads.  The loops of the CEC
    functions run over the sixteen bytes of a message; those of [sys/queue.h] have as many
    steps as memory has words, and a list has fewer elements than that.  A search halves
    its range, so that 65 rounds are enough for [size_t].  The fuel of the iterators of
    tables is an argument, more than there are elements; the walk that frees chunks has one more than memory
    has bytes, and a chunk takes at least one; a buffer of records has at most as many of
    them as bytes.

    ** Not modelled

    - The lines the server prints, and the shell command that removes the log.
    - In [CharDriverRace] a [memcpy] and a call that updates the circular buffer are one
      step, and memory is sequentially consistent; in [CharDriverTrace] a handler is one
      step, and any number of commands is dropped.
    - The buffering of stdio between the server and the device: [ServerDevice] takes
      a write to append to the device and a read from the start to return its contents,
      which [CharDriverTrace] shows for the driver.
    - Shell scripts and build files.
    - The rest of the cross compiler's sysroot under [finder-app/arm64_libc]: third-party
      declarations, constants and generated tables without code of their own, and binaries.
      Of the headers above: [CPU_COUNT] and [CPU_ALLOC], which call the C library; the
      [NFA_NEST] macros, which fill kernel buffers; [xt_entry_foreach] and
      [xt_ematch_foreach], heads of loops of a program; freeing a whole object stack with a
      null pointer.  Of [cec.h] the ioctl numbers,
      capabilities, modes and event structures are left out: no function uses them.  Of
      [sys/queue.h] the declarations of the structs and the static initialisers are. *)

From stdpp Require Import base list gmap strings numbers option.
From Stdlib Require Strings.Byte.
From Stdlib Require Import ZArith Lia.

#[local] Open Scope Z_scope.

(** ** Machine integers *)

(** An unsigned [w]-bit value keeps the residue; a signed one is the residue in
    two's complement (the kernel is built with wrapping signed arithmetic). *)
Definition uwrap (w z : Z) : Z := z mod 2 ^ w.
Definition swrap (w z : Z) : Z := (z + 2 ^ (w - 1)) mod 2 ^ w - 2 ^ (w - 1).

Abbreviation u8 := (uwrap 8).
Abbreviation u16 := (uwrap 16).
Abbreviation u32 := (uwrap 32).
Abbreviation u64 := (uwrap 64).
Abbreviation i32 := (swrap 32).
Abbreviation i64 := (swrap 64).

(** The bitwise operators of C, in a scope of their own, and [c ? a : b]. *)
Declare Scope c_scope.
Infix ".&" := Z.land (at level 42, left associativity) : c_scope.
Infix ".|" := Z.lor (at level 45, left associativity) : c_scope.

Definition ternary {A} (c : Z) (a b : A) : A := if Z.eqb c 0 then b else a.

(** [(size_t)-1], the value the sources use for an invalid offset. *)
Definition SIZE_MAX : Z := 2 ^ 64 - 1.

Lemma uwrap_small w z : 0 ≤ z < 2 ^ w → uwrap w z = z.
Proof. apply Z.mod_small. Qed.

Lemma uwrap_range w z : 0 ≤ w → 0 ≤ uwrap w z < 2 ^ w.
Proof. intros. apply Z.mod_pos_bound. by apply Z.pow_pos_nonneg. Qed.

Lemma swrap_small w z : 0 < w → - 2 ^ (w - 1) ≤ z < 2 ^ (w - 1) → swrap w z = z.
Proof.
  intros Hw Hz. unfold swrap.
  assert (2 ^ w = 2 * 2 ^ (w - 1)) as E.
  { rewrite <- Z.pow_succ_r by lia. f_equal. lia. }
  rewrite Z.mod_small; lia.
Qed.

Lemma swrap_range w z : 0 < w → - 2 ^ (w - 1) ≤ swrap w z < 2 ^ (w - 1).
Proof.
  intros Hw. unfold swrap.
  assert (2 ^ w = 2 * 2 ^ (w - 1)) as E.
  { rewrite <- Z.pow_succ_r by lia. f_equal. lia. }
  pose proof (Z.pow_pos_nonneg 2 w ltac:(lia) ltac:(lia)).
  pose proof (Z.mod_pos_bound (z + 2 ^ (w - 1)) (2 ^ w)). lia.
Qed.

Lemma swrap_add_l w x y : 0 < w → swrap w (swrap w x + y) = swrap w (x + y).
Proof.
  intros Hw. unfold swrap. f_equal.
  replace ((x + 2 ^ (w - 1)) mod 2 ^ w - 2 ^ (w - 1) + y + 2 ^ (w - 1))
    with ((x + 2 ^ (w - 1)) mod 2 ^ w + y) by lia.
  rewrite Zplus_mod_idemp_l. f_equal. lia.
Qed.

(** ** Bytes *)

#[export] Instance byte_eq_decision : EqDecision Byte.byte := Strings.Byte.byte_eq_dec.

(** ['\n'] and ['\0']. *)
Definition LF : Byte.byte := Byte.x0a.
Definition NUL : Byte.byte := Byte.x00.

(** ** Outcomes: a value, undefined behaviour, or exhausted fuel *)

(** The ways a run goes wrong: what the language or the kernel does not define, and the
    abort of a C++ program. *)
Inductive ub : Type :=
  | NullDeref      (** access through [NULL] or a poison pointer *)
  | OutOfBounds    (** access outside the object *)
  | Dangling       (** access to memory that is not allocated *)
  | BadFree        (** [kfree]/[free] of a pointer that is not allocated *)
  | WrongObject    (** access to an object of another type *)
  | LockMisuse     (** unlock of a free mutex, or a self deadlock *)
  | Terminated     (** [std::terminate] *)
  | IntOverflow    (** signed arithmetic leaves the range of its type *)
  | NoReturn.      (** the end of a non-void C++ function is reached *)

#[export] Instance ub_eq_decision : EqDecision ub.
Proof. solve_decision. Defined.

Inductive outcome (A : Type) : Type :=
  | Ret (a : A)
  | UB (why : ub)
  | OutOfFuel.
Arguments Ret {A} a.
Arguments UB {A} why.
Arguments OutOfFuel {A}.

#[export] Instance outcome_ret : MRet outcome := λ A a, Ret a.
#[export] Instance outcome_bind : MBind outcome := λ A B f m,
  match m with Ret a => f a | UB w => UB w | OutOfFuel => OutOfFuel end.

(** ** State passing over outcomes *)

Definition M (St A : Type) : Type := St → outcome (A * St).

#[export] Instance M_ret {St} : MRet (M St) := λ A a s, Ret (a, s).
#[export] Instance M_bind {St} : MBind (M St) := λ A B f m s,
  match m s with Ret (a, s') => f a s' | UB w => UB w | OutOfFuel => OutOfFuel end.

Section operations.
Context {St : Type}.

Definition mget : M St St := λ s, Ret (s, s).
Definition mgets {A} (f : St → A) : M St A := λ s, Ret (f s, s).
Definition mmodify (f : St → St) : M St unit := λ s, Ret (tt, f s).
Definition mub {A} (w : ub) : M St A := λ _, UB w.
Definition mlift {A} (o : outcome A) : M St A := λ s, a ← o; Ret (a, s).
Definition moption {A} (w : ub) (o : option A) : M St A :=
  λ s, match o with Some a => Ret (a, s) | None => UB w end.
End operations.

(** Evaluation of a bind whose first part is known. *)
Lemma bind_eval {St A B} (m : M St A) (f : A → M St B) s a s' :
  m s = Ret (a, s') → (m ≫= f) s = f a s'.
Proof. unfold mbind, M_bind. by intros ->. Qed.

Lemma bind_ub {St A B} (m : M St A) (f : A → M St B) s w :
  m s = UB w → (m ≫= f) s = UB w.
Proof. unfold mbind, M_bind. by intros ->. Qed.

(** ** Total correctness: [owp o Q] and [wp m s Q] hold when the run returns a
    value (no undefined behaviour, enough fuel) that satisfies [Q]. *)

Definition owp {A} (o : outcome A) (Q : A → Prop) : Prop :=
  match o with Ret a => Q a | _ => False end.

Definition wp {St A} (m : M St A) (s : St) (Q : A → St → Prop) : Prop :=
  match m s with Ret (a, s') => Q a s' | _ => False end.

Section wp_rules.
Context {St : Type}.

Lemma wp_ret {A} (a : A) (s : St) Q : wp (mret a) s Q ↔ Q a s.
Proof. done. Qed.

Lemma wp_bind {A B} (m : M St A) (f : A → M St B) s Q :
  wp (m ≫= f) s Q ↔ wp m s (λ a s', wp (f a) s' Q).
Proof. unfold wp, mbind, M_bind. by destruct (m s) as [[a s']| |]. Qed.

Lemma wp_get (s : St) Q : wp mget s Q ↔ Q s s.
Proof. done. Qed.

Lemma wp_gets {A} (f : St → A) s Q : wp (mgets f) s Q ↔ Q (f s) s.
Proof. done. Qed.

Lemma wp_modify (f : St → St) s Q : wp (mmodify f) s Q ↔ Q tt (f s).
Proof. done. Qed.

Lemma wp_lift {A} (o : outcome A) (s : St) Q : wp (mlift o) s Q ↔ owp o (λ a, Q a s).
Proof. unfold wp, mlift, owp, mbind, outcome_bind. by destruct o. Qed.

Lemma wp_option {A} w (o : option A) (a : A) (s : St) Q :
  o = Some a → Q a s → wp (moption w o) s Q.
Proof. by intros ->. Qed.

Lemma wp_mono {A} (m : M St A) s (P Q : A → St → Prop) :
  wp m s P → (∀ a s', P a s' → Q a s') → wp m s Q.
Proof. unfold wp. destruct (m s) as [[a s']| |]; eauto. Qed.

(** Two calls in a row, specified together. *)
Lemma wp_bind2 {A B C} (m1 : M St A) (m2 : M St B) (k : B → M St C) s Q :
  wp (m1;; m2) s (λ b s', wp (k b) s' Q) → wp (m1;; (b ← m2; k b)) s Q.
Proof.
  rewrite !wp_bind. intros H. eapply wp_mono; [exact H|]. intros a s' H'. by apply wp_bind.
Qed.

Lemma wp_run {A} (m : M St A) s Q :
  wp m s Q ↔ ∃ a s', m s = Ret (a, s') ∧ Q a s'.
Proof.
  unfold wp. split.
  - destruct (m s) as [[a s']| |]; [eauto|done..].
  - by intros (a & s' & -> & HQ).
Qed.

Lemma wp_and {A} (m : M St A) s (P Q : A → St → Prop) :
  wp m s P → wp m s Q → wp m s (λ a s', P a s' ∧ Q a s').
Proof. unfold wp. destruct (m s) as [[a s']| |]; auto. Qed.
End wp_rules.

Lemma owp_bind {A B} (o : outcome A) (f : A → outcome B) Q :
  owp (o ≫= f) Q ↔ owp o (λ a, owp (f a) Q).
Proof. by destruct o. Qed.

Lemma owp_ret {A} (a : A) Q : owp (mret a) Q ↔ Q a.
Proof. done. Qed.

Lemma owp_mono {A} (o : outcome A) (P Q : A → Prop) :
  owp o P → (∀ a, P a → Q a) → owp o Q.
Proof. destruct o; simpl; auto. Qed.

Lemma owp_run {A} (o : outcome A) Q : owp o Q ↔ ∃ a, o = Ret a ∧ Q a.
Proof.
  split.
  - destruct o as [a| |]; [eauto|done..].
  - by intros (a & -> & HQ).
Qed.

Create Rewrite HintDb wp.
#[export] Hint Rewrite @wp_ret @wp_bind @wp_get @wp_gets @wp_modify @wp_lift
  @owp_bind @owp_ret : wp.

(** Push [wp] through the program text as far as the rules go. *)
Ltac wp_step := repeat (progress (autorewrite with wp; simpl)).

(** ** Lists *)

(** The last [n] elements. *)
Definition lastn {A} (n : nat) (l : list A) : list A := drop (length l - n) l.

Lemma length_lastn {A} n (l : list A) : length (lastn n l) = Nat.min n (length l).
Proof. unfold lastn. rewrite length_drop. lia. Qed.

Lemma lastn_all {A} n (l : list A) : (length l ≤ n)%nat → lastn n l = l.
Proof. intros. unfold lastn. replace (length l - n)%nat with 0%nat by lia. done. Qed.

Lemma lastn_app_lastn {A} n (l k : list A) :
  lastn n (lastn n l ++ k) = lastn n (l ++ k).
Proof.
  unfold lastn. rewrite !length_app, length_drop.
  destruct (decide (length l ≤ n)%nat) as [Hle|Hgt].
  { replace (length l - n)%nat with 0%nat by lia. simpl. f_equal. lia. }
  rewrite !drop_app, drop_drop, length_drop. f_equal; f_equal; lia.
Qed.

(** Adding one element to a window that is full drops the oldest one. *)
Lemma lastn_snoc_full {A} n (x y : A) (l : list A) :
  length (x :: l) = n → lastn n ((x :: l) ++ [y]) = l ++ [y].
Proof.
  intros <-. unfold lastn. rewrite length_app.
  replace (length (x :: l) + length [y] - length (x :: l))%nat with 1%nat
    by (simpl; lia).
  done.
Qed.

(** Total size of a list of integers. *)
Fixpoint sumZ (l : list Z) : Z :=
  match l with [] => 0 | z :: l => z + sumZ l end.

Lemma sumZ_app l k : sumZ (l ++ k) = sumZ l + sumZ k.
Proof. induction l as [|x l IH]; simpl; lia. Qed.

Lemma sumZ_nonneg l : Forall (λ z, 0 ≤ z) l → 0 ≤ sumZ l.
Proof. induction 1; simpl; lia. Qed.

Lemma sumZ_bound (m : Z) l :
  Forall (λ z, z ≤ m) l → sumZ l ≤ m * Z.of_nat (length l).
Proof. induction 1; cbn [sumZ length]; lia. Qed.

Lemma length_concat_sumZ {A} (l : list (list A)) :
  Z.of_nat (length (concat l)) = sumZ (map (λ k, Z.of_nat (length k)) l).
Proof.
  induction l as [|k l IH]; simpl; [done|].
  rewrite length_app. lia.
Qed.

(** ** Pointers *)

(** A kernel or C heap pointer: [NULL], the poison pointer that [kmalloc(0)]
    returns, or the base of an allocated block.  Interior pointers are a base and
    an offset, kept apart. *)
Inductive ptr : Type :=
  | NULL
  | ZERO_SIZE_PTR
  | Blk (b : positive).

#[export] Instance ptr_eq_decision : EqDecision ptr.
Proof. solve_decision. Defined.

Definition is_null (p : ptr) : bool :=
  match p with NULL => true | _ => false end.
