(* ===== verification/CircularBuffer.v ===== *)
(** * The circular buffer of write commands

    A translation of [aesd-char-driver/aesd-circular-buffer.h] and
    [aesd-char-driver/aesd-circular-buffer.c]: the two structs, the five functions
    and the iteration macro.  The struct is a value; a function that takes
    [struct aesd_circular_buffer *] and writes through it is a computation in
    [M aesd_circular_buffer].  Array accesses outside [0..9] are undefined
    behaviour, the [unsigned int] and [uint8_t] arithmetic wraps. *)

From stdpp Require Import base list option.
From Stdlib Require Import ZArith Lia.
From S2P Require Import Prelude.
#[local] Open Scope Z_scope.

(** ** Data *)

(** [struct aesd_buffer_entry]: [size] is a [size_t]. *)
Record aesd_buffer_entry : Type := mk_entry {
  buffptr : ptr;
  size : Z;
}.

#[export] Instance aesd_buffer_entry_eq_decision : EqDecision aesd_buffer_entry.
Proof. solve_decision. Defined.

(** [struct aesd_circular_buffer]: [in_offs] and [out_offs] are [uint8_t]. *)
Record aesd_circular_buffer : Type := mk_buffer {
  entry : list aesd_buffer_entry;
  in_offs : Z;
  out_offs : Z;
  full : bool;
}.

#[export] Instance aesd_circular_buffer_eq_decision : EqDecision aesd_circular_buffer.
Proof. solve_decision. Defined.

Definition AESDCHAR_MAX_WRITE_OPERATIONS_SUPPORTED : Z := 10.

(** The all-zero entry that [memset] leaves. *)
Definition null_entry : aesd_buffer_entry := mk_entry NULL 0.

(** ** Operations *)

(** [entry[i]] as an lvalue: out of range is undefined. *)
Definition entry_at (b : aesd_circular_buffer) (i : Z) : outcome aesd_buffer_entry :=
  if decide (0 ≤ i) then
    match entry b !! Z.to_nat i with Some e => Ret e | None => UB OutOfBounds end
  else UB OutOfBounds.

(** [entry[i] = f(entry[i])], a store to one or more members of an element. *)
Definition set_entry (i : Z) (f : aesd_buffer_entry → aesd_buffer_entry) :
    M aesd_circular_buffer unit :=
  b ← mget;
  e ← mlift (entry_at b i);
  mmodify (λ b, mk_buffer (<[Z.to_nat i := f e]> (entry b)) (in_offs b) (out_offs b) (full b)).

Definition set_in_offs (z : Z) : M aesd_circular_buffer unit :=
  mmodify (λ b, mk_buffer (entry b) z (out_offs b) (full b)).
Definition set_out_offs (z : Z) : M aesd_circular_buffer unit :=
  mmodify (λ b, mk_buffer (entry b) (in_offs b) z (full b)).
Definition set_full (f : bool) : M aesd_circular_buffer unit :=
  mmodify (λ b, mk_buffer (entry b) (in_offs b) (out_offs b) f).

(** The [while] loop of the search.  [char_offset] is a [size_t]; the two
    accumulators are [unsigned int].  The result is the index of the element whose
    address is returned and the value left in [*entry_offset_byte_rtn]. *)
Fixpoint find_loop (fuel : nat) (buffer : aesd_circular_buffer) (char_offset : Z)
    (entry_size entry_counter total_char_size : Z) : outcome (option Z * Z) :=
  match fuel with
  | O => OutOfFuel
  | S fuel =>
    if entry_counter <? entry_size then
      let prev_char_size := total_char_size in
      let i := entry_counter mod AESDCHAR_MAX_WRITE_OPERATIONS_SUPPORTED in
      e ← entry_at buffer i;
      let total_char_size := u32 (total_char_size + size e) in
      if char_offset <? total_char_size then
        Ret (Some i, u64 (char_offset - prev_char_size))
      else
        find_loop fuel buffer char_offset entry_size (u32 (entry_counter + 1)) total_char_size
    else Ret (None, SIZE_MAX)
  end.

(** [buffer] is [None] when the argument is [NULL]: the initialiser of
    [entry_counter] dereferences it before the test against [NULL]. *)
Definition aesd_circular_buffer_find_entry_offset_for_fpos
    (buffer : option aesd_circular_buffer) (char_offset : Z) : outcome (option Z * Z) :=
  entry_counter ← (match buffer with Some b => Ret (out_offs b) | None => UB NullDeref end);
  match buffer with
  | None => Ret (None, SIZE_MAX)
  | Some b =>
    let entry_size :=
      if full b then AESDCHAR_MAX_WRITE_OPERATIONS_SUPPORTED + in_offs b else in_offs b in
    find_loop (Z.to_nat (entry_size - entry_counter) + 1) b char_offset entry_size entry_counter 0
  end.

Definition aesd_circular_buffer_add_entry (add_entry : aesd_buffer_entry) :
    M aesd_circular_buffer unit :=
  b ← mget;
  set_entry (in_offs b) (λ e, mk_entry (buffptr add_entry) (size e));;
  set_entry (in_offs b) (λ e, mk_entry (buffptr e) (size add_entry));;
  b ← mget;
  (if full b
   then set_out_offs (u8 ((out_offs b + 1) mod AESDCHAR_MAX_WRITE_OPERATIONS_SUPPORTED))
   else mret tt);;
  if AESDCHAR_MAX_WRITE_OPERATIONS_SUPPORTED =? in_offs b + 1 then
    set_full true;; set_in_offs 0
  else
    set_in_offs (u8 (in_offs b + 1)).

Definition aesd_circular_buffer_ref_buff (buffer : aesd_circular_buffer) : outcome ptr :=
  e ← entry_at buffer (in_offs buffer);
  Ret (buffptr e).

Definition aesd_circular_buffer_read_entry (buffer : option aesd_circular_buffer)
    (offset_byte : Z) : outcome (option Z) :=
  '(e, entry_offset_byte) ← aesd_circular_buffer_find_entry_offset_for_fpos buffer offset_byte;
  Ret e.

(** [memset(buffer, 0, sizeof(struct aesd_circular_buffer))]. *)
Definition aesd_circular_buffer_init : M aesd_circular_buffer unit :=
  mmodify (λ _, mk_buffer (replicate (Z.to_nat AESDCHAR_MAX_WRITE_OPERATIONS_SUPPORTED) null_entry)
                          0 0 false).

(** [AESD_CIRCULAR_BUFFER_FOREACH(entryptr, buffer, index) body]: [index] is an 8 bit
    counter; the address [&entry[10]] taken by the last step is one past the end
    and is not read. *)
Fixpoint foreach_loop {St : Type} (fuel : nat) (index : Z) (body : Z → M St unit) : M St unit :=
  match fuel with
  | O => λ _, OutOfFuel
  | S fuel =>
    if index <? AESDCHAR_MAX_WRITE_OPERATIONS_SUPPORTED then
      body index;; foreach_loop fuel (u8 (index + 1)) body
    else mret tt
  end.

Definition AESD_CIRCULAR_BUFFER_FOREACH {St : Type} (body : Z → M St unit) : M St unit :=
  foreach_loop (Z.to_nat AESDCHAR_MAX_WRITE_OPERATIONS_SUPPORTED + 1) 0 body.
