(* ===== verification/CircularBufferSpec.v ===== *)
(** * The circular buffer as a bounded queue of write commands

    The abstract contract of [aesd-circular-buffer.c]: a queue of at most ten
    entries, oldest first.  [contents] is the abstraction function, [wf] the
    invariant of the struct, and the theorems are the refinement of every operation
    (init, add, evict, search) by its abstract counterpart. *)

From stdpp Require Import base list option.
From Stdlib Require Import ZArith Lia.
From S2P Require Import Prelude CircularBuffer.
#[local] Open Scope Z_scope.

(** ** Abstract operations *)

(** The capacity as a list length. *)
Definition capacity : nat := Z.to_nat AESDCHAR_MAX_WRITE_OPERATIONS_SUPPORTED.

(** Adding an entry keeps the ten newest. *)
Definition spec_add {A} (q : list A) (e : A) : list A := lastn capacity (q ++ [e]).

(** The entry that holds character [off] of the concatenation, with the offset of
    that character inside it. *)
Fixpoint spec_find (q : list aesd_buffer_entry) (off : Z) : option (nat * Z) :=
  match q with
  | [] => None
  | e :: q =>
    if off <? size e then Some (0%nat, off)
    else match spec_find q (off - size e) with
         | Some (k, r) => Some (S k, r)
         | None => None
         end
  end.

(** ** Abstraction function and invariant *)

Definition contents (b : aesd_circular_buffer) : list aesd_buffer_entry :=
  let o := Z.to_nat (out_offs b) in
  if full b then drop o (entry b) ++ take o (entry b)
  else take (Z.to_nat (in_offs b)) (entry b).

(** Characters stored in a queue of entries. *)
Definition total_size (q : list aesd_buffer_entry) : Z := sumZ (map size q).

Record wf (b : aesd_circular_buffer) : Prop := {
  wf_length : length (entry b) = capacity;
  wf_in : 0 ≤ in_offs b < AESDCHAR_MAX_WRITE_OPERATIONS_SUPPORTED;
  wf_out : out_offs b = if full b then in_offs b else 0;
  wf_unused : full b = false →
    drop (Z.to_nat (in_offs b)) (entry b) =
    replicate (capacity - Z.to_nat (in_offs b)) null_entry;
}.

(** The struct after adding [e]. *)
Definition added (b : aesd_circular_buffer) (e : aesd_buffer_entry) : aesd_circular_buffer :=
  let last := bool_decide (in_offs b = AESDCHAR_MAX_WRITE_OPERATIONS_SUPPORTED - 1) in
  let i := if last then 0 else in_offs b + 1 in
  mk_buffer (<[Z.to_nat (in_offs b) := e]> (entry b)) i
            (if full b then i else out_offs b) (full b || last).

(** Adding a sequence of entries one by one. *)
Fixpoint add_all (es : list aesd_buffer_entry) : M aesd_circular_buffer unit :=
  match es with
  | [] => mret tt
  | e :: es => aesd_circular_buffer_add_entry e;; add_all es
  end.

(** ** Lemmas on the representation *)

Section representation.
Context (b : aesd_circular_buffer) (Hwf : wf b).

Lemma length_contents :
  length (contents b) = if full b then capacity else Z.to_nat (in_offs b).
Proof.
  destruct Hwf as [Hl Hin Hout _]. unfold contents, capacity in *.
  destruct (full b).
  - rewrite length_app, length_drop, length_take. lia.
  - rewrite length_take. lia.
Qed.

Lemma contents_bound : (length (contents b) ≤ capacity)%nat.
Proof.
  rewrite length_contents. destruct (full b); [done|].
  destruct Hwf as [_ Hin _ _]. unfold capacity in *. lia.
Qed.

(** The bound of the search loop is [out_offs] plus the number of entries. *)
Lemma entry_size_contents :
  (if full b then AESDCHAR_MAX_WRITE_OPERATIONS_SUPPORTED + in_offs b else in_offs b)
  = out_offs b + Z.of_nat (length (contents b)).
Proof.
  destruct Hwf as [Hl Hin Hout _]. rewrite length_contents, Hout. unfold capacity.
  destruct (full b); lia.
Qed.

Lemma entry_at_in (i : nat) e : entry b !! i = Some e → entry_at b (Z.of_nat i) = Ret e.
Proof.
  intros H. unfold entry_at. rewrite decide_True by lia. by rewrite Nat2Z.id, H.
Qed.

(** The [k]-th entry of the queue lives at index [(out_offs + k) % 10]. *)
Lemma contents_lookup k e :
  contents b !! k = Some e →
  entry_at b ((out_offs b + Z.of_nat k) mod AESDCHAR_MAX_WRITE_OPERATIONS_SUPPORTED) = Ret e.
Proof.
  intros Hk. destruct Hwf as [Hl Hin Hout _].
  pose proof (lookup_lt_Some _ _ _ Hk) as Hlt. rewrite length_contents in Hlt.
  unfold contents, capacity, AESDCHAR_MAX_WRITE_OPERATIONS_SUPPORTED in *.
  destruct (full b); rewrite Hout in *.
  - destruct (decide (Z.to_nat (in_offs b) + k < 10)%nat) as [Hs|Hs].
    + rewrite lookup_app_l in Hk by (rewrite length_drop; lia).
      rewrite lookup_drop in Hk. rewrite Z.mod_small by lia.
      rewrite <- (entry_at_in _ _ Hk). f_equal. lia.
    + rewrite lookup_app_r in Hk by (rewrite length_drop; lia).
      rewrite length_drop in Hk. rewrite lookup_take_lt in Hk by lia.
      rewrite <- (entry_at_in _ _ Hk). f_equal.
      rewrite <- (Z.mod_add _ (-1)) by lia. rewrite Z.mod_small by lia. lia.
  - rewrite lookup_take_lt in Hk by lia. rewrite Z.mod_small by lia.
    rewrite <- (entry_at_in _ _ Hk). f_equal.
Qed.
End representation.

(** ** The search *)

Lemma total_size_app q1 q2 : total_size (q1 ++ q2) = total_size q1 + total_size q2.
Proof. unfold total_size. by rewrite map_app, sumZ_app. Qed.

Lemma total_size_snoc q e : total_size (q ++ [e]) = total_size q + size e.
Proof. rewrite total_size_app. unfold total_size. simpl. lia. Qed.

Definition sizes_ok (q : list aesd_buffer_entry) : Prop := Forall (λ e, 0 ≤ size e) q.

Lemma total_size_nonneg q : sizes_ok q → 0 ≤ total_size q.
Proof. intros H. apply sumZ_nonneg, Forall_map. done. Qed.

Section search.
Context (b : aesd_circular_buffer) (Hwf : wf b).
Context (Hsz : sizes_ok (contents b)) (Hsmall : total_size (contents b) < 2 ^ 32).

(** The loop started at the entry after [q1], with everything before it summed up,
    searches the rest [q2] of the queue. *)
Lemma find_loop_spec off q2 : ∀ fuel q1,
  contents b = q1 ++ q2 → total_size q1 ≤ off < 2 ^ 64 → (length q2 < fuel)%nat →
  find_loop fuel b off (out_offs b + Z.of_nat (length (contents b)))
    (out_offs b + Z.of_nat (length q1)) (total_size q1) =
  Ret (match spec_find q2 (off - total_size q1) with
       | Some (k, r) =>
         (Some ((out_offs b + Z.of_nat (length q1 + k))
                mod AESDCHAR_MAX_WRITE_OPERATIONS_SUPPORTED), r)
       | None => (None, SIZE_MAX)
       end).
Proof.
  pose proof (contents_bound b Hwf) as Hcap. pose proof (wf_in b Hwf) as Hin.
  unfold AESDCHAR_MAX_WRITE_OPERATIONS_SUPPORTED in Hin.
  assert (0 ≤ out_offs b < 10) as Hout by (rewrite (wf_out b Hwf); destruct (full b); lia).
  induction q2 as [|e q2 IH]; intros [|fuel] q1 Hq Hoff Hfuel; simpl in Hfuel; try lia.
  { simpl. rewrite Hq, app_nil_r, Z.ltb_irrefl. done. }
  assert (contents b !! length q1 = Some e) as He
    by (rewrite Hq, lookup_app_r, Nat.sub_diag; done).
  pose proof (f_equal length Hq) as Hlen. rewrite length_app in Hlen. simpl in Hlen.
  pose proof Hsz as Hsz'. unfold sizes_ok in Hsz'.
  rewrite Hq, Forall_app, Forall_cons_iff in Hsz'. destruct Hsz' as (Hs1 & Hse & Hs2).
  pose proof Hsmall as Hsmall'. rewrite Hq, total_size_app in Hsmall'.
  change (total_size (e :: q2)) with (size e + total_size q2) in Hsmall'.
  pose proof (total_size_nonneg _ Hs1). pose proof (total_size_nonneg _ Hs2).
  unfold capacity, AESDCHAR_MAX_WRITE_OPERATIONS_SUPPORTED in Hcap. simpl.
  rewrite (proj2 (Z.ltb_lt _ _)) by lia.
  rewrite (contents_lookup b Hwf _ _ He). simpl.
  rewrite (uwrap_small 32 (total_size q1 + size e)) by lia.
  destruct (Z.ltb_spec off (total_size q1 + size e)) as [Hlt|Hge].
  - rewrite (proj2 (Z.ltb_lt _ _)) by lia.
    rewrite uwrap_small by lia. by rewrite Nat.add_0_r.
  - rewrite (proj2 (Z.ltb_ge _ _)) by lia.
    rewrite (uwrap_small 32 (out_offs b + Z.of_nat (length q1) + 1)) by lia.
    specialize (IH fuel (q1 ++ [e])). rewrite total_size_snoc, length_app in IH. simpl in IH.
    replace (out_offs b + Z.of_nat (length q1) + 1)
      with (out_offs b + Z.of_nat (length q1 + 1)) by lia.
    rewrite IH; [|by rewrite <- app_assoc|lia|lia].
    replace (off - (total_size q1 + size e)) with (off - total_size q1 - size e) by lia.
    clear IH. destruct (spec_find q2 (off - total_size q1 - size e)) as [[k r]|]; [|done].
    do 4 f_equal. lia.
Qed.

Lemma find_refines off : 0 ≤ off < 2 ^ 64 →
  aesd_circular_buffer_find_entry_offset_for_fpos (Some b) off =
  Ret (match spec_find (contents b) off with
       | Some (k, r) =>
         (Some ((out_offs b + Z.of_nat k) mod AESDCHAR_MAX_WRITE_OPERATIONS_SUPPORTED), r)
       | None => (None, SIZE_MAX)
       end).
Proof.
  intros Hoff. unfold aesd_circular_buffer_find_entry_offset_for_fpos.
  cbn [mbind outcome_bind]. rewrite (entry_size_contents b Hwf).
  pose proof (find_loop_spec off (contents b)
    (Z.to_nat (out_offs b + Z.of_nat (length (contents b)) - out_offs b) + 1) [] eq_refl) as H.
  unfold total_size in H. simpl in H. rewrite Z.add_0_r, Z.sub_0_r in H. apply H; lia.
Qed.
End search.

Lemma spec_find_lt q off k r :
  sizes_ok q → spec_find q off = Some (k, r) → off < total_size q.
Proof.
  intros H. revert off k r. induction H as [|e q He H IH]; intros off k r; cbn [spec_find]; [done|].
  change (total_size (e :: q)) with (size e + total_size q). pose proof (total_size_nonneg q H).
  destruct (Z.ltb_spec off (size e)); [lia|].
  destruct (spec_find q (off - size e)) as [[k' r']|] eqn:E; [|done].
  specialize (IH _ _ _ E). lia.
Qed.

(** The abstract search finds the right character: in the concatenation of the
    strings the entries hold, position [off] is position [r] of the [k]-th string. *)
Lemma spec_find_concat {A} (q : list aesd_buffer_entry) (ds : list (list A)) off :
  Forall2 (λ e d, size e = Z.of_nat (length d)) q ds → 0 ≤ off →
  match spec_find q off with
  | Some (k, r) => ∃ d, ds !! k = Some d ∧ 0 ≤ r < Z.of_nat (length d) ∧
      concat ds !! Z.to_nat off = d !! Z.to_nat r ∧
      drop (Z.to_nat off) (concat ds) = drop (Z.to_nat r) d ++ concat (drop (S k) ds) ∧
      off = total_size (take k q) + r
  | None => Z.of_nat (length (concat ds)) ≤ off
  end.
Proof.
  intros H. revert off. induction H as [|e d q ds Hed H IH]; intros off Hoff; simpl; [lia|].
  destruct (Z.ltb_spec off (size e)) as [Hlt|Hge].
  { exists d. rewrite lookup_app_l, drop_app_le by lia. rewrite drop_0.
    unfold total_size. simpl. auto with lia. }
  specialize (IH (off - size e) ltac:(lia)).
  destruct (spec_find q (off - size e)) as [[k r]|].
  - destruct IH as (d' & Hd' & Hr & Hl & Hd & Hoff'). exists d'. split; [done|]. split; [done|].
    replace (Z.to_nat (off - size e)) with (Z.to_nat off - length d)%nat in * by lia.
    rewrite lookup_app_r, drop_app_ge by lia. split; [done|]. split; [done|].
    change (total_size (take (S k) (e :: q))) with (size e + total_size (take k q)). lia.
  - rewrite length_app. lia.
Qed.

(** ** Adding *)

Lemma set_entry_eval b f e0 i :
  0 ≤ i → entry b !! Z.to_nat i = Some e0 →
  set_entry i f b =
  Ret (tt, mk_buffer (<[Z.to_nat i := f e0]> (entry b)) (in_offs b) (out_offs b) (full b)).
Proof.
  intros Hi He. unfold set_entry, entry_at, mbind, M_bind, mget, mlift.
  by rewrite decide_True, He by done.
Qed.

Section adding.
Context (b : aesd_circular_buffer) (Hwf : wf b) (e : aesd_buffer_entry).

Lemma add_entry_eval : aesd_circular_buffer_add_entry e b = Ret (tt, added b e).
Proof.
  destruct Hwf as [Hl Hin Hout _].
  unfold capacity, AESDCHAR_MAX_WRITE_OPERATIONS_SUPPORTED in *.
  destruct (lookup_lt_is_Some_2 (entry b) (Z.to_nat (in_offs b))) as [e0 He0]; [lia|].
  unfold aesd_circular_buffer_add_entry.
  erewrite bind_eval by done.
  erewrite bind_eval by (apply set_entry_eval; [lia|done]).
  erewrite bind_eval by
    (apply set_entry_eval; cbn [entry]; [lia|apply list_lookup_insert_eq; lia]).
  erewrite bind_eval by done. cbn [entry in_offs out_offs full buffptr size].
  rewrite list_insert_insert_eq. unfold added.
  unfold AESDCHAR_MAX_WRITE_OPERATIONS_SUPPORTED. destruct e as [p z]. cbn [buffptr size].
  case_bool_decide as Hlast.
  - rewrite (proj2 (Z.eqb_eq _ _)) by lia.
    destruct (full b) eqn:Hf; erewrite bind_eval by done; cbn; rewrite ?Hout, Hlast; done.
  - rewrite (proj2 (Z.eqb_neq _ _)) by lia. rewrite (uwrap_small 8 (in_offs b + 1)) by lia.
    destruct (full b) eqn:Hf; erewrite bind_eval by done; [|done].
    cbn -[uwrap Z.modulo]. rewrite Hout, Z.mod_small, uwrap_small by lia. done.
Qed.

Lemma added_wf : wf (added b e).
Proof.
  destruct Hwf as [Hl Hin Hout Hun]. unfold capacity, added in *.
  unfold AESDCHAR_MAX_WRITE_OPERATIONS_SUPPORTED in *.
  split; cbn [entry in_offs out_offs full].
  - by rewrite length_insert.
  - unfold AESDCHAR_MAX_WRITE_OPERATIONS_SUPPORTED. case_bool_decide; lia.
  - case_bool_decide; destruct (full b); cbn; lia.
  - case_bool_decide; destruct (full b) eqn:Hf; cbn; try done. intros _.
    specialize (Hun eq_refl).
    replace (Z.to_nat (in_offs b + 1)) with (S (Z.to_nat (in_offs b))) by lia.
    rewrite drop_insert_lt by lia.
    rewrite <- Nat.add_1_r, <- drop_drop, Hun, drop_replicate.
    f_equal. unfold capacity, AESDCHAR_MAX_WRITE_OPERATIONS_SUPPORTED; lia.
Qed.

Lemma added_contents : contents (added b e) = spec_add (contents b) e.
Proof.
  pose proof (length_contents b Hwf) as Hlen.
  destruct Hwf as [Hl Hin Hout Hun]. unfold spec_add, capacity, added in *.
  unfold AESDCHAR_MAX_WRITE_OPERATIONS_SUPPORTED in *.
  unfold contents in *. cbn [entry in_offs out_offs full].
  set (i := Z.to_nat (in_offs b)) in *.
  assert (take (S i) (<[i:=e]> (entry b)) = take i (entry b) ++ [e]) as Htake.
  { rewrite (take_S_r _ _ e) by (apply list_lookup_insert_eq; lia).
    by rewrite take_insert_ge by lia. }
  destruct (full b) eqn:Hf; rewrite ?Hout in *; fold i in Hlen |- *; cbn [orb].
  - destruct (drop i (entry b)) as [|x l] eqn:Hd.
    { apply (f_equal length) in Hd. rewrite length_drop in Hd. simpl in Hd. lia. }
    assert (drop (S i) (entry b) = l) as Hd'
      by (rewrite <- Nat.add_1_r, <- drop_drop, Hd; done).
    change ((x :: l) ++ take i (entry b)) with (x :: (l ++ take i (entry b))) in *.
    rewrite lastn_snoc_full by (rewrite Hlen; done). rewrite <- app_assoc, <- Htake.
    case_bool_decide as Hlast.
    + assert (l = []) as -> by (rewrite <- Hd'; apply drop_ge; lia).
      change (Z.to_nat 0) with 0%nat. rewrite drop_0, take_0, app_nil_r. simpl.
      rewrite take_ge; [done|]. rewrite length_insert. lia.
    + replace (Z.to_nat (in_offs b + 1)) with (S i) by lia.
      rewrite drop_insert_lt by lia. by rewrite Hd'.
  - rewrite lastn_all by (rewrite length_app, Hlen; simpl; lia).
    case_bool_decide as Hlast; cbn [orb]; rewrite <- Htake.
    + change (Z.to_nat 0) with 0%nat. rewrite drop_0, take_0, app_nil_r.
      rewrite take_ge; [done|]. rewrite length_insert. lia.
    + f_equal. lia.
Qed.
End adding.

(** ** Initialisation, eviction, iteration *)

(** The struct [aesd_circular_buffer_init] leaves. *)
Definition empty_buffer : aesd_circular_buffer :=
  mk_buffer (replicate capacity null_entry) 0 0 false.

Lemma init_eval b : aesd_circular_buffer_init b = Ret (tt, empty_buffer).
Proof. done. Qed.

Lemma empty_buffer_wf : wf empty_buffer.
Proof. by split. Qed.

Lemma empty_buffer_contents : contents empty_buffer = [].
Proof. done. Qed.

(** The slot written next holds the oldest entry once the buffer is full, and has
    never been written before that. *)
Lemma ref_buff_eval b : wf b →
  aesd_circular_buffer_ref_buff b =
  Ret (if full b then match contents b with e :: _ => buffptr e | [] => NULL end else NULL).
Proof.
  intros Hwf. pose proof (length_contents b Hwf) as Hlen. pose proof Hwf as [Hl Hin Hout Hun].
  unfold aesd_circular_buffer_ref_buff.
  unfold capacity, AESDCHAR_MAX_WRITE_OPERATIONS_SUPPORTED in *.
  destruct (full b) eqn:Hf.
  - destruct (contents b) as [|e q] eqn:Hc; [done|].
    pose proof (contents_lookup b Hwf 0 e) as He. rewrite Hc in He. specialize (He eq_refl).
    unfold AESDCHAR_MAX_WRITE_OPERATIONS_SUPPORTED in He.
    rewrite Hout, Z.mod_small, Z.add_0_r in He by lia. by rewrite He.
  - assert (entry b !! Z.to_nat (in_offs b) = Some null_entry) as He.
    { rewrite <- (Nat.add_0_r (Z.to_nat (in_offs b))), <- lookup_drop, Hun by done.
      apply lookup_replicate_2. lia. }
    apply entry_at_in in He. rewrite Z2Nat.id in He by lia. by rewrite He.
Qed.

(** Loop rule for the iteration macro: an invariant indexed by the counter. *)
Lemma foreach_rule {St} (body : Z → M St unit) (Inv : Z → St → Prop) s :
  Inv 0 s →
  (∀ i s, 0 ≤ i < AESDCHAR_MAX_WRITE_OPERATIONS_SUPPORTED → Inv i s →
     wp (body i) s (λ _, Inv (i + 1))) →
  wp (AESD_CIRCULAR_BUFFER_FOREACH body) s (λ _, Inv AESDCHAR_MAX_WRITE_OPERATIONS_SUPPORTED).
Proof.
  intros H0 Hbody. unfold AESD_CIRCULAR_BUFFER_FOREACH.
  assert (∀ fuel i s, 0 ≤ i ≤ 10 → 10 - i < Z.of_nat fuel → Inv i s →
    wp (foreach_loop fuel i body) s (λ _, Inv AESDCHAR_MAX_WRITE_OPERATIONS_SUPPORTED)) as Hloop.
  { induction fuel as [|fuel IH]; intros i s' Hi Hfuel HI; [lia|]. cbn [foreach_loop].
    unfold AESDCHAR_MAX_WRITE_OPERATIONS_SUPPORTED in *.
    destruct (Z.ltb_spec i 10) as [Hlt|Hge].
    - apply wp_bind. eapply wp_mono; [apply Hbody; [lia|done]|]. intros ? s'' HI'.
      rewrite uwrap_small by lia. apply IH; [lia|lia|done].
    - apply wp_ret. by replace 10 with i by lia. }
  by apply Hloop.
Qed.

Lemma add_all_eval es : ∀ b, wf b →
  ∃ b', add_all es b = Ret (tt, b') ∧ wf b' ∧
        contents b' = lastn capacity (contents b ++ es).
Proof.
  induction es as [|e es IH]; intros b Hwf; cbn [add_all].
  - exists b. rewrite app_nil_r, lastn_all by (by apply contents_bound). done.
  - destruct (IH (added b e) (added_wf b Hwf e)) as (b' & Hb' & Hwf' & Hc).
    exists b'. erewrite bind_eval by (by apply add_entry_eval). split; [done|]. split; [done|].
    rewrite Hc, added_contents by done. unfold spec_add.
    by rewrite lastn_app_lastn, <- app_assoc.
Qed.

(** ** The contract *)

(** C1: initialising any memory and adding any sequence of entries terminates without
    undefined behaviour, re-establishes the struct invariant, and leaves exactly the
    ten newest entries, oldest first. *)
Theorem circular_buffer_keeps_ten_newest (b0 : aesd_circular_buffer)
    (es : list aesd_buffer_entry) :
  ∃ b, (aesd_circular_buffer_init;; add_all es) b0 = Ret (tt, b) ∧ wf b ∧
       contents b = lastn 10 es.
Proof.
  destruct (add_all_eval es empty_buffer empty_buffer_wf) as (b & Hb & Hwf & Hc).
  exists b. erewrite bind_eval by apply init_eval. done.
Qed.

(** C20: the search is exact.  When the entries hold the strings [ds] and these are
    shorter than 4 GiB in total, looking for character [off] terminates and either returns
    the address of the entry that holds character [off] of the concatenation, with
    the position inside it, or [NULL] when the concatenation is not that long. *)
Theorem find_entry_locates_character {A} (b : aesd_circular_buffer) (ds : list (list A)) (off : Z)
    (Hwf : wf b)
    (Hds : Forall2 (λ e d, size e = Z.of_nat (length d)) (contents b) ds)
    (Hlen : Z.of_nat (length (concat ds)) < 2 ^ 32) (Hoff : 0 ≤ off < 2 ^ 64) :
  owp (aesd_circular_buffer_find_entry_offset_for_fpos (Some b) off) (λ '(p, r),
    match p with
    | Some i => ∃ k e d, contents b !! k = Some e ∧ entry_at b i = Ret e ∧
        ds !! k = Some d ∧ 0 ≤ r < size e ∧
        concat ds !! Z.to_nat off = d !! Z.to_nat r ∧
        off = total_size (take k (contents b)) + r
    | None => r = SIZE_MAX ∧ Z.of_nat (length (concat ds)) ≤ off
    end).
Proof.
  assert (total_size (contents b) = Z.of_nat (length (concat ds))) as Htot.
  { rewrite length_concat_sumZ. unfold total_size. clear Hlen. f_equal.
    induction Hds; simpl; [done|]. by f_equal. }
  assert (sizes_ok (contents b)) as Hsz.
  { clear Htot Hlen. unfold sizes_ok. induction Hds; constructor; [lia|done]. }
  rewrite find_refines by (auto with lia). simpl.
  pose proof (spec_find_concat _ _ off Hds ltac:(lia)) as Hs.
  destruct (spec_find (contents b) off) as [[k r]|]; [|by split].
  destruct Hs as (d & Hd & Hr & Hl & _ & Ho).
  destruct (Forall2_lookup_r _ _ _ _ _ Hds Hd) as (e & He & Hed).
  exists k, e, d. split; [done|]. split; [by apply contents_lookup|].
  split; [done|]. split; [lia|done].
Qed.

(** [aesd_circular_buffer_ref_buff] returns exactly the string that the next add
    drops: the oldest entry's when the buffer is full, [NULL] (nothing to free) before. *)
Theorem ref_buff_is_evicted (b : aesd_circular_buffer) (e : aesd_buffer_entry) (Hwf : wf b) :
  ∃ b', aesd_circular_buffer_add_entry e b = Ret (tt, b') ∧ wf b' ∧
    if full b then ∃ old q, contents b = old :: q ∧ contents b' = q ++ [e] ∧
                            aesd_circular_buffer_ref_buff b = Ret (buffptr old)
    else contents b' = contents b ++ [e] ∧ aesd_circular_buffer_ref_buff b = Ret NULL.
Proof.
  exists (added b e). split; [by apply add_entry_eval|]. split; [by apply added_wf|].
  pose proof (length_contents b Hwf) as Hlen. pose proof (wf_in b Hwf) as Hin.
  rewrite added_contents, ref_buff_eval by done. unfold spec_add. destruct (full b).
  - destruct (contents b) as [|old q]; [done|]. exists old, q.
    rewrite lastn_snoc_full by done. done.
  - rewrite lastn_all; [done|]. rewrite length_app, Hlen. simpl.
    unfold capacity, AESDCHAR_MAX_WRITE_OPERATIONS_SUPPORTED in *. lia.
Qed.

(** The bound of 4 GiB in [find_entry_locates_character] is needed: the
    [unsigned int] accumulator wraps, and a character that is stored is not found. *)
Theorem find_entry_misses_past_4GiB :
  ∃ b off, wf b ∧ 0 ≤ off < total_size (contents b) ∧
    aesd_circular_buffer_find_entry_offset_for_fpos (Some b) off = Ret (None, SIZE_MAX).
Proof.
  exists (added (added empty_buffer (mk_entry (Blk 1) (2 ^ 31))) (mk_entry (Blk 2) (2 ^ 31))).
  exists (2 ^ 31). split; [apply added_wf, added_wf, empty_buffer_wf|]. by vm_compute.
Qed.

(** The [NULL] test of the search comes after the first dereference. *)
Lemma find_entry_null_faults off :
  aesd_circular_buffer_find_entry_offset_for_fpos None off = UB NullDeref.
Proof. done. Qed.

(** ** Concrete instances *)

Definition sample_entry (n : positive) : aesd_buffer_entry := mk_entry (Blk n) (Z.pos n).
Definition sample_buffer (n : nat) : aesd_circular_buffer :=
  fold_left added (map (λ k, sample_entry (Pos.of_succ_nat k)) (seq 0 n)) empty_buffer.
Definition sample_strings (n : nat) : list (list nat) :=
  map (λ k, replicate (S k) k) (seq 0 n).

Lemma sample_buffer_wf n : wf (sample_buffer n).
Proof.
  unfold sample_buffer. generalize empty_buffer_wf. generalize empty_buffer.
  induction (map _ _) as [|e l IH]; intros b Hb; simpl; [done|]. by apply IH, added_wf.
Qed.

Lemma find_entry_locates_character_witness :
  owp (aesd_circular_buffer_find_entry_offset_for_fpos (Some (sample_buffer 3)) 4) (λ '(p, r),
    match p with
    | Some i => ∃ k e d, contents (sample_buffer 3) !! k = Some e ∧
        entry_at (sample_buffer 3) i = Ret e ∧
        sample_strings 3 !! k = Some d ∧ 0 ≤ r < size e ∧
        concat (sample_strings 3) !! Z.to_nat 4 = d !! Z.to_nat r ∧
        4 = total_size (take k (contents (sample_buffer 3))) + r
    | None => r = SIZE_MAX ∧ Z.of_nat (length (concat (sample_strings 3))) ≤ 4
    end).
Proof.
  apply (find_entry_locates_character (sample_buffer 3) (sample_strings 3) 4).
  - apply sample_buffer_wf.
  - repeat constructor.
  - reflexivity.
  - lia.
Defined.

Lemma ref_buff_is_evicted_witness :
  ∃ b', aesd_circular_buffer_add_entry (sample_entry 9) (sample_buffer 12) = Ret (tt, b') ∧
    wf b' ∧
    if full (sample_buffer 12) then
      ∃ old q, contents (sample_buffer 12) = old :: q ∧ contents b' = q ++ [sample_entry 9] ∧
               aesd_circular_buffer_ref_buff (sample_buffer 12) = Ret (buffptr old)
    else contents b' = contents (sample_buffer 12) ++ [sample_entry 9] ∧
         aesd_circular_buffer_ref_buff (sample_buffer 12) = Ret NULL.
Proof. apply (ref_buff_is_evicted (sample_buffer 12) (sample_entry 9)), sample_buffer_wf. Defined.
