(* ===== verification/Kernel.v ===== *)
(** * The kernel under the character driver

    The machine state of the module [aesdchar] (allocated memory, the user's memory,
    the kernel log, the module's own globals) and the kernel services that
    [aesd-char-driver/main.c] calls.  The services are code outside the repository:
    what they decide (whether and where [kmalloc] finds memory, how much of a copy
    between kernel and user space succeeds, whether a wait on the mutex is
    interrupted, whether a registration succeeds) is a parameter, the class
    [KernelApi], and what the kernel documents about the answers is [KernelLaws].
    Every theorem about the driver holds for every kernel that satisfies the laws. *)

From stdpp Require Import base list gmap option strings.
From Stdlib Require Import ZArith Lia.
From S2P Require Import Prelude CircularBuffer.

#[local] Open Scope Z_scope.

(** ** State *)

(** A block of kernel memory: raw bytes, or the circular buffer struct. *)
Inductive hval : Type :=
  | HBytes (l : list Byte.byte)
  | HBuf (b : aesd_circular_buffer).

(** [struct mutex]: zeroed memory, initialised and free, or held. *)
Inductive mutex : Type := MutexRaw | MutexFree | MutexHeld.

(** [struct aesd_dev] ([aesdchar.h]); [cdev] is whether the device is live. *)
Record aesd_dev : Type := mk_dev {
  pbuffer : ptr;
  lock : mutex;
  buff_size : Z;
  cdev : bool;
}.

(** The lines [printk] and [PDEBUG] write. *)
Inductive kmsg : Type :=
  | KOpen | KRelease
  | KRead (count f_pos : Z)
  | KWrite (count f_pos : Z)
  | KBuffer (prefix : string) (text : list Byte.byte) (size : Z)
  | KShow | KElem (i : Z) | KElemEmpty (i : Z)
  | KNotFound
  | KLastChar (c : Byte.byte)
  | KCdevError (err : Z)
  | KNoMajor (major : Z).

(** The kernel as the module sees it.  [tick] counts the calls into the kernel: it
    lets a parameter answer differently each time.  [full_user_entry] is the [static]
    of [aesd_write]. *)
Record kstate : Type := mk_kstate {
  heap : gmap positive hval;
  umem : gmap Z Byte.byte;
  klog : list kmsg;
  tick : nat;
  dev : aesd_dev;
  full_user_entry : aesd_buffer_entry;
  aesd_major : Z;
  region : bool;
}.

Definition set_heap (f : gmap positive hval → gmap positive hval) : M kstate unit :=
  mmodify (λ s, mk_kstate (f (heap s)) (umem s) (klog s) (tick s) (dev s)
                          (full_user_entry s) (aesd_major s) (region s)).
Definition set_umem (m : gmap Z Byte.byte) : M kstate unit :=
  mmodify (λ s, mk_kstate (heap s) m (klog s) (tick s) (dev s)
                          (full_user_entry s) (aesd_major s) (region s)).
Definition printk (m : kmsg) : M kstate unit :=
  mmodify (λ s, mk_kstate (heap s) (umem s) (klog s ++ [m]) (tick s) (dev s)
                          (full_user_entry s) (aesd_major s) (region s)).
(** A call into the kernel: the number of the call, which is consumed. *)
Definition next_tick : M kstate nat :=
  λ s, Ret (tick s, mk_kstate (heap s) (umem s) (klog s) (S (tick s)) (dev s)
                          (full_user_entry s) (aesd_major s) (region s)).
Definition set_dev (f : aesd_dev → aesd_dev) : M kstate unit :=
  mmodify (λ s, mk_kstate (heap s) (umem s) (klog s) (tick s) (f (dev s))
                          (full_user_entry s) (aesd_major s) (region s)).
Definition set_full_user_entry (e : aesd_buffer_entry) : M kstate unit :=
  mmodify (λ s, mk_kstate (heap s) (umem s) (klog s) (tick s) (dev s)
                          e (aesd_major s) (region s)).
Definition set_aesd_major (z : Z) : M kstate unit :=
  mmodify (λ s, mk_kstate (heap s) (umem s) (klog s) (tick s) (dev s)
                          (full_user_entry s) z (region s)).
Definition set_region (r : bool) : M kstate unit :=
  mmodify (λ s, mk_kstate (heap s) (umem s) (klog s) (tick s) (dev s)
                          (full_user_entry s) (aesd_major s) r).

(** ** The kernel's decisions *)

(** Bytes of user memory from [a], when all of them are mapped. *)
Fixpoint umem_read (m : gmap Z Byte.byte) (a : Z) (n : nat) : option (list Byte.byte) :=
  match n with
  | O => Some []
  | S n => b ← m !! a; l ← umem_read m (a + 1) n; Some (b :: l)
  end.

Fixpoint umem_write (m : gmap Z Byte.byte) (a : Z) (l : list Byte.byte) : gmap Z Byte.byte :=
  match l with
  | [] => m
  | b :: l => <[a := b]> (umem_write m (a + 1) l)
  end.

Class KernelApi : Type := {
  (** the largest request [kmalloc] serves *)
  KMALLOC_MAX_SIZE : Z;
  (** the block [kmalloc] finds and what it holds, or none *)
  kmalloc_result : nat → gmap positive hval → Z → option (positive * list Byte.byte);
  (** user memory after the copy, and the number of bytes not copied *)
  copy_to_user_result : nat → gmap Z Byte.byte → Z → list Byte.byte → gmap Z Byte.byte * Z;
  (** the bytes the kernel buffer receives, and the number of bytes not copied *)
  copy_from_user_result : nat → gmap Z Byte.byte → Z → Z → list Byte.byte * Z;
  (** whether a signal interrupts the wait *)
  mutex_lock_interrupted : nat → bool;
  (** the result and the major number *)
  alloc_chrdev_region_result : nat → Z * Z;
  cdev_add_result : nat → Z;
}.

(** What the kernel documents: [kmalloc] returns a free block of the size asked
    (at most 32 MiB on every architecture), [copy_to_user] and [copy_from_user] return
    the number of bytes that could not be copied, copy the ones before, and
    [copy_from_user] pads the rest of the destination. *)
Class KernelLaws (K : KernelApi) : Prop := {
  kmalloc_max : KMALLOC_MAX_SIZE ≤ 2 ^ 25;
  kmalloc_fresh : ∀ t h n l d, kmalloc_result t h n = Some (l, d) →
    h !! l = None ∧ Z.of_nat (length d) = n ∧ n ≤ KMALLOC_MAX_SIZE;
  copy_to_user_spec : ∀ t m a l m' r, copy_to_user_result t m a l = (m', r) →
    0 ≤ r ≤ Z.of_nat (length l) ∧
    m' = umem_write m a (take (length l - Z.to_nat r) l);
  copy_from_user_spec : ∀ t m a n l r, 0 ≤ n → copy_from_user_result t m a n = (l, r) →
    0 ≤ r ≤ n ∧ Z.of_nat (length l) = n ∧
    umem_read m a (Z.to_nat (n - r)) = Some (take (Z.to_nat (n - r)) l);
}.

(** ** Memory *)

Definition load_bytes (p : ptr) (off n : Z) : M kstate (list Byte.byte) :=
  h ← mgets heap;
  match p with
  | Blk l =>
    match h !! l with
    | Some (HBytes d) =>
      if decide (0 ≤ off ∧ 0 ≤ n ∧ off + n ≤ Z.of_nat (length d))
      then mret (take (Z.to_nat n) (drop (Z.to_nat off) d))
      else mub OutOfBounds
    | Some (HBuf _) => mub WrongObject
    | None => mub Dangling
    end
  | _ => mub NullDeref
  end.

Definition store_bytes (p : ptr) (off : Z) (new : list Byte.byte) : M kstate unit :=
  h ← mgets heap;
  match p with
  | Blk l =>
    match h !! l with
    | Some (HBytes d) =>
      if decide (0 ≤ off ∧ off + Z.of_nat (length new) ≤ Z.of_nat (length d))
      then set_heap <[l := HBytes (take (Z.to_nat off) d ++ new ++
                                   drop (Z.to_nat off + length new) d)]>
      else mub OutOfBounds
    | Some (HBuf _) => mub WrongObject
    | None => mub Dangling
    end
  | _ => mub NullDeref
  end.

(** [p[off]]. *)
Definition load_byte (p : ptr) (off : Z) : M kstate Byte.byte :=
  l ← load_bytes p off 1;
  match l with c :: _ => mret c | [] => mub OutOfBounds end.

(** [memcpy(dst + doff, src + soff, n)]; nothing is accessed when [n] is 0. *)
Definition memcpy (dst : ptr) (doff : Z) (src : ptr) (soff n : Z) : M kstate unit :=
  if n =? 0 then mret tt
  else l ← load_bytes src soff n; store_bytes dst doff l.

(** [p->...] for [struct aesd_circular_buffer *p]. *)
Definition load_buffer (p : ptr) : M kstate aesd_circular_buffer :=
  h ← mgets heap;
  match p with
  | Blk l =>
    match h !! l with
    | Some (HBuf b) => mret b
    | Some (HBytes _) => mub WrongObject
    | None => mub Dangling
    end
  | _ => mub NullDeref
  end.

(** A call [f(p, ...)] that updates the struct [p] points to. *)
Definition on_buffer {A} (p : ptr) (m : M aesd_circular_buffer A) : M kstate A :=
  b ← load_buffer p;
  '(a, b') ← mlift (m b);
  match p with
  | Blk l => set_heap <[l := HBuf b']>;; mret a
  | _ => mub NullDeref
  end.

Definition kfree (p : ptr) : M kstate unit :=
  match p with
  | Blk l =>
    h ← mgets heap;
    match h !! l with
    | Some _ => set_heap (delete l)
    | None => mub BadFree
    end
  | _ => mret tt
  end.

(** ** Services *)

Definition EINTR : Z := 4.
Definition EFAULT : Z := 14.
Definition EINVAL : Z := 22.
Definition ENOMEM : Z := 12.
Definition ERESTARTSYS : Z := 512.

Section services.
Context `{K : KernelApi}.

Definition kmalloc (n : Z) : M kstate ptr :=
  t ← next_tick;
  h ← mgets heap;
  if n =? 0 then mret ZERO_SIZE_PTR
  else match kmalloc_result t h n with
       | Some (l, d) => set_heap <[l := HBytes d]>;; mret (Blk l)
       | None => mret NULL
       end.

Definition copy_to_user (to : Z) (from : ptr) (n : Z) : M kstate Z :=
  l ← load_bytes from 0 n;
  t ← next_tick;
  m ← mgets umem;
  let '(m', r) := copy_to_user_result t m to l in
  set_umem m';;
  mret r.

Definition copy_from_user (to : ptr) (off : Z) (from n : Z) : M kstate Z :=
  t ← next_tick;
  m ← mgets umem;
  let '(l, r) := copy_from_user_result t m from n in
  (if n =? 0 then mret tt else store_bytes to off l);;
  mret r.

Definition mutex_lock_interruptible : M kstate Z :=
  t ← next_tick;
  if mutex_lock_interrupted t then mret (- EINTR)
  else
    d ← mgets dev;
    match lock d with
    | MutexFree => set_dev (λ d, mk_dev (pbuffer d) MutexHeld (buff_size d) (cdev d));; mret 0
    | _ => mub LockMisuse
    end.

Definition mutex_unlock : M kstate unit :=
  d ← mgets dev;
  match lock d with
  | MutexHeld => set_dev (λ d, mk_dev (pbuffer d) MutexFree (buff_size d) (cdev d))
  | _ => mub LockMisuse
  end.
End services.

(** ** A concrete kernel

    An instance of the kernel interface that runs: [kmalloc] takes the lowest unused
    block number unless the caller's schedule says that memory is exhausted, copies
    go as far as the user's memory is mapped, waits are interrupted by schedule.  It
    shows that the laws of [Kernel] can hold together and runs the driver on
    concrete inputs. *)

(** The mapped bytes from [a], at most [n]. *)
Fixpoint mapped_prefix (m : gmap Z Byte.byte) (a : Z) (n : nat) : list Byte.byte :=
  match n with
  | O => []
  | S n => match m !! a with Some b => b :: mapped_prefix m (a + 1) n | None => [] end
  end.

Definition demo_kmalloc (h : gmap positive hval) (n : Z) : option (positive * list Byte.byte) :=
  if decide (0 < n ≤ 2 ^ 22) then Some (fresh (dom h), replicate (Z.to_nat n) Byte.xff)
  else None.

(** [oom] and [intr] schedule failures by call number. *)
Definition demo_kernel (oom intr : nat → bool) (cdev_err : Z) : KernelApi := {|
  KMALLOC_MAX_SIZE := 2 ^ 22;
  kmalloc_result t h n := if oom t then None else demo_kmalloc h n;
  copy_to_user_result t m a l :=
    let k := length (mapped_prefix m a (length l)) in
    (umem_write m a (take k l), Z.of_nat (length l - k));
  copy_from_user_result t m a n :=
    let l := mapped_prefix m a (Z.to_nat n) in
    let r := (Z.to_nat n - length l)%nat in (l ++ replicate r NUL, Z.of_nat r);
  mutex_lock_interrupted := intr;
  alloc_chrdev_region_result t := (0, 240);
  cdev_add_result t := cdev_err;
|}.

Definition never (n : nat) : bool := false.

Lemma length_mapped_prefix m a n : (length (mapped_prefix m a n) ≤ n)%nat.
Proof.
  revert a. induction n as [|n IH]; intros a; simpl; [lia|].
  destruct (m !! a); simpl; [|lia]. specialize (IH (a + 1)). lia.
Qed.

Lemma mapped_prefix_read m a n :
  umem_read m a (length (mapped_prefix m a n)) = Some (mapped_prefix m a n).
Proof.
  revert a. induction n as [|n IH]; intros a; simpl; [done|].
  destruct (m !! a) as [b|] eqn:E; simpl; [|done]. by rewrite E, IH.
Qed.

#[export] Instance demo_laws oom intr cdev_err : KernelLaws (demo_kernel oom intr cdev_err).
Proof.
  split; cbn -[Z.pow].
  - lia.
  - intros t h n l d. unfold demo_kmalloc. destruct (oom t); [done|].
    case_decide as Hn; [|done]. intros [= <- <-].
    rewrite length_replicate. split; [|split; lia].
    apply not_elem_of_dom, is_fresh.
  - intros t m a l m' r [= <- <-]. pose proof (length_mapped_prefix m a (length l)).
    split; [lia|]. f_equal. f_equal. lia.
  - intros t m a n l r Hn [= <- <-]. pose proof (length_mapped_prefix m a (Z.to_nat n)) as Hlen.
    rewrite length_app, length_replicate.
    replace (Z.to_nat (n - _)) with (length (mapped_prefix m a (Z.to_nat n))) by lia.
    rewrite mapped_prefix_read, take_app_length. split; [lia|]. split; [lia|done].
Qed.
