(* ===== verification/CharDriver.v ===== *)
(** * The character driver

    A translation of [aesd-char-driver/main.c]: the file operations [open], [release],
    [read], [write] and [llseek] of [aesd_fops], the debug printers, and the module's
    entry and exit points.  Every handler is a computation over the kernel state of
    [Kernel]; the position [*f_pos] the VFS passes in is an argument and a result. *)

From stdpp Require Import base list gmap option strings.
From Stdlib Require Import ZArith Lia.
From S2P Require Import Prelude CircularBuffer Kernel.
#[local] Open Scope Z_scope.

(** [filp->private_data]: unset, or the device that [aesd_open] stores. *)
Inductive devptr : Type := NoDev | AesdDevice.

(** The members of [struct file] the driver uses. *)
Record file : Type := mk_file {
  private_data : devptr;
  f_pos : Z;
}.

(** [sizeof(struct aesd_circular_buffer)] on a 64 bit machine: ten entries of a pointer
    and a [size_t], three bytes, padding. *)
Definition sizeof_circular_buffer : Z := 168.

(** The text [%s] prints of a buffer: up to the first ['\0']. *)
Fixpoint c_string (l : list Byte.byte) : list Byte.byte :=
  match l with
  | [] => []
  | c :: l => if decide (c = NUL) then [] else c :: c_string l
  end.

(** [dev->...] through [filp->private_data]. *)
Definition deref_dev (p : devptr) : M kstate aesd_dev :=
  match p with NoDev => mub NullDeref | AesdDevice => mgets dev end.

(** A [struct aesd_circular_buffer *] argument: the callee sees [NULL] or the struct. *)
Definition buffer_arg (p : ptr) : M kstate (option aesd_circular_buffer) :=
  match p with NULL => mret None | _ => b ← load_buffer p; mret (Some b) end.

Section driver.
Context `{K : KernelApi}.

(** ** Debug output *)

Definition aesd_buffer_print (prefix : string) (buff : ptr) (off size : Z) : M kstate unit :=
  tmp ← kmalloc (u64 (size + 1));
  if is_null tmp then mret tt
  else
    memcpy tmp 0 buff off size;;
    store_bytes tmp size [NUL];;
    text ← load_bytes tmp 0 (size + 1);
    printk (KBuffer prefix (c_string text) size);;
    kfree tmp.

(** The [for] loop of [aesd_show_circular_buffer]. *)
Fixpoint show_loop (fuel : nat) (buffer : ptr) (i buffer_iterator : Z) : M kstate unit :=
  match fuel with
  | O => λ _, OutOfFuel
  | S fuel =>
    if i <? AESDCHAR_MAX_WRITE_OPERATIONS_SUPPORTED then
      b ← load_buffer buffer;
      e ← mlift (entry_at b buffer_iterator);
      (if is_null (buffptr e) then printk (KElemEmpty i)
       else printk (KElem i);; aesd_buffer_print "" (buffptr e) 0 (size e));;
      show_loop fuel buffer (i + 1)
        ((buffer_iterator + 1) mod AESDCHAR_MAX_WRITE_OPERATIONS_SUPPORTED)
    else mret tt
  end.

Definition aesd_show_circular_buffer (buffer : ptr) : M kstate unit :=
  b ← load_buffer buffer;
  printk KShow;;
  show_loop (Z.to_nat AESDCHAR_MAX_WRITE_OPERATIONS_SUPPORTED + 1) buffer 0 (out_offs b).

(** ** File operations *)

Definition aesd_open (filp : file) : M kstate (Z * file) :=
  printk KOpen;;
  mret (0, mk_file AesdDevice (f_pos filp)).

Definition aesd_release (filp : file) : M kstate Z :=
  printk KRelease;;
  dev ← deref_dev (private_data filp);
  aesd_show_circular_buffer (pbuffer dev);;
  mret 0.

(** The part of [aesd_read] for an entry that was found: the new return value and
    position. *)
Definition aesd_read_entry (entry : aesd_buffer_entry) (entry_offset : Z)
    (buff count f_pos : Z) : M kstate (Z * Z) :=
  let read_offset_buffer_size := u64 (size entry - entry_offset) in
  read_offset_buffer ← kmalloc read_offset_buffer_size;
  if is_null read_offset_buffer then mret (- EFAULT, f_pos)
  else
    memcpy read_offset_buffer 0 (buffptr entry) entry_offset read_offset_buffer_size;;
    aesd_buffer_print "Offset found in buffer" (buffptr entry) 0 (size entry);;
    aesd_buffer_print "String to be returned to the user"
      read_offset_buffer 0 read_offset_buffer_size;;
    r ← copy_to_user buff read_offset_buffer read_offset_buffer_size;
    if negb (r =? 0) then mret (- EFAULT, f_pos)
    else
      mret (i64 (if read_offset_buffer_size <? count then read_offset_buffer_size else count),
            i64 (f_pos + read_offset_buffer_size)).

Definition aesd_read (filp : file) (buff count f_pos : Z) : M kstate (Z * Z) :=
  printk (KRead count f_pos);;
  deref_dev (private_data filp);;
  r ← mutex_lock_interruptible;
  if negb (r =? 0) then mret (- ERESTARTSYS, f_pos)
  else
    dev ← deref_dev (private_data filp);
    b ← buffer_arg (pbuffer dev);
    '(entry, entry_offset) ←
      mlift (aesd_circular_buffer_find_entry_offset_for_fpos b (u64 f_pos));
    res ← (match entry, b with
           | Some i, Some b =>
             entry ← mlift (entry_at b i);
             aesd_read_entry entry entry_offset buff count f_pos
           | _, _ => printk KNotFound;; mret (0, f_pos)
           end);
    mutex_unlock;;
    mret res.

(** The part of [aesd_write] after [full_user_entry] was extended: a command that ends
    in a newline goes to the circular buffer. *)
Definition aesd_write_commit : M kstate unit :=
  fe ← mgets full_user_entry;
  c ← load_byte (buffptr fe) (size fe - 1);
  if decide (c = LF) then
    d ← mgets dev;
    b ← load_buffer (pbuffer d);
    (if full b then p ← mlift (aesd_circular_buffer_ref_buff b); kfree p else mret tt);;
    aesd_buffer_print "Completed write command" (buffptr fe) 0 (size fe);;
    on_buffer (pbuffer d) (aesd_circular_buffer_add_entry fe);;
    set_dev (λ d, mk_dev (pbuffer d) (lock d) (i64 (buff_size d + size fe)) (cdev d));;
    set_full_user_entry (mk_entry NULL 0)
  else mret tt.

Definition aesd_write (filp : file) (buff count f_pos : Z) : M kstate (Z * Z) :=
  printk (KWrite count f_pos);;
  deref_dev (private_data filp);;
  r ← mutex_lock_interruptible;
  if negb (r =? 0) then mret (- ERESTARTSYS, f_pos)
  else
    fe ← mgets full_user_entry;
    tmp_user_buffer ← kmalloc (u64 (count + size fe));
    res ←
      (if is_null tmp_user_buffer then mret (- ENOMEM, f_pos)
       else
         memcpy tmp_user_buffer 0 (buffptr fe) 0 (size fe);;
         r ← copy_from_user tmp_user_buffer (size fe) buff count;
         if negb (r =? 0) then
           kfree tmp_user_buffer;;
           mret (- EFAULT, f_pos)
         else
           aesd_buffer_print "\nReceived from the user" tmp_user_buffer (size fe) count;;
           c ← load_byte tmp_user_buffer (size fe + count - 1);
           printk (KLastChar c);;
           kfree (buffptr fe);;
           set_full_user_entry (mk_entry tmp_user_buffer (u64 (size fe + count)));;
           aesd_write_commit;;
           mret (i64 count, i64 (f_pos + count)));
    mutex_unlock;;
    mret res.

(** [pfile->f_pos] is updated in the file itself. *)
Definition aesd_lseek (pfile : file) (off whence : Z) : M kstate (Z * file) :=
  new_fpos ←
    (if whence =? 0 then mret (Some off)
     else if whence =? 1 then mret (Some (i64 (f_pos pfile + off)))
     else if whence =? 2 then d ← deref_dev (private_data pfile); mret (Some (buff_size d))
     else mret None);
  match new_fpos with
  | None => mret (- EINVAL, pfile)
  | Some new_fpos =>
    if new_fpos <? 0 then mret (- EINVAL, pfile)
    else mret (new_fpos, mk_file (private_data pfile) new_fpos)
  end.

(** ** Module entry and exit *)

Definition aesd_setup_cdev : M kstate Z :=
  t ← next_tick;
  let err := cdev_add_result t in
  if negb (err =? 0) then printk (KCdevError err);; mret err
  else set_dev (λ d, mk_dev (pbuffer d) (lock d) (buff_size d) true);; mret err.

(** [aesd_circular_buffer_init(p)] on memory just allocated: the [memset] turns the
    raw block into the zeroed struct. *)
Definition init_buffer_at (p : ptr) : M kstate unit :=
  h ← mgets heap;
  match p with
  | Blk l =>
    match h !! l with
    | Some (HBytes d) =>
      if decide (sizeof_circular_buffer ≤ Z.of_nat (length d)) then
        '(_, b) ← mlift (aesd_circular_buffer_init (mk_buffer [] 0 0 false));
        set_heap <[l := HBuf b]>
      else mub OutOfBounds
    | Some (HBuf b) =>
      '(_, b) ← mlift (aesd_circular_buffer_init b);
      set_heap <[l := HBuf b]>
    | None => mub Dangling
    end
  | _ => mub NullDeref
  end.

Definition unregister_chrdev_region : M kstate unit := set_region false.

Definition aesd_init_module : M kstate Z :=
  t ← next_tick;
  let '(result, major) := alloc_chrdev_region_result t in
  set_aesd_major (if result <? 0 then 0 else major);;
  if result <? 0 then printk (KNoMajor 0);; mret result
  else
    set_region true;;
    set_dev (λ _, mk_dev NULL MutexRaw 0 false);;
    p ← kmalloc (1 * sizeof_circular_buffer);
    set_dev (λ d, mk_dev p (lock d) (buff_size d) (cdev d));;
    if is_null p then unregister_chrdev_region;; mret (- ENOMEM)
    else
      init_buffer_at p;;
      set_dev (λ d, mk_dev (pbuffer d) MutexFree (buff_size d) (cdev d));;
      result ← aesd_setup_cdev;
      if negb (result =? 0) then unregister_chrdev_region;; mret result
      else mret 0.

Definition aesd_cleanup_module : M kstate unit :=
  set_dev (λ d, mk_dev (pbuffer d) (lock d) (buff_size d) false);;
  d ← mgets dev;
  AESD_CIRCULAR_BUFFER_FOREACH (λ i,
    b ← load_buffer (pbuffer d);
    e ← mlift (entry_at b i);
    if is_null (buffptr e) then mret tt else kfree (buffptr e));;
  kfree (pbuffer d);;
  unregister_chrdev_region.
End driver.
