(* ===== verification/KernelRules.v ===== *)
(** * Rules for the kernel services

    One rule per service of [Kernel], in weakest-precondition form: what has to hold
    of the state for the call to be defined, and everything the continuation may
    rely on.  States are related by [frame]: all components but the heap, the log
    and the call counter are the same. *)

From stdpp Require Import base list gmap option fin_maps strings.
From Stdlib Require Import ZArith Lia.
From S2P Require Import Prelude CircularBuffer Kernel CharDriver.

#[local] Open Scope Z_scope.

(** ** Ownership of heap blocks

    The part of separation logic the driver's proofs need: [owns h o G] says that the
    heap [h] consists of the blocks of [o], all different, and of the rest [G].  The
    rest is exact, so that a theorem that keeps [G] also says that nothing was leaked
    and nothing foreign was touched. *)

Section ownership.
Context {V : Type}.
Implicit Types (h G : gmap positive V) (o : list (positive * V)).

Record owns (h : gmap positive V) (o : list (positive * V)) (G : gmap positive V) : Prop := {
  owns_eq : h = list_to_map o ∪ G;
  owns_nodup : NoDup o.*1;
  owns_disjoint : ∀ l, l ∈ o.*1 → G !! l = None;
}.

Lemma owns_lookup h o G l v : owns h o G → (l, v) ∈ o → h !! l = Some v.
Proof.
  intros [-> Hnd _] Hin. apply lookup_union_Some_l.
  by apply elem_of_list_to_map_1.
Qed.

Lemma owns_fresh h o G l : owns h o G → h !! l = None → l ∉ o.*1.
Proof.
  intros Ho Hl Hin. apply list_elem_of_fmap in Hin as ([k v] & -> & Hin).
  apply (owns_lookup _ _ _ _ _ Ho) in Hin. naive_solver.
Qed.

Lemma owns_perm h o o' G : Permutation o o' → owns h o G → owns h o' G.
Proof.
  intros Hp [-> Hnd Hd]. split.
  - f_equal. by apply list_to_map_proper.
  - by rewrite <- Hp.
  - intros l. rewrite <- Hp. apply Hd.
Qed.

(** The order of the blocks does not matter: ownership can be rewritten along
    permutations. *)
#[export] Instance owns_proper h : Proper ((≡ₚ) ==> (=) ==> iff) (owns h).
Proof.
  intros o o' Hp G G' <-. split; apply owns_perm; [done|by symmetry].
Qed.

Lemma owns_alloc h o G l v :
  owns h o G → h !! l = None → owns (<[l := v]> h) ((l, v) :: o) G.
Proof.
  intros Ho Hl. pose proof (owns_fresh _ _ _ _ Ho Hl) as Hnew.
  destruct Ho as [-> Hnd Hd]. split.
  - simpl. by rewrite insert_union_l.
  - by constructor.
  - intros k. simpl. rewrite elem_of_cons. intros [->|Hk]; [|by apply Hd].
    by apply lookup_union_None in Hl as [_ Hl].
Qed.

Lemma owns_update h o G l v v' :
  owns h ((l, v) :: o) G → owns (<[l := v']> h) ((l, v') :: o) G.
Proof.
  intros [-> Hnd Hd]. split; [|done|done].
  simpl. by rewrite insert_union_l, insert_insert_eq.
Qed.

Lemma owns_free h o G l v : owns h ((l, v) :: o) G → owns (delete l h) o G.
Proof.
  intros [-> Hnd Hd]. inversion Hnd as [|? ? Hl Hnd']; subst. split.
  - simpl. rewrite delete_union, delete_insert_id by (by apply not_elem_of_list_to_map_1).
    f_equal. apply delete_id, Hd. simpl. by left.
  - done.
  - intros k Hk. apply Hd. simpl. by right.
Qed.

(** Giving up a block: it joins the rest. *)
Lemma owns_leak h o G l v : owns h ((l, v) :: o) G → owns h o (<[l := v]> G).
Proof.
  intros [-> Hnd Hd]. inversion Hnd as [|? ? Hl Hnd']; subst. split.
  - simpl. rewrite <- insert_union_l, insert_union_r; [done|].
    by apply not_elem_of_list_to_map_1.
  - done.
  - intros k Hk. rewrite lookup_insert_ne by (intros ->; done). apply Hd. simpl. by right.
Qed.

Lemma owns_leak_fresh h o G l v : owns h ((l, v) :: o) G → G !! l = None.
Proof. intros [_ _ Hd]. apply Hd. simpl. by left. Qed.
End ownership.

Create HintDb owns.
#[export] Hint Resolve owns_alloc owns_update owns_free owns_leak : owns.

Record frame (s s' : kstate) : Prop := mk_frame {
  frame_umem : umem s' = umem s;
  frame_dev : dev s' = dev s;
  frame_entry : full_user_entry s' = full_user_entry s;
  frame_major : aesd_major s' = aesd_major s;
  frame_region : region s' = region s;
}.

#[export] Instance frame_preorder : PreOrder frame.
Proof.
  split; [by intros s; split|].
  intros s1 s2 s3 [] []. split; congruence.
Qed.

(** The same memory, too: only the log and the call counter moved. *)
Definition quiet (s s' : kstate) : Prop := frame s s' ∧ heap s' = heap s.

#[export] Instance quiet_preorder : PreOrder quiet.
Proof.
  split; [by intros s; split|].
  intros s1 s2 s3 [F1 H1] [F2 H2]. split; [by transitivity s2|congruence].
Qed.

(** ** Memory *)

Section memory.
Implicit Types (s : kstate) (l : positive).

Lemma wp_load_bytes l d off n s Q :
  heap s !! l = Some (HBytes d) → 0 ≤ off → 0 ≤ n → off + n ≤ Z.of_nat (length d) →
  Q (take (Z.to_nat n) (drop (Z.to_nat off) d)) s → wp (load_bytes (Blk l) off n) s Q.
Proof.
  intros Hl ? ? ? HQ. unfold load_bytes. rewrite wp_bind, wp_gets, Hl.
  by rewrite decide_True by lia.
Qed.

Lemma wp_load_byte l d off c s Q :
  heap s !! l = Some (HBytes d) → 0 ≤ off → d !! Z.to_nat off = Some c →
  Q c s → wp (load_byte (Blk l) off) s Q.
Proof.
  intros Hl Hoff Hc HQ. unfold load_byte. apply wp_bind.
  pose proof (lookup_lt_Some _ _ _ Hc).
  eapply wp_load_bytes; [done|lia..|].
  change (Z.to_nat 1) with 1%nat. rewrite (drop_S _ _ _ Hc). simpl. done.
Qed.

Lemma wp_store_bytes l d off new s Q :
  heap s !! l = Some (HBytes d) → 0 ≤ off →
  off + Z.of_nat (length new) ≤ Z.of_nat (length d) →
  (∀ s', frame s s' → tick s' = tick s →
     heap s' = <[l := HBytes (take (Z.to_nat off) d ++ new ++
                              drop (Z.to_nat off + length new) d)]> (heap s) →
     Q tt s') →
  wp (store_bytes (Blk l) off new) s Q.
Proof.
  intros Hl ? ? HQ. unfold store_bytes. rewrite wp_bind, wp_gets, Hl.
  rewrite decide_True by lia. unfold set_heap. rewrite wp_modify. by apply HQ.
Qed.

Lemma wp_load_buffer l b s Q :
  heap s !! l = Some (HBuf b) → Q b s → wp (load_buffer (Blk l)) s Q.
Proof. intros Hl HQ. unfold load_buffer. by rewrite wp_bind, wp_gets, Hl. Qed.

Lemma wp_on_buffer {A} l b (m : M aesd_circular_buffer A) a b' s Q :
  heap s !! l = Some (HBuf b) → m b = Ret (a, b') →
  (∀ s', frame s s' → tick s' = tick s → heap s' = <[l := HBuf b']> (heap s) → Q a s') →
  wp (on_buffer (Blk l) m) s Q.
Proof.
  intros Hl Hm HQ. unfold on_buffer. apply wp_bind. eapply wp_load_buffer; [done|].
  rewrite wp_bind, wp_lift, Hm. cbn [owp]. rewrite wp_bind. unfold set_heap.
  rewrite wp_modify, wp_ret. by apply HQ.
Qed.

Lemma wp_kfree l v s Q :
  heap s !! l = Some v →
  (∀ s', frame s s' → tick s' = tick s → heap s' = delete l (heap s) → Q tt s') →
  wp (kfree (Blk l)) s Q.
Proof.
  intros Hl HQ. cbn [kfree]. rewrite wp_bind, wp_gets, Hl. unfold set_heap.
  rewrite wp_modify. by apply HQ.
Qed.

Lemma wp_printk m s Q :
  (∀ s', quiet s s' → tick s' = tick s → klog s' = klog s ++ [m] → Q tt s') →
  wp (printk m) s Q.
Proof. intros HQ. unfold printk. rewrite wp_modify. by apply HQ. Qed.
End memory.

(** ** Services *)

Section services.
Context `{K : KernelApi} {L : KernelLaws K}.
Implicit Types (s : kstate).

Lemma wp_kmalloc n s Q : 0 < n →
  (kmalloc_result (tick s) (heap s) n = None →
   ∀ s', quiet s s' → tick s' = S (tick s) → Q NULL s') →
  (∀ l d, kmalloc_result (tick s) (heap s) n = Some (l, d) →
   heap s !! l = None → Z.of_nat (length d) = n → n ≤ KMALLOC_MAX_SIZE →
   ∀ s', frame s s' → tick s' = S (tick s) → heap s' = <[l := HBytes d]> (heap s) →
         Q (Blk l) s') →
  wp (kmalloc n) s Q.
Proof.
  intros Hn HNone HSome. unfold kmalloc. rewrite wp_bind. cbn. rewrite wp_bind, wp_gets.
  rewrite (proj2 (Z.eqb_neq n 0)) by lia. cbn [heap].
  destruct (kmalloc_result (tick s) (heap s) n) as [[l d]|] eqn:E.
  - destruct (kmalloc_fresh _ _ _ _ _ E) as (Hf & Hlen & Hmax).
    rewrite wp_bind. unfold set_heap. rewrite wp_modify, wp_ret. by apply (HSome l d).
  - rewrite wp_ret. by apply HNone.
Qed.

Lemma wp_copy_to_user l d to n s Q :
  heap s !! l = Some (HBytes d) → 0 ≤ n ≤ Z.of_nat (length d) →
  (∀ m' r, copy_to_user_result (tick s) (umem s) to (take (Z.to_nat n) d) = (m', r) →
   ∀ s', heap s' = heap s → umem s' = m' → tick s' = S (tick s) → dev s' = dev s →
         full_user_entry s' = full_user_entry s → Q r s') →
  wp (copy_to_user to (Blk l) n) s Q.
Proof.
  intros Hl Hn HQ. unfold copy_to_user. apply wp_bind.
  eapply wp_load_bytes; [done|lia..|]. rewrite drop_0.
  rewrite wp_bind. cbn. rewrite wp_bind, wp_gets. cbn [umem].
  destruct (copy_to_user_result _ _ _ _) as [m' r] eqn:E.
  rewrite wp_bind. unfold set_umem. rewrite wp_modify, wp_ret. by apply (HQ m' r).
Qed.

Lemma wp_copy_from_user l d off from n s Q :
  heap s !! l = Some (HBytes d) → 0 ≤ off → 0 ≤ n → off + n ≤ Z.of_nat (length d) →
  (∀ new r, copy_from_user_result (tick s) (umem s) from n = (new, r) →
   Z.of_nat (length new) = n →
   ∀ s', frame s s' → tick s' = S (tick s) →
     heap s' = <[l := HBytes (take (Z.to_nat off) d ++ new ++
                              drop (Z.to_nat off + length new) d)]> (heap s) →
     Q r s') →
  wp (copy_from_user (Blk l) off from n) s Q.
Proof.
  intros Hl ? ? ? HQ. unfold copy_from_user. rewrite wp_bind. cbn.
  rewrite wp_bind, wp_gets. cbn [umem].
  destruct (copy_from_user_result _ _ _ _) as [new r] eqn:E.
  destruct (copy_from_user_spec _ _ _ _ _ _ ltac:(done) E) as (_ & Hlen & _).
  apply wp_bind. destruct (Z.eqb_spec n 0) as [->|Hn].
  - rewrite wp_ret, wp_ret. apply (HQ _ _ eq_refl Hlen); [done..|].
    destruct new; [|simpl in Hlen; lia]. simpl. rewrite Nat.add_0_r, take_drop.
    by rewrite insert_id.
  - eapply wp_store_bytes; [done|lia..|]. intros s' F Ht Hh. rewrite wp_ret.
    apply (HQ _ _ eq_refl Hlen); [by destruct F|done..].
Qed.

(** Copying nothing touches nothing and succeeds. *)
Lemma copy_from_user_zero p off from s : ∃ s', copy_from_user p off from 0 s = Ret (0, s').
Proof.
  unfold copy_from_user. erewrite bind_eval by done. erewrite bind_eval by done. cbn [umem].
  destruct (copy_from_user_result (tick s) (umem s) from 0) as [l r] eqn:E.
  destruct (copy_from_user_spec _ _ _ _ _ _ ltac:(done) E) as (Hr & _ & _).
  assert (r = 0) as -> by lia. eexists. by erewrite bind_eval.
Qed.

(** Taking the mutex: interrupted and nothing happened, or held. *)
Lemma wp_mutex_lock s Q :
  lock (dev s) = MutexFree →
  (mutex_lock_interrupted (tick s) = true →
   ∀ s', quiet s s' → tick s' = S (tick s) → Q (- EINTR) s') →
  (mutex_lock_interrupted (tick s) = false →
   ∀ s', heap s' = heap s → umem s' = umem s → tick s' = S (tick s) →
     dev s' = mk_dev (pbuffer (dev s)) MutexHeld (buff_size (dev s)) (cdev (dev s)) →
     full_user_entry s' = full_user_entry s → Q 0 s') →
  wp mutex_lock_interruptible s Q.
Proof.
  intros Hfree Hint Hlock. unfold mutex_lock_interruptible. rewrite wp_bind. cbn.
  destruct (mutex_lock_interrupted (tick s)) eqn:E.
  - rewrite wp_ret. by apply Hint.
  - rewrite wp_bind, wp_gets. cbn [dev]. rewrite Hfree, wp_bind. unfold set_dev.
    rewrite wp_modify, wp_ret. by apply Hlock.
Qed.

Lemma mutex_lock_eval s :
  lock (dev s) = MutexFree → mutex_lock_interrupted (tick s) = false →
  ∃ s', mutex_lock_interruptible s = Ret (0, s') ∧ heap s' = heap s ∧
    full_user_entry s' = full_user_entry s.
Proof.
  intros Hfree Hint.
  destruct (proj1 (wp_run mutex_lock_interruptible s (λ r s', r = 0 ∧ heap s' = heap s ∧
    full_user_entry s' = full_user_entry s))) as (r & s' & E & -> & H).
  { apply wp_mutex_lock; [done|congruence|]. done. }
  by exists s'.
Qed.

Lemma wp_mutex_unlock s Q :
  lock (dev s) = MutexHeld →
  (∀ s', heap s' = heap s → umem s' = umem s → tick s' = tick s →
     dev s' = mk_dev (pbuffer (dev s)) MutexFree (buff_size (dev s)) (cdev (dev s)) →
     full_user_entry s' = full_user_entry s → Q tt s') →
  wp mutex_unlock s Q.
Proof.
  intros Hheld HQ. unfold mutex_unlock. rewrite wp_bind, wp_gets, Hheld. unfold set_dev.
  rewrite wp_modify. by apply HQ.
Qed.

(** [n] bytes can be read at [p + off]; nothing has to be there for 0 bytes. *)
Definition readable (s : kstate) (p : ptr) (off n : Z) : Prop :=
  n = 0 ∨ ∃ l d, p = Blk l ∧ heap s !! l = Some (HBytes d) ∧ 0 ≤ off ∧ 0 < n ∧
                 off + n ≤ Z.of_nat (length d).

(** Filling the front of a block that was just allocated. *)
Lemma wp_memcpy_fresh s s1 t dt p off n Q :
  readable s p off n → heap s !! t = None → n ≤ Z.of_nat (length dt) →
  heap s1 = <[t := HBytes dt]> (heap s) →
  (∀ s2 d2, frame s1 s2 → tick s2 = tick s1 → length d2 = length dt →
     heap s2 = <[t := HBytes d2]> (heap s) → Q tt s2) →
  wp (memcpy (Blk t) 0 p off n) s1 Q.
Proof.
  intros Hr Ht Hn H1 HQ. unfold memcpy.
  destruct Hr as [->|(l & d & -> & Hl & Hoff & Hpos & Hb)].
  { rewrite Z.eqb_refl, wp_ret. by apply (HQ _ dt). }
  assert (t ≠ l) as Hne by congruence.
  rewrite (proj2 (Z.eqb_neq n 0)) by lia.
  apply wp_bind. eapply wp_load_bytes; [by rewrite H1, lookup_insert_ne|lia..|].
  assert (Z.of_nat (length (take (Z.to_nat n) (drop (Z.to_nat off) d))) = n) as Hcl
    by (rewrite length_take, length_drop; lia).
  eapply wp_store_bytes; [by rewrite H1, lookup_insert_eq|lia..|].
  intros s2 F2 T2 H2. rewrite H1, insert_insert_eq in H2.
  eapply HQ; [done|done| |done]. rewrite !length_app, length_drop, length_take. lia.
Qed.

(** The debug printer allocates, copies, prints and frees: memory is as before. *)
Lemma wp_buffer_print_any prefix p off n s Q :
  readable s p off n → 0 ≤ n → n + 1 < 2 ^ 64 →
  (∀ s', quiet s s' → tick s' = S (tick s) → Q tt s') →
  wp (aesd_buffer_print prefix p off n) s Q.
Proof.
  intros Hr Hn Hsmall HQ. unfold aesd_buffer_print.
  rewrite uwrap_small by lia. apply wp_bind. apply wp_kmalloc; [lia|..].
  { intros _ s' Hq Ht. cbn [is_null]. rewrite wp_ret. by apply HQ. }
  intros t dt _ Hfresh Hlen _ s1 F1 T1 H1. cbn [is_null]. apply wp_bind.
  eapply (wp_memcpy_fresh s s1 t dt); [done|done|lia|done|]. intros s2 d2 F2 T2 Hd2 H2.
  apply wp_bind. eapply wp_store_bytes; [by rewrite H2, lookup_insert_eq|simpl; lia..|].
  intros s3 F3 T3 H3. rewrite H2, insert_insert_eq in H3.
  set (d3 := _ ++ [NUL] ++ _) in H3.
  assert (length d3 = length dt) as Hd3.
  { subst d3. rewrite !length_app, length_take, length_drop. simpl. lia. }
  apply wp_bind. eapply wp_load_bytes; [by rewrite H3, lookup_insert_eq|lia..|].
  apply wp_bind, wp_printk. intros s4 [F4 H4] T4 _.
  eapply wp_kfree; [by rewrite H4, H3, lookup_insert_eq|].
  intros s5 F5 T5 H5. apply HQ; [split|congruence].
  - transitivity s4; [|done]. transitivity s3; [|done]. transitivity s2; [|done].
    by transitivity s1.
  - by rewrite H5, H4, H3, delete_insert_id.
Qed.

Lemma wp_buffer_print prefix l d off n s Q :
  heap s !! l = Some (HBytes d) → 0 ≤ off → 0 ≤ n → off + n ≤ Z.of_nat (length d) →
  n + 1 < 2 ^ 64 →
  (∀ s', quiet s s' → tick s' = S (tick s) → Q tt s') →
  wp (aesd_buffer_print prefix (Blk l) off n) s Q.
Proof.
  intros Hl Hoff Hn Hb Hsmall HQ. apply wp_buffer_print_any; [|done..].
  destruct (decide (n = 0)); [by left|right]. exists l, d.
  split; [done|]. split; [done|]. lia.
Qed.
End services.
