(* ===== verification/CharDriverSpec.v ===== *)
(** * The device as a user sees it

    The abstract device: at most ten complete commands (strings that end in a
    newline), the command being assembled, and the counter [SEEK_END] uses.
    [represents s a G] is the refinement relation: the kernel state [s] implements
    the abstract device [a], and [G] is the memory that belongs to nobody. *)

From stdpp Require Import base list gmap option strings.
From Stdlib Require Import ZArith Lia.
From S2P Require Import Prelude CircularBuffer CircularBufferSpec Kernel CharDriver.
From S2P Require Import KernelRules.
#[local] Open Scope Z_scope.

(** ** The abstract device *)

Record adev : Type := mk_adev {
  commands : list (list Byte.byte);
  partial : list Byte.byte;
  written : Z;
}.

Definition empty_adev : adev := mk_adev [] [] 0.

(** A write extends the command being assembled; when the result ends in a newline it
    becomes the newest command and the counter grows by its length. *)
Definition spec_write (a : adev) (bytes : list Byte.byte) : adev :=
  let p := partial a ++ bytes in
  if decide (last p = Some LF) then
    mk_adev (spec_add (commands a) p) [] (i64 (written a + Z.of_nat (length p)))
  else mk_adev (commands a) p (written a).

(** What one read can return: the rest of the command that holds position [pos]. *)
Fixpoint spec_read (cs : list (list Byte.byte)) (pos : Z) : list Byte.byte :=
  match cs with
  | [] => []
  | c :: cs =>
    if pos <? Z.of_nat (length c) then drop (Z.to_nat pos) c
    else spec_read cs (pos - Z.of_nat (length c))
  end.

(** Everything a reader can see. *)
Definition stored (a : adev) : list Byte.byte := concat (commands a).

(** ** Representation *)

Definition cmd_entry (l : positive) (c : list Byte.byte) : aesd_buffer_entry :=
  mk_entry (Blk l) (Z.of_nat (length c)).

(** The blocks of the command being assembled: none when it is empty. *)
Definition partial_entry (po : option positive) (c : list Byte.byte) : aesd_buffer_entry :=
  match po with Some l => cmd_entry l c | None => null_entry end.

Definition partial_blocks (po : option positive) (c : list Byte.byte) : list (positive * hval) :=
  match po with Some l => [(l, HBytes c)] | None => [] end.

Definition command_blocks (ls : list positive) (cs : list (list Byte.byte)) :
    list (positive * hval) :=
  zip ls (HBytes <$> cs).

(** All blocks of the module: the struct, the command being assembled, the commands. *)
Definition blocks (pb : positive) (b : aesd_circular_buffer) (po : option positive)
    (ls : list positive) (a : adev) : list (positive * hval) :=
  (pb, HBuf b) :: partial_blocks po (partial a) ++ command_blocks ls (commands a).

Section representation.
Context `{K : KernelApi}.

(** Commands end in a newline, the command being assembled does not, and every string
    fits in one [kmalloc] block. *)
Record adev_wf (a : adev) : Prop := {
  aw_commands : Forall (λ c, last c = Some LF ∧ Z.of_nat (length c) ≤ KMALLOC_MAX_SIZE)
                       (commands a);
  aw_partial : last (partial a) ≠ Some LF;
  aw_partial_len : Z.of_nat (length (partial a)) ≤ KMALLOC_MAX_SIZE;
}.

Record dev_rep (lk : mutex) (s : kstate) (a : adev) (G : gmap positive hval)
    (pb : positive) (b : aesd_circular_buffer) (po : option positive) (ls : list positive) :
    Prop := {
  dr_pbuffer : pbuffer (dev s) = Blk pb;
  dr_lock : lock (dev s) = lk;
  dr_size : buff_size (dev s) = written a;
  dr_entry : full_user_entry s = partial_entry po (partial a);
  dr_po : po = None ↔ partial a = [];
  dr_wf : wf b;
  dr_contents : contents b = zip_with cmd_entry ls (commands a);
  dr_length : length ls = length (commands a);
  dr_owns : owns (heap s) (blocks pb b po ls a) G;
}.

Definition represents_locked (lk : mutex) (s : kstate) (a : adev) (G : gmap positive hval) :
    Prop :=
  adev_wf a ∧ ∃ pb b po ls, dev_rep lk s a G pb b po ls.

(** Between two system calls the mutex is free. *)
Definition represents : kstate → adev → gmap positive hval → Prop := represents_locked MutexFree.

(** Moving the relation along steps that leave the relevant components alone. *)
Lemma dev_rep_transfer lk lk' s s' a G pb b po ls :
  dev_rep lk s a G pb b po ls →
  heap s' = heap s → full_user_entry s' = full_user_entry s →
  pbuffer (dev s') = pbuffer (dev s) → buff_size (dev s') = buff_size (dev s) →
  lock (dev s') = lk' →
  dev_rep lk' s' a G pb b po ls.
Proof. intros [] Hh He Hp Hs Hl. split; congruence. Qed.

Lemma dev_rep_quiet lk s s' a G pb b po ls :
  dev_rep lk s a G pb b po ls → quiet s s' → dev_rep lk s' a G pb b po ls.
Proof.
  intros H [[] Hh]. eapply dev_rep_transfer; [done|congruence..|].
  destruct H. congruence.
Qed.

(** The [size] member agrees with the command under assembly. *)
Lemma dev_rep_entry_size lk s a G pb b po ls :
  dev_rep lk s a G pb b po ls → size (full_user_entry s) = Z.of_nat (length (partial a)).
Proof.
  intros [_ _ _ He Hpo _ _ _ _]. rewrite He. destruct po; simpl; [done|].
  by rewrite (proj1 Hpo eq_refl).
Qed.

(** Entering and leaving the critical section. *)
Lemma wp_lock_rep s a G pb b po ls Q :
  dev_rep MutexFree s a G pb b po ls →
  (mutex_lock_interrupted (tick s) = true → ∀ s', quiet s s' → Q (- EINTR) s') →
  (mutex_lock_interrupted (tick s) = false →
   ∀ s', dev_rep MutexHeld s' a G pb b po ls → heap s' = heap s → umem s' = umem s →
     tick s' = S (tick s) → Q 0 s') →
  wp mutex_lock_interruptible s Q.
Proof.
  intros Hrep Hint Hok. apply wp_mutex_lock; [apply Hrep|..].
  - intros Hi s' Hq _. by apply Hint.
  - intros Hi s' H' U' T' D' E'. apply Hok; [done| |done..].
    eapply dev_rep_transfer; [exact Hrep|..]; rewrite ?D'; done.
Qed.

Lemma wp_unlock_rep s a G Q :
  represents_locked MutexHeld s a G →
  (∀ s', umem s' = umem s → represents s' a G → Q tt s') →
  wp mutex_unlock s Q.
Proof.
  intros (Ha & pb & b & po & ls & Hrep) HQ. apply wp_mutex_unlock; [apply Hrep|].
  intros s' H' U' _ D' E'. apply HQ; [done|]. split; [done|]. exists pb, b, po, ls.
  eapply dev_rep_transfer; [exact Hrep|..]; rewrite ?D'; done.
Qed.

(** ** Sizes *)

Lemma size_cmd_entries ls cs :
  length ls = length cs →
  Forall2 (λ e d, size e = Z.of_nat (length d)) (zip_with cmd_entry ls cs) cs.
Proof.
  revert cs. induction ls as [|l ls IH]; intros [|c cs] Hlen; simpl in *; try done.
  constructor; [done|]. apply IH. lia.
Qed.

Lemma total_size_strings {A} q (ds : list (list A)) :
  Forall2 (λ e d, size e = Z.of_nat (length d)) q ds →
  sizes_ok q ∧ total_size q = Z.of_nat (length (concat ds)).
Proof.
  intros H. rewrite length_concat_sumZ. unfold total_size, sizes_ok.
  induction H as [|e d q ds Hed H [IH1 IH2]]; simpl; [done|].
  split; [constructor; [lia|done]|]. lia.
Qed.

Context {L : KernelLaws K}.

(** Ten blocks of [kmalloc] are far from the 4 GiB of the search's accumulators. *)
Lemma dev_rep_small lk s a G pb b po ls :
  dev_rep lk s a G pb b po ls → adev_wf a →
  sizes_ok (contents b) ∧ total_size (contents b) < 2 ^ 32 ∧
  total_size (contents b) = Z.of_nat (length (stored a)).
Proof.
  intros H Ha. destruct (total_size_strings _ _ (size_cmd_entries _ _ (dr_length _ _ _ _ _ _ _ _ H)))
    as [Hok Hts].
  rewrite (dr_contents _ _ _ _ _ _ _ _ H). split; [done|]. split; [|done].
  rewrite Hts, length_concat_sumZ.
  assert (length (commands a) ≤ 10)%nat as Hlen.
  { pose proof (contents_bound b (dr_wf _ _ _ _ _ _ _ _ H)) as Hb.
    rewrite (dr_contents _ _ _ _ _ _ _ _ H), length_zip_with in Hb.
    rewrite (dr_length _ _ _ _ _ _ _ _ H) in Hb. change capacity with 10%nat in Hb. lia. }
  pose proof (sumZ_bound KMALLOC_MAX_SIZE (map (λ k, Z.of_nat (length k)) (commands a))) as Hs.
  rewrite length_map in Hs. pose proof kmalloc_max.
  pose proof (aw_partial_len _ Ha).
  assert (sumZ (map (λ k, Z.of_nat (length k)) (commands a)) ≤
          KMALLOC_MAX_SIZE * Z.of_nat (length (commands a))) as Hs'.
  { apply Hs, Forall_map. eapply Forall_impl; [apply (aw_commands _ Ha)|].
    intros c [_ Hc]. done. }
  nia.
Qed.

(** The search result in terms of commands. *)
Lemma spec_find_read ls cs pos :
  length ls = length cs → 0 ≤ pos →
  match spec_find (zip_with cmd_entry ls cs) pos with
  | Some (k, r) => ∃ l c, ls !! k = Some l ∧ cs !! k = Some c ∧
      0 ≤ r < Z.of_nat (length c) ∧ spec_read cs pos = drop (Z.to_nat r) c
  | None => spec_read cs pos = []
  end.
Proof.
  revert cs pos. induction ls as [|l ls IH]; intros [|c cs] pos Hlen Hpos; simpl in *; try done.
  destruct (Z.ltb_spec pos (Z.of_nat (length c))) as [Hlt|Hge].
  { exists l, c. done. }
  specialize (IH cs (pos - Z.of_nat (length c)) ltac:(lia) ltac:(lia)).
  destruct (spec_find _ _) as [[k r]|]; done.
Qed.

End representation.

(** Reading from [pos] continues the stored text at [pos]. *)
Lemma spec_read_stored cs pos : 0 ≤ pos →
  ∃ rest, drop (Z.to_nat pos) (concat cs) = spec_read cs pos ++ rest.
Proof.
  revert pos. induction cs as [|c cs IH]; intros pos Hpos; simpl.
  { exists []. by rewrite drop_nil. }
  destruct (Z.ltb_spec pos (Z.of_nat (length c))) as [Hlt|Hge].
  - exists (concat cs). by rewrite drop_app_le by lia.
  - destruct (IH (pos - Z.of_nat (length c)) ltac:(lia)) as [rest Hrest].
    exists rest. rewrite drop_app_ge by lia. rewrite <- Hrest. f_equal. lia.
Qed.

Lemma spec_read_nil cs pos :
  0 ≤ pos → Forall (λ c : list Byte.byte, c ≠ []) cs →
  spec_read cs pos = [] ↔ Z.of_nat (length (concat cs)) ≤ pos.
Proof.
  intros Hpos H. revert pos Hpos. induction H as [|c cs Hc H IH]; intros pos Hpos; simpl.
  { split; [lia|done]. }
  rewrite length_app. destruct (Z.ltb_spec pos (Z.of_nat (length c))) as [Hlt|Hge].
  - split; [|lia]. intros Hd. apply (f_equal length) in Hd. rewrite length_drop in Hd.
    simpl in Hd. lia.
  - rewrite IH by lia. lia.
Qed.

(** ** Windows of parallel lists *)

Lemma spec_add_zip_with {A B C} (f : A → B → C) la lb x y :
  length la = length lb →
  spec_add (zip_with f la lb) (f x y) = zip_with f (spec_add la x) (spec_add lb y).
Proof.
  intros Hlen. unfold spec_add, lastn.
  change ([f x y]) with (zip_with f [x] [y]). rewrite <- zip_with_app by done.
  rewrite zip_with_drop, length_zip_with, !length_app, Hlen, Nat.min_id. done.
Qed.

Lemma length_spec_add {A} (l : list A) x : length (spec_add l x) = Nat.min capacity (length l + 1).
Proof. unfold spec_add. rewrite length_lastn, length_app. done. Qed.
