(* ===== verification/CharDriverWrite.v ===== *)
(** * [aesd_write] implements the abstract write *)

From stdpp Require Import base list gmap option strings.
From Stdlib Require Import ZArith Lia.
From S2P Require Import Prelude CircularBuffer CircularBufferSpec Kernel CharDriver.
From S2P Require Import KernelRules CharDriverSpec.
#[local] Open Scope Z_scope.

Section commit.
Context `{K : KernelApi} {L : KernelLaws K}.

Lemma last_lookup_Z (p : list Byte.byte) c :
  last p = Some c → p !! Z.to_nat (Z.of_nat (length p) - 1) = Some c.
Proof.
  rewrite last_lookup. intros H. replace (Z.to_nat _) with (pred (length p)); [done|].
  lia.
Qed.

(** The string the next add overwrites is freed: what is left are the blocks of the
    commands that stay. *)
Lemma wp_free_oldest s pb b ls cs o G Q :
  wf b → contents b = zip_with cmd_entry ls cs → length ls = length cs →
  owns (heap s) (command_blocks ls cs ++ o) G →
  (∀ s', frame s s' →
     owns (heap s') (command_blocks (lastn 9 ls) (lastn 9 cs) ++ o) G → Q tt s') →
  heap s !! pb = Some (HBuf b) →
  wp (if full b then p ← mlift (aesd_circular_buffer_ref_buff b); kfree p else mret tt) s Q.
Proof.
  intros Hwf Hc Hlen Ho HQ Hpb.
  pose proof (length_contents b Hwf) as Hcl. pose proof (wf_in b Hwf) as Hin.
  rewrite Hc, length_zip_with, Hlen, Nat.min_id in Hcl. change capacity with 10%nat in Hcl.
  unfold AESDCHAR_MAX_WRITE_OPERATIONS_SUPPORTED in Hin.
  rewrite ref_buff_eval by done. rewrite Hc.
  destruct (full b).
  - destruct ls as [|l ls], cs as [|c cs]; simpl in *; try lia.
    rewrite wp_bind, wp_lift. cbn [owp].
    eapply wp_kfree; [eapply owns_lookup; [done|by left]|].
    intros s' F _ Hh. apply HQ; [done|]. rewrite Hh.
    replace (lastn 9 (l :: ls)) with ls by (unfold lastn; simpl; by replace (length ls - 8)%nat with 1%nat by lia).
    replace (lastn 9 (c :: cs)) with cs by (unfold lastn; simpl; by replace (length cs - 8)%nat with 1%nat by lia).
    eapply owns_free. exact Ho.
  - rewrite wp_ret. apply HQ; [done|]. rewrite !lastn_all by lia. done.
Qed.

Lemma spec_add_split {A} (l : list A) x : spec_add l x = lastn 9 l ++ [x].
Proof.
  unfold spec_add, lastn. change capacity with 10%nat. rewrite length_app. simpl.
  replace (length l + 1 - 10)%nat with (length l - 9)%nat by lia.
  by rewrite drop_app_le by lia.
Qed.

Lemma command_blocks_snoc ls cs l c :
  length ls = length cs →
  command_blocks (ls ++ [l]) (cs ++ [c]) = command_blocks ls cs ++ [(l, HBytes c)].
Proof.
  intros Hlen. unfold command_blocks. rewrite fmap_app, zip_with_app; [done|].
  by rewrite length_fmap.
Qed.

(** Committing: a command that ends in a newline moves to the circular buffer, any
    other stays where it is. *)
Lemma wp_write_commit lk s cs p w G pb b pl ls :
  dev_rep lk s (mk_adev cs p w) G pb b (Some pl) ls →
  adev_wf (mk_adev cs [] w) → Z.of_nat (length p) ≤ KMALLOC_MAX_SIZE →
  wp aesd_write_commit s (λ _ s',
    represents_locked lk s' (spec_write (mk_adev cs [] w) p) G ∧ umem s' = umem s).
Proof.
  intros [Hpb Hlk Hw He Hpo Hwf Hc Hlen Ho] [Hcs _ _] Hmax. cbn [commands partial written] in *.
  unfold blocks in Ho. cbn [partial_blocks commands partial app] in Ho.
  pose proof (owns_lookup _ _ _ pb (HBuf b) Ho ltac:(by left)) as Hlpb.
  pose proof (owns_lookup _ _ _ pl (HBytes p) Ho ltac:(by right; left)) as Hlpl.
  destruct (last p) as [c|] eqn:Hlast.
  2:{ apply last_None in Hlast. by apply Hpo in Hlast. }
  pose proof kmalloc_max as Hkm.
  unfold aesd_write_commit. rewrite wp_bind, wp_gets, He. cbn [partial_entry cmd_entry buffptr size].
  apply wp_bind. eapply (wp_load_byte _ p _ c); [done| |by apply last_lookup_Z|].
  { destruct p; [done|]. simpl. lia. }
  unfold spec_write. cbn [partial commands written app]. rewrite Hlast.
  destruct (decide (c = LF)) as [->|Hnl].
  2:{ rewrite wp_ret, decide_False by congruence. split; [|done]. split.
      { split; cbn; [done|congruence|done]. }
      exists pb, b, (Some pl), ls. by split. }
  rewrite decide_True by done.
  rewrite wp_bind, wp_gets, Hpb. apply wp_bind. eapply wp_load_buffer; [done|].
  apply wp_bind. eapply (wp_free_oldest _ _ _ _ _ [(pb, HBuf b); (pl, HBytes p)]);
    [done..| | |done].
  { eapply owns_perm; [|exact Ho]. apply (Permutation_app_comm [_; _]). }
  intros s1 F1 Ho1.
  pose proof (owns_lookup _ _ _ pl (HBytes p) Ho1
    ltac:(apply elem_of_app; right; by right; left)) as Hlpl1.
  pose proof (owns_lookup _ _ _ pb (HBuf b) Ho1
    ltac:(apply elem_of_app; right; by left)) as Hlpb1.
  apply wp_bind. eapply wp_buffer_print; [done|lia..|].
  intros s2 [F2 H2] _. apply wp_bind.
  eapply wp_on_buffer; [by rewrite H2|by apply add_entry_eval|].
  intros s3 F3 _ H3. rewrite wp_bind. unfold set_dev, set_full_user_entry. rewrite !wp_modify.
  cbn [umem]. destruct F1, F2, F3. split; [|congruence].
  split.
  { split; cbn; [|done|lia]. rewrite spec_add_split. apply Forall_app. split.
    - unfold lastn. by apply Forall_drop.
    - by repeat constructor. }
  exists pb, (added b (cmd_entry pl p)), None, (spec_add ls pl).
  split; cbn.
  - congruence.
  - congruence.
  - congruence.
  - done.
  - done.
  - by apply added_wf.
  - rewrite added_contents, Hc by done. by apply spec_add_zip_with.
  - by rewrite !length_spec_add, Hlen.
  - rewrite H3, H2, !spec_add_split. unfold blocks. cbn [partial_blocks commands app].
    rewrite command_blocks_snoc by (rewrite !length_lastn, Hlen; done).
    eapply owns_update, owns_perm; [|exact Ho1].
    rewrite <- Permutation_middle. done.
Qed.
End commit.

(** ** The whole handler *)

(** How a write ends: which error, or the bytes that were taken from the user. *)
Inductive write_outcome : Type :=
  | WErr (e : Z)
  | WOk (bytes : list Byte.byte).

Section write.
Context `{K : KernelApi}.

(** The kernel's three decisions, in the order [aesd_write] asks for them. *)
Definition write_decision (s : kstate) (buff count : Z) : write_outcome :=
  if mutex_lock_interrupted (tick s) then WErr ERESTARTSYS
  else match kmalloc_result (S (tick s)) (heap s) (count + size (full_user_entry s)) with
       | None => WErr ENOMEM
       | Some _ =>
         let '(bytes, r) := copy_from_user_result (S (S (tick s))) (umem s) buff count in
         if r =? 0 then WOk bytes else WErr EFAULT
       end.

Context {L : KernelLaws K}.

(** The command under assembly is copied in front of the new bytes. *)
Lemma wp_write_gather s p po t dt count buff n Q :
  full_user_entry s = partial_entry po p → (po = None ↔ p = []) →
  (∀ l, po = Some l → heap s !! l = Some (HBytes p) ∧ l ≠ t) →
  heap s !! t = Some (HBytes dt) → n = Z.of_nat (length p) →
  Z.of_nat (length dt) = count + n → 0 ≤ count →
  (∀ bytes r, copy_from_user_result (tick s) (umem s) buff count = (bytes, r) →
   Z.of_nat (length bytes) = count →
   ∀ s', frame s s' → tick s' = S (tick s) →
     heap s' = <[t := HBytes (p ++ bytes)]> (heap s) → Q r s') →
  wp (memcpy (Blk t) 0 (buffptr (full_user_entry s)) 0 n;;
      copy_from_user (Blk t) n buff count) s Q.
Proof.
  intros He Hpo Hp Ht -> Hdt Hcount HQ. apply wp_bind.
  assert (wp (memcpy (Blk t) 0 (buffptr (full_user_entry s)) 0 (Z.of_nat (length p))) s
    (λ _ s1, frame s s1 ∧ tick s1 = tick s ∧
       heap s1 = <[t := HBytes (p ++ drop (length p) dt)]> (heap s))) as Hcpy.
  { unfold memcpy. rewrite He. destruct po as [l|].
    - destruct (Hp l eq_refl) as [Hl Hne].
      destruct (Z.eqb_spec (Z.of_nat (length p)) 0) as [Hz|Hz].
      { destruct p; [|simpl in Hz; lia]. discriminate (proj2 Hpo eq_refl). }
      apply wp_bind. eapply wp_load_bytes; [done|lia..|].
      rewrite Nat2Z.id, drop_0, firstn_all.
      eapply wp_store_bytes; [done|lia..|]. intros s1 F T H. done.
    - rewrite (proj1 Hpo eq_refl). simpl. rewrite wp_ret.
      split; [done|]. split; [done|]. by rewrite insert_id. }
  eapply wp_mono; [apply Hcpy|]. cbn beta. intros _ s1 (F1 & T1 & H1).
  eapply wp_copy_from_user; [by rewrite H1, lookup_insert_eq|lia|lia| |].
  { rewrite length_app, length_drop. lia. }
  intros bytes r Hr Hlen s2 F2 T2 H2. rewrite T1, (frame_umem _ _ F1) in Hr.
  eapply HQ; [done|done|by transitivity s1|congruence|].
  rewrite H2, H1, insert_insert_eq, Nat2Z.id, take_app_length, drop_ge, app_nil_r; [done|].
  rewrite length_app, length_drop. lia.
Qed.

(** Releasing what held the command before it was extended. *)
Lemma wp_write_replace s a G pb b po ls t c :
  dev_rep MutexHeld s a G pb b po ls → heap s !! t = None →
  ∀ s1, frame s s1 → heap s1 = <[t := HBytes c]> (heap s) → c ≠ [] →
  wp (kfree (buffptr (full_user_entry s));;
      set_full_user_entry (mk_entry (Blk t) (Z.of_nat (length c)))) s1
     (λ _ s2, umem s2 = umem s ∧
        dev_rep MutexHeld s2 (mk_adev (commands a) c (written a)) G pb b (Some t) ls).
Proof.
  intros [Hpb Hlk Hw He Hpo Hwf Hc Hlen Ho] Ht s1 F1 H1 Hne.
  pose proof (owns_alloc _ _ _ _ (HBytes c) Ho Ht) as Ho1. rewrite <- H1 in Ho1.
  destruct F1. apply wp_bind. rewrite He. unfold set_full_user_entry. destruct po as [l|].
  - unfold blocks in Ho1. cbn [partial_blocks app] in Ho1.
    eapply wp_kfree; [eapply owns_lookup; [exact Ho1|by right; right; left]|].
    intros s2 [] _ H2. rewrite wp_modify. split; [cbn; congruence|].
    split; cbn; try congruence; [done|by split|]. rewrite H2. unfold blocks. cbn [partial_blocks app].
    eapply owns_free, owns_perm; [|exact Ho1].
    apply (Permutation_app_tail _
      (Permutation_rev [(t, HBytes c); (pb, HBuf b); (l, HBytes (partial a))])).
  - cbn [partial_entry null_entry buffptr kfree]. rewrite wp_ret, wp_modify. split; [done|].
    split; cbn; try congruence; [done|by split|]. unfold blocks in *. cbn [partial_blocks app] in *.
    eapply owns_perm; [|exact Ho1]. apply Permutation_swap.
Qed.

(** What a write has done when it returns. *)
Definition write_post (s : kstate) (a : adev) (G : gmap positive hval) (buff count pos : Z)
    (res : Z * Z) (s' : kstate) : Prop :=
  umem s' = umem s ∧
  match write_decision s buff count with
  | WErr e => res = (- e, pos) ∧ represents s' a G
  | WOk bytes => res = (count, pos + count) ∧
      umem_read (umem s) buff (Z.to_nat count) = Some bytes ∧
      represents s' (spec_write a bytes) G
  end.

(** The critical section: the mutex is held and memory for the extended command was
    found. *)
Lemma wp_write_critical s a G pb b po ls buff count pos t dt s1 :
  dev_rep MutexHeld s a G pb b po ls → adev_wf a →
  heap s !! t = None → Z.of_nat (length dt) = count + Z.of_nat (length (partial a)) →
  count + Z.of_nat (length (partial a)) ≤ KMALLOC_MAX_SIZE →
  0 ≤ count → 0 < count + Z.of_nat (length (partial a)) →
  0 ≤ pos → pos + count < 2 ^ 63 →
  frame s s1 → heap s1 = <[t := HBytes dt]> (heap s) →
  wp (let fe := full_user_entry s in
      memcpy (Blk t) 0 (buffptr fe) 0 (size fe);;
      r ← copy_from_user (Blk t) (size fe) buff count;
      if negb (r =? 0) then kfree (Blk t);; mret (- EFAULT, pos)
      else
        aesd_buffer_print "\nReceived from the user" (Blk t) (size fe) count;;
        c ← load_byte (Blk t) (size fe + count - 1);
        printk (KLastChar c);;
        kfree (buffptr fe);;
        set_full_user_entry (mk_entry (Blk t) (u64 (size fe + count)));;
        aesd_write_commit;;
        mret (i64 count, i64 (pos + count))) s1
     (λ res s', umem s' = umem s ∧
        let '(bytes, r) := copy_from_user_result (tick s1) (umem s) buff count in
        if r =? 0 then res = (count, pos + count) ∧
             umem_read (umem s) buff (Z.to_nat count) = Some bytes ∧
             represents_locked MutexHeld s' (spec_write a bytes) G
        else res = (- EFAULT, pos) ∧ represents_locked MutexHeld s' a G).
Proof.
  intros Hrep Ha Ht Hdt Hmax Hcount Hpos Hp0 Hp F1 H1. cbn zeta.
  pose proof kmalloc_max as Hkm.
  assert (size (full_user_entry s) = Z.of_nat (length (partial a))) as Hsz.
  { rewrite (dr_entry _ _ _ _ _ _ _ _ Hrep). destruct po; simpl; [done|].
    rewrite (proj1 (dr_po _ _ _ _ _ _ _ _ Hrep) eq_refl). done. }
  rewrite Hsz. rewrite <- (frame_entry _ _ F1). apply wp_bind2.
  eapply (wp_write_gather _ (partial a) po);
    [by rewrite (frame_entry _ _ F1), (dr_entry _ _ _ _ _ _ _ _ Hrep)
    |apply (dr_po _ _ _ _ _ _ _ _ Hrep)| |by rewrite H1, lookup_insert_eq|done..|].
  { intros l ->.
    assert (heap s !! l = Some (HBytes (partial a))) as Hl.
    { eapply owns_lookup; [apply (dr_owns _ _ _ _ _ _ _ _ Hrep)|]. right. by left. }
    rewrite H1. assert (t ≠ l) by congruence. by rewrite lookup_insert_ne. }
  intros bytes r Hr Hlen s2 F2 T2 H2. rewrite (frame_umem _ _ F1) in Hr. rewrite Hr.
  rewrite H1, insert_insert_eq in H2.
  assert (frame s s2) as F02 by (by transitivity s1).
  destruct (copy_from_user_spec _ _ _ _ _ _ Hcount Hr) as (Hr0 & _ & Hread).
  destruct (Z.eqb_spec r 0) as [->|Hrn]; cbn [negb].
  2:{ apply wp_bind. eapply wp_kfree; [by rewrite H2, lookup_insert_eq|].
      intros s3 F3 _ H3. rewrite wp_ret. assert (frame s s3) as F by (by transitivity s2).
      split; [apply F|]. split; [done|]. split; [done|]. exists pb, b, po, ls.
      eapply dev_rep_quiet; [done|]. split; [done|]. by rewrite H3, H2, delete_insert_id. }
  apply wp_bind. eapply wp_buffer_print; [by rewrite H2, lookup_insert_eq|lia|lia| |lia|].
  { rewrite length_app. lia. }
  intros s3 [F3 H3] _.
  assert (partial a ++ bytes ≠ []) as Hne.
  { intros Hnil. apply (f_equal length) in Hnil. rewrite length_app in Hnil. simpl in Hnil. lia. }
  destruct (last (partial a ++ bytes)) as [c|] eqn:Hlast; [|by apply last_None in Hlast].
  apply wp_bind. eapply (wp_load_byte _ (partial a ++ bytes) _ c);
    [by rewrite H3, H2, lookup_insert_eq|lia| |].
  { rewrite <- (last_lookup_Z _ _ Hlast). f_equal. rewrite length_app. lia. }
  apply wp_bind, wp_printk. intros s4 [F4 H4] _ _.
  assert (frame s s4) as F04 by (transitivity s2; [done|by transitivity s3]).
  rewrite uwrap_small by lia.
  replace (Z.of_nat (length (partial a)) + count)
    with (Z.of_nat (length (partial a ++ bytes))) by (rewrite length_app; lia).
  apply wp_bind2. rewrite (frame_entry _ _ F1).
  eapply wp_mono; [eapply wp_write_replace; [done|done|exact F04|congruence|done]|].
  cbn beta. intros _ s5 [U5 Hrep5].
  rewrite wp_bind. eapply wp_mono; [eapply wp_write_commit; [done| |]|].
  { split; cbn; [apply Ha|done|lia]. }
  { rewrite length_app. lia. }
  cbn beta. intros _ s6 [Hrep6 U6]. rewrite wp_ret. rewrite !swrap_small by lia.
  split; [congruence|]. split; [done|].
  rewrite Z.sub_0_r, firstn_all2 in Hread by lia. done.
Qed.

Lemma write_refines s a G filp buff count pos :
  represents s a G → private_data filp = AesdDevice →
  0 ≤ count →
  (mutex_lock_interrupted (tick s) = false → 0 < count + Z.of_nat (length (partial a))) →
  0 ≤ pos → pos + count < 2 ^ 63 →
  wp (aesd_write filp buff count pos) s (write_post s a G buff count pos).
Proof.
  intros (Ha & pb & b & po & ls & Hrep) Hpd Hcount Hnz Hpos Hsum.
  unfold aesd_write, write_post, write_decision. rewrite Hpd. cbn [deref_dev].
  apply wp_bind, wp_printk. intros s1 Hq1 T1 _. rewrite wp_bind, wp_gets.
  pose proof (dev_rep_quiet _ _ _ _ _ _ _ _ _ Hrep Hq1) as Hrep1. apply wp_bind.
  apply (wp_lock_rep _ _ _ _ _ _ _ _ Hrep1); rewrite T1; intros Hint; rewrite Hint.
  { intros s2 Hq2. change (negb (- EINTR =? 0)) with true. cbn match. rewrite wp_ret.
    assert (quiet s s2) as Hq by (by transitivity s1).
    split; [apply Hq|]. split; [done|]. split; [done|].
    exists pb, b, po, ls. by eapply dev_rep_quiet. }
  specialize (Hnz Hint).
  intros s2 Hrep2 H2 U2 T2. cbn [Z.eqb negb]. rewrite wp_bind, wp_gets.
  destruct Hq1 as [F1 H1]. rewrite H1 in H2. rewrite (frame_umem _ _ F1) in U2.
  rewrite (dev_rep_entry_size _ _ _ _ _ _ _ _ Hrep) in *.
  rewrite (dev_rep_entry_size _ _ _ _ _ _ _ _ Hrep2).
  rewrite (uwrap_small 64 (count + Z.of_nat (length (partial a)))) by (destruct Ha; pose proof kmalloc_max; lia).
  apply wp_bind, wp_kmalloc; [lia|..]; rewrite T2, H2.
  - intros -> s3 Hq3 _. cbn [is_null]. rewrite wp_bind, wp_ret, wp_bind.
    eapply wp_unlock_rep; [split; [done|]; do 4 eexists; by eapply dev_rep_quiet|].
    intros s4 U4 R4. rewrite wp_ret.
    split; [|done]. by rewrite U4, (frame_umem _ _ (proj1 Hq3)).
  - intros t dt Hk Ht Hdt Hmax s3 F3 T3 H3. rewrite Hk. cbn [is_null]. apply wp_bind.
    pose proof (wp_write_critical s2 a G pb b po ls buff count pos t dt s3) as Hcrit.
    cbn zeta in Hcrit. rewrite (dev_rep_entry_size _ _ _ _ _ _ _ _ Hrep2) in Hcrit.
    eapply wp_mono; [apply Hcrit; first [done|lia|congruence]|].
    cbn beta. rewrite T3, U2. intros res s4 [U4 Hres]. rewrite wp_bind.
    destruct (copy_from_user_result (S (S (tick s))) (umem s) buff count) as [bytes r].
    destruct (r =? 0); [destruct Hres as (-> & Hread & Hr)|destruct Hres as (-> & Hr)];
      (eapply wp_unlock_rep; [done|]; intros s5 U5 R5; rewrite wp_ret;
       split; [congruence|done]).
Qed.
End write.

Section empty.
Context {K : KernelApi} {L : KernelLaws K}.

Lemma write_empty_ub s a G filp buff pos :
  represents s a G → private_data filp = AesdDevice → partial a = [] →
  mutex_lock_interrupted (tick s) = false →
  aesd_write filp buff 0 pos s = UB NullDeref.
Proof.
  intros Hrep Hopen Hnone Hlock.
  destruct Hrep as (Ha & pb & b & po & ls & [_ Hlk _ He Hpo _ _ _ _]).
  rewrite (proj2 Hpo Hnone) in He. cbn [partial_entry] in He.
  unfold aesd_write. rewrite Hopen.
  erewrite bind_eval by done. erewrite bind_eval by done.
  destruct (mutex_lock_eval (mk_kstate (heap s) (umem s) (klog s ++ [KWrite 0 pos]) (tick s)
    (dev s) (full_user_entry s) (aesd_major s) (region s)) Hlk Hlock) as (s2 & E2 & _ & He2).
  erewrite bind_eval by exact E2. cbn [Z.eqb negb]. erewrite bind_eval by done.
  rewrite He2, He. cbn [full_user_entry null_entry size buffptr].
  erewrite bind_eval by done. cbn [is_null].
  apply bind_ub. erewrite bind_eval by done.
  set (s3 := mk_kstate _ _ _ _ _ _ _ _).
  destruct (copy_from_user_zero ZERO_SIZE_PTR 0 buff s3) as [s4 E4].
  erewrite bind_eval by exact E4. cbn [Z.eqb negb].
  assert (wp (aesd_buffer_print "\nReceived from the user" ZERO_SIZE_PTR 0 0) s4 (λ _ _, True))
    as (? & s5 & E5 & _)%wp_run by (by apply wp_buffer_print_any; [left|..]).
  erewrite bind_eval by exact E5. by apply bind_ub.
Qed.
End empty.

(** ** The contract of [aesd_write] *)

(** C2: for every kernel that keeps its documented laws, [aesd_write] of a non-empty
    request on an open file terminates without undefined behaviour and with the mutex
    released.  When the kernel refuses the mutex, the memory or the copy, it returns
    the corresponding error and the device is as before; otherwise it returns
    [count], advances the position by [count], and the device is the abstract device
    after writing exactly the user's bytes.  The memory [G] outside the device is
    the same in every case: nothing is leaked. *)
Theorem aesd_write_correct {K : KernelApi} {L : KernelLaws K} (s : kstate) (a : adev)
    (G : gmap positive hval) (filp : file) (buff count pos : Z)
    (Hrep : represents s a G) (Hopen : private_data filp = AesdDevice)
    (Hcount : 0 ≤ count) (Hwork : count ≠ 0 ∨ partial a ≠ [])
    (Hpos : 0 ≤ pos ∧ pos + count < 2 ^ 63) :
  ∃ ret pos' s', aesd_write filp buff count pos s = Ret ((ret, pos'), s') ∧
    umem s' = umem s ∧
    match write_decision s buff count with
    | WErr e => ret = - e ∧ pos' = pos ∧ represents s' a G
    | WOk bytes => ret = count ∧ pos' = pos + count ∧
        umem_read (umem s) buff (Z.to_nat count) = Some bytes ∧
        represents s' (spec_write a bytes) G
    end.
Proof.
  assert (0 < count + Z.of_nat (length (partial a))).
  { destruct Hwork as [|Hp]; [lia|]. destruct (partial a); [done|]. simpl. lia. }
  destruct (proj1 (wp_run _ _ _) (write_refines s a G filp buff count pos
    Hrep Hopen Hcount (λ _, ltac:(done)) (proj1 Hpos) (proj2 Hpos))) as ([ret pos'] & s' & E & U & H').
  exists ret, pos', s'. split; [done|]. split; [done|].
  destruct (write_decision s buff count); destruct H' as ([= -> ->] & H'); done.
Qed.

(** An empty request while no command is under assembly reads one byte before the
    block that [kmalloc(0)] stands for: the kernel oopses instead of returning 0. *)
Theorem aesd_write_empty_faults {K : KernelApi} {L : KernelLaws K} (s : kstate) (a : adev)
    (G : gmap positive hval) (filp : file) (buff pos : Z)
    (Hrep : represents s a G) (Hopen : private_data filp = AesdDevice)
    (Hnone : partial a = []) (Hlock : mutex_lock_interrupted (tick s) = false) :
  aesd_write filp buff 0 pos s = UB NullDeref.
Proof. by eapply write_empty_ub. Qed.
