(* ===== verification/CharDriverRead.v ===== *)
(** * [aesd_read] implements the abstract read *)

From stdpp Require Import base list gmap option strings.
From Stdlib Require Import ZArith Lia.
From S2P Require Import Prelude CircularBuffer CircularBufferSpec Kernel CharDriver.
From S2P Require Import KernelRules CharDriverSpec.
#[local] Open Scope Z_scope.

Section read.
Context `{K : KernelApi}.

(** What a read has done when it returns.  Whenever the bounce buffer was allocated it
    is never freed: it joins the memory that belongs to nobody.  The whole rest of the
    command is copied to the user, whatever [count] is. *)
Definition read_found_post (t0 : nat) (s : kstate) (a : adev) (G : gmap positive hval)
    (lk : mutex) (data : list Byte.byte) (buff count pos : Z) (res : Z * Z) (s' : kstate) : Prop :=
  match kmalloc_result t0 (heap s) (Z.of_nat (length data)) with
  | None => res = (- EFAULT, pos) ∧ umem s' = umem s ∧ represents_locked lk s' a G
  | Some (t, _) =>
    let '(m', r) := copy_to_user_result (3 + t0) (umem s) buff data in
    res = (if r =? 0 then (Z.min count (Z.of_nat (length data)), pos + Z.of_nat (length data))
           else (- EFAULT, pos)) ∧
    umem s' = m' ∧ G !! t = None ∧ represents_locked lk s' a (<[t := HBytes data]> G)
  end.

Definition read_post (s : kstate) (a : adev) (G : gmap positive hval) (buff count pos : Z)
    (res : Z * Z) (s' : kstate) : Prop :=
  let data := spec_read (commands a) pos in
  if mutex_lock_interrupted (tick s) then
    res = (- ERESTARTSYS, pos) ∧ umem s' = umem s ∧ represents s' a G
  else if decide (data = []) then res = (0, pos) ∧ umem s' = umem s ∧ represents s' a G
  else read_found_post (S (tick s)) s a G MutexFree data buff count pos res s'.

Context {L : KernelLaws K}.

(** The bounce buffer receives the rest of the command. *)
Lemma wp_read_bounce s s1 l c r t dt Q :
  heap s !! l = Some (HBytes c) → 0 ≤ r < Z.of_nat (length c) → heap s !! t = None →
  Z.of_nat (length dt) = Z.of_nat (length c) - r → heap s1 = <[t := HBytes dt]> (heap s) →
  (∀ s2, frame s1 s2 → tick s2 = tick s1 →
     heap s2 = <[t := HBytes (drop (Z.to_nat r) c)]> (heap s) → Q tt s2) →
  wp (memcpy (Blk t) 0 (Blk l) r (Z.of_nat (length c) - r)) s1 Q.
Proof.
  intros Hl Hr Ht Hdt H1 HQ. unfold memcpy. rewrite (proj2 (Z.eqb_neq _ _)) by lia.
  assert (t ≠ l) by congruence.
  apply wp_bind. eapply wp_load_bytes; [by rewrite H1, lookup_insert_ne|lia..|].
  rewrite firstn_all2 by (rewrite length_drop; lia).
  eapply wp_store_bytes; [by rewrite H1, lookup_insert_eq|lia|rewrite length_drop; lia|].
  intros s2 F2 T2 H2. apply HQ; [done|done|].
  rewrite H2, H1, insert_insert_eq, take_0, (drop_ge dt), app_nil_r; [done|].
  rewrite length_drop. lia.
Qed.

Lemma wp_read_entry s a G pb b po ls l c k r buff count pos :
  dev_rep MutexHeld s a G pb b po ls → adev_wf a →
  ls !! k = Some l → commands a !! k = Some c → 0 ≤ r < Z.of_nat (length c) →
  0 ≤ count < 2 ^ 63 → 0 ≤ pos → pos + Z.of_nat (length c) < 2 ^ 63 →
  wp (aesd_read_entry (cmd_entry l c) r buff count pos) s
     (read_found_post (tick s) s a G MutexHeld (drop (Z.to_nat r) c) buff count pos).
Proof.
  intros Hrep Ha Hl Hc Hr Hcount Hpos Hsum. pose proof kmalloc_max as Hkm.
  assert (heap s !! l = Some (HBytes c)) as Hlc.
  { eapply owns_lookup; [apply (dr_owns _ _ _ _ _ _ _ _ Hrep)|].
    unfold blocks. right. apply elem_of_app. right. apply list_elem_of_lookup.
    exists k. unfold command_blocks. rewrite lookup_zip_with, list_lookup_fmap, Hl, Hc. done. }
  assert (Z.of_nat (length c) ≤ KMALLOC_MAX_SIZE) as Hcm.
  { pose proof (proj1 (Forall_lookup _ _) (aw_commands _ Ha) _ _ Hc) as [_ H]. done. }
  unfold aesd_read_entry, read_found_post. cbn [cmd_entry size buffptr].
  rewrite (uwrap_small 64 (Z.of_nat (length c) - r)) by lia.
  assert (Z.of_nat (length (drop (Z.to_nat r) c)) = Z.of_nat (length c) - r) as Hdata
    by (rewrite length_drop; lia).
  rewrite Hdata. apply wp_bind, wp_kmalloc; [lia|..].
  { intros -> s1 Hq _. cbn [is_null]. rewrite wp_ret. split; [done|].
    split; [apply Hq|]. split; [done|]. do 4 eexists. by eapply dev_rep_quiet. }
  intros t dt -> Ht Hdt _ s1 F1 T1 H1. cbn [is_null]. apply wp_bind.
  eapply (wp_read_bounce s s1 l c r t dt); [done..|lia|done|]. intros s2 F2 T2 H2.
  assert (t ≠ l) by congruence. apply wp_bind.
  eapply wp_buffer_print; [by rewrite H2, lookup_insert_ne|lia..|]. intros s3 [F3 H3] T3.
  apply wp_bind. eapply wp_buffer_print;
    [by rewrite H3, H2, lookup_insert_eq|lia..|]. intros s4 [F4 H4] T4.
  assert (frame s s4) as F.
  { transitivity s1; [done|]. transitivity s2; [done|]. by transitivity s3. }
  apply wp_bind. eapply wp_copy_to_user; [by rewrite H4, H3, H2, lookup_insert_eq|lia|].
  rewrite firstn_all2 by lia. rewrite T4, T3, T2, T1, (frame_umem _ _ F).
  intros m' r' Hcopy s5 H5 U5 _ D5 E5.
  change (3 + tick s)%nat with (S (S (S (tick s)))). rewrite Hcopy.
  assert (G !! t = None ∧ represents_locked MutexHeld s5 a
            (<[t := HBytes (drop (Z.to_nat r) c)]> G)) as HG.
  { pose proof (owns_alloc _ _ _ t (HBytes (drop (Z.to_nat r) c))
      (dr_owns _ _ _ _ _ _ _ _ Hrep) Ht) as Ho.
    split; [by eapply owns_leak_fresh|]. split; [done|]. exists pb, b, po, ls.
    destruct Hrep as [Hpb Hlk Hw He Hpo Hwf Hcn Hlen _].
    split; rewrite ?D5, ?E5, ?(frame_dev _ _ F), ?(frame_entry _ _ F); try done.
    rewrite H5, H4, H3, H2. by apply owns_leak. }
  destruct (Z.eqb_spec r' 0) as [->|Hne]; cbn [negb].
  - rewrite wp_ret. split; [|done].
    destruct (Z.ltb_spec (Z.of_nat (length c) - r) count); rewrite !swrap_small by lia;
      f_equal; lia.
  - by rewrite wp_ret.
Qed.

(** The search under the mutex, and what the handler does with its result. *)
Lemma wp_read_critical s a G pb b po ls buff count pos :
  dev_rep MutexHeld s a G pb b po ls → adev_wf a →
  0 ≤ count < 2 ^ 63 → 0 ≤ pos < 2 ^ 63 →
  wp (b ← buffer_arg (Blk pb);
      '(entry, entry_offset) ←
        mlift (aesd_circular_buffer_find_entry_offset_for_fpos b (u64 pos));
      match entry, b with
      | Some i, Some b =>
        entry ← mlift (entry_at b i);
        aesd_read_entry entry entry_offset buff count pos
      | _, _ => printk KNotFound;; mret (0, pos)
      end) s
     (λ res s',
        let data := spec_read (commands a) pos in
        if decide (data = []) then
          res = (0, pos) ∧ umem s' = umem s ∧ represents_locked MutexHeld s' a G
        else read_found_post (tick s) s a G MutexHeld data buff count pos res s').
Proof.
  intros Hrep Ha Hcount Hpos. cbn zeta.
  destruct (dev_rep_small _ _ _ _ _ _ _ _ Hrep Ha) as (Hok & Hsmall & Hts).
  pose proof Hrep as [_ _ _ _ _ Hwf Hcn Hlen Ho].
  apply wp_bind. cbn [buffer_arg]. apply wp_bind.
  eapply wp_load_buffer; [eapply owns_lookup; [exact Ho|by left]|].
  rewrite wp_ret, wp_bind, wp_lift. rewrite (uwrap_small 64 pos) by lia.
  rewrite (find_refines b Hwf Hok Hsmall pos) by lia. cbn [owp].
  pose proof (spec_find_read ls (commands a) pos Hlen ltac:(lia)) as Hf. rewrite <- Hcn in Hf.
  destruct (spec_find (contents b) pos) as [[k r]|] eqn:Es.
  - destruct Hf as (l & c & Hl & Hc & Hr & Hd).
    assert (contents b !! k = Some (cmd_entry l c)) as Hk
      by (rewrite Hcn, lookup_zip_with, Hl, Hc; done).
    rewrite wp_bind, wp_lift, (contents_lookup b Hwf _ _ Hk). cbn [owp].
    assert (Z.of_nat (length c) ≤ KMALLOC_MAX_SIZE) as Hcm.
    { pose proof (proj1 (Forall_lookup _ _) (aw_commands _ Ha) _ _ Hc) as [_ H]. done. }
    pose proof kmalloc_max. pose proof (spec_find_lt _ _ _ _ Hok Es). rewrite Hd. destruct (decide _) as [Hnil|_].
    + apply (f_equal length) in Hnil. rewrite length_drop in Hnil. simpl in Hnil. lia.
    + eapply wp_read_entry; [done..|lia|lia].
  - rewrite Hf. destruct (decide _) as [_|Hn]; [|done].
    apply wp_bind, wp_printk. intros s' Hq _ _. rewrite wp_ret.
    split; [done|]. split; [apply Hq|]. split; [done|].
    do 4 eexists. by eapply dev_rep_quiet.
Qed.

Lemma read_refines s a G filp buff count pos :
  represents s a G → private_data filp = AesdDevice →
  0 ≤ count < 2 ^ 63 → 0 ≤ pos < 2 ^ 63 →
  wp (aesd_read filp buff count pos) s (read_post s a G buff count pos).
Proof.
  intros (Ha & pb & b & po & ls & Hrep) Hpd Hcount Hpos.
  unfold aesd_read, read_post. rewrite Hpd. cbn [deref_dev].
  apply wp_bind, wp_printk. intros s1 Hq1 T1 _. rewrite wp_bind, wp_gets.
  pose proof (dev_rep_quiet _ _ _ _ _ _ _ _ _ Hrep Hq1) as Hrep1. apply wp_bind.
  apply (wp_lock_rep _ _ _ _ _ _ _ _ Hrep1); rewrite T1; intros Hint; rewrite Hint.
  { intros s2 Hq2. change (negb (- EINTR =? 0)) with true. cbn match. rewrite wp_ret.
    assert (quiet s s2) as Hq by (by transitivity s1).
    split; [done|]. split; [apply Hq|]. split; [done|]. do 4 eexists. by eapply dev_rep_quiet. }
  intros s2 Hrep2 H2 U2 T2. cbn [Z.eqb negb]. rewrite wp_bind, wp_gets.
  destruct Hq1 as [F1 H1]. rewrite H1 in H2. rewrite (frame_umem _ _ F1) in U2.
  rewrite (dr_pbuffer _ _ _ _ _ _ _ _ Hrep2).
  pose proof (wp_read_critical _ _ _ _ _ _ _ buff count pos Hrep2 Ha Hcount Hpos) as Hcrit.
  rewrite wp_bind in Hcrit. rewrite wp_bind. eapply wp_mono; [exact Hcrit|].
  cbn beta. intros ob s3 H3. rewrite wp_bind in H3. rewrite wp_bind.
  eapply wp_mono; [exact H3|]. cbn beta. intros [oi eo] s4 H4. rewrite wp_bind.
  eapply wp_mono; [exact H4|]. cbn beta zeta. unfold read_found_post. rewrite T2, H2, U2.
  intros res s5 H5. rewrite wp_bind. destruct (decide (spec_read (commands a) pos = [])).
  { destruct H5 as (-> & U5 & R5). eapply wp_unlock_rep; [done|].
    intros s6 U6 R6. rewrite wp_ret. split; [done|]. split; [congruence|done]. }
  destruct (kmalloc_result _ _ _) as [[t dt]|].
  - destruct (copy_to_user_result _ _ _ _) as [m' r]. destruct H5 as (-> & U5 & HG & R5).
    eapply wp_unlock_rep; [done|]. intros s6 U6 R6. rewrite wp_ret.
    split; [done|]. split; [congruence|done].
  - destruct H5 as (-> & U5 & R5). eapply wp_unlock_rep; [done|].
    intros s6 U6 R6. rewrite wp_ret. split; [done|]. split; [congruence|done].
Qed.
End read.

(** ** The contract of [aesd_read] *)

(** How a read ends: what the services the driver asks, in its order, make of it. *)
Inductive read_outcome : Type :=
  | RInterrupted
  | REnd
  | RNoMemory
  | RFault (t : positive) (copied : nat)
  | RDelivered (t : positive).

(** The decisions of the kernel and of the position: the wait on the mutex, the end of the
    data, the bounce buffer for exactly the rest of the command, the copy of all of it. *)
Definition read_decision {K : KernelApi} (s : kstate) (a : adev) (buff pos : Z) : read_outcome :=
  let data := spec_read (commands a) pos in
  if mutex_lock_interrupted (tick s) then RInterrupted
  else if decide (data = []) then REnd
  else match kmalloc_result (S (tick s)) (heap s) (Z.of_nat (length data)) with
       | None => RNoMemory
       | Some (t, _) =>
         let r := snd (copy_to_user_result (4 + tick s) (umem s) buff data) in
         if r =? 0 then RDelivered t else RFault t (length data - Z.to_nat r)
       end.

(** The result with the new position, the user's memory and the memory that nobody owns. *)
Definition read_effect (s : kstate) (a : adev) (G : gmap positive hval) (buff count pos : Z)
    (o : read_outcome) : Z * Z * gmap Z Byte.byte * gmap positive hval :=
  let data := spec_read (commands a) pos in
  match o with
  | RInterrupted => (- ERESTARTSYS, pos, umem s, G)
  | REnd => (0, pos, umem s, G)
  | RNoMemory => (- EFAULT, pos, umem s, G)
  | RFault t n => (- EFAULT, pos, umem_write (umem s) buff (take n data), <[t := HBytes data]> G)
  | RDelivered t => (Z.min count (Z.of_nat (length data)), pos + Z.of_nat (length data),
                     umem_write (umem s) buff data, <[t := HBytes data]> G)
  end.

(** C3: for every kernel that keeps its documented laws, [aesd_read] on an open file
    terminates without undefined behaviour, with the mutex released and the stored commands
    unchanged, and its outcome is the one the kernel's answers call for: the error of an
    interrupted wait, 0 exactly when there is no data at the position, [-EFAULT] exactly
    when [kmalloc] finds no memory or [copy_to_user] does not copy everything, and
    otherwise the whole rest of the command in the user's memory, the position behind it,
    and the smaller of [count] and its length.  Every read that finds data leaks its bounce
    buffer. *)
Theorem aesd_read_correct {K : KernelApi} {L : KernelLaws K} (s : kstate) (a : adev)
    (G : gmap positive hval) (filp : file) (buff count pos : Z)
    (Hrep : represents s a G) (Hopen : private_data filp = AesdDevice)
    (Hcount : 0 ≤ count < 2 ^ 63) (Hpos : 0 ≤ pos < 2 ^ 63) :
  ∃ s' G', aesd_read filp buff count pos s =
    Ret ((read_effect s a G buff count pos (read_decision s a buff pos)).1.1, s') ∧
    umem s' = (read_effect s a G buff count pos (read_decision s a buff pos)).1.2 ∧
    G' = (read_effect s a G buff count pos (read_decision s a buff pos)).2 ∧
    represents s' a G'.
Proof.
  destruct (proj1 (wp_run _ _ _) (read_refines s a G filp buff count pos
    Hrep Hopen Hcount Hpos)) as (res & s' & E & H').
  exists s'. rewrite E. unfold read_post, read_found_post in H'. unfold read_effect, read_decision.
  destruct (mutex_lock_interrupted (tick s)); [destruct H' as (-> & U & R); by eexists|].
  destruct (decide _) as [Hd|Hd]; [destruct H' as (-> & U & R); by eexists|].
  destruct (kmalloc_result _ _ _) as [[t dt]|]; [|destruct H' as (-> & U & R); by eexists].
  change (3 + S (tick s))%nat with (4 + tick s)%nat in H'.
  destruct (copy_to_user_result _ _ _ _) as [m' r] eqn:Ec. destruct H' as (-> & U & HG & R).
  destruct (copy_to_user_spec _ _ _ _ _ _ Ec) as (Hr & Hm). rewrite U, Hm. cbn [snd].
  destruct (Z.eqb_spec r 0) as [Hr0|Hr0]; [|by eexists].
  rewrite Hr0, Nat.sub_0_r, firstn_all. by eexists.
Qed.

(** Every read that finds data leaks its bounce buffer: the block [kmalloc] returned
    still holds the data afterwards and belongs to nobody, also when the copy fails. *)
Theorem aesd_read_leaks_bounce_buffer {K : KernelApi} {L : KernelLaws K} (s : kstate) (a : adev)
    (G : gmap positive hval) (filp : file) (buff count pos : Z) (t : positive)
    (junk : list Byte.byte)
    (Hrep : represents s a G) (Hopen : private_data filp = AesdDevice)
    (Hcount : 0 ≤ count < 2 ^ 63) (Hpos : 0 ≤ pos < 2 ^ 63)
    (Hlock : mutex_lock_interrupted (tick s) = false)
    (Hdata : spec_read (commands a) pos ≠ [])
    (Halloc : kmalloc_result (S (tick s)) (heap s)
                (Z.of_nat (length (spec_read (commands a) pos))) = Some (t, junk)) :
  ∃ res s', aesd_read filp buff count pos s = Ret (res, s') ∧ G !! t = None ∧
    represents s' a (<[t := HBytes (spec_read (commands a) pos)]> G).
Proof.
  destruct (proj1 (wp_run _ _ _) (read_refines s a G filp buff count pos
    Hrep Hopen Hcount Hpos)) as (res & s' & E & H').
  exists res, s'. split; [done|]. unfold read_post, read_found_post in H'.
  rewrite Hlock, decide_False, Halloc in H' by done.
  destruct (copy_to_user_result _ _ _ _) as [m' r]. by destruct H' as (_ & _ & HG & R).
Qed.

Lemma umem_write_lookup m a l (i : nat) x :
  l !! i = Some x → umem_write m a l !! (a + Z.of_nat i) = Some x.
Proof.
  revert a i. induction l as [|y l IH]; intros a [|i]; simpl; try done.
  - intros [= ->]. rewrite Z.add_0_r. by rewrite lookup_insert_eq.
  - intros H. rewrite lookup_insert_ne by lia. rewrite <- (IH (a + 1) i H). f_equal. lia.
Qed.

(** A read with a [count] smaller than the rest of the command writes past the
    user's buffer: every byte of the rest arrives in user memory, also those from
    [buff + count] on, the return value is [count] only, and the position moves past
    characters the caller was not told about. *)
Theorem aesd_read_overruns_small_count {K : KernelApi} {L : KernelLaws K} (s : kstate)
    (a : adev) (G : gmap positive hval) (filp : file) (buff count pos : Z) (res : Z * Z)
    (s' : kstate)
    (Hrep : represents s a G) (Hopen : private_data filp = AesdDevice)
    (Hpos : 0 ≤ pos < 2 ^ 63)
    (Hcount : 0 ≤ count < 2 ^ 63) (Hsmall : count < Z.of_nat (length (spec_read (commands a) pos)))
    (Hrun : aesd_read filp buff count pos s = Ret (res, s')) (Hok : 0 < fst res) :
  fst res = count ∧ snd res = pos + Z.of_nat (length (spec_read (commands a) pos)) ∧
  ∀ i x, spec_read (commands a) pos !! i = Some x → umem s' !! (buff + Z.of_nat i) = Some x.
Proof.
  pose proof (read_refines s a G filp buff count pos Hrep Hopen Hcount Hpos) as H.
  unfold wp in H. rewrite Hrun in H. unfold read_post, read_found_post, EFAULT, ERESTARTSYS in H.
  destruct (mutex_lock_interrupted (tick s)); [destruct H as [-> _]; simpl in Hok; lia|].
  destruct (decide _); [destruct H as [-> _]; simpl in Hok; lia|].
  destruct (kmalloc_result _ _ _) as [[t dt]|]; [|destruct H as [-> _]; simpl in Hok; lia].
  destruct (copy_to_user_result _ _ _ _) as [m' r] eqn:Ec. destruct H as (Hres & U & _).
  destruct (Z.eqb_spec r 0) as [->|_]; rewrite Hres in Hok |- *; simpl in Hok |- *; [|lia].
  destruct (copy_to_user_spec _ _ _ _ _ _ Ec) as (_ & Hm).
  split; [lia|]. split; [done|]. intros i x Hi.
  rewrite U, Hm, Nat.sub_0_r, firstn_all. by apply umem_write_lookup.
Qed.
