(* ===== verification/CharDriverLife.v ===== *)
(** * Loading, unloading, seeking and closing *)

From stdpp Require Import base list gmap option strings.
From Stdlib Require Import ZArith Lia.
From S2P Require Import Prelude CircularBuffer CircularBufferSpec Kernel CharDriver.
From S2P Require Import KernelRules CharDriverSpec.
#[local] Open Scope Z_scope.

(** ** Loading *)

Section init.
Context `{K : KernelApi}.

(** What [aesd_init_module] leaves, by the kernel's three decisions. *)
Definition init_post (s : kstate) (ret : Z) (s' : kstate) : Prop :=
  let '(result, major) := alloc_chrdev_region_result (tick s) in
  if result <? 0 then ret = result ∧ heap s' = heap s ∧ region s' = region s
  else
    match kmalloc_result (S (tick s)) (heap s) sizeof_circular_buffer with
    | None => ret = - ENOMEM ∧ heap s' = heap s ∧ region s' = false
    | Some (pb, _) =>
      let err := cdev_add_result (S (S (tick s))) in
      if err =? 0 then
        ret = 0 ∧ region s' = true ∧ cdev (dev s') = true ∧ aesd_major s' = major ∧
        represents s' empty_adev (heap s)
      else
        ret = err ∧ region s' = false ∧ cdev (dev s') = false ∧
        heap s !! pb = None ∧ heap s' = <[pb := HBuf empty_buffer]> (heap s)
    end.

Context {L : KernelLaws K}.

Lemma wp_init_buffer_at l d s Q :
  heap s !! l = Some (HBytes d) → sizeof_circular_buffer ≤ Z.of_nat (length d) →
  (∀ s', frame s s' → tick s' = tick s → heap s' = <[l := HBuf empty_buffer]> (heap s) →
     Q tt s') →
  wp (init_buffer_at (Blk l)) s Q.
Proof.
  intros Hl Hd HQ. unfold init_buffer_at. rewrite wp_bind, wp_gets, Hl, decide_True by done.
  rewrite wp_bind, wp_lift, init_eval. cbn [owp]. unfold set_heap. rewrite wp_modify. by apply HQ.
Qed.

Lemma adev_wf_empty : 0 ≤ KMALLOC_MAX_SIZE → adev_wf empty_adev.
Proof. intros H. split; cbn; [constructor|done|lia]. Qed.

Lemma init_rep s pb G :
  pbuffer (dev s) = Blk pb → lock (dev s) = MutexFree → buff_size (dev s) = 0 →
  full_user_entry s = null_entry → G !! pb = None → heap s = <[pb := HBuf empty_buffer]> G →
  0 ≤ KMALLOC_MAX_SIZE → represents s empty_adev G.
Proof.
  intros Hp Hl Hs He HG Hh Hk. split; [by apply adev_wf_empty|].
  exists pb, empty_buffer, None, []. split; try done.
  unfold blocks. cbn. rewrite Hh. apply owns_alloc; [|done].
  split; [|constructor|].
  - cbn. symmetry. apply map_empty_union.
  - intros l Hin. cbn in Hin. by apply not_elem_of_nil in Hin.
Qed.

Lemma init_refines s :
  full_user_entry s = null_entry → wp aesd_init_module s (init_post s).
Proof.
  intros He. unfold aesd_init_module, init_post. rewrite wp_bind. cbn -[Z.ltb sizeof_circular_buffer].
  destruct (alloc_chrdev_region_result (tick s)) as [result major].
  rewrite wp_bind. unfold set_aesd_major. rewrite wp_modify.
  destruct (result <? 0).
  { apply wp_bind, wp_printk. intros s' [[] Hh] _ _. rewrite wp_ret. done. }
  unfold set_region, unregister_chrdev_region, set_region, set_dev.
  rewrite wp_bind, wp_modify, wp_bind, wp_modify. apply wp_bind, wp_kmalloc; [done|..].
  { cbn [tick heap]. change (1 * sizeof_circular_buffer) with sizeof_circular_buffer.
    intros -> s1 [F1 H1] T1. rewrite wp_bind, wp_modify. cbn [is_null].
    rewrite wp_bind, wp_modify, wp_ret. cbn. done. }
  cbn [tick heap]. change (1 * sizeof_circular_buffer) with sizeof_circular_buffer.
  intros pb d Hk Hf Hd Hm s1 F1 T1 H1. rewrite Hk. rewrite wp_bind, wp_modify. cbn [is_null].
  apply wp_bind. eapply wp_init_buffer_at; [cbn; by rewrite H1, lookup_insert_eq|lia|].
  cbn [tick heap]. intros s2 F2 T2 H2. rewrite H1, insert_insert_eq in H2.
  cbn [tick] in T1. destruct F1 as [_ D1 E1 M1 R1], F2 as [_ D2 E2 M2 R2]. cbn in *.
  rewrite wp_bind, wp_modify. unfold aesd_setup_cdev. rewrite wp_bind, wp_bind. cbn -[Z.eqb].
  rewrite T2, T1. destruct (Z.eqb_spec (cdev_add_result (S (S (tick s)))) 0) as [->|Hne]; cbn [negb].
  - unfold set_dev. rewrite wp_bind, wp_modify, wp_ret. cbn [Z.eqb negb]. rewrite wp_ret. cbn.
    split; [done|]. split; [congruence|]. split; [done|]. split; [congruence|].
    eapply (init_rep _ pb); cbn; rewrite ?D2, ?D1; try done; [congruence|].
    unfold sizeof_circular_buffer in *. lia.
  - apply wp_bind, wp_printk. intros s3 [F3 H3] _ _. rewrite wp_ret.
    rewrite (proj2 (Z.eqb_neq _ _)) by done. cbn [negb]. rewrite wp_bind, wp_modify, wp_ret.
    destruct F3 as [_ D3 _ _ _]. cbn in *. rewrite D3, H3, D2, D1. done.
Qed.
End init.

(** ** Unloading *)

Lemma command_blocks_app ls1 cs1 ls2 cs2 :
  length ls1 = length cs1 →
  command_blocks (ls1 ++ ls2) (cs1 ++ cs2) = command_blocks ls1 cs1 ++ command_blocks ls2 cs2.
Proof.
  intros Hlen. unfold command_blocks. rewrite fmap_app, zip_with_app; [done|].
  by rewrite length_fmap.
Qed.

(** The array itself holds the same strings, in another order, and [NULL] after them. *)
Lemma entries_in_array_order b ls cs :
  wf b → contents b = zip_with cmd_entry ls cs → length ls = length cs →
  ∃ ls' cs' n, length ls' = length cs' ∧
    entry b = zip_with cmd_entry ls' cs' ++ replicate n null_entry ∧
    Permutation (command_blocks ls' cs') (command_blocks ls cs).
Proof.
  intros [Hl Hin Hout Hun] Hc Hlen. unfold contents in Hc. destruct (full b) eqn:Hf.
  - set (o := Z.to_nat (out_offs b)) in Hc. set (m := length (drop o (entry b))).
    exists (drop m ls ++ take m ls), (drop m cs ++ take m cs), 0%nat. split.
    { rewrite !length_app, !length_drop, !length_take, Hlen. done. }
    rewrite zip_with_app, <- zip_with_drop, <- zip_with_take, <- Hc
      by (by rewrite !length_drop, Hlen).
    split.
    + subst m. rewrite drop_app_length, take_app_length, app_nil_r. by rewrite take_drop.
    + rewrite command_blocks_app by (by rewrite !length_drop, Hlen).
      rewrite Permutation_app_comm, <- command_blocks_app by (by rewrite !length_take, Hlen).
      by rewrite !take_drop.
  - exists ls, cs, (capacity - Z.to_nat (in_offs b))%nat. split; [done|]. split; [|done].
    rewrite <- Hc, <- (Hun eq_refl). by rewrite take_drop.
Qed.

Section cleanup.
Context `{K : KernelApi} {L : KernelLaws K}.

(** One turn of the loop: the block of the entry at index [i], if it has one, is freed. *)
Lemma wp_cleanup_body s pb b i ls cs n o G Q :
  (0 ≤ i) → entry b = zip_with cmd_entry ls cs ++ replicate n null_entry →
  length ls = length cs → i < Z.of_nat (length (entry b)) →
  heap s !! pb = Some (HBuf b) →
  owns (heap s) (command_blocks (drop (Z.to_nat i) ls) (drop (Z.to_nat i) cs) ++ o) G →
  (∀ s', frame s s' →
     owns (heap s') (command_blocks (drop (Z.to_nat (i + 1)) ls) (drop (Z.to_nat (i + 1)) cs)
                     ++ o) G → Q tt s') →
  wp (b ← load_buffer (Blk pb);
      e ← mlift (entry_at b i);
      if is_null (buffptr e) then mret tt else kfree (buffptr e)) s Q.
Proof.
  intros Hi Hent Hlen Hlt Hpb Ho HQ. apply wp_bind. eapply wp_load_buffer; [done|].
  destruct (lookup_lt_is_Some_2 (entry b) (Z.to_nat i)) as [e He]; [lia|].
  rewrite wp_bind, wp_lift. pose proof (entry_at_in b _ _ He) as Hat.
  rewrite Z2Nat.id in Hat by done. rewrite Hat. cbn [owp].
  replace (Z.to_nat (i + 1)) with (S (Z.to_nat i)) in HQ by lia.
  rewrite Hent in He. destruct (ls !! Z.to_nat i) as [l|] eqn:El.
  - destruct (lookup_lt_is_Some_2 cs (Z.to_nat i)) as [c Ec].
    { rewrite <- Hlen. by eapply lookup_lt_Some. }
    rewrite lookup_app_l in He
      by (rewrite length_zip_with, Hlen, Nat.min_id; by eapply lookup_lt_Some).
    rewrite lookup_zip_with, El, Ec in He. injection He as <-. cbn [cmd_entry buffptr is_null].
    rewrite (drop_S _ _ _ El), (drop_S _ _ _ Ec) in Ho.
    eapply wp_kfree; [eapply owns_lookup; [exact Ho|by left]|].
    intros s' F _ Hh. apply HQ; [done|]. rewrite Hh. eapply owns_free. exact Ho.
  - apply lookup_ge_None in El. rewrite lookup_app_r in He
      by (rewrite length_zip_with, Hlen, Nat.min_id; lia).
    apply lookup_replicate in He as [-> _]. cbn [null_entry buffptr is_null]. rewrite wp_ret.
    apply HQ; [done|]. rewrite !drop_ge in Ho |- * by lia. done.
Qed.

Lemma cleanup_refines s a G :
  represents s a G →
  wp aesd_cleanup_module s (λ _ s',
    region s' = false ∧ cdev (dev s') = false ∧
    if decide (partial a = []) then heap s' = G
    else ∃ l, G !! l = None ∧ heap s' = <[l := HBytes (partial a)]> G).
Proof.
  intros (Ha & pb & b & po & ls & [Hpb Hlk Hw He Hpo Hwf Hc Hlen Ho]).
  destruct (entries_in_array_order b ls (commands a) Hwf Hc Hlen)
    as (ls' & cs' & n & Hlen' & Hent & Hperm).
  pose proof (wf_length b Hwf) as Hbl.
  unfold aesd_cleanup_module, set_dev. rewrite wp_bind, wp_modify, wp_bind, wp_gets. cbn [dev pbuffer].
  rewrite Hpb. apply wp_bind. eapply wp_mono.
  { apply (foreach_rule _ (λ i s1, cdev (dev s1) = false ∧
      owns (heap s1) (command_blocks (drop (Z.to_nat i) ls') (drop (Z.to_nat i) cs') ++
                      (pb, HBuf b) :: partial_blocks po (partial a)) G)).
    - split; [done|]. cbn [heap]. change (Z.to_nat 0) with 0%nat. rewrite !drop_0, Hperm.
      eapply owns_perm; [|exact Ho].
      exact (Permutation_app_comm ((pb, HBuf b) :: partial_blocks po (partial a)) _).
    - intros i s1 Hi [D1 O1]. eapply (wp_cleanup_body s1 pb b i ls' cs' n); try done.
      + lia.
      + rewrite Hbl. change capacity with 10%nat.
        unfold AESDCHAR_MAX_WRITE_OPERATIONS_SUPPORTED in Hi. lia.
      + eapply owns_lookup; [exact O1|]. apply elem_of_app. right. by left.
      + intros s2 F2 O2. split; [by rewrite (frame_dev _ _ F2)|done]. }
  cbn beta. intros _ s1 [D1 O1]. rewrite !drop_ge in O1.
  2,3: apply (f_equal length) in Hent; rewrite Hbl, length_app, length_zip_with in Hent;
    change capacity with (Z.to_nat AESDCHAR_MAX_WRITE_OPERATIONS_SUPPORTED) in Hent; lia.
  cbn [command_blocks fmap list_fmap app] in O1.
  apply wp_bind. eapply wp_kfree; [eapply owns_lookup; [exact O1|by left]|].
  intros s2 F2 _ H2. unfold unregister_chrdev_region, set_region. rewrite wp_modify. cbn.
  split; [done|]. split; [by rewrite (frame_dev _ _ F2)|].
  apply owns_free in O1. rewrite <- H2 in O1. destruct po as [l|]; cbn [partial_blocks] in O1.
  - rewrite decide_False by (intros Hn; by apply Hpo in Hn). exists l.
    split; [by eapply owns_leak_fresh|]. destruct O1 as [-> _ _]. cbn.
    by rewrite <- insert_union_l, map_empty_union.
  - rewrite decide_True by (by apply Hpo). destruct O1 as [-> _ _]. cbn. apply map_empty_union.
Qed.
End cleanup.

(** ** Closing and seeking *)

Section release.
Context `{K : KernelApi} {L : KernelLaws K}.

(** Every array slot is [NULL] or a readable string. *)
Lemma entry_readable s a G pb b po ls j e :
  dev_rep MutexFree s a G pb b po ls → adev_wf a → entry b !! j = Some e →
  e = null_entry ∨ ∃ l c, e = cmd_entry l c ∧ heap s !! l = Some (HBytes c) ∧
                          Z.of_nat (length c) ≤ KMALLOC_MAX_SIZE.
Proof.
  intros [_ _ _ _ _ Hwf Hc Hlen Ho] Ha Hj.
  assert (e = null_entry ∨ e ∈ contents b) as [->|Hin]; [|by left|right].
  { destruct (entries_in_array_order b _ _ Hwf Hc Hlen) as (ls' & cs' & n & Hl' & Hent & _).
    unfold contents. destruct (full b) eqn:Hf.
    - right. rewrite Permutation_app_comm, take_drop. apply list_elem_of_lookup. eauto.
    - rewrite <- (take_drop (Z.to_nat (in_offs b)) (entry b)) in Hj.
      rewrite (wf_unused b Hwf Hf) in Hj. apply lookup_app_Some in Hj as [Hj|[_ Hj]].
      + right. apply list_elem_of_lookup. eauto.
      + left. by apply lookup_replicate in Hj as [-> _]. }
  rewrite Hc in Hin. apply list_elem_of_lookup in Hin as [k Hk].
  apply lookup_zip_with_Some in Hk as (l & c & -> & Hl & Hck). exists l, c. split; [done|].
  split.
  - eapply owns_lookup; [exact Ho|]. right. apply elem_of_app. right.
    apply list_elem_of_lookup. exists k. unfold command_blocks.
    by rewrite lookup_zip_with, list_lookup_fmap, Hl, Hck.
  - by destruct (proj1 (Forall_lookup _ _) (aw_commands _ Ha) _ _ Hck).
Qed.

Lemma wp_show_loop s0 a G pb b po ls fuel : ∀ i it s,
  dev_rep MutexFree s0 a G pb b po ls → adev_wf a → quiet s0 s →
  0 ≤ i ≤ 10 → 10 - i < Z.of_nat fuel → 0 ≤ it < 10 →
  wp (show_loop fuel (Blk pb) i it) s (λ _ s', quiet s0 s').
Proof.
  induction fuel as [|fuel IH]; intros i it s Hrep Ha Hq Hi Hfuel Hit; [lia|]. cbn [show_loop].
  unfold AESDCHAR_MAX_WRITE_OPERATIONS_SUPPORTED.
  destruct (Z.ltb_spec i 10) as [Hlt|Hge]; [|by rewrite wp_ret].
  pose proof (dr_wf _ _ _ _ _ _ _ _ Hrep) as Hwf. pose proof (wf_length b Hwf) as Hlen.
  change capacity with 10%nat in Hlen.
  destruct (lookup_lt_is_Some_2 (entry b) (Z.to_nat it)) as [e He]; [lia|].
  apply wp_bind. eapply wp_load_buffer.
  { rewrite (proj2 Hq). eapply owns_lookup; [apply (dr_owns _ _ _ _ _ _ _ _ Hrep)|by left]. }
  rewrite wp_bind, wp_lift. pose proof (entry_at_in b _ _ He) as Hat.
  rewrite Z2Nat.id in Hat by lia. rewrite Hat. cbn [owp]. apply wp_bind.
  assert (0 ≤ (it + 1) mod 10 < 10) by (apply Z.mod_pos_bound; lia).
  destruct (entry_readable _ _ _ _ _ _ _ _ _ Hrep Ha He) as [->|(l & c & -> & Hl & Hmax)];
    cbn [null_entry cmd_entry buffptr size is_null].
  - apply wp_printk. intros s1 Hq1 _ _. apply IH; [done|done|by transitivity s|lia..].
  - apply wp_bind, wp_printk. intros s1 Hq1 _ _. pose proof kmalloc_max.
    eapply wp_buffer_print; [by rewrite (proj2 Hq1), (proj2 Hq)|lia..|]. intros s2 Hq2 _.
    apply IH; [done|done| |lia..]. transitivity s; [done|]. by transitivity s1.
Qed.

Lemma release_refines s a G filp :
  represents s a G → private_data filp = AesdDevice →
  wp (aesd_release filp) s (λ ret s', ret = 0 ∧ quiet s s').
Proof.
  intros (Ha & pb & b & po & ls & Hrep) Hpd. unfold aesd_release. rewrite Hpd.
  apply wp_bind, wp_printk. intros s1 Hq1 _ _. cbn [deref_dev]. rewrite wp_bind, wp_gets.
  rewrite (frame_dev _ _ (proj1 Hq1)), (dr_pbuffer _ _ _ _ _ _ _ _ Hrep).
  apply wp_bind. unfold aesd_show_circular_buffer. apply wp_bind.
  eapply wp_load_buffer.
  { rewrite (proj2 Hq1). eapply owns_lookup; [apply (dr_owns _ _ _ _ _ _ _ _ Hrep)|by left]. }
  apply wp_bind, wp_printk. intros s2 Hq2 _ _. pose proof (dr_wf _ _ _ _ _ _ _ _ Hrep) as Hwf.
  pose proof (wf_in b Hwf). unfold AESDCHAR_MAX_WRITE_OPERATIONS_SUPPORTED in *.
  eapply wp_mono; [eapply wp_show_loop; [done|done|by transitivity s1|lia|lia|]|].
  - rewrite (wf_out b Hwf). destruct (full b); lia.
  - cbn beta. intros _ s3 Hq3. by rewrite wp_ret.
Qed.

Lemma lseek_eval s filp off whence :
  private_data filp = AesdDevice →
  aesd_lseek filp off whence s =
  let target := if whence =? 0 then Some off
                else if whence =? 1 then Some (i64 (f_pos filp + off))
                else if whence =? 2 then Some (buff_size (dev s)) else None in
  Ret (match target with
       | Some p => if p <? 0 then (- EINVAL, filp) else (p, mk_file AesdDevice p)
       | None => (- EINVAL, filp)
       end, s).
Proof.
  intros Hpd. unfold aesd_lseek. rewrite Hpd.
  destruct (whence =? 0); [|destruct (whence =? 1); [|destruct (whence =? 2)]];
    erewrite bind_eval by done; cbn; try done;
    match goal with |- context [?p <? 0] => destruct (p <? 0) end; done.
Qed.
End release.

(** ** The contract of loading and unloading *)

(** C40: [aesd_init_module] terminates without undefined behaviour for every kernel;
    on success the device is empty, registered and live and owns one new block; when a
    service refuses, its error is returned, the region is not left registered, and the
    memory is as [init_post] says. *)
Theorem aesd_init_module_correct {K : KernelApi} {L : KernelLaws K} (s : kstate)
    (Hfirst : full_user_entry s = null_entry) :
  ∃ ret s', aesd_init_module s = Ret (ret, s') ∧ init_post s ret s'.
Proof. apply (wp_run _ _ _), init_refines, Hfirst. Qed.

(** When [cdev_add] fails, the circular buffer allocated before it is leaked. *)
Theorem aesd_init_module_leaks_on_cdev_error {K : KernelApi} {L : KernelLaws K} (s : kstate)
    (major : Z) (pb : positive) (junk : list Byte.byte)
    (Hfirst : full_user_entry s = null_entry)
    (Hregion : alloc_chrdev_region_result (tick s) = (0, major))
    (Halloc : kmalloc_result (S (tick s)) (heap s) sizeof_circular_buffer = Some (pb, junk))
    (Hcdev : cdev_add_result (S (S (tick s))) ≠ 0) :
  ∃ s', aesd_init_module s = Ret (cdev_add_result (S (S (tick s))), s') ∧
    heap s !! pb = None ∧ heap s' = <[pb := HBuf empty_buffer]> (heap s).
Proof.
  destruct (proj1 (wp_run _ _ _) (init_refines s Hfirst)) as (ret & s' & E & H).
  unfold init_post in H. rewrite Hregion, Halloc in H. cbn in H.
  rewrite (proj2 (Z.eqb_neq _ _)) in H by done.
  destruct H as (-> & _ & _ & Hn & Hh). by exists s'.
Qed.

(** C35: unloading the module frees the struct and every stored command, without a double
    free, whatever the state of the buffer: memory is what belonged to nobody before,
    plus the command under assembly, which is leaked when there is one. *)
Theorem aesd_cleanup_module_frees {K : KernelApi} {L : KernelLaws K} (s : kstate) (a : adev)
    (G : gmap positive hval) (Hrep : represents s a G) :
  ∃ s', aesd_cleanup_module s = Ret (tt, s') ∧ region s' = false ∧ cdev (dev s') = false ∧
    if decide (partial a = []) then heap s' = G
    else ∃ l, G !! l = None ∧ heap s' = <[l := HBytes (partial a)]> G.
Proof.
  destruct (proj1 (wp_run _ _ _) (cleanup_refines s a G Hrep)) as ([] & s' & E & H).
  by exists s'.
Qed.

(** Closing a file prints the buffer and returns 0; nothing but the log changes. *)
Theorem aesd_release_correct {K : KernelApi} {L : KernelLaws K} (s : kstate) (a : adev)
    (G : gmap positive hval) (filp : file)
    (Hrep : represents s a G) (Hopen : private_data filp = AesdDevice) :
  ∃ s', aesd_release filp s = Ret (0, s') ∧ quiet s s' ∧ represents s' a G.
Proof.
  destruct (proj1 (wp_run _ _ _) (release_refines s a G filp Hrep Hopen))
    as (ret & s' & E & -> & Hq).
  exists s'. split; [done|]. split; [done|]. destruct Hrep as (Ha & pb & b & po & ls & Hrep).
  split; [done|]. do 4 eexists. by eapply dev_rep_quiet.
Qed.
