(* ===== verification/CharDriverTrace.v ===== *)
(** * The device under arbitrary sequences of system calls

    Any number of files is open on the device; their calls interleave in any order, and
    the user changes its memory between them.  The mutex makes [read] and [write]
    atomic; [open], [llseek] and [release] are one step each ([CharDriverRace] interleaves
    their statements).  What the VFS does around the
    handlers is stated as premises of the steps: a new file is at position 0, requests
    are at most [MAX_RW_COUNT] bytes and do not overflow the position, and the position
    is stored back unless the call failed. *)

From stdpp Require Import base list gmap option strings.
From Stdlib Require Import ZArith Lia.
From S2P Require Import Prelude CircularBuffer CircularBufferSpec Kernel CharDriver.
From S2P Require Import KernelRules CharDriverSpec CharDriverWrite CharDriverRead CharDriverLife.

#[local] Open Scope Z_scope.

(** ** Assembling commands from chunks *)

(** The commands completed by a sequence of written chunks, and what is left over. *)
Fixpoint assemble (p : list Byte.byte) (ws : list (list Byte.byte)) :
    list (list Byte.byte) * list Byte.byte :=
  match ws with
  | [] => ([], p)
  | w :: ws =>
    let q := p ++ w in
    if decide (last q = Some LF) then
      let '(cs, r) := assemble [] ws in (q :: cs, r)
    else assemble q ws
  end.

Definition completed (ws : list (list Byte.byte)) : list (list Byte.byte) := fst (assemble [] ws).
Definition unfinished (ws : list (list Byte.byte)) : list Byte.byte := snd (assemble [] ws).

Definition write_all (ws : list (list Byte.byte)) (a : adev) : adev := fold_left spec_write ws a.

Lemma write_all_assemble ws : ∀ a,
  (length (commands a) ≤ capacity)%nat → i64 (written a) = written a →
  write_all ws a =
  mk_adev (lastn capacity (commands a ++ fst (assemble (partial a) ws)))
          (snd (assemble (partial a) ws))
          (i64 (written a + Z.of_nat (length (concat (fst (assemble (partial a) ws)))))).
Proof.
  induction ws as [|w ws IH]; intros a Hlen Hw; cbn [write_all fold_left assemble].
  { cbn. rewrite app_nil_r, lastn_all, Z.add_0_r, Hw by done. by destruct a. }
  change (fold_left spec_write ws (spec_write a w)) with (write_all ws (spec_write a w)).
  unfold spec_write. destruct (decide (last (partial a ++ w) = Some LF)).
  - rewrite IH; cbn [commands partial written].
    + destruct (assemble [] ws) as [cs r]. cbn [fst snd concat].
      unfold spec_add. rewrite lastn_app_lastn, <- app_assoc. cbn [app].
      rewrite swrap_add_l by done. f_equal. f_equal. rewrite !length_app. lia.
    + rewrite length_spec_add. lia.
    + apply swrap_small; [done|by apply swrap_range].
  - rewrite IH; [done|done|done].
Qed.

Lemma write_all_empty ws :
  write_all ws empty_adev =
  mk_adev (lastn capacity (completed ws)) (unfinished ws)
          (i64 (Z.of_nat (length (concat (completed ws))))).
Proof. rewrite write_all_assemble; [done|cbn; lia|done]. Qed.

(** ** Steps *)

Record sys : Type := mk_sys {
  kern : kstate;
  files : gmap Z file;
}.

Inductive event : Type :=
  | EvOpen (fd : Z)
  | EvRead (fd buff count ret : Z)
  | EvWrite (fd buff count ret : Z)
  | EvLseek (fd off whence ret : Z)
  | EvRelease (fd : Z)
  | EvUser (m : gmap Z Byte.byte).

Definition MAX_RW_COUNT : Z := 2147479552.

(** The checks of the VFS before a [read] or a [write]. *)
Definition vfs_ok (count pos : Z) : Prop := 0 ≤ count ≤ MAX_RW_COUNT ∧ pos + count < 2 ^ 63.

(** [f->f_pos = pos] after a call that did not fail. *)
Definition store_pos (fs : gmap Z file) (fd : Z) (f : file) (ret pos : Z) : gmap Z file :=
  if ret <? 0 then fs else <[fd := mk_file (private_data f) pos]> fs.

Section steps.
Context `{K : KernelApi}.

Inductive sys_step : sys → event → sys → Prop :=
  | step_open s fs fd ret f s' :
      fs !! fd = None →
      aesd_open (mk_file NoDev 0) s = Ret ((ret, f), s') →
      sys_step (mk_sys s fs) (EvOpen fd) (mk_sys s' (<[fd := f]> fs))
  | step_read s fs fd f buff count ret pos s' :
      fs !! fd = Some f → vfs_ok count (f_pos f) →
      aesd_read f buff count (f_pos f) s = Ret ((ret, pos), s') →
      sys_step (mk_sys s fs) (EvRead fd buff count ret) (mk_sys s' (store_pos fs fd f ret pos))
  | step_write s fs fd f buff count ret pos s' :
      fs !! fd = Some f → vfs_ok count (f_pos f) →
      aesd_write f buff count (f_pos f) s = Ret ((ret, pos), s') →
      sys_step (mk_sys s fs) (EvWrite fd buff count ret) (mk_sys s' (store_pos fs fd f ret pos))
  | step_lseek s fs fd f off whence ret f' s' :
      fs !! fd = Some f → - 2 ^ 63 ≤ off < 2 ^ 63 →
      aesd_lseek f off whence s = Ret ((ret, f'), s') →
      sys_step (mk_sys s fs) (EvLseek fd off whence ret) (mk_sys s' (<[fd := f']> fs))
  | step_release s fs fd f ret s' :
      fs !! fd = Some f → aesd_release f s = Ret (ret, s') →
      sys_step (mk_sys s fs) (EvRelease fd) (mk_sys s' (delete fd fs))
  | step_user s fs m s' :
      set_umem m s = Ret (tt, s') →
      sys_step (mk_sys s fs) (EvUser m) (mk_sys s' fs).

(** The bytes a step hands to the device. *)
Definition accepted (σ : sys) (ev : event) : list (list Byte.byte) :=
  match ev with
  | EvWrite fd buff count ret =>
    if ret <? 0 then []
    else match umem_read (umem (kern σ)) buff (Z.to_nat count) with
         | Some bytes => [bytes]
         | None => []
         end
  | _ => []
  end.

(** States reachable from [σ0], with the chunks written on the way. *)
Inductive reach (σ0 : sys) : list (list Byte.byte) → sys → Prop :=
  | reach_init : reach σ0 [] σ0
  | reach_step ws σ ev σ' :
      reach σ0 ws σ → sys_step σ ev σ' → reach σ0 (ws ++ accepted σ ev) σ'.

(** A file the driver has opened, at a position a signed 64 bit offset can hold. *)
Definition file_ok (f : file) : Prop := private_data f = AesdDevice ∧ 0 ≤ f_pos f < 2 ^ 63.

(** The system implements the abstract device after the chunks [ws]. *)
Record sys_inv (ws : list (list Byte.byte)) (σ : sys) : Prop := {
  si_dev : ∃ G, represents (kern σ) (write_all ws empty_adev) G;
  si_files : ∀ fd f, files σ !! fd = Some f → file_ok f;
}.

Context {L : KernelLaws K}.

Lemma represents_quiet s s' a G : represents s a G → quiet s s' → represents s' a G.
Proof.
  intros (Ha & pb & b & po & ls & Hrep) Hq. split; [done|]. exists pb, b, po, ls.
  by eapply dev_rep_quiet.
Qed.

Lemma represents_stored_small s a G :
  represents s a G → Z.of_nat (length (stored a)) < 2 ^ 32.
Proof.
  intros (Ha & pb & b & po & ls & Hrep).
  destruct (dev_rep_small _ _ _ _ _ _ _ _ Hrep Ha) as (_ & H & E). lia.
Qed.

(** A read that finds data stays inside the stored text. *)
Lemma spec_read_end cs pos :
  0 ≤ pos → spec_read cs pos ≠ [] →
  pos + Z.of_nat (length (spec_read cs pos)) ≤ Z.of_nat (length (concat cs)).
Proof.
  intros Hpos Hne. destruct (spec_read_stored cs pos Hpos) as [rest Hr].
  apply (f_equal length) in Hr. rewrite length_drop, length_app in Hr.
  destruct (spec_read cs pos); [done|]. simpl in *. lia.
Qed.

Lemma read_run s a G f buff count ret pos s' :
  represents s a G → file_ok f → vfs_ok count (f_pos f) →
  aesd_read f buff count (f_pos f) s = Ret ((ret, pos), s') →
  (∃ G', represents s' a G') ∧ (0 ≤ ret → 0 ≤ pos < 2 ^ 63).
Proof.
  intros Hrep [Hpd Hpos] [Hc Hov] Hrun. unfold MAX_RW_COUNT in Hc.
  pose proof (read_refines s a G f buff count (f_pos f) Hrep Hpd ltac:(lia) Hpos) as H.
  unfold wp in H. rewrite Hrun in H. unfold read_post, read_found_post in H.
  destruct (mutex_lock_interrupted (tick s)).
  { destruct H as ([= -> ->] & _ & R). eauto. }
  destruct (decide _) as [|Hne]; [destruct H as ([= -> ->] & _ & R); eauto|].
  destruct (kmalloc_result _ _ _) as [[t dt]|]; [|destruct H as ([= -> ->] & _ & R); eauto].
  destruct (copy_to_user_result _ _ _ _) as [m' r]. destruct H as (Hres & _ & _ & R).
  split; [by eexists|]. intros _. destruct (r =? 0); injection Hres as -> ->; [|done].
  pose proof (spec_read_end _ _ (proj1 Hpos) Hne) as He.
  pose proof (represents_stored_small _ _ _ Hrep) as Hs. unfold stored in Hs. lia.
Qed.

Lemma write_run s a G f buff count ret pos s' :
  represents s a G → file_ok f → vfs_ok count (f_pos f) →
  aesd_write f buff count (f_pos f) s = Ret ((ret, pos), s') →
  if ret <? 0 then represents s' a G
  else 0 ≤ pos < 2 ^ 63 ∧ ∃ bytes, umem_read (umem s) buff (Z.to_nat count) = Some bytes ∧
       represents s' (spec_write a bytes) G.
Proof.
  intros Hrep [Hpd Hpos] [Hc Hov] Hrun. unfold MAX_RW_COUNT in Hc.
  assert (mutex_lock_interrupted (tick s) = false → 0 < count + Z.of_nat (length (partial a)))
    as Hwork.
  { intros Hl. destruct (decide (count = 0)) as [->|]; [|lia].
    destruct (partial a) eqn:Hp; [|simpl; lia].
    rewrite (write_empty_ub s a G f buff (f_pos f) Hrep Hpd Hp Hl) in Hrun. done. }
  pose proof (write_refines s a G f buff count (f_pos f) Hrep Hpd ltac:(lia) Hwork
    (proj1 Hpos) Hov) as H.
  unfold wp in H. rewrite Hrun in H. destruct H as [_ H]. unfold write_decision in H.
  unfold ERESTARTSYS, ENOMEM, EFAULT in H.
  destruct (mutex_lock_interrupted (tick s)); [by destruct H as ([= -> ->] & R)|].
  destruct (kmalloc_result _ _ _) as [[t dt]|]; [|by destruct H as ([= -> ->] & R)].
  destruct (copy_from_user_result _ _ _ _) as [l r].
  destruct (r =? 0); [|by destruct H as ([= -> ->] & R)].
  destruct H as ([= -> ->] & Hread & R). rewrite (proj2 (Z.ltb_ge count 0)) by lia.
  split; [lia|]. by exists l.
Qed.

Lemma written_range ws : - 2 ^ 63 ≤ written (write_all ws empty_adev) < 2 ^ 63.
Proof. rewrite write_all_empty. cbn [written]. by apply (swrap_range 64). Qed.

Lemma lseek_run ws s G f off whence ret f' s' :
  represents s (write_all ws empty_adev) G → file_ok f → - 2 ^ 63 ≤ off < 2 ^ 63 →
  aesd_lseek f off whence s = Ret ((ret, f'), s') → s' = s ∧ file_ok f'.
Proof.
  intros (_ & pb & b & po & ls & Hrep) [Hpd Hpos] Hoff. rewrite lseek_eval by done. cbn zeta.
  rewrite (dr_size _ _ _ _ _ _ _ _ Hrep). pose proof (written_range ws) as Hw.
  pose proof (swrap_range 64 (f_pos f + off) ltac:(done)) as Hc. cbn [Z.sub] in Hc.
  change (64 - 1) with 63 in Hc. unfold file_ok.
  destruct (whence =? 0); [|destruct (whence =? 1); [|destruct (whence =? 2)]];
    try match goal with |- context [?p <? 0] => destruct (Z.ltb_spec p 0) end;
    intros [= <- <- <-]; cbn [private_data f_pos]; (split; [done|split; [done|lia]]).
Qed.

Lemma sys_step_inv ws σ ev σ' :
  sys_inv ws σ → sys_step σ ev σ' → sys_inv (ws ++ accepted σ ev) σ'.
Proof.
  intros [[G Hrep] Hfs] Hstep. destruct Hstep; cbn [kern files accepted] in *;
    rewrite ?app_nil_r.
  - injection H0 as <- <- <-. split; cbn [kern files].
    + exists G. by eapply represents_quiet.
    + intros fd' f'. rewrite lookup_insert. case_decide; [intros [= <-]; done|apply Hfs].
  - destruct (read_run _ _ _ _ _ _ _ _ _ Hrep (Hfs _ _ H) H0 H1) as [[G' R] Hp].
    split; cbn [kern files]; [by eexists|]. intros fd' f'. unfold store_pos.
    destruct (Z.ltb_spec ret 0); [apply Hfs|]. rewrite lookup_insert. case_decide; [|apply Hfs].
    intros [= <-]. split; [apply (Hfs _ _ H)|cbn; auto].
  - pose proof (write_run _ _ _ _ _ _ _ _ _ Hrep (Hfs _ _ H) H0 H1) as Hw.
    unfold store_pos. destruct (ret <? 0).
    { rewrite app_nil_r. split; cbn [kern files]; [by eexists|done]. }
    destruct Hw as (Hp & bytes & -> & R). split; cbn [kern files].
    + exists G. unfold write_all. rewrite fold_left_app. exact R.
    + intros fd' f'. rewrite lookup_insert. case_decide; [|apply Hfs].
      intros [= <-]. split; [apply (Hfs _ _ H)|done].
  - destruct (lseek_run _ _ _ _ _ _ _ _ _ Hrep (Hfs _ _ H) H0 H1) as [-> Hf'].
    split; cbn [kern files]; [by eexists|]. intros fd' f''. rewrite lookup_insert.
    case_decide; [by intros [= <-]|apply Hfs].
  - pose proof (release_refines _ _ _ f Hrep (proj1 (Hfs _ _ H))) as Hr.
    unfold wp in Hr. rewrite H0 in Hr. destruct Hr as [-> Hq]. split; cbn [kern files].
    + exists G. by eapply represents_quiet.
    + intros fd' f'. rewrite lookup_delete. case_decide; [done|apply Hfs].
  - injection H as <-. split; cbn [kern files]; [|done]. exists G.
    destruct Hrep as (Ha & pb & b & po & ls & Hrep). split; [done|]. exists pb, b, po, ls.
    by eapply dev_rep_transfer; [exact Hrep|..]; try apply Hrep.
Qed.

Lemma reach_inv σ0 ws σ : sys_inv [] σ0 → reach σ0 ws σ → sys_inv ws σ.
Proof. intros H0. induction 1 as [|ws σ ev σ' _ IH Hs]; [done|]. by eapply sys_step_inv. Qed.

(** A freshly loaded module, no file open. *)
Lemma loaded_inv s0 s1 :
  full_user_entry s0 = null_entry → aesd_init_module s0 = Ret (0, s1) →
  sys_inv [] (mk_sys s1 ∅).
Proof.
  intros He Hrun. pose proof (init_refines s0 He) as H. unfold wp in H. rewrite Hrun in H.
  unfold init_post in H. destruct (alloc_chrdev_region_result (tick s0)) as [r m].
  split; cbn [kern files]; [|intros fd f; by rewrite lookup_empty].
  destruct (Z.ltb_spec r 0) as [Hr|_]; [destruct H as [H _]; lia|].
  destruct (kmalloc_result _ _ _) as [[pb d]|]; [|by destruct H as [Hm _]].
  destruct (Z.eqb_spec (cdev_add_result (S (S (tick s0)))) 0); [|destruct H as [H _]; congruence].
  destruct H as (_ & _ & _ & _ & R). by eexists.
Qed.
End steps.

(** Every command assembled is non-empty. *)
Lemma assemble_nonempty ws : ∀ p, Forall (λ c, c ≠ []) (fst (assemble p ws)).
Proof.
  induction ws as [|w ws IH]; intros p; cbn [assemble]; [constructor|].
  destruct (decide (last (p ++ w) = Some LF)) as [Hl|]; [|apply IH].
  specialize (IH []). destruct (assemble [] ws) as [cs r]. constructor; [|done].
  intros Hn. by rewrite Hn in Hl.
Qed.

Lemma length_lastn_lt (cs : list (list Byte.byte)) n :
  Forall (λ c, c ≠ []) cs → (n < length cs)%nat →
  (length (concat (lastn n cs)) < length (concat cs))%nat.
Proof.
  intros Hne Hn. unfold lastn.
  replace (length (concat cs)) with
    (length (concat (take (length cs - n) cs)) + length (concat (drop (length cs - n) cs)))%nat
    by (rewrite <- length_app, <- concat_app, take_drop; done).
  destruct (take (length cs - n) cs) as [|c l] eqn:E.
  { apply (f_equal length) in E. rewrite length_take in E. simpl in E. lia. }
  assert (c ≠ []) as Hc.
  { eapply (proj1 (Forall_forall _ _) Hne). rewrite <- (take_drop (length cs - n) cs), E.
    apply elem_of_app. left. by left. }
  destruct c; [done|]. simpl. lia.
Qed.

(** ** Theorems about every reachable state *)

(** C4: whatever the files open on the device do, in whatever order, and whatever the
    kernel refuses on the way: the device holds exactly the ten newest commands
    completed by the chunks that were accepted, and the unfinished rest; the mutex is
    free, no memory of the device is shared or lost, and every file stays usable. *)
Theorem reachable_device_is_last_ten {K : KernelApi} {L : KernelLaws K} (s0 s1 : kstate)
    (ws : list (list Byte.byte)) (σ : sys)
    (Hfirst : full_user_entry s0 = null_entry) (Hload : aesd_init_module s0 = Ret (0, s1))
    (Hreach : reach (mk_sys s1 ∅) ws σ) :
  ∃ a G, represents (kern σ) a G ∧ commands a = lastn 10 (completed ws) ∧
    partial a = unfinished ws ∧
    ∀ fd f, files σ !! fd = Some f → private_data f = AesdDevice ∧ 0 ≤ f_pos f < 2 ^ 63.
Proof.
  destruct (reach_inv _ _ _ (loaded_inv s0 s1 Hfirst Hload) Hreach) as [[G Hrep] Hfs].
  exists (write_all ws empty_adev), G. split; [done|]. rewrite write_all_empty.
  split; [done|]. split; [done|]. apply Hfs.
Qed.

(** C5: in every reachable state every system call the VFS lets through returns: reads,
    seeks and closes always, writes unless they are empty while nothing is under
    assembly. *)
Theorem reachable_calls_return {K : KernelApi} {L : KernelLaws K} (s0 s1 : kstate)
    (ws : list (list Byte.byte)) (σ : sys) (fd : Z) (f : file) (buff count off whence : Z)
    (Hfirst : full_user_entry s0 = null_entry) (Hload : aesd_init_module s0 = Ret (0, s1))
    (Hreach : reach (mk_sys s1 ∅) ws σ) (Hfd : files σ !! fd = Some f)
    (Hvfs : vfs_ok count (f_pos f)) :
  (∃ r, aesd_read f buff count (f_pos f) (kern σ) = Ret r) ∧
  (∃ r, aesd_lseek f off whence (kern σ) = Ret r) ∧
  (∃ r, aesd_release f (kern σ) = Ret r) ∧
  (count ≠ 0 ∨ unfinished ws ≠ [] → ∃ r, aesd_write f buff count (f_pos f) (kern σ) = Ret r).
Proof.
  destruct (reach_inv _ _ _ (loaded_inv s0 s1 Hfirst Hload) Hreach) as [[G Hrep] Hfs].
  destruct (Hfs _ _ Hfd) as [Hpd Hpos], Hvfs as [Hc Hov]. unfold MAX_RW_COUNT in Hc.
  split; [|split; [|split]].
  - destruct (proj1 (wp_run _ _ _)
      (read_refines _ _ _ f buff count (f_pos f) Hrep Hpd ltac:(lia) Hpos)) as (r & s' & E & _).
    by eexists.
  - rewrite lseek_eval by done. by eexists.
  - destruct (proj1 (wp_run _ _ _) (release_refines _ _ _ f Hrep Hpd)) as (r & s' & E & _).
    by eexists.
  - intros Hwork. rewrite write_all_empty in Hrep.
    assert (0 < count + Z.of_nat (length (unfinished ws))).
    { destruct Hwork as [|Hu]; [lia|]. destruct (unfinished ws); [done|]. simpl. lia. }
    destruct (proj1 (wp_run _ _ _) (write_refines _ _ _ f buff count (f_pos f) Hrep Hpd
      ltac:(lia) (λ _, ltac:(done)) (proj1 Hpos) Hov)) as (r & s' & E & _).
    by eexists.
Qed.

(** [SEEK_END] goes to the number of characters ever committed (its offset is
    ignored), not to the end of the data: as soon as a command was evicted it is past
    everything that can be read. *)
Theorem seek_end_counts_evicted {K : KernelApi} {L : KernelLaws K} (s0 s1 : kstate)
    (ws : list (list Byte.byte)) (σ : sys) (fd : Z) (f : file) (off : Z)
    (Hfirst : full_user_entry s0 = null_entry) (Hload : aesd_init_module s0 = Ret (0, s1))
    (Hreach : reach (mk_sys s1 ∅) ws σ) (Hfd : files σ !! fd = Some f)
    (Hfits : Z.of_nat (length (concat (completed ws))) < 2 ^ 63) :
  let total := Z.of_nat (length (concat (completed ws))) in
  aesd_lseek f off 2 (kern σ) = Ret ((total, mk_file AesdDevice total), kern σ) ∧
  ((10 < length (completed ws))%nat →
   Z.of_nat (length (concat (lastn 10 (completed ws)))) < total).
Proof.
  intros total.
  destruct (reach_inv _ _ _ (loaded_inv s0 s1 Hfirst Hload) Hreach) as [[G Hrep] Hfs].
  destruct (Hfs _ _ Hfd) as [Hpd Hpos]. split.
  - rewrite lseek_eval by done. cbn [Z.eqb Pos.eqb].
    destruct Hrep as (_ & pb & b & po & ls & Hrep). rewrite (dr_size _ _ _ _ _ _ _ _ Hrep).
    rewrite write_all_empty. cbn [written]. rewrite swrap_small by lia. fold total.
    rewrite (proj2 (Z.ltb_ge total 0)) by lia. done.
  - intros Hn. pose proof (length_lastn_lt (completed ws) 10 (assemble_nonempty ws []) Hn). lia.
Qed.

(** ** Reading everything back

    A reader that calls [read] from position 0 until it returns 0 (what [cat] does, and
    what the socket server does with [fread]) receives the stored commands, in order, each
    cut to the size of its requests: [aesd_read] moves the position past the whole command
    also when it reports fewer bytes. *)

(** A kernel on a good day: no signal arrives, memory is there, user memory is mapped. *)
Class KernelReliable (K : KernelApi) : Prop := {
  never_interrupted : ∀ t, mutex_lock_interrupted t = false;
  memory_available : ∀ t h n, 0 < n ≤ KMALLOC_MAX_SIZE → is_Some (kmalloc_result t h n);
  copies_succeed : ∀ t m a l, snd (copy_to_user_result t m a l) = 0;
}.

Section read_back.
Context `{K : KernelApi}.

(** The reader: what it got, in order, and the result that ended the loop. *)
Fixpoint read_loop (fuel : nat) (f : file) (buff count pos : Z) :
    M kstate (list Byte.byte * Z) :=
  match fuel with
  | O => λ _, OutOfFuel
  | S fuel =>
    '(ret, pos') ← aesd_read f buff count pos;
    if ret <=? 0 then mret ([], ret)
    else
      m ← mgets umem;
      got ← moption OutOfBounds (umem_read m buff (Z.to_nat ret));
      '(rest, e) ← read_loop fuel f buff count pos';
      mret (got ++ rest, e)
  end.

Lemma umem_read_insert m a b k n : k < a → umem_read (<[k := b]> m) a n = umem_read m a n.
Proof.
  revert a. induction n as [|n IH]; intros a Hk; simpl; [done|].
  rewrite lookup_insert_ne by lia. by rewrite IH by lia.
Qed.

Lemma umem_read_write m a l : umem_read (umem_write m a l) a (length l) = Some l.
Proof.
  revert a. induction l as [|x l IH]; intros a; simpl; [done|].
  rewrite lookup_insert_eq. simpl. by rewrite umem_read_insert, IH by lia.
Qed.

Lemma spec_read_boundary cs1 cs2 :
  Forall (λ c : list Byte.byte, c ≠ []) (cs1 ++ cs2) →
  spec_read (cs1 ++ cs2) (Z.of_nat (length (concat cs1))) =
  match cs2 with [] => [] | c :: _ => c end.
Proof.
  induction cs1 as [|c cs1 IH]; simpl; intros Hne.
  - destruct cs2 as [|c cs2]; [done|]. simpl. inversion Hne; subst.
    rewrite (proj2 (Z.ltb_lt _ _)) by (destruct c; [done|simpl; lia]). done.
  - inversion Hne; subst. rewrite length_app, Nat2Z.inj_add.
    rewrite (proj2 (Z.ltb_ge _ _)) by lia.
    replace (Z.of_nat (length c) + Z.of_nat (length (concat cs1)) - Z.of_nat (length c))
      with (Z.of_nat (length (concat cs1))) by lia.
    by apply IH.
Qed.

Context {L : KernelLaws K}.

(** One request of the reader, and why it may fail. *)
Lemma read_request s a G f buff count pos :
  represents s a G → private_data f = AesdDevice → 0 ≤ count < 2 ^ 63 → 0 ≤ pos < 2 ^ 63 →
  Z.of_nat (length (spec_read (commands a) pos)) ≤ KMALLOC_MAX_SIZE →
  wp (aesd_read f buff count pos) s (λ res s',
    let data := spec_read (commands a) pos in
    (∃ G', represents s' a G') ∧
    ((fst res = - ERESTARTSYS ∨ fst res = - EFAULT) ∧ ¬ KernelReliable K ∨
     data = [] ∧ res = (0, pos) ∨
     data ≠ [] ∧ umem s' = umem_write (umem s) buff data ∧
     res = (Z.min count (Z.of_nat (length data)), pos + Z.of_nat (length data)))).
Proof.
  intros Hrep Hpd Hcount Hpos Hmax. eapply wp_mono; [by eapply read_refines|].
  intros res s' H. cbn zeta. unfold read_post, read_found_post in H.
  destruct (mutex_lock_interrupted (tick s)) eqn:Ei.
  { destruct H as (-> & _ & HR). split; [by eexists|]. left. split; [by left|].
    intros R. by rewrite never_interrupted in Ei. }
  destruct (decide _) as [Hd|Hd].
  { destruct H as (-> & _ & HR). split; [by eexists|]. by right; left. }
  destruct (kmalloc_result _ _ _) as [[t dt]|] eqn:Ek.
  2:{ destruct H as (-> & _ & HR). split; [by eexists|]. left. split; [by right|]. intros R.
      edestruct (memory_available (S (tick s)) (heap s)) as [x Hx]; [|by rewrite Hx in Ek].
      destruct (spec_read (commands a) pos); [done|]. simpl in *. lia. }
  destruct (copy_to_user_result _ _ _ _) as [m' r] eqn:Ec. destruct H as (-> & U & _ & HR).
  split; [by eexists|]. destruct (Z.eqb_spec r 0) as [->|Hr].
  - destruct (copy_to_user_spec _ _ _ _ _ _ Ec) as (_ & Hm).
    rewrite Nat.sub_0_r, firstn_all in Hm. right; right. by rewrite U, Hm.
  - left. split; [by right|]. intros R.
    pose proof (copies_succeed (3 + S (tick s)) (umem s) buff (spec_read (commands a) pos)) as Hs.
    by rewrite Ec in Hs.
Qed.

(** How the reader ends: at the end of the data with all of it, or with an error and some
    of the commands. *)
Definition read_back_post (cs : list (list Byte.byte)) (count : Z) (r : list Byte.byte * Z) : Prop :=
  let cut := take (Z.to_nat count) in
  (snd r = 0 ∧ fst r = concat (cut <$> cs)) ∨
  ((snd r = - ERESTARTSYS ∨ snd r = - EFAULT) ∧ ¬ KernelReliable K ∧
   ∃ n, fst r = concat (cut <$> take n cs)).

Lemma read_back_cons c cs count got e :
  read_back_post cs count (got, e) →
  read_back_post (c :: cs) count (take (Z.to_nat count) c ++ got, e).
Proof.
  unfold read_back_post. cbn [fst snd]. intros [[-> ->]|(He & HR & n & ->)]; [by left|].
  right. split; [done|]. split; [done|]. by exists (S n).
Qed.

Lemma umem_read_prefix m a l (n : nat) :
  (n ≤ length l)%nat → umem_read (umem_write m a l) a n = Some (take n l).
Proof.
  revert a n. induction l as [|x l IH]; intros a [|n] Hn; simpl in *; try done; try lia.
  rewrite lookup_insert_eq. simpl. by rewrite umem_read_insert, IH by lia.
Qed.

Lemma wp_read_loop a f buff count cs2 :
  private_data f = AesdDevice → 0 < count < 2 ^ 63 → ∀ fuel cs1 s G,
  represents s a G → commands a = cs1 ++ cs2 → (length cs2 < fuel)%nat →
  wp (read_loop fuel f buff count (Z.of_nat (length (concat cs1)))) s
     (λ r s', read_back_post cs2 count r ∧ ∃ G', represents s' a G').
Proof.
  intros Hpd Hcount. pose proof kmalloc_max.
  induction cs2 as [|c cs2 IH]; intros [|fuel] cs1 s G Hrep Hcs Hfuel;
    simpl in Hfuel; try lia; cbn [read_loop].
  all: pose proof Hrep as ([Hcmds _ Hpl] & pb & b & po & ls & Hd);
    destruct (dev_rep_small _ _ _ _ _ _ _ _ Hd (proj1 Hrep)) as (_ & Hsm & Hst);
    unfold stored in Hst; rewrite Hcs, concat_app, length_app in Hst;
    assert (Forall (λ c : list Byte.byte, c ≠ []) (commands a)) as Hne
      by (eapply Forall_impl; [exact Hcmds|]; intros x [Hx _] ->; done);
    rewrite Hcs in Hne; pose proof (spec_read_boundary _ _ Hne) as Hb; rewrite <- Hcs in Hb.
  - apply wp_bind. eapply wp_mono; [eapply read_request; [done|done|lia|lia|]|].
    { rewrite Hb. simpl. lia. }
    cbn beta zeta. rewrite Hb. intros [ret pos'] s' (HG & [[He HR]|[(_ & Hres)|(Hn & _)]]).
    + cbn [fst] in He. rewrite (proj2 (Z.leb_le _ _)) by (destruct He; unfold ERESTARTSYS, EFAULT in *; lia).
      rewrite wp_ret. split; [|done]. right. split; [done|]. split; [done|]. by exists 0%nat.
    + injection Hres as -> ->. cbn. split; [by left|done].
    + done.
  - rewrite Hcs, Forall_app, Forall_cons_iff in Hcmds. destruct Hcmds as (_ & [_ Hcm] & _).
    rewrite Forall_app, Forall_cons_iff in Hne. destruct Hne as (_ & Hc0 & _).
    assert (0 < Z.of_nat (length c)) by (destruct c; [done|simpl; lia]).
    apply wp_bind. eapply wp_mono; [eapply read_request; [done|done|lia|lia|by rewrite Hb]|].
    cbn beta zeta. rewrite Hb. intros [ret pos'] s' ([G' HG] & [[He HR]|[(Hn & _)|(_ & U & Hres)]]).
    + cbn [fst] in He. rewrite (proj2 (Z.leb_le _ _)) by (destruct He; unfold ERESTARTSYS, EFAULT in *; lia).
      rewrite wp_ret. split; [|by eexists]. right. split; [done|]. split; [done|]. by exists 0%nat.
    + done.
    + injection Hres as -> ->.
      rewrite (proj2 (Z.leb_gt _ _)) by lia. rewrite wp_bind, wp_gets, U. apply wp_bind.
      eapply wp_option; [apply umem_read_prefix; lia|]. apply wp_bind.
      replace (Z.of_nat (length (concat cs1)) + Z.of_nat (length c))
        with (Z.of_nat (length (concat (cs1 ++ [c]))))
        by (rewrite concat_app, length_app; simpl; rewrite app_nil_r; lia).
      eapply wp_mono; [eapply (IH fuel (cs1 ++ [c])); [done| |lia]|].
      { by rewrite <- app_assoc. }
      cbn beta. intros [got e] s'' [Hp HG'']. rewrite wp_ret. split; [|done].
      replace (take (Z.to_nat (Z.min count (Z.of_nat (length c)))) c)
        with (take (Z.to_nat count) c); [by apply read_back_cons|].
      destruct (decide (count ≤ Z.of_nat (length c))); [by rewrite Z.min_l by lia|].
      rewrite Z.min_r, Nat2Z.id, firstn_all by lia. apply take_ge. lia.
Qed.

Lemma length_cut (n : nat) (cs : list (list Byte.byte)) :
  (length (concat (take n <$> cs)) ≤ length (concat cs))%nat.
Proof.
  induction cs as [|c cs IH]; [done|]. rewrite fmap_cons. cbn [concat].
  rewrite !length_app, length_take. lia.
Qed.

Lemma cut_all (n : nat) (cs : list (list Byte.byte)) :
  concat (take n <$> cs) = concat cs ↔ Forall (λ c, (length c ≤ n)%nat) cs.
Proof.
  split.
  - intros H. apply (f_equal length) in H. revert H.
    induction cs as [|c cs IH]; [by constructor|]. rewrite fmap_cons. cbn [concat].
    rewrite !length_app, length_take. intros H. pose proof (length_cut n cs).
    constructor; [lia|]. apply IH. lia.
  - induction 1 as [|c cs Hc _ IH]; [done|]. rewrite fmap_cons. cbn [concat].
    by rewrite IH, take_ge.
Qed.
End read_back.

(** C6: a reader with requests of [count] bytes terminates and does not change what the
    device holds.  When its last [read] returns 0 it has received, oldest first, the first
    [count] bytes of every stored command, which is all that is stored exactly when no
    command is longer than [count]; otherwise it has the error of an interrupted wait or of
    a refused allocation or copy, and received some of the oldest commands in this way.  A
    kernel that refuses nothing gives no error. *)
Theorem read_back_is_stored {K : KernelApi} {L : KernelLaws K}
    (s : kstate) (a : adev) (G : gmap positive hval) (f : file) (buff count : Z)
    (Hrep : represents s a G) (Hopen : private_data f = AesdDevice)
    (Hcount : 0 < count < 2 ^ 63) :
  let cut := take (Z.to_nat count) in
  ∃ got e s' G', read_loop (length (commands a) + 1) f buff count 0 s = Ret ((got, e), s') ∧
    represents s' a G' ∧
    (e = 0 ∧ got = concat (cut <$> commands a) ∧
       (got = stored a ↔ Forall (λ c, Z.of_nat (length c) ≤ count) (commands a))
     ∨ (e = - ERESTARTSYS ∨ e = - EFAULT) ∧ ¬ KernelReliable K ∧
       ∃ n, got = concat (cut <$> take n (commands a))).
Proof.
  destruct (proj1 (wp_run _ _ _) (wp_read_loop a f buff count (commands a) Hopen Hcount
    (length (commands a) + 1) [] s G Hrep eq_refl ltac:(lia))) as ([got e] & s' & E & Hp & G' & HR).
  exists got, e, s', G'. split; [done|]. split; [done|].
  destruct Hp as [[He Hg]|Hp]; cbn [fst snd] in *; [left|by right].
  split; [done|]. split; [done|]. unfold stored. rewrite Hg, cut_all.
  apply Forall_iff. intros c. lia.
Qed.
