(* ===== verification/CharDriverDemo.v ===== *)
(** * The driver on concrete inputs

    The module loaded on the kernel instance of [Kernel], with and without a command
    written, and the theorems about the driver applied to these states: their
    hypotheses can be met. *)

From stdpp Require Import base list gmap option strings.
From Stdlib Require Import ZArith Lia.
From S2P Require Import Prelude CircularBuffer CircularBufferSpec Kernel CharDriver.
From S2P Require Import KernelRules CharDriverSpec CharDriverWrite CharDriverRead.
From S2P Require Import CharDriverLife CharDriverTrace.
#[local] Open Scope Z_scope.

(** ** States *)

Definition demo : KernelApi := demo_kernel never never 0.

(** A kernel whose [cdev_add] fails. *)
Definition demo_no_cdev : KernelApi := demo_kernel never never (-12).

(** A kernel where nothing is ever refused. *)
Definition demo_reliable : KernelApi := {|
  KMALLOC_MAX_SIZE := 2 ^ 22;
  kmalloc_result t h n := demo_kmalloc h n;
  copy_to_user_result t m a l := (umem_write m a l, 0);
  copy_from_user_result := @copy_from_user_result demo;
  mutex_lock_interrupted := never;
  alloc_chrdev_region_result t := (0, 240);
  cdev_add_result t := 0;
|}.

#[export] Instance demo_reliable_laws : KernelLaws demo_reliable.
Proof.
  destruct (demo_laws never never 0) as [Hm Hf _ Hc]. split; [exact Hm|exact Hf| |exact Hc].
  cbn. intros t m a l m' r [= <- <-]. split; [lia|]. by rewrite Nat.sub_0_r, firstn_all.
Qed.

#[export] Instance demo_reliable_reliable : KernelReliable demo_reliable.
Proof.
  split; cbn -[Z.pow]; [done| |done]. intros t h n Hn. unfold demo_kmalloc.
  rewrite decide_True by done. by eexists.
Qed.

(** "hi" and a newline, at address 1000 of the user. *)
Definition hi : list Byte.byte := [Byte.x68; Byte.x69; Byte.x0a].
Definition s_boot : kstate :=
  mk_kstate ∅ (umem_write ∅ 1000 hi) [] 0 (mk_dev NULL MutexRaw 0 false) null_entry 0 false.
Definition f_open : file := mk_file AesdDevice 0.

(** The state a run ends in. *)
Definition after {A} (m : M kstate A) (s : kstate) : kstate :=
  match m s with Ret (_, s') => s' | _ => s end.

Definition s_loaded : kstate := after (@aesd_init_module demo) s_boot.
Definition s_written : kstate := after (@aesd_write demo f_open 1000 3 0) s_loaded.
Definition a_written : adev := mk_adev [hi] [] 3.

Lemma loaded_represents : @represents demo s_loaded empty_adev ∅.
Proof. by apply (init_rep (K := demo) _ 1%positive); vm_compute. Qed.

Lemma loaded_represents_reliable : @represents demo_reliable s_loaded empty_adev ∅.
Proof. by apply (init_rep (K := demo_reliable) _ 1%positive); vm_compute. Qed.

Lemma written_dev_rep :
  dev_rep MutexFree s_written a_written ∅ 1
    (added empty_buffer (cmd_entry 2 hi)) None [2%positive].
Proof.
  split; try (by vm_compute).
  split; [by vm_compute|by apply (bool_decide_unpack _); vm_compute|done].
Qed.

Lemma written_represents : @represents demo s_written a_written ∅.
Proof.
  split; [|do 4 eexists; apply written_dev_rep].
  split; cbn -[Z.pow]; [|done|lia]. constructor; [|constructor]. split; [done|simpl; lia].
Qed.

Lemma written_represents_reliable : @represents demo_reliable s_written a_written ∅.
Proof.
  split; [|do 4 eexists; apply written_dev_rep].
  split; cbn -[Z.pow]; [|done|lia]. constructor; [|constructor]. split; [done|simpl; lia].
Qed.

(** ** Applications *)

Lemma aesd_write_correct_witness :
  ∃ ret pos' s', @aesd_write demo f_open 1000 3 0 s_loaded = Ret ((ret, pos'), s') ∧
    umem s' = umem s_loaded ∧
    match @write_decision demo s_loaded 1000 3 with
    | WErr e => ret = - e ∧ pos' = 0 ∧ @represents demo s' empty_adev ∅
    | WOk bytes => ret = 3 ∧ pos' = 0 + 3 ∧
        umem_read (umem s_loaded) 1000 (Z.to_nat 3) = Some bytes ∧
        @represents demo s' (spec_write empty_adev bytes) ∅
    end.
Proof.
  apply (@aesd_write_correct demo (demo_laws never never 0) s_loaded empty_adev ∅ f_open 1000 3 0).
  - exact loaded_represents.
  - reflexivity.
  - lia.
  - left. lia.
  - lia.
Defined.

Lemma aesd_write_empty_faults_witness :
  @aesd_write demo f_open 1000 0 0 s_written = UB NullDeref.
Proof.
  apply (@aesd_write_empty_faults demo (demo_laws never never 0) s_written a_written ∅ f_open 1000 0).
  - exact written_represents.
  - reflexivity.
  - reflexivity.
  - reflexivity.
Defined.

Lemma aesd_read_correct_witness :
  ∃ s' G', @aesd_read demo f_open 1000 10 1 s_written =
    Ret ((Z.min 10 (Z.of_nat (length (spec_read (commands a_written) 1))),
          1 + Z.of_nat (length (spec_read (commands a_written) 1))), s') ∧
    umem s' = umem_write (umem s_written) 1000 (spec_read (commands a_written) 1) ∧
    G' = <[3%positive := HBytes (spec_read (commands a_written) 1)]> ∅ ∧
    @represents demo s' a_written G'.
Proof.
  assert (@read_decision demo s_written a_written 1000 1 = RDelivered 3) as E
    by (vm_compute; reflexivity).
  pose proof (@aesd_read_correct demo (demo_laws never never 0) s_written a_written ∅ f_open
    1000 10 1 written_represents eq_refl ltac:(lia) ltac:(lia)) as H.
  rewrite E in H. exact H.
Defined.

Lemma aesd_read_leaks_bounce_buffer_witness :
  ∃ res s', @aesd_read demo f_open 1000 10 0 s_written = Ret (res, s') ∧
    (∅ : gmap positive hval) !! 3%positive = None ∧
    @represents demo s' a_written (<[3%positive := HBytes (spec_read (commands a_written) 0)]> ∅).
Proof.
  apply (@aesd_read_leaks_bounce_buffer demo (demo_laws never never 0) s_written a_written ∅
           f_open 1000 10 0 3 [Byte.xff; Byte.xff; Byte.xff]).
  - exact written_represents.
  - reflexivity.
  - lia.
  - lia.
  - reflexivity.
  - discriminate.
  - vm_compute. reflexivity.
Defined.

Lemma aesd_read_overruns_small_count_witness :
  let s' := after (@aesd_read demo f_open 1000 1 0) s_written in
  fst (1, 3) = 1 ∧ snd (1, 3) = 0 + Z.of_nat (length (spec_read (commands a_written) 0)) ∧
  ∀ i x, spec_read (commands a_written) 0 !! i = Some x →
         umem s' !! (1000 + Z.of_nat i) = Some x.
Proof.
  apply (@aesd_read_overruns_small_count demo (demo_laws never never 0) s_written a_written ∅
           f_open 1000 1 0 (1, 3)).
  - exact written_represents.
  - reflexivity.
  - lia.
  - lia.
  - reflexivity.
  - vm_compute. reflexivity.
  - reflexivity.
Defined.

Lemma aesd_init_module_correct_witness :
  ∃ ret s', @aesd_init_module demo s_boot = Ret (ret, s') ∧ @init_post demo s_boot ret s'.
Proof.
  apply (@aesd_init_module_correct demo (demo_laws never never 0) s_boot). reflexivity.
Defined.

Lemma aesd_init_module_leaks_on_cdev_error_witness :
  ∃ s', @aesd_init_module demo_no_cdev s_boot = Ret (-12, s') ∧
    heap s_boot !! 1%positive = None ∧
    heap s' = <[1%positive := HBuf empty_buffer]> (heap s_boot).
Proof.
  apply (@aesd_init_module_leaks_on_cdev_error demo_no_cdev (demo_laws never never (-12)) s_boot
           240 1 (replicate 168 Byte.xff)).
  - reflexivity.
  - reflexivity.
  - vm_compute. reflexivity.
  - discriminate.
Defined.

Lemma aesd_cleanup_module_frees_witness :
  ∃ s', aesd_cleanup_module s_written = Ret (tt, s') ∧ region s' = false ∧
    cdev (dev s') = false ∧
    if decide (partial a_written = []) then heap s' = ∅
    else ∃ l, (∅ : gmap positive hval) !! l = None ∧
              heap s' = <[l := HBytes (partial a_written)]> ∅.
Proof.
  apply (@aesd_cleanup_module_frees demo (demo_laws never never 0) s_written a_written ∅).
  exact written_represents.
Defined.

Lemma aesd_release_correct_witness :
  ∃ s', @aesd_release demo f_open s_written = Ret (0, s') ∧ quiet s_written s' ∧
    @represents demo s' a_written ∅.
Proof.
  apply (@aesd_release_correct demo (demo_laws never never 0) s_written a_written ∅ f_open).
  - exact written_represents.
  - reflexivity.
Defined.

(** One file is opened and one command is written through it. *)
Definition σ_loaded : sys := mk_sys s_loaded ∅.
Definition s_opened : kstate := after (aesd_open (mk_file NoDev 0)) s_loaded.
Definition σ_opened : sys := mk_sys s_opened (<[3 := f_open]> ∅).
Definition s_said : kstate := after (@aesd_write demo f_open 1000 3 0) s_opened.
Definition σ_said : sys :=
  mk_sys s_said (<[3 := mk_file AesdDevice 3]> (<[3 := f_open]> ∅)).

Lemma said_reach : @reach demo σ_loaded [hi] σ_said.
Proof.
  change [hi] with ([] ++ accepted σ_opened (EvWrite 3 1000 3 3)).
  apply (reach_step _ _ σ_opened).
  - change ([] : list (list Byte.byte)) with
      (([] : list (list Byte.byte)) ++ accepted σ_loaded (EvOpen 3)).
    apply (reach_step _ _ σ_loaded); [apply reach_init|].
    by apply (step_open s_loaded ∅ 3 0 f_open s_opened).
  - apply (step_write s_opened (<[3 := f_open]> ∅) 3 f_open 1000 3 3 3 s_said);
      [done|split; [unfold MAX_RW_COUNT; lia|cbn; lia]|by vm_compute].
Qed.

Lemma boot_loads : @aesd_init_module demo s_boot = Ret (0, s_loaded).
Proof. by vm_compute. Qed.

Lemma reachable_device_is_last_ten_witness :
  ∃ a G, @represents demo (kern σ_said) a G ∧ commands a = lastn 10 (completed [hi]) ∧
    partial a = unfinished [hi] ∧
    ∀ fd f, files σ_said !! fd = Some f → private_data f = AesdDevice ∧ 0 ≤ f_pos f < 2 ^ 63.
Proof.
  apply (@reachable_device_is_last_ten demo (demo_laws never never 0) s_boot s_loaded).
  - reflexivity.
  - exact boot_loads.
  - exact said_reach.
Defined.

Lemma reachable_calls_return_witness :
  let f := mk_file AesdDevice 3 in
  (∃ r, @aesd_read demo f 2000 10 (f_pos f) (kern σ_said) = Ret r) ∧
  (∃ r, aesd_lseek f 0 1 (kern σ_said) = Ret r) ∧
  (∃ r, @aesd_release demo f (kern σ_said) = Ret r) ∧
  (10 ≠ 0 ∨ unfinished [hi] ≠ [] → ∃ r, @aesd_write demo f 2000 10 (f_pos f) (kern σ_said) = Ret r).
Proof.
  apply (@reachable_calls_return demo (demo_laws never never 0) s_boot s_loaded [hi] σ_said 3).
  - reflexivity.
  - exact boot_loads.
  - exact said_reach.
  - reflexivity.
  - split; [unfold MAX_RW_COUNT; lia|cbn; lia].
Defined.

Lemma seek_end_counts_evicted_witness :
  let total := Z.of_nat (length (concat (completed [hi]))) in
  aesd_lseek (mk_file AesdDevice 3) 7 2 (kern σ_said) =
    Ret ((total, mk_file AesdDevice total), kern σ_said) ∧
  ((10 < length (completed [hi]))%nat →
   Z.of_nat (length (concat (lastn 10 (completed [hi])))) < total).
Proof.
  apply (@seek_end_counts_evicted demo (demo_laws never never 0) s_boot s_loaded [hi] σ_said 3).
  - reflexivity.
  - exact boot_loads.
  - exact said_reach.
  - reflexivity.
  - reflexivity.
Defined.

(** A reader with requests of two bytes gets the first two of the three stored. *)
Lemma read_back_is_stored_witness :
  ∃ got e s' G', @read_loop demo_reliable (length (commands a_written) + 1) f_open 1000 2 0
             s_written = Ret ((got, e), s') ∧
    @represents demo_reliable s' a_written G' ∧ e = 0 ∧ got = take 2 hi.
Proof.
  destruct (@read_back_is_stored demo_reliable demo_reliable_laws s_written a_written ∅ f_open
    1000 2 written_represents_reliable eq_refl ltac:(lia))
    as (got & e & s' & G' & E & HR & [(-> & -> & _)|(_ & H & _)]).
  - exists (concat (take (Z.to_nat 2) <$> commands a_written)), 0, s', G'.
    split; [exact E|]. split; [exact HR|]. split; reflexivity.
  - destruct H. exact demo_reliable_reliable.
Defined.
