(* ===== verification/CharDriverThreads.v ===== *)
(** * The handlers as threads

    Two handlers of the driver can run at the same time, and only [aesd_read] and
    [aesd_write] take the mutex: [aesd_release] prints the circular buffer and
    [aesd_lseek] reads the counter without it.  Here each handler is a tree of statements,
    between any two of which other calls may run; a statement is one access to memory or
    one call into the kernel.  [memcpy], a call that updates the struct
    ([aesd_circular_buffer_add_entry]) and a search in it are one step each: whoever looks
    at the struct without the mutex sees its slots and its offset, one at a time.  Run
    without interruption the trees are the handlers of [CharDriver]. *)

From stdpp Require Import base list gmap option strings.
From Stdlib Require Import ZArith Lia.
From S2P Require Import Prelude CircularBuffer Kernel CharDriver.
#[local] Open Scope Z_scope.

(** ** Threads *)

(** A call under way: finished, about to execute a statement and continue with its
    result, or at one of the two operations on the mutex. *)
Inductive thread (A : Type) : Type :=
  | Done (a : A)
  | Do {B : Type} (m : M kstate B) (k : B → thread A)
  | Lock (k : Z → thread A)
  | Unlock (k : thread A).
Arguments Done {A} a.
Arguments Do {A B} m k.
Arguments Lock {A} k.
Arguments Unlock {A} k.

#[export] Instance thread_ret : MRet thread := λ A a, Done a.
#[export] Instance thread_bind : MBind thread := λ A B f,
  fix go (t : thread A) : thread B :=
    match t with
    | Done a => f a
    | Do m k => Do m (λ x, go (k x))
    | Lock k => Lock (λ r, go (k r))
    | Unlock k => Unlock (go k)
    end.

Definition act {B} (m : M kstate B) : thread B := Do m Done.
Definition lock_it : thread Z := Lock Done.
Definition unlock_it : thread unit := Unlock (Done tt).

Section threads.
Context `{K : KernelApi}.

(** A thread that is never interrupted. *)
Fixpoint run {A} (t : thread A) : M kstate A :=
  match t with
  | Done a => mret a
  | Do m k => m ≫= λ x, run (k x)
  | Lock k => mutex_lock_interruptible ≫= λ r, run (k r)
  | Unlock k => mutex_unlock ≫= λ _, run k
  end.

(** ** The handlers *)

Definition t_buffer_print (prefix : string) (buff : ptr) (off size : Z) : thread unit :=
  tmp ← act (kmalloc (u64 (size + 1)));
  if is_null tmp then mret tt
  else
    act (memcpy tmp 0 buff off size);;
    act (store_bytes tmp size [NUL]);;
    act (text ← load_bytes tmp 0 (size + 1); printk (KBuffer prefix (c_string text) size));;
    act (kfree tmp).

(** [buffer->entry[i].member]. *)
Definition load_slot {A} (member : aesd_buffer_entry → A) (buffer : ptr) (i : Z) : M kstate A :=
  b ← load_buffer buffer;
  e ← mlift (entry_at b i);
  mret (member e).

Fixpoint t_show_loop (fuel : nat) (buffer : ptr) (i buffer_iterator : Z) : thread unit :=
  match fuel with
  | O => act (λ _, OutOfFuel)
  | S fuel =>
    if i <? AESDCHAR_MAX_WRITE_OPERATIONS_SUPPORTED then
      p ← act (load_slot buffptr buffer buffer_iterator);
      (if is_null p then act (printk (KElemEmpty i))
       else
         act (printk (KElem i));;
         buff ← act (load_slot buffptr buffer buffer_iterator);
         n ← act (load_slot size buffer buffer_iterator);
         t_buffer_print "" buff 0 n);;
      t_show_loop fuel buffer (i + 1)
        ((buffer_iterator + 1) mod AESDCHAR_MAX_WRITE_OPERATIONS_SUPPORTED)
    else mret tt
  end.

Definition t_show_circular_buffer (buffer : ptr) : thread unit :=
  o ← act (b ← load_buffer buffer; mret (out_offs b));
  act (printk KShow);;
  t_show_loop (Z.to_nat AESDCHAR_MAX_WRITE_OPERATIONS_SUPPORTED + 1) buffer 0 o.

Definition t_release (filp : file) : thread Z :=
  act (printk KRelease);;
  buffer ← act (dev ← deref_dev (private_data filp); mret (pbuffer dev));
  t_show_circular_buffer buffer;;
  mret 0.

Definition t_read_entry (entry : aesd_buffer_entry) (entry_offset : Z)
    (buff count f_pos : Z) : thread (Z * Z) :=
  let read_offset_buffer_size := u64 (size entry - entry_offset) in
  read_offset_buffer ← act (kmalloc read_offset_buffer_size);
  if is_null read_offset_buffer then mret (- EFAULT, f_pos)
  else
    act (memcpy read_offset_buffer 0 (buffptr entry) entry_offset read_offset_buffer_size);;
    t_buffer_print "Offset found in buffer" (buffptr entry) 0 (size entry);;
    t_buffer_print "String to be returned to the user"
      read_offset_buffer 0 read_offset_buffer_size;;
    r ← act (copy_to_user buff read_offset_buffer read_offset_buffer_size);
    if negb (r =? 0) then mret (- EFAULT, f_pos)
    else
      mret (i64 (if read_offset_buffer_size <? count then read_offset_buffer_size else count),
            i64 (f_pos + read_offset_buffer_size)).

(** The search and the entry it finds. *)
Definition find_entry (p : devptr) (f_pos : Z) : M kstate (option (aesd_buffer_entry * Z)) :=
  dev ← deref_dev p;
  b ← buffer_arg (pbuffer dev);
  '(entry, entry_offset) ←
    mlift (aesd_circular_buffer_find_entry_offset_for_fpos b (u64 f_pos));
  match entry, b with
  | Some i, Some b => e ← mlift (entry_at b i); mret (Some (e, entry_offset))
  | _, _ => mret None
  end.

Definition t_read (filp : file) (buff count f_pos : Z) : thread (Z * Z) :=
  act (printk (KRead count f_pos));;
  act (deref_dev (private_data filp));;
  r ← lock_it;
  if negb (r =? 0) then mret (- ERESTARTSYS, f_pos)
  else
    found ← act (find_entry (private_data filp) f_pos);
    res ← (match found with
           | Some (entry, entry_offset) => t_read_entry entry entry_offset buff count f_pos
           | None => act (printk KNotFound);; mret (0, f_pos)
           end);
    unlock_it;;
    mret res.

Definition t_write_commit : thread unit :=
  fe ← act (mgets full_user_entry);
  c ← act (load_byte (buffptr fe) (size fe - 1));
  if decide (c = LF) then
    d ← act (mgets dev);
    b ← act (load_buffer (pbuffer d));
    (if full b then
       p ← act (mlift (aesd_circular_buffer_ref_buff b));
       act (kfree p)
     else mret tt);;
    t_buffer_print "Completed write command" (buffptr fe) 0 (size fe);;
    act (on_buffer (pbuffer d) (aesd_circular_buffer_add_entry fe));;
    act (set_dev (λ d, mk_dev (pbuffer d) (lock d) (i64 (buff_size d + size fe)) (cdev d)));;
    act (set_full_user_entry (mk_entry NULL 0))
  else mret tt.

Definition t_write (filp : file) (buff count f_pos : Z) : thread (Z * Z) :=
  act (printk (KWrite count f_pos));;
  act (deref_dev (private_data filp));;
  r ← lock_it;
  if negb (r =? 0) then mret (- ERESTARTSYS, f_pos)
  else
    fe ← act (mgets full_user_entry);
    tmp_user_buffer ← act (kmalloc (u64 (count + size fe)));
    res ←
      (if is_null tmp_user_buffer then mret (- ENOMEM, f_pos)
       else
         act (memcpy tmp_user_buffer 0 (buffptr fe) 0 (size fe));;
         r ← act (copy_from_user tmp_user_buffer (size fe) buff count);
         if negb (r =? 0) then
           act (kfree tmp_user_buffer);;
           mret (- EFAULT, f_pos)
         else
           t_buffer_print "\nReceived from the user" tmp_user_buffer (size fe) count;;
           act (c ← load_byte tmp_user_buffer (size fe + count - 1); printk (KLastChar c));;
           act (kfree (buffptr fe));;
           act (set_full_user_entry (mk_entry tmp_user_buffer (u64 (size fe + count))));;
           t_write_commit;;
           mret (i64 count, i64 (f_pos + count)));
    unlock_it;;
    mret res.

Definition t_lseek (pfile : file) (off whence : Z) : thread (Z * file) :=
  new_fpos ←
    (if whence =? 0 then mret (Some off)
     else if whence =? 1 then mret (Some (i64 (f_pos pfile + off)))
     else if whence =? 2 then
       n ← act (d ← deref_dev (private_data pfile); mret (buff_size d)); mret (Some n)
     else mret None);
  match new_fpos with
  | None => mret (- EINVAL, pfile)
  | Some new_fpos =>
    if new_fpos <? 0 then mret (- EINVAL, pfile)
    else mret (new_fpos, mk_file (private_data pfile) new_fpos)
  end.
End threads.

(** ** Threads without interruption *)

(** Computations that do the same in every state. *)
Definition same {St A} (m1 m2 : M St A) : Prop := ∀ s, m1 s = m2 s.
Infix "≐" := same (at level 70).

#[export] Instance same_equivalence {St A} : Equivalence (@same St A).
Proof.
  split; [done|intros m1 m2 H s; by rewrite H|].
  intros m1 m2 m3 H1 H2 s. by rewrite H1.
Qed.

Lemma bind_same {St A B} (m1 m2 : M St A) (f1 f2 : A → M St B) :
  m1 ≐ m2 → (∀ x, f1 x ≐ f2 x) → (m1 ≫= f1) ≐ (m2 ≫= f2).
Proof.
  intros Hm Hf s. unfold mbind, M_bind. rewrite Hm. destruct (m2 s) as [[x s']| |]; [apply Hf|done..].
Qed.

#[export] Instance bind_proper {St A B} :
  Proper (pointwise_relation A same ==> same ==> same) (@mbind (M St) _ A B).
Proof. intros f1 f2 Hf m1 m2 Hm. by apply bind_same. Qed.

Lemma bind_assoc {St A B C} (m : M St A) (f : A → M St B) (g : B → M St C) :
  ((m ≫= f) ≫= g) ≐ (m ≫= λ x, f x ≫= g).
Proof. intros s. unfold mbind, M_bind. by destruct (m s) as [[x s']| |]. Qed.

Lemma bind_at {St A B} (m1 m2 : M St A) (f1 f2 : A → M St B) s :
  m1 s = m2 s → (∀ x, f1 x ≐ f2 x) → (m1 ≫= f1) s = (m2 ≫= f2) s.
Proof.
  intros Hm Hf. unfold mbind, M_bind. rewrite Hm. destruct (m2 s) as [[x s']| |]; [apply Hf|done..].
Qed.

Lemma ret_bind {St A B} (a : A) (f : A → M St B) : (mret a ≫= f) ≐ f a.
Proof. done. Qed.

Lemma bind_ret {St A} (m : M St A) : (m ≫= mret) ≐ m.
Proof. intros s. unfold mbind, M_bind. by destruct (m s) as [[x s']| |]. Qed.

Section alone.
Context `{K : KernelApi}.

Lemma run_bind {A B} (t : thread A) (f : A → thread B) :
  run (t ≫= f) ≐ (run t ≫= λ x, run (f x)).
Proof.
  induction t as [a|B' m k IH|k IH|k IH]; cbn [run]; [done|..];
    unfold mbind at 1; unfold thread_bind; cbn [run]; rewrite bind_assoc;
    apply bind_same; try done; intros x; apply IH.
Qed.

Lemma run_act {A B} (m : M kstate A) (f : A → thread B) :
  run (act m ≫= f) ≐ (m ≫= λ x, run (f x)).
Proof. done. Qed.

Lemma run_lock : run lock_it ≐ mutex_lock_interruptible.
Proof. apply bind_ret. Qed.

Lemma run_unlock : run unlock_it ≐ mutex_unlock.
Proof.
  intros s. cbn [run unlock_it]. unfold mbind, M_bind. by destruct (mutex_unlock s) as [[[] s']| |].
Qed.
End alone.

Create HintDb alone.
#[export] Hint Resolve run_lock run_unlock : alone.

(** Both sides statement by statement; handlers within handlers are hints. *)
Ltac alone :=
  repeat first
    [ done
    | solve [auto with alone nocore]
    | apply bind_ret
    | match goal with
      | |- same (run (if ?c then _ else _)) _ => destruct c
      | |- same (run (act _ ≫= _)) _ => rewrite run_act
      | |- same (run (_ ≫= _)) _ => rewrite run_bind
      | |- same ((_ ≫= _) ≫= _) _ => rewrite bind_assoc
      | |- same (mret _ ≫= _) _ => rewrite ret_bind
      | |- same (_ ≫= _) (_ ≫= _) => apply bind_same; [|intros ?]
      end ].

Section handlers_alone.
Context `{K : KernelApi}.

Lemma run_buffer_print prefix p off n :
  run (t_buffer_print prefix p off n) ≐ aesd_buffer_print prefix p off n.
Proof. unfold t_buffer_print, aesd_buffer_print. alone. Qed.

(** A slot that is read again after a line was logged holds the same entry. *)
Lemma load_buffer_pure p s :
  (∃ b, ∀ s', heap s' = heap s → load_buffer p s' = Ret (b, s')) ∨
  (∃ w, ∀ s', heap s' = heap s → load_buffer p s' = UB w).
Proof.
  destruct p as [| |l]; [right; by exists NullDeref|right; by exists NullDeref|].
  destruct (heap s !! l) as [[d|b]|] eqn:E.
  - right. exists WrongObject. intros s' H. unfold load_buffer. erewrite bind_eval by done. by rewrite H, E.
  - left. exists b. intros s' H. unfold load_buffer. erewrite bind_eval by done. by rewrite H, E.
  - right. exists Dangling. intros s' H. unfold load_buffer. erewrite bind_eval by done. by rewrite H, E.
Qed.

Lemma load_slot_eval {A} (f : aesd_buffer_entry → A) p i b s :
  load_buffer p s = Ret (b, s) →
  load_slot f p i s = mlift (e ← entry_at b i; Ret (f e)) s.
Proof.
  intros H. unfold load_slot. erewrite bind_eval by done. unfold mlift, mbind, M_bind, outcome_bind.
  by destruct (entry_at b i).
Qed.

Lemma run_show_loop fuel p i it : run (t_show_loop fuel p i it) ≐ show_loop fuel p i it.
Proof.
  revert i it. induction fuel as [|fuel IH]; intros i it; [done|]. cbn [t_show_loop show_loop].
  destruct (i <? _); [|done]. rewrite run_act. intros s.
  destruct (load_buffer_pure p s) as [(b & Hb)|(w & Hw)].
  2:{ erewrite !bind_ub; [done|by apply Hw|]. unfold load_slot. erewrite bind_ub; [done|by apply Hw]. }
  erewrite (bind_eval (load_buffer p)) by by apply Hb.
  destruct (entry_at b it) as [e|w|] eqn:Ee.
  2,3: unfold mbind at 1, M_bind at 1; rewrite (load_slot_eval _ _ _ b) by (by apply Hb);
    rewrite Ee; unfold mbind, M_bind, mlift; rewrite ?Ee; done.
  erewrite bind_eval; [|rewrite (load_slot_eval _ _ _ b) by (by apply Hb); by rewrite Ee].
  erewrite (bind_eval (mlift _)) by done. rewrite run_bind.
  apply bind_at; [|intros _; apply IH]. destruct (is_null (buffptr e)); [done|].
  rewrite run_act. erewrite !bind_eval by done. cbn beta. set (s1 := mk_kstate _ _ _ _ _ _ _ _).
  assert (load_buffer p s1 = Ret (b, s1)) as H1 by (by apply Hb).
  rewrite run_act. erewrite bind_eval by (rewrite (load_slot_eval _ _ _ b), Ee by done; done).
  rewrite run_act. erewrite bind_eval by (rewrite (load_slot_eval _ _ _ b), Ee by done; done).
  apply run_buffer_print.
Qed.

Hint Resolve run_buffer_print run_show_loop : alone.

Lemma run_show p : run (t_show_circular_buffer p) ≐ aesd_show_circular_buffer p.
Proof. unfold t_show_circular_buffer, aesd_show_circular_buffer. alone. Qed.

Hint Resolve run_show : alone.

Lemma run_release filp : run (t_release filp) ≐ aesd_release filp.
Proof. unfold t_release, aesd_release. alone. Qed.

Lemma run_lseek filp off whence : run (t_lseek filp off whence) ≐ aesd_lseek filp off whence.
Proof.
  unfold t_lseek, aesd_lseek. rewrite run_bind. apply bind_same; [alone|intros [p|]; alone].
Qed.

Lemma run_read_entry e off buff count pos :
  run (t_read_entry e off buff count pos) ≐ aesd_read_entry e off buff count pos.
Proof. unfold t_read_entry, aesd_read_entry. alone. Qed.

Lemma run_write_commit : run t_write_commit ≐ aesd_write_commit.
Proof. unfold t_write_commit, aesd_write_commit. alone. Qed.

Hint Resolve run_read_entry run_write_commit : alone.

Lemma run_write filp buff count pos : run (t_write filp buff count pos) ≐ aesd_write filp buff count pos.
Proof. unfold t_write, aesd_write. alone. Qed.

Lemma run_read filp buff count pos : run (t_read filp buff count pos) ≐ aesd_read filp buff count pos.
Proof.
  unfold t_read, aesd_read, find_entry. alone.
  match goal with
  | r : option Z * Z, o : option aesd_circular_buffer |- _ =>
      destruct r as [[i|] off]; [destruct o as [b|]|]
  end; rewrite !bind_assoc; [|alone..].
  apply bind_same; [done|]. intros e. rewrite ret_bind, run_bind.
  apply bind_same; [apply run_read_entry|intros res; alone].
Qed.

(** ** System calls *)

(** A call as the VFS issues it, and what its thread returns: the result and the new
    position. *)
Inductive call : Type :=
  | CallRead (filp : file) (buff count : Z)
  | CallWrite (filp : file) (buff count : Z)
  | CallLseek (filp : file) (off whence : Z)
  | CallRelease (filp : file).

Definition thread_of (c : call) : thread (Z * Z) :=
  match c with
  | CallRead f buff count => t_read f buff count (f_pos f)
  | CallWrite f buff count => t_write f buff count (f_pos f)
  | CallLseek f off whence => '(r, f') ← t_lseek f off whence; mret (r, f_pos f')
  | CallRelease f => r ← t_release f; mret (r, f_pos f)
  end.

(** The same call as one of the handlers of [CharDriver]. *)
Definition handler_of (c : call) : M kstate (Z * Z) :=
  match c with
  | CallRead f buff count => aesd_read f buff count (f_pos f)
  | CallWrite f buff count => aesd_write f buff count (f_pos f)
  | CallLseek f off whence => '(r, f') ← aesd_lseek f off whence; mret (r, f_pos f')
  | CallRelease f => r ← aesd_release f; mret (r, f_pos f)
  end.

(** A call that is not interrupted does what its handler does: the same result, position,
    state and faults, on every state of every kernel. *)
Theorem calls_run_alone (c : call) (s : kstate) : run (thread_of c) s = handler_of c s.
Proof.
  revert s. change (run (thread_of c) ≐ handler_of c). destruct c as [f buff count|f buff count|f off whence|f]; cbn [thread_of handler_of];
    [apply run_read|apply run_write|..]; rewrite run_bind; apply bind_same;
    [apply run_lseek|intros []; done|apply run_release|done].
Qed.
End handlers_alone.
