(* ===== verification/CharDriverViews.v ===== *)
(** * What a call of the driver holds while others run

    A small logic for the threads of [CharDriverThreads].  Each call has a view: the blocks
    it allocated, what it holds of the device, and how many commands it may still publish.
    The struct and the published commands are common to all and only grow; the command
    under assembly belongs to whoever holds the mutex.  [safe t v g Q] says that thread [t]
    with view [v] never goes wrong whatever the others do within these rules, and ends
    with [Q]; there is a rule for each statement, and every call is safe. *)

From stdpp Require Import base list gmap option strings.
From Stdlib Require Import ZArith Lia.
From S2P Require Import Prelude CircularBuffer CircularBufferSpec Kernel CharDriver.
From S2P Require Import KernelRules CharDriverSpec CharDriverWrite CharDriverRead.
From S2P Require Import CharDriverLife CharDriverTrace CharDriverThreads.
#[local] Open Scope Z_scope.

(** How many commands a call can publish. *)
Definition writes (c : call) : nat := match c with CallWrite _ _ _ => 1 | _ => 0 end.

(** Calls the VFS lets through, on files of the device; writes are not empty. *)
Definition call_ok (c : call) : Prop :=
  match c with
  | CallRead f _ count => file_ok f ∧ 0 ≤ count ≤ MAX_RW_COUNT
  | CallWrite f _ count => file_ok f ∧ 0 < count ≤ MAX_RW_COUNT
  | CallLseek f _ _ | CallRelease f => file_ok f
  end.

(** ** What all calls share *)

(** The struct and the commands it publishes, each in its block. *)
Record common : Type := mk_common {
  g_ring : aesd_circular_buffer;
  g_cmds : list (positive * list Byte.byte);
}.

Section views.
Context `{K : KernelApi} (pb : positive).

Definition cmd_block (lc : positive * list Byte.byte) : positive * hval := (lc.1, HBytes lc.2).
Definition common_blocks (g : common) : list (positive * hval) :=
  (pb, HBuf (g_ring g)) :: (cmd_block <$> g_cmds g).

Record common_ok (g : common) : Prop := {
  co_wf : wf (g_ring g);
  co_contents : contents (g_ring g) = (λ lc, cmd_entry lc.1 lc.2) <$> g_cmds g;
  co_sizes : Forall (λ lc, last lc.2 = Some LF ∧ Z.of_nat (length lc.2) ≤ KMALLOC_MAX_SIZE)
                    (g_cmds g);
}.

(** Commands are added behind, and a slot keeps the command it got. *)
Record extends (g g' : common) : Prop := {
  ex_cmds : g_cmds g `prefix_of` g_cmds g';
  ex_slots : ∀ i l c, entry (g_ring g) !! i = Some (cmd_entry l c) →
                      entry (g_ring g') !! i = Some (cmd_entry l c);
}.

#[export] Instance extends_preorder : PreOrder extends.
Proof.
  split; [by intros g; split|]. intros g1 g2 g3 [H1 S1] [H2 S2].
  split; [by transitivity (g_cmds g2)|eauto].
Qed.

(** ** Views *)

(** Outside the critical section a call knows nothing of the command under assembly;
    inside it knows the device [a] it found, the static entry and the counter. *)
Inductive place : Type := Outside | Inside (a : adev) (fe : aesd_buffer_entry) (size : Z).

(** [v_room]: how many commands the call may still publish; [v_wrote]: the chunks it has
    added to the device. *)
Record view : Type := mk_view {
  v_place : place;
  v_blocks : list (positive * hval);
  v_room : nat;
  v_wrote : list (list Byte.byte);
  v_call : call;
}.

(** The state as a call with view [v] sees it; [G] is the memory of the others. *)
Record sees (v : view) (g : common) (s : kstate) (G : gmap positive hval) : Prop := {
  se_buffer : pbuffer (dev s) = Blk pb;
  se_common : common_ok g;
  se_owns : owns (heap s) (common_blocks g ++ v_blocks v) G;
  se_place : match v_place v with
             | Outside => True
             | Inside a fe n =>
                 lock (dev s) = MutexHeld ∧ full_user_entry s = fe ∧ buff_size (dev s) = n
             end;
  se_room : (length (g_cmds g) + v_room v ≤ 10)%nat;
}.

(** What the others may have done since: nothing to a call that holds the mutex. *)
Definition later (v : view) (g g' : common) : Prop :=
  match v_place v with Outside => extends g g' | Inside _ _ _ => g' = g end.

(** What a statement may do to the common part. *)
Definition allowed (v : view) (g : common) (s : kstate) (v' : view) (g' : common) (s' : kstate) :
    Prop :=
  (length (g_cmds g') + v_room v' ≤ length (g_cmds g) + v_room v)%nat ∧
  v_wrote v' = v_wrote v ∧ v_call v' = v_call v ∧
  match v_place v, v_place v' with
  | Outside, Outside => g' = g ∧ lock (dev s') = lock (dev s) ∧
      full_user_entry s' = full_user_entry s ∧ buff_size (dev s') = buff_size (dev s)
  | Inside a _ _, Inside a' _ _ => a' = a ∧ extends g g'
  | _, _ => False
  end.

(** What the mutex protects, when nobody holds it: the device is [a]. *)
Record resting (g : common) (a : adev) (po : option positive) : Prop := {
  re_commands : commands a = (g_cmds g).*2;
  re_wf : adev_wf a;
  re_po : po = None ↔ partial a = [];
}.

(** The thread never goes wrong from here, and ends with [Q]. *)
Fixpoint safe {A} (t : thread A) (v : view) (g : common) (Q : A → view → common → Prop) : Prop :=
  match t with
  | Done x => ∀ g', later v g g' → Q x v g'
  | Do m k => ∀ g' s G, later v g g' → sees v g' s G →
      wp m s (λ x s', ∃ v' g'', allowed v g' s v' g'' s' ∧ sees v' g'' s' G ∧ safe (k x) v' g'' Q)
  | Lock k => v_place v = Outside ∧ ∀ g', extends g g' →
      safe (k (- EINTR)) v g' Q ∧
      ∀ a po, resting g' a po →
        safe (k 0) (mk_view (Inside a (partial_entry po (partial a)) (written a))
                            (partial_blocks po (partial a) ++ v_blocks v) (v_room v)
                            (v_wrote v) (v_call v)) g' Q
  | Unlock k => ∃ a a' po blocks ws,
      v_place v = Inside a (partial_entry po (partial a')) (written a') ∧
      v_blocks v ≡ₚ partial_blocks po (partial a') ++ blocks ∧
      resting g a' po ∧ a' = write_all ws a ∧
      safe k (mk_view Outside blocks (v_room v) (v_wrote v ++ ws) (v_call v)) g Q
  end.
End views.

(** ** Rules *)

Section rules.
Context `{K : KernelApi} {L : KernelLaws K} (pb : positive).
Implicit Types (v : view) (g : common) (s : kstate).

Lemma later_refl v g : later v g g.
Proof. unfold later. by destruct (v_place v). Qed.

Lemma later_trans v g1 g2 g3 : later v g1 g2 → later v g2 g3 → later v g1 g3.
Proof.
  unfold later. destruct (v_place v); [by intros; transitivity g2|congruence].
Qed.

Lemma later_place v v' g g' : v_place v = v_place v' → later v g g' → later v' g g'.
Proof. unfold later. by intros ->. Qed.

Lemma safe_later {A} (t : thread A) v g g' Q :
  safe pb t v g Q → later v g g' → safe pb t v g' Q.
Proof.
  intros H Hg. destruct t as [a|B m k|k|k]; cbn [safe] in *.
  - intros g2 H2. apply H. by eapply later_trans.
  - intros g2 s G H2. apply H. by eapply later_trans.
  - destruct H as [Hv H]. split; [done|]. intros g2 H2. apply H.
    unfold later in Hg. rewrite Hv in Hg. by transitivity g'.
  - destruct H as (a & a' & po & bl & ws & Hv & H). unfold later in Hg. rewrite Hv in Hg. subst g'.
    by exists a, a', po, bl, ws.
Qed.

Lemma safe_mono {A} (t : thread A) v g (Q Q' : A → view → common → Prop) :
  safe pb t v g Q → (∀ x v' g', Q x v' g' → Q' x v' g') → safe pb t v g Q'.
Proof.
  intros H HQ. revert v g H. induction t as [a|B m k IH|k IH|k IH]; intros v g H; cbn [safe] in *.
  - auto.
  - intros g' s G Hg Hs. eapply wp_mono; [by apply (H g' s G)|].
    intros x s' (v' & g'' & Ha & Hs' & Hk). exists v', g''. auto.
  - destruct H as [Hv H]. split; [done|]. intros g' Hg. destruct (H g' Hg) as [H1 H2].
    split; [by apply IH|]. intros a po Hr. by apply IH, H2.
  - destruct H as (a & a' & po & bl & ws & Hv & Hb & Hr & Hw & H). exists a, a', po, bl, ws.
    split; [done|]. split; [done|]. split; [done|]. split; [done|]. by apply IH.
Qed.

Lemma safe_bind {A B} (t : thread A) (f : A → thread B) v g Q :
  safe pb t v g (λ x v' g', safe pb (f x) v' g' Q) → safe pb (t ≫= f) v g Q.
Proof.
  revert v g. induction t as [a|B' m k IH|k IH|k IH]; intros v g H; cbn [safe] in H.
  - apply (H g). apply later_refl.
  - intros g' s G Hg Hs. eapply wp_mono; [by apply (H g' s G)|].
    intros x s' (v' & g'' & Ha & Hs' & Hk). exists v', g''. split; [done|]. split; [done|].
    by apply IH.
  - destruct H as [Hv H]. split; [done|]. intros g' Hg. destruct (H g' Hg) as [H1 H2].
    split; [by apply IH|]. intros a po Hr. by apply IH, H2.
  - destruct H as (a & a' & po & bl & ws & Hv & Hb & Hr & Hw & H). exists a, a', po, bl, ws.
    split; [done|]. split; [done|]. split; [done|]. split; [done|]. by apply IH.
Qed.

Lemma safe_ret {A} (x : A) v g (Q : A → view → common → Prop) :
  (∀ g', later v g g' → Q x v g') → safe pb (mret x) v g Q.
Proof. done. Qed.

(** One statement. *)
Lemma safe_act {A B} (m : M kstate A) (f : A → thread B) v g Q :
  (∀ g' s G, later v g g' → sees pb v g' s G →
     wp m s (λ x s', ∃ v' g'', allowed v g' s v' g'' s' ∧ sees pb v' g'' s' G ∧
                     safe pb (f x) v' g'' Q)) →
  safe pb (act m ≫= f) v g Q.
Proof. done. Qed.

Definition with_blocks (bl : list (positive * hval)) (v : view) : view :=
  mk_view (v_place v) bl (v_room v) (v_wrote v) (v_call v).

Lemma with_own_blocks v : with_blocks (v_blocks v) v = v.
Proof. by destruct v. Qed.

Lemma with_blocks_again bl bl' v : with_blocks bl (with_blocks bl' v) = with_blocks bl v.
Proof. done. Qed.

(** A statement that touches only blocks of the call. *)
Lemma safe_private {A B} (m : M kstate A) (f : A → thread B) v g Q :
  (∀ g' s G, later v g g' → sees pb v g' s G →
     wp m s (λ x s', dev s' = dev s ∧ full_user_entry s' = full_user_entry s ∧
       ∃ bl, owns (heap s') (common_blocks pb g' ++ bl) G ∧
             safe pb (f x) (with_blocks bl v) g' Q)) →
  safe pb (act m ≫= f) v g Q.
Proof.
  intros H. apply safe_act. intros g' s G Hg Hs. eapply wp_mono; [by apply H|].
  intros x s' (Hd & He & bl & Ho & Hf). exists (with_blocks bl v), g'.
  destruct Hs as [Hb Hc _ Hp Hr]. split; [|split; [|done]].
  - split; [done|]. split; [done|]. split; [done|]. unfold with_blocks. cbn [v_place]. rewrite Hd, He.
    destruct (v_place v); [done|]. split; [done|reflexivity].
  - split; cbn [with_blocks v_place v_blocks v_room]; rewrite ?Hd, ?He; done.
Qed.

(** A statement that changes no memory. *)
Lemma safe_quiet {A B} (m : M kstate A) (f : A → thread B) v g Q :
  (∀ g' s G, later v g g' → sees pb v g' s G →
     wp m s (λ x s', quiet s s' ∧ safe pb (f x) v g' Q)) →
  safe pb (act m ≫= f) v g Q.
Proof.
  intros H. apply safe_private. intros g' s G Hg Hs. eapply wp_mono; [by apply (H g' s G)|].
  intros x s' [[F Hh] Hf]. split; [apply F|]. split; [apply F|]. exists (v_blocks v).
  rewrite with_own_blocks, Hh. split; [apply Hs|done].
Qed.

Lemma safe_printk {B} msg (f : unit → thread B) v g Q :
  safe pb (f tt) v g Q → safe pb (act (printk msg) ≫= f) v g Q.
Proof.
  intros H. apply safe_quiet. intros g' s G Hg Hs. apply wp_printk. intros s' Hq _ _.
  split; [done|]. by eapply safe_later.
Qed.

Lemma safe_kmalloc {B} n (f : ptr → thread B) v g Q : 0 < n →
  safe pb (f NULL) v g Q →
  (∀ l d, Z.of_nat (length d) = n → n ≤ KMALLOC_MAX_SIZE →
     safe pb (f (Blk l)) (with_blocks ((l, HBytes d) :: v_blocks v) v) g Q) →
  safe pb (act (kmalloc n) ≫= f) v g Q.
Proof.
  intros Hn HN HS. apply safe_private. intros g' s G Hg Hs. apply wp_kmalloc; [done|..].
  - intros _ s' [F Hh] _. split; [apply F|]. split; [apply F|]. exists (v_blocks v).
    rewrite with_own_blocks, Hh. split; [apply Hs|by eapply safe_later].
  - intros l d _ Hl Hd Hm s' F _ Hh. split; [apply F|]. split; [apply F|].
    exists ((l, HBytes d) :: v_blocks v). split.
    + rewrite Hh, <- Permutation_middle. apply owns_alloc; [apply Hs|done].
    + eapply safe_later; [by apply HS|]. by eapply later_place.
Qed.

(** A block of the call. *)
Lemma sees_block v g s G l x : sees pb v g s G → (l, x) ∈ v_blocks v → heap s !! l = Some x.
Proof.
  intros Hs Hin. eapply owns_lookup; [apply Hs|]. apply elem_of_app. by right.
Qed.

Lemma sees_command v g s G l c : sees pb v g s G → (l, c) ∈ g_cmds g → heap s !! l = Some (HBytes c).
Proof.
  intros Hs Hin. eapply owns_lookup; [apply Hs|]. apply elem_of_app. left. right.
  apply list_elem_of_fmap. by exists (l, c).
Qed.

Lemma sees_ring v g s G : sees pb v g s G → heap s !! pb = Some (HBuf (g_ring g)).
Proof. intros Hs. eapply owns_lookup; [apply Hs|]. by left. Qed.

(** Writing to the first of its blocks, and freeing it. *)
Lemma owns_own_update h g l x x' o G :
  owns h (common_blocks pb g ++ (l, x) :: o) G →
  owns (<[l := x']> h) (common_blocks pb g ++ (l, x') :: o) G.
Proof. rewrite <- !Permutation_middle. apply owns_update. Qed.

Lemma owns_own_free h g l x o G :
  owns h (common_blocks pb g ++ (l, x) :: o) G → owns (delete l h) (common_blocks pb g ++ o) G.
Proof. rewrite <- Permutation_middle. apply owns_free. Qed.

Lemma safe_kfree {B} l x o (f : unit → thread B) v g Q :
  v_blocks v ≡ₚ (l, x) :: o → safe pb (f tt) (with_blocks o v) g Q →
  safe pb (act (kfree (Blk l)) ≫= f) v g Q.
Proof.
  intros Hb H. apply safe_private. intros g' s G Hg Hs.
  pose proof (se_owns _ _ _ _ _ Hs) as Ho. rewrite Hb in Ho.
  eapply wp_kfree; [eapply sees_block; [done|rewrite Hb; by left]|]. intros s' F _ Hh.
  split; [apply F|]. split; [apply F|]. exists o. split.
  - rewrite Hh. by eapply owns_own_free.
  - eapply safe_later; [done|]. by eapply later_place.
Qed.

(** [n] bytes that the call may read: of its own block or of a published command. *)
Definition may_read (v : view) (g : common) (p : ptr) (off n : Z) : Prop :=
  n = 0 ∨ ∃ l d, p = Blk l ∧ ((l, d) ∈ g_cmds g ∨ (l, HBytes d) ∈ v_blocks v) ∧
                 0 ≤ off ∧ 0 < n ∧ off + n ≤ Z.of_nat (length d).

Lemma may_read_later v g g' p off n : may_read v g p off n → later v g g' → may_read v g' p off n.
Proof.
  intros [->|(l & d & -> & Hin & H)] Hg; [by left|right]. exists l, d. split; [done|]. split; [|done].
  destruct Hin as [Hin|]; [left|by right]. unfold later in Hg. destruct (v_place v).
  - destruct Hg as [[k ->] _]. apply elem_of_app. by left.
  - by subst g'.
Qed.

Lemma may_read_readable v g s G p off n :
  sees pb v g s G → may_read v g p off n → readable s p off n.
Proof.
  intros Hs [->|(l & d & -> & Hin & H)]; [by left|right]. exists l, d. split; [done|]. split; [|done].
  destruct Hin; [by eapply sees_command|by eapply sees_block].
Qed.

(** A statement that writes to the first of its blocks. *)
Lemma safe_update {A B} (P : A → list Byte.byte → Prop) l d o (m : M kstate A) (f : A → thread B) v g Q :
  v_blocks v = (l, HBytes d) :: o →
  (∀ g' s G, later v g g' → sees pb v g' s G → heap s !! l = Some (HBytes d) →
     wp m s (λ x s', dev s' = dev s ∧ full_user_entry s' = full_user_entry s ∧
       ∃ d', heap s' = <[l := HBytes d']> (heap s) ∧ P x d')) →
  (∀ x d', P x d' → safe pb (f x) (with_blocks ((l, HBytes d') :: o) v) g Q) →
  safe pb (act m ≫= f) v g Q.
Proof.
  intros Hb Hm Hf. apply safe_private. intros g' s G Hg Hs. eapply wp_mono; [apply (Hm g' s G); try done|].
  { eapply sees_block; [done|]. rewrite Hb. by left. }
  intros x s' (Hd & He & d' & Hh & HP). split; [done|]. split; [done|]. exists ((l, HBytes d') :: o). split.
  - rewrite Hh. eapply owns_own_update. rewrite <- Hb. apply Hs.
  - eapply safe_later; [by apply Hf|]. by eapply later_place.
Qed.

Lemma frame_shared s s' : frame s s' → dev s' = dev s ∧ full_user_entry s' = full_user_entry s.
Proof. intros []. done. Qed.

(** Copying into its own block. *)
Lemma safe_memcpy {B} l d o p off n (f : unit → thread B) v g Q :
  v_blocks v = (l, HBytes d) :: o → may_read v g p off n → 0 ≤ n ≤ Z.of_nat (length d) →
  (∀ d', length d' = length d → safe pb (f tt) (with_blocks ((l, HBytes d') :: o) v) g Q) →
  safe pb (act (memcpy (Blk l) 0 p off n) ≫= f) v g Q.
Proof.
  intros Hb Hp Hn Hf. eapply (safe_update (λ _ d', length d' = length d)); [done| |by intros [] d'; apply Hf].
  intros g' s G Hg Hs Hl. pose proof (may_read_later _ _ _ _ _ _ Hp Hg) as Hp'.
  apply (may_read_readable _ _ _ _ _ _ _ Hs) in Hp'. unfold memcpy.
  destruct Hp' as [->|(k & c & -> & Hk & Hoff & Hpos & Hc)].
  { rewrite Z.eqb_refl, wp_ret. split; [done|]. split; [done|]. exists d. by rewrite insert_id. }
  rewrite (proj2 (Z.eqb_neq _ _)) by lia. apply wp_bind. eapply wp_load_bytes; [done|lia..|].
  assert (length (take (Z.to_nat n) (drop (Z.to_nat off) c)) = Z.to_nat n) as Hlen
    by (rewrite length_take, length_drop; lia).
  eapply wp_store_bytes; [done|lia..|]. intros s' F _ Hh. destruct (frame_shared _ _ F) as [Hd He].
  split; [done|]. split; [done|]. eexists. split; [exact Hh|].
  rewrite !length_app, length_take, length_drop. lia.
Qed.

Lemma safe_store {B} l d o off new (f : unit → thread B) v g Q :
  v_blocks v = (l, HBytes d) :: o → 0 ≤ off → off + Z.of_nat (length new) ≤ Z.of_nat (length d) →
  (∀ d', length d' = length d → safe pb (f tt) (with_blocks ((l, HBytes d') :: o) v) g Q) →
  safe pb (act (store_bytes (Blk l) off new) ≫= f) v g Q.
Proof.
  intros Hb Hoff Hn Hf. eapply (safe_update (λ _ d', length d' = length d)); [done| |by intros [] d'; apply Hf].
  intros g' s G Hg Hs Hl. eapply wp_store_bytes; [done..|]. intros s' F _ Hh.
  destruct (frame_shared _ _ F) as [Hd He]. split; [done|]. split; [done|]. eexists. split; [exact Hh|].
  rewrite !length_app, length_take, length_drop. lia.
Qed.

(** The printer works on a block of its own. *)
Lemma safe_buffer_print prefix p off n v g (Q : unit → view → common → Prop) :
  may_read v g p off n → 0 ≤ n → n + 1 < 2 ^ 64 →
  (∀ x g', later v g g' → Q x v g') → safe pb (t_buffer_print prefix p off n) v g Q.
Proof.
  intros Hp Hn Hsmall Hf'. unfold t_buffer_print. rewrite uwrap_small by lia.
  apply safe_kmalloc; [lia|by apply safe_ret, Hf'|]. intros l d Hd Hm. cbn [is_null].
  eapply safe_memcpy; [done| |lia|].
  { destruct Hp as [->|(k & c & -> & Hin & H)]; [by left|right]. exists k, c. split; [done|].
    split; [|done]. destruct Hin; [by left|right]. cbn. by right. }
  intros d2 Hd2. eapply safe_store; [done|lia|cbn; lia|]. intros d3 Hd3. cbn [with_blocks v_blocks].
  apply safe_quiet.
  { intros g' s G Hg Hs. apply wp_bind. eapply wp_load_bytes; [eapply sees_block; [done|by left]|lia..|].
    apply wp_printk. intros s' Hq _ _. split; [done|].
    change (act (kfree (Blk l))) with (act (kfree (Blk l)) ≫= mret).
    eapply safe_kfree; [cbn [with_blocks v_blocks]; reflexivity|]. rewrite !with_blocks_again, with_own_blocks.
    apply safe_ret. intros g2 Hg2. apply Hf'. by eapply later_trans. }
Qed.

(** ** The release of a file *)

(** A slot is empty or holds a published command, for good. *)
Lemma slot_cases g i e : common_ok g → entry (g_ring g) !! i = Some e →
  e = null_entry ∨ ∃ l c, e = cmd_entry l c ∧ (l, c) ∈ g_cmds g.
Proof.
  intros [Hwf Hc _] Hi.
  assert (e = null_entry ∨ e ∈ contents (g_ring g)) as [->|Hin]; [|by left|right].
  { unfold contents. destruct (full (g_ring g)) eqn:Hf.
    - right. rewrite Permutation_app_comm, take_drop. apply list_elem_of_lookup. eauto.
    - rewrite <- (take_drop (Z.to_nat (in_offs (g_ring g))) (entry (g_ring g))) in Hi.
      rewrite (wf_unused _ Hwf Hf) in Hi. apply lookup_app_Some in Hi as [Hi|[_ Hi]].
      + right. apply list_elem_of_lookup. eauto.
      + left. by apply lookup_replicate in Hi as [-> _]. }
  rewrite Hc in Hin. apply list_elem_of_fmap in Hin as ([l c] & -> & Hin). by exists l, c.
Qed.

(** Reading a member of a slot. *)
Lemma safe_load_slot {A B} (member : aesd_buffer_entry → A) i (f : A → thread B) v g Q :
  0 ≤ i < 10 →
  (∀ e g', later v g g' → common_ok g' → entry (g_ring g') !! Z.to_nat i = Some e →
     safe pb (f (member e)) v g' Q) →
  safe pb (act (load_slot member (Blk pb) i) ≫= f) v g Q.
Proof.
  intros Hi Hf. apply safe_quiet. intros g' s G Hg Hs. unfold load_slot. apply wp_bind.
  eapply wp_load_buffer; [by eapply sees_ring|]. pose proof (se_common _ _ _ _ _ Hs) as Hc.
  pose proof (wf_length _ (co_wf _ Hc)) as Hlen. change capacity with 10%nat in Hlen.
  destruct (lookup_lt_is_Some_2 (entry (g_ring g')) (Z.to_nat i)) as [e He]; [lia|].
  rewrite wp_bind, wp_lift. pose proof (entry_at_in _ _ _ He) as Hat.
  rewrite Z2Nat.id in Hat by lia. rewrite Hat. cbn [owp]. rewrite wp_ret. split; [done|]. by apply Hf.
Qed.

Lemma safe_print_then {B} prefix p off n (f : unit → thread B) v g Q :
  may_read v g p off n → 0 ≤ n → n + 1 < 2 ^ 64 →
  safe pb (f tt) v g Q → safe pb (t_buffer_print prefix p off n ≫= f) v g Q.
Proof.
  intros Hp Hn Hsmall Hf. apply safe_bind, safe_buffer_print; [done..|].
  intros [] g' Hg. by eapply safe_later.
Qed.

Lemma command_small g l c : common_ok g → (l, c) ∈ g_cmds g →
  0 < Z.of_nat (length c) ∧ Z.of_nat (length c) ≤ KMALLOC_MAX_SIZE.
Proof.
  intros Hc Hin. destruct (proj1 (list.Forall_forall _ _) (co_sizes _ Hc) _ Hin) as [Hl Hm]. cbn in Hl, Hm.
  split; [|done]. destruct c; [done|cbn; lia].
Qed.

Lemma may_read_command v g l c : common_ok g → (l, c) ∈ g_cmds g →
  may_read v g (Blk l) 0 (Z.of_nat (length c)).
Proof.
  intros Hc Hin. pose proof (command_small _ _ _ Hc Hin). right. exists l, c.
  split; [done|]. split; [by left|]. lia.
Qed.

Lemma safe_show_loop fuel : ∀ i it v g (Q : unit → view → common → Prop),
  10 - i < Z.of_nat fuel → 0 ≤ i ≤ 10 → 0 ≤ it < 10 → v_place v = Outside →
  (∀ x g', later v g g' → Q x v g') → safe pb (t_show_loop fuel (Blk pb) i it) v g Q.
Proof.
  induction fuel as [|fuel IH]; intros i it v g Q Hfuel Hi Hit Hv HQ; [lia|]. cbn [t_show_loop].
  unfold AESDCHAR_MAX_WRITE_OPERATIONS_SUPPORTED.
  destruct (Z.ltb_spec i 10) as [Hlt|Hge]; [|apply safe_ret; auto].
  assert (0 ≤ (it + 1) mod 10 < 10) as Hnext by (apply Z.mod_pos_bound; lia).
  apply safe_load_slot; [done|]. intros e g1 Hg1 Hc1 He1.
  assert (∀ (x : unit) g', later v g1 g' → safe pb (t_show_loop fuel (Blk pb) (i + 1) ((it + 1) mod 10)) v g' Q) as Hloop.
  { intros _ g' Hg'. apply IH; [lia|lia|done|done|]. intros x g'' Hg''. apply HQ.
    eapply later_trans; [exact Hg1|]. by eapply later_trans. }
  apply safe_bind.
  destruct (slot_cases _ _ _ Hc1 He1) as [->|(l & c & -> & Hin)]; cbn [null_entry cmd_entry buffptr is_null].
  - change (act (printk (KElemEmpty i))) with (act (printk (KElemEmpty i)) ≫= mret).
    apply safe_printk, safe_ret. by apply Hloop.
  - apply safe_printk. 
    assert (∀ g2, later v g1 g2 → entry (g_ring g2) !! Z.to_nat it = Some (cmd_entry l c) ∧ (l, c) ∈ g_cmds g2) as Hst.
    { unfold later. rewrite Hv. intros g2 [[k ->] Hs]. split; [by apply Hs|]. apply elem_of_app. by left. }
    apply safe_load_slot; [done|]. intros e2 g2 Hg2 Hc2 He2. destruct (Hst _ Hg2) as [He2' _].
    rewrite He2' in He2. injection He2 as <-.
    apply safe_load_slot; [done|]. intros e3 g3 Hg3 Hc3 He3.
    destruct (Hst g3 (later_trans _ _ _ _ Hg2 Hg3)) as [He3' Hin3]. rewrite He3' in He3. injection He3 as <-.
    pose proof (command_small _ _ _ Hc3 Hin3). pose proof kmalloc_max. cbn [buffptr size cmd_entry].
    apply safe_buffer_print; [by apply may_read_command|lia..|]. intros x g' Hg'. apply (Hloop x).
    eapply later_trans; [exact Hg2|]. by eapply later_trans.
Qed.

(** [dev->pbuffer] through the file. *)
Lemma sees_dev v g s G p : sees pb v g s G → p = AesdDevice →
  ∀ Q, Q (dev s) s → wp (deref_dev p) s Q.
Proof. intros _ -> Q HQ. cbn [deref_dev]. by rewrite wp_gets. Qed.

(** How a call ends: outside the critical section; what it allocated may be lost.  A write
    that returns its count has added one chunk of that length, any other call nothing. *)
Definition outcome_of (c : call) (ret : Z) (ws : list (list Byte.byte)) : Prop :=
  match c with
  | CallWrite _ _ count =>
      (ret < 0 ∧ ws = []) ∨ (ret = count ∧ ∃ bytes, ws = [bytes] ∧ Z.of_nat (length bytes) = count)
  | _ => ws = []
  end.

Definition left (x : Z * Z) (v : view) (g : common) : Prop :=
  v_place v = Outside ∧ outcome_of (v_call v) x.1 (v_wrote v).

Lemma safe_release f v g :
  private_data f = AesdDevice → v_place v = Outside →
  safe pb (t_release f) v g (λ _ v' _, v' = v).
Proof.
  intros Hf Hv. unfold t_release. apply safe_printk. apply safe_quiet. intros g1 s G Hg1 Hs.
  apply wp_bind. eapply sees_dev; [done..|]. rewrite wp_ret. split; [done|].
  rewrite (se_buffer _ _ _ _ _ Hs). apply safe_bind. unfold t_show_circular_buffer.
  apply safe_quiet. intros g2 s2 G2 Hg2 Hs2. apply wp_bind.
  eapply wp_load_buffer; [by eapply sees_ring|]. rewrite wp_ret. split; [done|]. apply safe_printk.
  pose proof (co_wf _ (se_common _ _ _ _ _ Hs2)) as Hwf. pose proof (wf_in _ Hwf).
  unfold AESDCHAR_MAX_WRITE_OPERATIONS_SUPPORTED in *.
  apply safe_show_loop; [lia|lia| |done|].
  - rewrite (wf_out _ Hwf). destruct (full _); lia.
  - intros x g' _. by apply safe_ret.
Qed.

Lemma safe_lseek f off whence v g :
  private_data f = AesdDevice → v_place v = Outside →
  safe pb (t_lseek f off whence) v g (λ _ v' _, v' = v).
Proof.
  intros Hf Hv. unfold t_lseek. apply safe_bind.
  assert (∀ o g', safe pb (match o with
    | None => mret (- EINVAL, f)
    | Some n => if n <? 0 then mret (- EINVAL, f) else mret (n, mk_file (private_data f) n) end) v g'
      (λ _ v' _, v' = v)) as Hend.
  { intros [n|] g'; [destruct (n <? 0)|]; apply safe_ret; auto. }
  destruct (whence =? 0); [exact (λ g' _, Hend (Some off) g')|].
  destruct (whence =? 1); [exact (λ g' _, Hend (Some _) g')|].
  destruct (whence =? 2); [|exact (λ g' _, Hend None g')].
  apply safe_quiet. intros g1 s G Hg1 Hs. apply wp_bind. eapply sees_dev; [done..|]. rewrite wp_ret.
  split; [done|]. exact (λ g' _, Hend (Some _) g').
Qed.

(** ** The critical section *)

(** The view of a call that has just taken the mutex of the device [a]. *)
Definition enter (a : adev) (po : option positive) (v : view) : view :=
  mk_view (Inside a (partial_entry po (partial a)) (written a))
          (partial_blocks po (partial a) ++ v_blocks v) (v_room v) (v_wrote v) (v_call v).

Lemma safe_lock {B} (f : Z → thread B) v g Q :
  v_place v = Outside →
  (∀ g', extends g g' → safe pb (f (- EINTR)) v g' Q) →
  (∀ g' a po, extends g g' → resting g' a po → safe pb (f 0) (enter a po v) g' Q) →
  safe pb (lock_it ≫= f) v g Q.
Proof. intros Hv Hint Hok. split; [done|]. intros g' Hg. split; [by apply Hint|]. intros a po. by apply Hok. Qed.

Lemma safe_unlock {B} a a' po bl ws (f : unit → thread B) v g Q :
  v_place v = Inside a (partial_entry po (partial a')) (written a') →
  v_blocks v ≡ₚ partial_blocks po (partial a') ++ bl → resting g a' po → a' = write_all ws a →
  safe pb (f tt) (mk_view Outside bl (v_room v) (v_wrote v ++ ws) (v_call v)) g Q →
  safe pb (unlock_it ≫= f) v g Q.
Proof. intros. by exists a, a', po, bl, ws. Qed.

(** What a part of the critical section leaves that does not touch the device: at most
    some blocks more. *)
Definition kept {A} (v : view) (g : common) (x : A) (v' : view) (g' : common) : Prop :=
  g' = g ∧ v_place v' = v_place v ∧ v_wrote v' = v_wrote v ∧ v_call v' = v_call v ∧
  ∃ bl, v_blocks v' ≡ₚ v_blocks v ++ bl.

Lemma kept_refl {A} v g (x : A) : kept v g x v g.
Proof. do 4 (split; [done|]). exists []. by rewrite app_nil_r. Qed.

Lemma kept_more {A} v g (x : A) b : kept v g x (with_blocks (b :: v_blocks v) v) g.
Proof.
  do 4 (split; [done|]). exists [b]. cbn. by rewrite Permutation_app_comm.
Qed.

Lemma safe_leave a po v0 v g (res : Z * Z) :
  resting g a po → kept (enter a po v0) g res v g → outcome_of (v_call v0) res.1 (v_wrote v0) →
  safe pb (unlock_it;; mret res) v g left.
Proof.
  intros Hr (_ & Hp & Hw & Hc & bl & Hb) Ho. cbn [enter v_blocks] in Hb. rewrite <- app_assoc in Hb.
  eapply (safe_unlock a a po _ []); [exact Hp|exact Hb|done|done|]. apply safe_ret. intros g' _.
  split; [done|]. cbn [v_call v_wrote]. by rewrite app_nil_r, Hw, Hc.
Qed.

(** The strings of at most ten commands are far from 4 GiB. *)
Lemma common_small g : common_ok g → (length (g_cmds g) ≤ 10)%nat →
  sizes_ok (contents (g_ring g)) ∧ total_size (contents (g_ring g)) < 2 ^ 32 ∧
  Forall2 (λ e d, size e = Z.of_nat (length d)) (contents (g_ring g)) (g_cmds g).*2.
Proof.
  intros [Hwf Hc Hs] Hlen.
  assert (Forall2 (λ e d, size e = Z.of_nat (length d)) (contents (g_ring g)) (g_cmds g).*2) as Hf.
  { rewrite Hc. apply Forall2_fmap_l, Forall2_fmap_r, Forall_Forall2_diag, Forall_true. intros [l c]. done. }
  destruct (total_size_strings _ _ Hf) as [Hok Hts]. split; [done|]. split; [|done].
  rewrite Hts, length_concat_sumZ. pose proof kmalloc_max.
  pose proof (sumZ_bound KMALLOC_MAX_SIZE (map (λ k, Z.of_nat (length k)) (g_cmds g).*2)) as Hb.
  rewrite length_map, length_fmap in Hb.
  assert (0 ≤ KMALLOC_MAX_SIZE ∨ g_cmds g = []) as [Hk|Hn].
  { destruct Hs as [|lc l [_ H1] _]; [by right|left; lia]. }
  2:{ rewrite Hn. cbn. lia. }
  assert (sumZ (map (λ k, Z.of_nat (length k)) (g_cmds g).*2) ≤
          KMALLOC_MAX_SIZE * Z.of_nat (length (g_cmds g))).
  { apply Hb, Forall_map, Forall_fmap. eapply Forall_impl; [exact Hs|]. by intros lc []. }
  nia.
Qed.

(** The search finds a published command, and a place in it. *)
Lemma find_entry_eval f pos v g s G :
  private_data f = AesdDevice → sees pb v g s G →
  find_entry (private_data f) pos s = Ret (None, s) ∨
  ∃ l c r, find_entry (private_data f) pos s = Ret (Some (cmd_entry l c, r), s) ∧
    (l, c) ∈ g_cmds g ∧ 0 ≤ r < Z.of_nat (length c).
Proof.
  intros Hf Hs. pose proof (se_common _ _ _ _ _ Hs) as Hc. pose proof (se_room _ _ _ _ _ Hs).
  destruct (common_small g Hc ltac:(lia)) as (Hok & Hsmall & H2).
  pose proof (uwrap_range 64 pos ltac:(done)) as Hpos.
  assert (find_entry (private_data f) pos s =
    ('(i, off) ← mlift (aesd_circular_buffer_find_entry_offset_for_fpos (Some (g_ring g)) (u64 pos));
     match i with Some i => e ← mlift (entry_at (g_ring g) i); mret (Some (e, off)) | None => mret None end) s) as ->.
  { unfold find_entry. rewrite Hf. erewrite bind_eval by done. rewrite (se_buffer _ _ _ _ _ Hs).
    cbn [buffer_arg].
    assert (load_buffer (Blk pb) s = Ret (g_ring g, s)) as Hl.
    { unfold load_buffer. erewrite bind_eval by done. by rewrite (sees_ring _ _ _ _ Hs). }
    erewrite (bind_eval _ _ _ (Some (g_ring g))) by (by erewrite bind_eval). done. }
  rewrite (find_refines _ (co_wf _ Hc) Hok Hsmall _ Hpos).
  pose proof (spec_find_concat _ _ (u64 pos) H2 ltac:(lia)) as Hsp.
  destruct (spec_find _ _) as [[k r]|]; [|by left]. right.
  destruct Hsp as (d & Hd & Hr & _). rewrite list_lookup_fmap in Hd.
  destruct (g_cmds g !! k) as [[l c]|] eqn:E; [|done]. injection Hd as <-. exists l, c, r.
  erewrite bind_eval by done. cbn beta iota.
  assert (contents (g_ring g) !! k = Some (cmd_entry l c)) as Hk
    by (rewrite (co_contents _ Hc), list_lookup_fmap, E; done).
  erewrite bind_eval; [|unfold mlift; by rewrite (contents_lookup _ (co_wf _ Hc) _ _ Hk)].
  split; [done|]. split; [by eapply list_elem_of_lookup_2|done].
Qed.

(** ** A read *)

Lemma safe_copy_to_user {B} l d o to n (f : Z → thread B) v g Q :
  v_blocks v = (l, HBytes d) :: o → 0 ≤ n ≤ Z.of_nat (length d) →
  (∀ r, safe pb (f r) v g Q) → safe pb (act (copy_to_user to (Blk l) n) ≫= f) v g Q.
Proof.
  intros Hb Hn Hf. apply safe_private. intros g' s G Hg Hs.
  eapply wp_copy_to_user; [eapply sees_block; [done|rewrite Hb; by left]|done|].
  intros m' r _ s' Hh _ _ Hd He. split; [done|]. split; [done|]. exists (v_blocks v).
  rewrite with_own_blocks, Hh. split; [apply Hs|by eapply safe_later].
Qed.

Lemma safe_read_entry l c r buff count pos v g :
  v_place v ≠ Outside → common_ok g → (l, c) ∈ g_cmds g → 0 ≤ r < Z.of_nat (length c) →
  safe pb (t_read_entry (cmd_entry l c) r buff count pos) v g (kept v g).
Proof.
  intros Hv Hc Hin Hr. pose proof (command_small _ _ _ Hc Hin). pose proof kmalloc_max.
  assert (∀ v' g', v_place v' = v_place v → later v' g g' → g' = g) as Hsame.
  { intros v' g' E. unfold later. rewrite E. by destruct (v_place v). }
  unfold t_read_entry. cbn [cmd_entry size buffptr]. rewrite (uwrap_small 64) by lia.
  apply safe_kmalloc; [lia|..].
  { apply safe_ret. intros g' Hg. rewrite (Hsame v g' eq_refl Hg). apply kept_refl. }
  intros t dt Hd _. cbn [is_null].
  eapply safe_memcpy; [done| |lia|].
  { right. exists l, c. split; [done|]. split; [by left|]. lia. }
  intros d2 Hd2. rewrite with_blocks_again. apply safe_print_then; [by apply may_read_command|lia..|].
  apply safe_print_then; [|lia..|].
  { right. exists t, d2. split; [done|]. split; [right; by left|]. lia. }
  eapply safe_copy_to_user; [done|lia|]. intros r'.
  assert (∀ x : Z * Z, safe pb (mret x) (with_blocks ((t, HBytes d2) :: v_blocks v) v) g (kept v g)) as Hend.
  { intros x. apply safe_ret. intros g' Hg. rewrite (Hsame _ g' eq_refl Hg). apply kept_more. }
  destruct (negb (r' =? 0)); apply Hend.
Qed.

Lemma safe_read f buff count pos v g :
  private_data f = AesdDevice → v_place v = Outside → (∀ r, outcome_of (v_call v) r (v_wrote v)) →
  safe pb (t_read f buff count pos) v g left.
Proof.
  intros Hf Hv Ho. unfold t_read. apply safe_printk, safe_quiet. intros g1 s1 G1 _ Hs1.
  eapply sees_dev; [done..|]. split; [done|]. apply safe_lock; [done|..].
  { intros g2 _. apply safe_ret. by split. }
  intros g2 a po _ Hr. cbn [Z.eqb negb]. apply safe_quiet. intros g3 s3 G3 Hg3 Hs3.
  cbn in Hg3. subst g3. unfold wp.
  destruct (find_entry_eval f pos _ _ _ _ Hf Hs3) as [->|(l & c & r & -> & Hin & Hrange)];
    (split; [done|]); apply safe_bind.
  - apply safe_printk, safe_ret. intros g4 Hg4. cbn in Hg4. subst g4.
    eapply safe_leave; [done|apply kept_refl|apply Ho].
  - eapply safe_mono; [by apply safe_read_entry; [..|apply Hs3| |]|].
    intros res v' g' Hk. pose proof Hk as [-> _]. by eapply safe_leave.
Qed.

(** ** A write *)

Definition with_place (p : place) (v : view) : view :=
  mk_view p (v_blocks v) (v_room v) (v_wrote v) (v_call v).

Lemma safe_get_entry {B} a fe w (f : aesd_buffer_entry → thread B) v g Q :
  v_place v = Inside a fe w → safe pb (f fe) v g Q →
  safe pb (act (mgets full_user_entry) ≫= f) v g Q.
Proof.
  intros Hv Hf. apply safe_quiet. intros g' s G Hg Hs. rewrite wp_gets. split; [done|].
  pose proof (se_place _ _ _ _ _ Hs) as Hp. rewrite Hv in Hp. destruct Hp as (_ & -> & _).
  by eapply safe_later.
Qed.

(** A statement inside that changes the static entry or the counter. *)
Lemma safe_inside {B} a fe w fe' w' (m : M kstate unit) (f : unit → thread B) v g Q :
  v_place v = Inside a fe w →
  (∀ s, full_user_entry s = fe → buff_size (dev s) = w →
     wp m s (λ _ s', heap s' = heap s ∧ full_user_entry s' = fe' ∧
       dev s' = mk_dev (pbuffer (dev s)) (lock (dev s)) w' (cdev (dev s)))) →
  safe pb (f tt) (with_place (Inside a fe' w') v) g Q →
  safe pb (act m ≫= f) v g Q.
Proof.
  intros Hv Hm Hf. apply safe_act. intros g' s G Hg [Hb Hc Ho Hp Hr].
  pose proof Hg as Hg'. unfold later in Hg'. rewrite Hv in Hg', Hp. subst g'. destruct Hp as (Hl & He & Hw).
  eapply wp_mono; [by apply Hm|]. intros [] s' (Hh & He' & Hd).
  exists (with_place (Inside a fe' w') v), g. split; [|split; [|done]].
  - do 3 (split; [done|]). rewrite Hv. cbn. done.
  - split; cbn [with_place v_place v_blocks v_room]; rewrite ?Hd, ?Hh; done.
Qed.

(** The last byte of the command decides. *)
Lemma safe_last_byte {B} l d o n (f : Byte.byte → thread B) v g Q :
  v_blocks v = (l, HBytes d) :: o → d ≠ [] → n = Z.of_nat (length d) - 1 →
  (∀ c, last d = Some c → safe pb (f c) v g Q) →
  safe pb (act (load_byte (Blk l) n) ≫= f) v g Q.
Proof.
  intros Hb Hd -> Hf. destruct (last d) as [c|] eqn:Hl; [|by apply last_None in Hl].
  apply safe_quiet. intros g' s G Hg Hs. eapply (wp_load_byte _ d _ c).
  - eapply sees_block; [done|]. rewrite Hb. by left.
  - destruct d; [done|cbn; lia].
  - by apply last_lookup_Z.
  - split; [done|]. eapply safe_later; [by apply Hf|done].
Qed.

Lemma added_extends g e t q :
  wf (g_ring g) → full (g_ring g) = false →
  extends g (mk_common (added (g_ring g) e) (g_cmds g ++ [(t, q)])).
Proof.
  intros Hwf Hfull. split; cbn [g_cmds g_ring].
  - by eexists.
  - intros i l c Hi. cbn [added entry]. rewrite list_lookup_insert_ne; [done|]. intros <-.
    pose proof (wf_unused _ Hwf Hfull) as Hu. apply (f_equal (lookup 0%nat)) in Hu.
    rewrite lookup_drop, Nat.add_0_r, Hi in Hu. pose proof (wf_in _ Hwf).
    unfold capacity, AESDCHAR_MAX_WRITE_OPERATIONS_SUPPORTED in *.
    symmetry in Hu. apply lookup_replicate in Hu as [Hu _]. done.
Qed.

Lemma added_ok g t q :
  common_ok g → (length (g_cmds g) < 10)%nat → last q = Some LF →
  Z.of_nat (length q) ≤ KMALLOC_MAX_SIZE →
  common_ok (mk_common (added (g_ring g) (cmd_entry t q)) (g_cmds g ++ [(t, q)])).
Proof.
  intros [Hwf Hc Hs] Hlen Hq Hm. split; cbn [g_ring g_cmds].
  - by apply added_wf.
  - rewrite added_contents, Hc, fmap_app by done. unfold spec_add. apply lastn_all.
    rewrite length_app, length_fmap. change capacity with 10%nat. cbn. lia.
  - apply Forall_app. split; [done|]. by repeat constructor.
Qed.

Lemma not_full g : common_ok g → (length (g_cmds g) < 10)%nat → full (g_ring g) = false.
Proof.
  intros [Hwf Hc _] Hlen. pose proof (length_contents _ Hwf) as Hl. rewrite Hc, length_fmap in Hl.
  change capacity with 10%nat in Hl. destruct (full (g_ring g)); [lia|done].
Qed.

(** Publishing: the block of the call becomes one of the commands. *)
Lemma safe_publish {B} a w t q o n (f : unit → thread B) v g Q :
  v_place v = Inside a (cmd_entry t q) w → v_blocks v = (t, HBytes q) :: o → v_room v = S n →
  last q = Some LF → Z.of_nat (length q) ≤ KMALLOC_MAX_SIZE →
  (∀ r, safe pb (f tt) (mk_view (Inside a (cmd_entry t q) w) o n (v_wrote v) (v_call v)) (mk_common r (g_cmds g ++ [(t, q)])) Q) →
  safe pb (act (on_buffer (Blk pb) (aesd_circular_buffer_add_entry (cmd_entry t q))) ≫= f) v g Q.
Proof.
  intros Hv Hb Hn Hq Hm Hf. apply safe_act. intros g' s G Hg Hs. pose proof Hg as Hg'.
  unfold later in Hg'. rewrite Hv in Hg'. subst g'. pose proof Hs as [Hpb Hc Ho Hp Hr].
  rewrite Hn in Hr.
  eapply wp_on_buffer; [by eapply sees_ring|apply add_entry_eval, Hc|]. intros s' F _ Hh.
  exists (mk_view (Inside a (cmd_entry t q) w) o n (v_wrote v) (v_call v)),
         (mk_common (added (g_ring g) (cmd_entry t q)) (g_cmds g ++ [(t, q)])).
  destruct (frame_shared _ _ F) as [Hd He]. split; [|split].
  - split; [cbn; rewrite length_app, Hn; cbn; lia|]. rewrite Hv. do 3 (split; [done|]).
    apply added_extends; [apply Hc|]. apply not_full; [done|lia].
  - split; cbn [v_place v_blocks v_room]; rewrite ?Hd, ?He.
    + done.
    + apply added_ok; [done|lia|done..].
    + rewrite Hh. unfold common_blocks in *. cbn [g_ring g_cmds]. rewrite fmap_app. cbn [fmap list_fmap cmd_block fst snd].
      rewrite Hb in Ho. cbn [app] in Ho |- *. eapply owns_update.
      rewrite <- app_assoc. exact Ho.
    + rewrite Hv in Hp. exact Hp.
    + cbn. rewrite length_app. cbn. lia.
  - apply Hf.
Qed.

(** What committing leaves in the view. *)
Definition committed (a : adev) (t : positive) (q : list Byte.byte) (o : list (positive * hval)) (n : nat)
    (v : view) (g : common) (v' : view) (g' : common) : Prop :=
  if decide (last q = Some LF) then
    v_place v' = Inside a null_entry (i64 (written a + Z.of_nat (length q))) ∧ v_blocks v' = o ∧
    v_wrote v' = v_wrote v ∧ v_call v' = v_call v ∧ g_cmds g' = g_cmds g ++ [(t, q)]
  else v' = v ∧ g' = g.

Lemma safe_commit a t q o n v g :
  v_place v = Inside a (cmd_entry t q) (written a) → v_blocks v = (t, HBytes q) :: o → v_room v = S n →
  q ≠ [] → Z.of_nat (length q) ≤ KMALLOC_MAX_SIZE →
  safe pb t_write_commit v g (λ _ v' g', committed a t q o n v g v' g').
Proof.
  intros Hv Hb Hn Hq Hm. pose proof kmalloc_max. unfold t_write_commit, committed.
  eapply safe_get_entry; [done|]. cbn [cmd_entry buffptr size].
  eapply safe_last_byte; [done..|]. intros c Hc. destruct (decide (last q = Some LF)) as [Hl|Hl].
  2:{ rewrite decide_False by congruence. apply safe_ret. intros g' Hg. unfold later in Hg.
      by rewrite Hv in Hg. }
  rewrite decide_True by congruence. apply safe_quiet. intros g1 s1 G1 Hg1 Hs1. rewrite wp_gets.
  split; [done|]. rewrite (se_buffer _ _ _ _ _ Hs1). unfold later in Hg1. rewrite Hv in Hg1. subst g1.
  apply safe_quiet. intros g1 s2 G2 Hg1 Hs2. unfold later in Hg1. rewrite Hv in Hg1. subst g1.
  eapply wp_load_buffer; [by eapply sees_ring|]. split; [done|].
  pose proof (se_room _ _ _ _ _ Hs2) as Hr. rewrite Hn in Hr.
  rewrite (not_full g) by (try apply Hs2; lia). 
  change (mret tt ≫= ?k) with (k tt). cbn beta.
  apply safe_print_then; [|lia..|].
  { right. exists t, q. split; [done|]. split; [right; rewrite Hb; by left|]. destruct q; [done|]. cbn. lia. }
  eapply safe_publish; [done..|]. intros r.
  eapply safe_inside; [done| |].
  { intros s He Hw. unfold set_dev. rewrite wp_modify. cbn. rewrite He, Hw. done. }
  change (act (set_full_user_entry (mk_entry NULL 0))) with (act (set_full_user_entry null_entry) ≫= mret).
  set (w := i64 _). eapply (safe_inside _ _ w _ w); [done| |].
  { intros s He Hw. unfold set_full_user_entry. rewrite wp_modify. cbn. split; [done|].
    split; [done|]. rewrite <- Hw. by destruct (dev s). }
  apply safe_ret. intros g' Hg. cbn in Hg. subst g'. done.
Qed.

(** The command under assembly and what the user adds, in the new block. *)
Lemma safe_copy_partial {B} a po t dt o (f : unit → thread B) v g Q :
  (po = None ↔ partial a = []) →
  v_blocks v = (t, HBytes dt) :: partial_blocks po (partial a) ++ o →
  (length (partial a) ≤ length dt)%nat →
  safe pb (f tt) (with_blocks ((t, HBytes (partial a ++ drop (length (partial a)) dt)) ::
                               partial_blocks po (partial a) ++ o) v) g Q →
  safe pb (act (memcpy (Blk t) 0 (buffptr (partial_entry po (partial a))) 0
                       (Z.of_nat (length (partial a)))) ≫= f) v g Q.
Proof.
  intros Hpo Hb Hlen Hf.
  eapply (safe_update (λ _ d', d' = partial a ++ drop (length (partial a)) dt)); [done| |by intros [] d' ->].
  intros g' s G Hg Hs Ht. unfold memcpy. destruct po as [l|]; cbn [partial_entry cmd_entry buffptr].
  - assert (heap s !! l = Some (HBytes (partial a))) as Hl.
    { eapply sees_block; [done|]. rewrite Hb. right. by left. }
    destruct (partial a) as [|x p] eqn:Ep; [by discriminate (proj2 Hpo eq_refl)|].
    rewrite (proj2 (Z.eqb_neq _ _)) by (cbn; lia).
    apply wp_bind. eapply wp_load_bytes; [done|lia..|]. rewrite Nat2Z.id, drop_0, firstn_all.
    eapply wp_store_bytes; [done|lia|lia|]. intros s' F _ Hh. destruct (frame_shared _ _ F) as [Hd He].
    split; [done|]. split; [done|]. eexists. split; [exact Hh|done].
  - rewrite (proj1 Hpo eq_refl). simpl. rewrite wp_ret. split; [done|]. split; [done|].
    exists dt. by rewrite insert_id.
Qed.

Lemma safe_copy_from_user {B} t p dt o buff count (f : Z → thread B) v g Q :
  v_blocks v = (t, HBytes (p ++ dt)) :: o → Z.of_nat (length dt) = count →
  (∀ r bytes, Z.of_nat (length bytes) = count →
     safe pb (f r) (with_blocks ((t, HBytes (p ++ bytes)) :: o) v) g Q) →
  safe pb (act (copy_from_user (Blk t) (Z.of_nat (length p)) buff count) ≫= f) v g Q.
Proof.
  intros Hb Hlen Hf.
  eapply (safe_update (λ _ d', ∃ bytes, Z.of_nat (length bytes) = count ∧ d' = p ++ bytes)); [done| |].
  2:{ intros r d' (bytes & Hl & ->). by apply Hf. }
  intros g' s G Hg Hs Ht. eapply wp_copy_from_user; [done|lia|lia|rewrite length_app; lia|].
  intros bytes r _ Hl s' F _ Hh. destruct (frame_shared _ _ F) as [Hd He].
  split; [done|]. split; [done|]. eexists. split; [exact Hh|]. exists bytes. split; [done|].
  rewrite Nat2Z.id, take_app_length, drop_ge, app_nil_r; [done|]. rewrite length_app. lia.
Qed.

(** The old block of the command under assembly goes. *)
Lemma safe_free_partial {B} po p b o (f : unit → thread B) v g Q :
  v_blocks v = b :: partial_blocks po p ++ o → safe pb (f tt) (with_blocks (b :: o) v) g Q →
  safe pb (act (kfree (buffptr (partial_entry po p))) ≫= f) v g Q.
Proof.
  intros Hb Hf. destruct po as [l|]; cbn [partial_entry cmd_entry null_entry buffptr partial_blocks app] in *.
  - eapply safe_kfree; [|exact Hf]. rewrite Hb. apply Permutation_swap.
  - apply safe_quiet. intros g' s G Hg Hs. cbn [kfree]. rewrite wp_ret. split; [done|].
    rewrite <- Hb, with_own_blocks in Hf. by eapply safe_later.
Qed.

Lemma partial_entry_size a po : (po = None ↔ partial a = []) →
  size (partial_entry po (partial a)) = Z.of_nat (length (partial a)).
Proof. intros Hpo. destruct po; [done|]. by rewrite (proj1 Hpo eq_refl). Qed.

(** The device after a write that took [bytes]. *)
Lemma resting_write g a po bytes t v o n v' g' :
  resting g a po → adev_wf a → Z.of_nat (length (partial a ++ bytes)) ≤ KMALLOC_MAX_SIZE →
  partial a ++ bytes ≠ [] → v_blocks v = (t, HBytes (partial a ++ bytes)) :: o →
  v_place v = Inside a (cmd_entry t (partial a ++ bytes)) (written a) →
  (length (g_cmds g) < 10)%nat → committed a t (partial a ++ bytes) o n v g v' g' →
  ∃ po', resting g' (spec_write a bytes) po' ∧
    v_place v' = Inside a (partial_entry po' (partial (spec_write a bytes))) (written (spec_write a bytes)) ∧
    v_blocks v' = partial_blocks po' (partial (spec_write a bytes)) ++ o ∧
    v_wrote v' = v_wrote v ∧ v_call v' = v_call v.
Proof.
  intros [Hc Hwf Hpo] [Hcs Hp Hpl] Hm Hne Hb Hv Hlen. unfold committed, spec_write.
  set (q := partial a ++ bytes) in *. destruct (decide (last q = Some LF)) as [Hl|Hl].
  - intros (Hv' & Hb' & Hw' & Hc' & Hg). exists None. cbn [partial written partial_entry partial_blocks app].
    split; [|done].
    assert (spec_add (commands a) q = commands a ++ [q]) as Hadd.
    { unfold spec_add. apply lastn_all. rewrite length_app, Hc, length_fmap.
      change capacity with 10%nat. cbn. lia. }
    split; cbn [commands partial].
    + by rewrite Hadd, Hg, fmap_app, Hc.
    + split; cbn [commands partial]; [|done|change (0 ≤ KMALLOC_MAX_SIZE); lia]. rewrite Hadd. apply Forall_app. split; [done|].
      by repeat constructor.
    + done.
  - intros [-> ->]. exists (Some t). cbn [partial written partial_entry partial_blocks]. split; [|done].
    split; cbn [commands partial]; [done|by split|]. split; [done|]. intros Hq. by rewrite Hq in Hne.
Qed.

Lemma safe_write f buff count pos v g n :
  private_data f = AesdDevice → 0 < count ≤ MAX_RW_COUNT → v_place v = Outside → v_room v = S n →
  v_wrote v = [] → v_call v = CallWrite f buff count → safe pb (t_write f buff count pos) v g left.
Proof.
  intros Hf Hcount Hv Hn Hws Hcall. unfold MAX_RW_COUNT in Hcount. pose proof kmalloc_max as Hkm.
  assert (∀ x : Z * Z, x.1 < 0 → outcome_of (v_call v) x.1 (v_wrote v)) as Hfail.
  { intros x Hx. rewrite Hws, Hcall. by left. }
  unfold t_write. apply safe_printk, safe_quiet. intros g1 s1 G1 _ Hs1.
  eapply sees_dev; [done..|]. split; [done|]. apply safe_lock; [done| |].
  { intros g2 _. apply safe_ret. split; [done|]. by apply Hfail. }
  intros g2 a po _ Hr. cbn [Z.eqb negb]. pose proof Hr as [_ Hwf Hpo].
  pose proof (aw_partial_len _ Hwf) as Hpl.
  eapply safe_get_entry; [done|].
  rewrite (partial_entry_size a po Hpo), !(uwrap_small 64) by lia.
  set (p := partial a) in *. set (ve := enter a po v).
  assert (∀ (x : Z * Z) v' g', kept ve g2 x v' g' → x.1 < 0 → safe pb (unlock_it;; mret x) v' g' left) as Hleave.
  { intros x v' g' Hk Hx. pose proof Hk as [-> _]. eapply safe_leave; [done|exact Hk|by apply Hfail]. }
  apply safe_kmalloc; [lia|..]; [|intros t dt Hdt Hmax]; apply safe_bind; cbn [is_null].
  { apply safe_ret. intros g3 Hg3. cbn in Hg3. subst g3. apply Hleave; [apply kept_refl|done]. }
  eapply safe_copy_partial; [done|cbn [with_blocks v_blocks]; reflexivity|fold p; lia|].
  rewrite !with_blocks_again. fold p.
  eapply safe_copy_from_user; [done|rewrite length_drop; lia|]. intros r bytes Hb.
  rewrite with_blocks_again. destruct (negb (r =? 0)).
  { eapply safe_kfree; [cbn [with_blocks v_blocks]; reflexivity|]. rewrite with_blocks_again.
    change (with_blocks _ ve) with ve. apply safe_ret. intros g3 Hg3. cbn in Hg3. subst g3.
    apply Hleave; [apply kept_refl|done]. }
  assert (p ++ bytes ≠ []) as Hne.
  { intros E. apply (f_equal length) in E. rewrite length_app in E. cbn in E. lia. }
  apply safe_print_then; [|lia..|].
  { right. exists t, (p ++ bytes). split; [done|]. split; [right; by left|]. rewrite length_app. lia. }
  set (q := p ++ bytes) in *.
  assert (Z.of_nat (length q) = Z.of_nat (length p) + count) as Hq by (unfold q; rewrite length_app; lia).
  apply safe_quiet. intros g3 s3 G3 Hg3 Hs3. cbn in Hg3. subst g3.
  destruct (lookup_lt_is_Some_2 q (Z.to_nat (Z.of_nat (length p) + count - 1))) as [c Hc]; [lia|].
  apply wp_bind. eapply (wp_load_byte t q _ c); [eapply sees_block; [done|by left]|lia|done|].
  apply wp_printk. intros s4 Hq4 _ _. split; [done|].
  pose proof (se_room _ _ _ _ _ Hs3) as Hroom. cbn [with_blocks v_room ve enter] in Hroom. rewrite Hn in Hroom.
  eapply safe_free_partial; [done|]. rewrite with_blocks_again.
  rewrite <- Hq. change (mk_entry (Blk t) (Z.of_nat (length q))) with (cmd_entry t q).
  eapply (safe_inside a (partial_entry po p) (written a) (cmd_entry t q) (written a)); [done| |].
  { intros s He Hw. unfold set_full_user_entry. rewrite wp_modify. cbn. split; [done|]. split; [done|].
    rewrite <- Hw. by destruct (dev s). }
  apply safe_bind. eapply safe_mono; [eapply safe_commit; [done|done|exact Hn|done|lia]|]. cbn beta.
  intros _ v' g' Hcom. apply safe_ret. intros g3 Hg3.
  eapply (resting_write g2 a po bytes t) in Hcom as (po' & Hr' & Hv' & Hb' & Hw' & Hc'); try done; [|fold p q; lia|lia].
  unfold later in Hg3. rewrite Hv' in Hg3. subst g3.
  cbn [with_place with_blocks enter ve v_wrote v_call] in Hw', Hc'.
  eapply (safe_unlock _ _ _ _ [bytes]); [exact Hv'|by rewrite Hb'|done|done|]. apply safe_ret. intros g3 _.
  split; [done|]. cbn [v_call v_wrote fst]. rewrite Hw', Hc', Hws, Hcall. right.
  rewrite swrap_small by lia. split; [done|]. by exists bytes.
Qed.

(** ** Every call *)

Lemma safe_call c g :
  call_ok c → safe pb (thread_of c) (mk_view Outside [] (writes c) [] c) g left.
Proof.
  destruct c as [f buff count|f buff count|f off whence|f]; cbn [call_ok thread_of writes].
  - intros [[Hf _] _]. by apply safe_read.
  - intros [[Hf _] Hc]. by eapply safe_write.
  - intros [Hf _]. apply safe_bind. eapply safe_mono; [by apply safe_lseek|].
    intros [r f'] v' g' ->. by apply safe_ret.
  - intros [Hf _]. apply safe_bind. eapply safe_mono; [by apply safe_release|].
    intros r v' g' ->. by apply safe_ret.
Qed.
End rules.
