(* ===== verification/CharDriverRace.v ===== *)
(** * Calls that interleave statement by statement

    A pool of calls and a scheduler that lets any of them execute its next statement, while
    the user changes its memory.  As long as the device has room for the commands under way
    no call faults, whatever the schedule, and the device ends up as after the writes one
    by one.  When a write drops the oldest command while [aesd_release] prints it, the
    release reads memory that was freed: it does not take the mutex. *)

From stdpp Require Import base list gmap option strings.
From Stdlib Require Import ZArith Lia.
From S2P Require Import Prelude CircularBuffer CircularBufferSpec Kernel CharDriver.
From S2P Require Import KernelRules CharDriverSpec CharDriverWrite CharDriverRead.
From S2P Require Import CharDriverLife CharDriverTrace CharDriverDemo CharDriverThreads CharDriverViews.
#[local] Open Scope Z_scope.

(** ** The pool *)

Record pool : Type := mk_pool {
  p_kern : kstate;
  p_threads : list (thread (Z * Z));
}.

Section pool.
Context `{K : KernelApi}.

(** A thread that would sleep on the mutex. *)
Definition sleeps (s : kstate) (t : thread (Z * Z)) : bool :=
  match t, lock (dev s) with
  | Lock _, MutexHeld => negb (mutex_lock_interrupted (tick s))
  | _, _ => false
  end.

(** One turn of thread [i]; nothing happens when it is finished or asleep. *)
Definition turn (i : nat) (σ : pool) : outcome pool :=
  let s := p_kern σ in
  let continue_with s' t := Ret (mk_pool s' (<[i := t]> (p_threads σ))) in
  match p_threads σ !! i with
  | Some (Do m k) => '(x, s') ← m s; continue_with s' (k x)
  | Some (Lock k as t) =>
      if sleeps s t then Ret σ
      else '(r, s') ← mutex_lock_interruptible s; continue_with s' (k r)
  | Some (Unlock k) => '(_, s') ← mutex_unlock s; continue_with s' k
  | _ => Ret σ
  end.

(** What happens next: a thread gets a turn, or the user's memory changes. *)
Inductive choice : Type := Turn (i : nat) | User (m : gmap Z Byte.byte).

Definition choose (c : choice) (σ : pool) : outcome pool :=
  match c with
  | Turn i => turn i σ
  | User m => '(_, s') ← set_umem m (p_kern σ); Ret (mk_pool s' (p_threads σ))
  end.

Fixpoint schedule (cs : list choice) (σ : pool) : outcome pool :=
  match cs with [] => Ret σ | c :: cs => σ' ← choose c σ; schedule cs σ' end.

Definition finished (t : thread (Z * Z)) : bool := match t with Done _ => true | _ => false end.

(** All calls at their first statement. *)
Definition start (s : kstate) (calls : list call) : pool := mk_pool s (thread_of <$> calls).
End pool.

(** ** The pool stays sound *)

Section blocks.
Context {V : Type}.
Implicit Types (h G : gmap positive V) (o : list (positive * V)).

(** Part of the blocks, with the others counted as foreign memory, and back. *)
Lemma owns_app h o1 o2 G :
  owns h (o1 ++ o2) G ↔ owns h o1 (list_to_map o2 ∪ G) ∧ owns (list_to_map o2 ∪ G) o2 G.
Proof.
  split.
  - intros [-> Hnd Hd]. rewrite fmap_app in Hnd, Hd. apply NoDup_app in Hnd as (H1 & H12 & H2).
    split; split; try done.
    + by rewrite list_to_map_app, (assoc_L _).
    + intros l Hl. apply lookup_union_None. split.
      * apply not_elem_of_list_to_map_1. by apply H12.
      * apply Hd, elem_of_app. by left.
    + intros l Hl. apply Hd, elem_of_app. by right.
  - intros [[-> H1 D1] [_ H2 D2]]. split.
    + by rewrite list_to_map_app, (assoc_L _).
    + rewrite fmap_app. apply NoDup_app. split; [done|]. split; [|done]. intros l Hl Hin.
      specialize (D1 l Hl). apply lookup_union_None in D1 as [D1 _].
      by apply not_elem_of_list_to_map in D1.
    + intros l. rewrite fmap_app, elem_of_app. intros [Hl|Hl]; [|by apply D2].
      specialize (D1 l Hl). by apply lookup_union_None in D1 as [_ D1].
Qed.
End blocks.

(** Element [i] of a list, and the rest. *)
Lemma concat_insert {A B} (f : A → list B) (l : list A) i x : l !! i = Some x →
  ∃ rest, ∀ y, concat (f <$> <[i := y]> l) ≡ₚ f y ++ rest.
Proof.
  intros Hi. exists (concat (f <$> take i l) ++ concat (f <$> drop (S i) l)). intros y.
  rewrite insert_take_drop by (by eapply lookup_lt_Some).
  rewrite fmap_app, concat_app. cbn. rewrite !(assoc_L (++)). apply Permutation_app_tail, Permutation_app_comm.
Qed.

Lemma sum_insert {A} (f : A → nat) (l : list A) i x : l !! i = Some x →
  ∃ rest, ∀ y, sum_list_with f (<[i := y]> l) = (f y + rest)%nat.
Proof.
  intros Hi. exists (sum_list_with f (take i l) + sum_list_with f (drop (S i) l))%nat. intros y.
  rewrite insert_take_drop by (by eapply lookup_lt_Some). rewrite sum_list_with_app. cbn. lia.
Qed.

Section soundness.
Context `{K : KernelApi} {L : KernelLaws K} (pb : positive) (a0 : adev) (g0 : common) (calls : list call).

(** The device is as the chunks the calls have added make it, in some order. *)
Definition reached (a : adev) (vs : list view) : Prop :=
  ∃ ws, a = write_all ws a0 ∧ ws ≡ₚ concat (v_wrote <$> vs).

(** Who has the mutex: nobody, and the device is as some writes left it, or one call. *)
Inductive mutex_state (s : kstate) (g : common) (vs : list view) : list (positive * hval) → Prop :=
  | nobody a po :
      (∀ i v, vs !! i = Some v → v_place v = Outside) →
      lock (dev s) = MutexFree → full_user_entry s = partial_entry po (partial a) →
      buff_size (dev s) = written a → resting g a po → reached a vs →
      mutex_state s g vs (partial_blocks po (partial a))
  | somebody j v a fe n :
      vs !! j = Some v → v_place v = Inside a fe n →
      (∀ i v', vs !! i = Some v' → i ≠ j → v_place v' = Outside) →
      lock (dev s) = MutexHeld → full_user_entry s = fe → buff_size (dev s) = n →
      reached a vs →
      mutex_state s g vs [].

Record sound (σ : pool) (g : common) (vs : list view) (ex : list (positive * hval))
    (G : gmap positive hval) : Prop := {
  so_buffer : pbuffer (dev (p_kern σ)) = Blk pb;
  so_common : common_ok g;
  so_grown : extends g0 g;
  so_calls : v_call <$> vs = calls;
  so_safe : Forall2 (λ t v, safe pb t v g left) (p_threads σ) vs;
  so_room : (length (g_cmds g) + sum_list_with v_room vs ≤ 10)%nat;
  so_mutex : mutex_state (p_kern σ) g vs ex;
  so_owns : owns (heap (p_kern σ)) (common_blocks pb g ++ ex ++ concat (v_blocks <$> vs)) G;
}.

(** What thread [i] sees of a sound pool. *)
Lemma sound_sees σ g vs ex G i v :
  sound σ g vs ex G → vs !! i = Some v →
  ∃ F, sees pb v g (p_kern σ) F ∧
    ∀ h g' v', owns h (common_blocks pb g' ++ v_blocks v') F →
      owns h (common_blocks pb g' ++ ex ++ concat (v_blocks <$> <[i := v']> vs)) G.
Proof.
  intros [Hb Hc _ _ _ Hr Hm Ho] Hi. destruct (concat_insert v_blocks vs i v Hi) as [rest Hrest].
  destruct (sum_insert v_room vs i v Hi) as [n Hn].
  assert (∀ g' v', common_blocks pb g' ++ ex ++ concat (v_blocks <$> <[i := v']> vs) ≡ₚ
                   (common_blocks pb g' ++ v_blocks v') ++ (ex ++ rest)) as Hp.
  { intros g' v'. rewrite Hrest, <- (assoc_L (++)). apply Permutation_app_head.
    rewrite !(assoc_L (++)). apply Permutation_app_tail, Permutation_app_comm. }
  pose proof (Hp g v) as Hpv. rewrite (list_insert_id vs i v Hi) in Hpv. rewrite Hpv in Ho.
  apply owns_app in Ho as [Ho Hrest']. exists (list_to_map (ex ++ rest) ∪ G). split.
  - split; try done.
    + destruct (v_place v) as [|a fe m] eqn:Ev; [done|].
      inversion Hm as [a' po Hout|j v' a' fe' m' Hj Hv' Hout Hl Hfe Hs Hw]; subst.
      * specialize (Hout _ _ Hi). congruence.
      * destruct (decide (i = j)) as [->|Hne]; [|specialize (Hout _ _ Hi Hne); congruence].
        rewrite Hi in Hj. injection Hj as <-. rewrite Ev in Hv'. by injection Hv' as <- <- <-.
    + specialize (Hn v). rewrite (list_insert_id vs i v Hi) in Hn. lia.
  - intros h g' v' Ho'. rewrite Hp. by apply owns_app.
Qed.

(** The others do not notice, or have nothing to notice. *)
Lemma others_safe ts (vs : list view) g g' i (t' : thread (Z * Z)) v v' :
  Forall2 (λ t v, safe pb t v g left) ts vs → vs !! i = Some v → safe pb t' v' g' left →
  (∀ j w, vs !! j = Some w → j ≠ i → later w g g') →
  Forall2 (λ t v, safe pb t v g' left) (<[i := t']> ts) (<[i := v']> vs).
Proof.
  intros Hs Hi Ht' Hl. apply Forall2_same_length_lookup_2.
  { rewrite !length_insert. by eapply Forall2_length. }
  pose proof (Forall2_length _ _ _ Hs) as Hlen. pose proof (lookup_lt_Some _ _ _ Hi) as Hlt.
  intros j x y Hx Hy. destruct (decide (j = i)) as [->|Hne].
  - rewrite list_lookup_insert_eq in Hx by lia. rewrite list_lookup_insert_eq in Hy by lia. congruence.
  - rewrite list_lookup_insert_ne in Hx by done. rewrite list_lookup_insert_ne in Hy by done.
    eapply safe_later; [exact (Forall2_lookup_lr _ _ _ _ _ _ Hs Hx Hy)|]. by eapply Hl.
Qed.

Lemma sum_room (vs : list view) (i : nat) (v v' : view) (k k' : nat) : vs !! i = Some v →
  (k' + v_room v' ≤ k + v_room v)%nat → (k + sum_list_with v_room vs ≤ 10)%nat →
  (k' + sum_list_with v_room (<[i := v']> vs) ≤ 10)%nat.
Proof.
  intros Hi Hk Hr. destruct (sum_insert v_room vs i v Hi) as [n Hn].
  pose proof (Hn v) as Hv. rewrite (list_insert_id vs i v Hi) in Hv. rewrite Hn. lia.
Qed.

(** Replacing a view by one with the same member. *)
Lemma same_member {A} (f : view → A) (vs : list view) (i : nat) (v v' : view) :
  vs !! i = Some v → f v' = f v → f <$> <[i := v']> vs = f <$> vs.
Proof.
  intros Hi Hf. rewrite list_fmap_insert, Hf. apply list_insert_id. by rewrite list_lookup_fmap, Hi.
Qed.

Lemma reached_same a (vs : list view) (i : nat) (v v' : view) :
  vs !! i = Some v → v_wrote v' = v_wrote v → reached a vs → reached a (<[i := v']> vs).
Proof. intros Hi Hw (ws & -> & Hp). exists ws. by rewrite (same_member v_wrote vs i v v'). Qed.

(** Views outside stay outside when one of them is replaced by another outside. *)
Lemma outside_insert (vs : list view) (i : nat) (v' : view) (P : nat → Prop) :
  v_place v' = Outside → (∀ j w, vs !! j = Some w → P j → v_place w = Outside) →
  ∀ j w, <[i := v']> vs !! j = Some w → P j → v_place w = Outside.
Proof.
  intros Hv' Hvs j w. destruct (decide (j = i)) as [->|Hne].
  - intros Hj. apply list_lookup_insert_Some in Hj as [(_ & -> & _)|(? & _)]; [done|congruence].
  - rewrite list_lookup_insert_ne by done. apply Hvs.
Qed.

(** A statement of thread [i]. *)
Lemma sound_do σ g vs ex G i v {B} (m : M kstate B) k :
  sound σ g vs ex G → p_threads σ !! i = Some (Do m k) → vs !! i = Some v →
  ∃ x s' v' g', m (p_kern σ) = Ret (x, s') ∧
    sound (mk_pool s' (<[i := k x]> (p_threads σ))) g' (<[i := v']> vs) ex G ∧
    (v_place v = Outside → v_place v' = Outside).
Proof.
  intros Hso Hi Hv. pose proof Hso as [Hb Hc Hg Hcalls Hsafe Hr Hm Ho].
  destruct (sound_sees _ _ _ _ _ _ _ Hso Hv) as (F & Hsees & Hback).
  pose proof (Forall2_lookup_lr _ _ _ _ _ _ Hsafe Hi Hv) as Ht. cbn [safe] in Ht.
  specialize (Ht g (p_kern σ) F (later_refl v g) Hsees). apply wp_run in Ht.
  destruct Ht as (x & s' & E & v' & g' & (Hroom & Hwr & Hca & Hal) & Hs' & Hk). exists x, s', v', g'.
  split; [done|].
  assert (v_place v = Outside → v_place v' = Outside) as Hout.
  { intros Hp. rewrite Hp in Hal. by destruct (v_place v'). }
  split; [|done].
  assert (extends g g' ∧ ∀ j w, vs !! j = Some w → j ≠ i → later w g g') as [Hgg Hlater].
  { destruct (v_place v) as [|a fe n] eqn:Ev, (v_place v') as [|a' fe' n'] eqn:Ev'; try done.
    - destruct Hal as [-> _]. split; [done|]. intros. apply later_refl.
    - destruct Hal as [_ Hext]. split; [done|]. intros j w Hj Hne.
      inversion Hm as [? ? Hall|j0 ? ? ? ? Hj0 Hv0 Hall]; subst.
      + specialize (Hall _ _ Hv). congruence.
      + destruct (decide (i = j0)) as [->|Hne']; [|specialize (Hall _ _ Hv Hne'); congruence].
        unfold later. by rewrite (Hall _ _ Hj Hne). }
  split; cbn [p_kern p_threads].
  - apply Hs'.
  - apply Hs'.
  - by transitivity g.
  - by rewrite (same_member v_call vs i v v').
  - by eapply others_safe.
  - by eapply sum_room.
  - destruct (v_place v) as [|a fe n] eqn:Ev, (v_place v') as [|a' fe' n'] eqn:Ev'; try done.
    + destruct Hal as (-> & Hl & He & Hw). inversion Hm as [a po Hall|j w a fe n Hj Hw' Hall]; subst.
      * apply nobody; try congruence; try done; [|by eapply reached_same].
        intros j w Hj. eapply (outside_insert vs i v' (λ _, True)); eauto.
      * assert (j ≠ i) as Hne by (intros ->; congruence).
        eapply (somebody _ _ _ j); try congruence; try done.
        -- by rewrite list_lookup_insert_ne.
        -- intros j' w' Hj'. by eapply (outside_insert vs i v' (λ j', j' ≠ j)).
        -- by eapply reached_same.
    + destruct Hal as [-> _]. pose proof (se_place _ _ _ _ _ Hs') as Hp. rewrite Ev' in Hp.
      destruct Hp as (Hl & He & Hw).
      inversion Hm as [? ? Hall|j w ? ? ? Hj Hw' Hall]; subst.
      * specialize (Hall _ _ Hv). congruence.
      * destruct (decide (i = j)) as [->|Hne]; [|specialize (Hall _ _ Hv Hne); congruence].
        rewrite Hv in Hj. injection Hj as <-. rewrite Ev in Hw'. injection Hw' as -> _ _.
        eapply (somebody _ _ _ j v'); try done.
        -- rewrite list_lookup_insert_eq; [done|]. by eapply lookup_lt_Some.
        -- intros j' w' Hj' Hne. rewrite list_lookup_insert_ne in Hj' by done. by eapply Hall.
        -- by eapply reached_same.
  - apply Hback, Hs'.
Qed.

(** The kernel part changes only in what no view mentions. *)
Lemma sound_quiet σ g vs ex G s' :
  sound σ g vs ex G → heap s' = heap (p_kern σ) → dev s' = dev (p_kern σ) →
  full_user_entry s' = full_user_entry (p_kern σ) → sound (mk_pool s' (p_threads σ)) g vs ex G.
Proof.
  intros [Hb Hc Hg Hcalls Hsafe Hr Hm Ho] Hh Hd He. split; cbn [p_kern p_threads]; try congruence; try done.
  inversion Hm as [a po|j v a fe n]; subst.
  - by apply nobody; rewrite ?Hd, ?He.
  - by eapply (somebody _ _ _ j v); rewrite ?Hd, ?He.
Qed.

Lemma view_of σ g vs ex G i t : sound σ g vs ex G → p_threads σ !! i = Some t →
  ∃ v, vs !! i = Some v ∧ safe pb t v g left.
Proof.
  intros Hso Hi. pose proof (so_safe _ _ _ _ _ Hso) as Hs.
  destruct (Forall2_lookup_l _ _ _ _ _ Hs Hi) as (v & Hv & Hsafe). by exists v.
Qed.

Lemma awake_free s (k : Z → thread (Z * Z)) :
  sleeps s (Lock k) = false → lock (dev s) = MutexHeld → mutex_lock_interrupted (tick s) = true.
Proof. unfold sleeps. intros Hs Hl. rewrite Hl in Hs. by destruct (mutex_lock_interrupted _). Qed.

(** Thread [i] at the mutex, when it does not sleep. *)
Lemma sound_lock σ g vs ex G i v k :
  sound σ g vs ex G → p_threads σ !! i = Some (Lock k) → vs !! i = Some v →
  sleeps (p_kern σ) (Lock k) = false →
  ∃ r s' v' ex', mutex_lock_interruptible (p_kern σ) = Ret (r, s') ∧
    sound (mk_pool s' (<[i := k r]> (p_threads σ))) g (<[i := v']> vs) ex' G.
Proof.
  intros Hso Hi Hv Hsl. pose proof Hso as [Hb Hc Hg Hcalls Hsafe Hr Hm Ho].
  pose proof (Forall2_lookup_lr _ _ _ _ _ _ Hsafe Hi Hv) as [Hp Ht]. specialize (Ht g ltac:(done)) as [Hint Hok].
  pose proof (awake_free _ _ Hsl) as Hawake.
  destruct (mutex_lock_interrupted (tick (p_kern σ))) eqn:Ei.
  - set (s' := mk_kstate (heap (p_kern σ)) (umem (p_kern σ)) (klog (p_kern σ)) (S (tick (p_kern σ)))
      (dev (p_kern σ)) (full_user_entry (p_kern σ)) (aesd_major (p_kern σ)) (region (p_kern σ))).
    exists (- EINTR), s', v, ex. split.
    { unfold mutex_lock_interruptible. erewrite bind_eval by done. by rewrite Ei. }
    rewrite (list_insert_id vs i v Hv).
    destruct (sound_quiet _ _ _ _ _ s' Hso eq_refl eq_refl eq_refl) as [Hb' Hc' Hg' Hcalls' Hs' Hr' Hm' Ho'].
    split; try done. cbn [p_threads] in *. rewrite <- (list_insert_id vs i v Hv).
    eapply others_safe; [done..|]. intros. apply later_refl.
  - inversion Hm as [a po Hall Hl He Hw Hrest Hws|j w a fe n Hj Hw' Hall Hl]; subst.
    2:{ specialize (Hawake Hl). done. }
    destruct (proj1 (wp_run mutex_lock_interruptible (p_kern σ) (λ r s', r = 0 ∧
      heap s' = heap (p_kern σ) ∧ full_user_entry s' = full_user_entry (p_kern σ) ∧
      dev s' = mk_dev (pbuffer (dev (p_kern σ))) MutexHeld (buff_size (dev (p_kern σ))) (cdev (dev (p_kern σ))))))
      as (r & s' & E & -> & Hh & He' & Hd).
    { apply wp_mutex_lock; [done|congruence|]. intros _ s' Hh _ _ Hd He'. done. }
    set (v' := mk_view (Inside a (partial_entry po (partial a)) (written a))
      (partial_blocks po (partial a) ++ v_blocks v) (v_room v) (v_wrote v) (v_call v)).
    exists 0, s', v', []. split; [done|].
    assert (∀ j w, vs !! j = Some w → j ≠ i → later w g g) as Hsame by (intros; apply later_refl).
    split; cbn [p_kern p_threads]; rewrite ?Hd; try done.
    + by rewrite (same_member v_call vs i v v').
    + eapply others_safe; [done..| |done]. by apply Hok.
    + eapply (sum_room vs i v); [done| |done]. done.
    + eapply (somebody _ _ _ i v'); rewrite ?Hd; cbn; try congruence; try done.
      * apply list_lookup_insert_eq. by eapply lookup_lt_Some.
      * intros j w Hj Hne. rewrite list_lookup_insert_ne in Hj by done. by eapply Hall.
      * by rewrite He'.
      * by eapply reached_same.
    + rewrite Hh. cbn [app]. destruct (concat_insert v_blocks vs i v Hv) as [rest Hrst].
      pose proof (Hrst v) as Hv0. rewrite (list_insert_id vs i v Hv) in Hv0.
      rewrite Hv0 in Ho. rewrite Hrst. cbn [v_blocks v']. rewrite <- (assoc_L (++)). exact Ho.
Qed.

Lemma sound_unlock σ g vs ex G i v k :
  sound σ g vs ex G → p_threads σ !! i = Some (Unlock k) → vs !! i = Some v →
  ∃ s' v' ex', mutex_unlock (p_kern σ) = Ret (tt, s') ∧
    sound (mk_pool s' (<[i := k]> (p_threads σ))) g (<[i := v']> vs) ex' G ∧ v_place v' = Outside.
Proof.
  intros Hso Hi Hv. pose proof Hso as [Hb Hc Hg Hcalls Hsafe Hr Hm Ho].
  pose proof (Forall2_lookup_lr _ _ _ _ _ _ Hsafe Hi Hv) as (a & a' & po & bl & ws & Hp & Hbl & Hrest & Hws & Ht).
  inversion Hm as [? ? Hall|j w ? ? ? Hj Hw' Hall Hl He Hw (ws0 & Hws0 & Hperm)]; subst.
  { specialize (Hall _ _ Hv). congruence. }
  destruct (decide (i = j)) as [->|Hne]; [|specialize (Hall _ _ Hv Hne); congruence].
  rewrite Hv in Hj. injection Hj as <-. rewrite Hp in Hw'. injection Hw' as -> Hfe Hn.
  set (a' := write_all ws (write_all ws0 a0)) in *.
  destruct (proj1 (wp_run mutex_unlock (p_kern σ) (λ _ s',
      heap s' = heap (p_kern σ) ∧ full_user_entry s' = full_user_entry (p_kern σ) ∧
      dev s' = mk_dev (pbuffer (dev (p_kern σ))) MutexFree (buff_size (dev (p_kern σ))) (cdev (dev (p_kern σ))))))
      as ([] & s' & E & Hh & He' & Hd).
  { apply wp_mutex_unlock; [done|]. intros s' Hh _ _ Hd He'. done. }
  set (v' := mk_view Outside bl (v_room v) (v_wrote v ++ ws) (v_call v)).
  exists s', v', (partial_blocks po (partial a')). split; [done|]. split; [|done].
  assert (∀ i w, vs !! i = Some w → i ≠ j → later w g g) as Hsame by (intros; apply later_refl).
  split; cbn [p_kern p_threads]; rewrite ?Hd; try done.
  - by rewrite (same_member v_call vs j v v').
  - eapply others_safe; [done..|]. done.
  - eapply (sum_room vs j v); [done| |done]. done.
  - apply nobody; rewrite ?Hd; cbn; try congruence; try done.
    + intros i w Hj. destruct (decide (i = j)) as [->|Hne].
      * rewrite list_lookup_insert_eq in Hj by (by eapply lookup_lt_Some). by injection Hj as <-.
      * rewrite list_lookup_insert_ne in Hj by done. by eapply Hall.
    + exists (ws0 ++ ws). split; [unfold a', write_all; by rewrite fold_left_app|].
      destruct (concat_insert v_wrote vs j v Hv) as [rest Hrst]. pose proof (Hrst v) as Hv0.
      rewrite (list_insert_id vs j v Hv) in Hv0. rewrite Hrst, Hperm, Hv0. cbn [v_wrote v'].
      rewrite <- !(assoc_L (++)). apply Permutation_app_head, Permutation_app_comm.
  - rewrite Hh. destruct (concat_insert v_blocks vs j v Hv) as [rest Hrst].
    pose proof (Hrst v) as Hv0. rewrite (list_insert_id vs j v Hv), Hbl in Hv0. cbn [app] in Ho.
    rewrite Hv0 in Ho. rewrite Hrst. cbn [v_blocks v'].
    rewrite <- (assoc_L (++)) in Ho. exact Ho.
Qed.

(** ** Schedules *)

Lemma sound_turn σ g vs ex G i :
  sound σ g vs ex G → ∃ σ' g' vs' ex', turn i σ = Ret σ' ∧ sound σ' g' vs' ex' G.
Proof.
  intros Hso. unfold turn. destruct (p_threads σ !! i) as [t|] eqn:Hi; [|by exists σ, g, vs, ex].
  destruct (view_of _ _ _ _ _ _ _ Hso Hi) as (v & Hv & _). destruct t as [r|B m k|k|k].
  - by exists σ, g, vs, ex.
  - destruct (sound_do _ _ _ _ _ _ _ _ _ Hso Hi Hv) as (x & s' & v' & g' & E & Hso' & _).
    rewrite E. cbn. by do 4 eexists.
  - destruct (sleeps (p_kern σ) (Lock k)) eqn:Es; [by exists σ, g, vs, ex|].
    destruct (sound_lock _ _ _ _ _ _ _ _ Hso Hi Hv Es) as (r & s' & v' & ex' & E & Hso').
    rewrite E. cbn. by do 4 eexists.
  - destruct (sound_unlock _ _ _ _ _ _ _ _ Hso Hi Hv) as (s' & v' & ex' & E & Hso' & _).
    rewrite E. cbn. by do 4 eexists.
Qed.

Lemma sound_schedule cs : ∀ σ g vs ex G,
  sound σ g vs ex G → ∃ σ' g' vs' ex', schedule cs σ = Ret σ' ∧ sound σ' g' vs' ex' G.
Proof.
  induction cs as [|[i|m] cs IH]; intros σ g vs ex G Hso; cbn [schedule choose].
  - by exists σ, g, vs, ex.
  - destruct (sound_turn _ _ _ _ _ i Hso) as (σ' & g' & vs' & ex' & E & Hso').
    rewrite E. cbn. by eapply IH.
  - cbn. eapply IH. by eapply sound_quiet.
Qed.

Lemma schedule_app cs1 cs2 σ σ' : schedule cs1 σ = Ret σ' → schedule (cs1 ++ cs2) σ = schedule cs2 σ'.
Proof.
  revert σ. induction cs1 as [|c cs1 IH]; intros σ H; cbn [schedule app] in *; [by injection H as ->|].
  destruct (choose c σ) as [σ1| |]; [|done..]. by apply IH.
Qed.

(** Call [i] can be scheduled to its end, the others staying where they are. *)
Definition ends (i : nat) (σ : pool) (G : gmap positive hval) : Prop :=
  ∃ cs σ' g' vs' ex' r, schedule cs σ = Ret σ' ∧ sound σ' g' vs' ex' G ∧
    (∀ j w, vs' !! j = Some w → v_place w = Outside) ∧
    p_threads σ' = <[i := Done r]> (p_threads σ).

Lemma ends_turn i σ s' t' G :
  turn i σ = Ret (mk_pool s' (<[i := t']> (p_threads σ))) →
  ends i (mk_pool s' (<[i := t']> (p_threads σ))) G → ends i σ G.
Proof.
  intros E (cs & σ' & g' & vs' & ex' & r & Hs & Hso & Hout & Ht). exists (Turn i :: cs), σ', g', vs', ex', r.
  split; [cbn [schedule choose]; rewrite E; exact Hs|]. split; [done|]. split; [done|].
  rewrite Ht. cbn [p_threads]. apply list_insert_insert_eq.
Qed.

(** A call that nobody keeps from the mutex runs to its end. *)
Lemma runs_to_end t : ∀ σ g vs ex G i,
  sound σ g vs ex G → p_threads σ !! i = Some t →
  (∀ j w, vs !! j = Some w → j ≠ i → v_place w = Outside) → ends i σ G.
Proof.
  assert (∀ (vs : list view) i v', (∀ j w, vs !! j = Some w → j ≠ i → v_place w = Outside) →
    ∀ j w, <[i := v']> vs !! j = Some w → j ≠ i → v_place w = Outside) as Hnext.
  { intros vs i v' Hout j w Hj Hne. rewrite list_lookup_insert_ne in Hj by done. by eapply Hout. }
  induction t as [r|B m k IH|k IH|k IH]; intros σ g vs ex G i Hso Hi Hout;
    destruct (view_of _ _ _ _ _ _ _ Hso Hi) as (v & Hv & Hsafe); pose proof (lookup_lt_Some _ _ _ Hi).
  - exists [], σ, g, vs, ex, r. split; [done|]. split; [done|]. split.
    + intros j w Hj. destruct (decide (j = i)) as [->|Hne]; [|by eapply Hout].
      rewrite Hv in Hj. injection Hj as <-. apply (Hsafe g), later_refl.
    + by rewrite list_insert_id.
  - destruct (sound_do _ _ _ _ _ _ _ _ _ Hso Hi Hv) as (x & s' & v' & g' & E & Hso' & _).
    eapply (ends_turn _ _ s' (k x)); [unfold turn; rewrite Hi, E; done|].
    eapply IH; [done|by apply list_lookup_insert_eq|by apply Hnext].
  - assert (sleeps (p_kern σ) (Lock k) = false) as Es.
    { unfold sleeps. destruct (so_mutex _ _ _ _ _ Hso) as [a po Hall Hl|j w a fe n Hj Hw Hall Hl].
      - by rewrite Hl.
      - destruct (decide (j = i)) as [->|Hne]; [|rewrite (Hout _ _ Hj Hne) in Hw; done].
        destruct Hsafe as [Hp _]. congruence. }
    destruct (sound_lock _ _ _ _ _ _ _ _ Hso Hi Hv Es) as (r & s' & v' & ex' & E & Hso').
    eapply (ends_turn _ _ s' (k r)); [unfold turn; rewrite Hi, Es, E; done|].
    eapply IH; [done|by apply list_lookup_insert_eq|by apply Hnext].
  - destruct (sound_unlock _ _ _ _ _ _ _ _ Hso Hi Hv) as (s' & v' & ex' & E & Hso' & _).
    eapply (ends_turn _ _ s' k); [unfold turn; rewrite Hi, E; done|].
    eapply IH; [done|by apply list_lookup_insert_eq|by apply Hnext].
Qed.

(** The first [n] calls, when nobody has the mutex. *)
Lemma first_end n : ∀ σ g vs ex G, sound σ g vs ex G →
  (∀ j w, vs !! j = Some w → v_place w = Outside) → (n ≤ length (p_threads σ))%nat →
  ∃ cs σ' g' vs' ex', schedule cs σ = Ret σ' ∧ sound σ' g' vs' ex' G ∧
    (∀ j w, vs' !! j = Some w → v_place w = Outside) ∧ length (p_threads σ') = length (p_threads σ) ∧
    forallb finished (take n (p_threads σ')) = true.
Proof.
  induction n as [|n IH]; intros σ g vs ex G Hso Hout Hn.
  { exists [], σ, g, vs, ex. done. }
  destruct (IH _ _ _ _ _ Hso Hout ltac:(lia)) as (cs & σ1 & g1 & vs1 & ex1 & E1 & Hso1 & Hout1 & Hl1 & Hf1).
  destruct (lookup_lt_is_Some_2 (p_threads σ1) n) as [t Ht]; [lia|].
  destruct (runs_to_end t _ _ _ _ _ _ Hso1 Ht ltac:(by eauto))
    as (cs2 & σ2 & g2 & vs2 & ex2 & r & E2 & Hso2 & Hout2 & Ht2).
  exists (cs ++ cs2), σ2, g2, vs2, ex2. split; [by rewrite (schedule_app _ _ _ _ E1)|].
  split; [done|]. split; [done|]. rewrite Ht2, length_insert. split; [done|].
  rewrite (take_S_r _ _ (Done r)) by (apply list_lookup_insert_eq; lia).
  rewrite forallb_app, take_insert_ge, Hf1 by done. done.
Qed.

(** Whoever has the mutex gives it back. *)
Lemma mutex_returns σ g vs ex G : sound σ g vs ex G →
  ∃ cs σ' g' vs' ex', schedule cs σ = Ret σ' ∧ sound σ' g' vs' ex' G ∧
    (∀ j w, vs' !! j = Some w → v_place w = Outside).
Proof.
  intros Hso. destruct (so_mutex _ _ _ _ _ Hso) as [a po Hall|j v a fe n Hj Hv Hall].
  { exists [], σ, g, vs. eexists. done. }
  destruct (Forall2_lookup_r _ _ _ _ _ (so_safe _ _ _ _ _ Hso) Hj) as (t & Ht & _).
  destruct (runs_to_end t _ _ _ _ _ _ Hso Ht Hall) as (cs & σ' & g' & vs' & ex' & r & E & Hso' & Hout & _).
  by exists cs, σ', g', vs', ex'.
Qed.

Lemma all_end σ g vs ex G : sound σ g vs ex G →
  ∃ cs σ', schedule cs σ = Ret σ' ∧ forallb finished (p_threads σ') = true.
Proof.
  intros Hso. destruct (mutex_returns _ _ _ _ _ Hso) as (cs1 & σ1 & g1 & vs1 & ex1 & E1 & Hso1 & Hout1).
  destruct (first_end (length (p_threads σ1)) _ _ _ _ _ Hso1 Hout1 ltac:(done))
    as (cs2 & σ2 & g2 & vs2 & ex2 & E2 & _ & _ & Hl & Hf).
  exists (cs1 ++ cs2), σ2. split; [by rewrite (schedule_app _ _ _ _ E1)|].
  rewrite <- Hl, firstn_all in Hf. done.
Qed.
End soundness.

(** ** Theorems *)

Section theorems.
Context `{K : KernelApi} {L : KernelLaws K}.

Lemma start_sound s a G pb b po ls calls :
  dev_rep MutexFree s a G pb b po ls → adev_wf a → Forall call_ok calls →
  (length (commands a) + sum_list_with writes calls ≤ 10)%nat →
  let g := mk_common b (zip ls (commands a)) in
  sound pb a g calls (start s calls) g ((λ c, mk_view Outside [] (writes c) [] c) <$> calls)
        (partial_blocks po (partial a)) G.
Proof.
  intros [Hpb Hlk Hw He Hpo Hwf Hc Hlen Ho] Ha Hcalls Hroom. cbn zeta. set (g := mk_common _ _).
  assert ((zip ls (commands a)).*2 = commands a) as Hsnd by (apply snd_zip; lia).
  assert (cmd_block <$> zip ls (commands a) = command_blocks ls (commands a)) as Hblocks.
  { unfold command_blocks. clear. revert ls. induction (commands a) as [|c cs IH]; intros [|l ls]; try done.
    cbn. by rewrite <- IH. }
  set (vs := _ <$> calls). assert (concat (v_blocks <$> vs) = [] ∧ concat (v_wrote <$> vs) = []) as [Hvb Hvw].
  { unfold vs. clear. induction calls as [|c cs [IH1 IH2]]; [done|]. by cbn. }
  assert (∀ i v, vs !! i = Some v → v_place v = Outside) as Hout.
  { intros i v Hv. unfold vs in Hv. rewrite list_lookup_fmap in Hv. by destruct (calls !! i); simplify_eq/=. }
  split; cbn [start p_kern p_threads]; try done.
  - split; cbn [g_ring g_cmds g]; [done| |].
    + rewrite Hc, zip_with_zip. apply list_fmap_ext. by intros ? [l c] _.
    + apply (Forall_fmap snd (λ c, last c = Some LF ∧ Z.of_nat (length c) ≤ KMALLOC_MAX_SIZE)).
      rewrite Hsnd. apply Ha.
  - unfold vs. rewrite <- list_fmap_compose. by rewrite list_fmap_id.
  - unfold vs. apply Forall2_fmap, Forall_Forall2_diag. eapply Forall_impl; [exact Hcalls|].
    intros c Hok. by apply safe_call.
  - cbn [g g_cmds]. rewrite length_zip_with, Hlen, Nat.min_id.
    replace (sum_list_with v_room vs) with (sum_list_with writes calls); [done|].
    unfold vs. clear. induction calls as [|c cs IH]; [done|]. cbn. by rewrite IH.
  - apply nobody; try done. exists []. by rewrite Hvw.
  - rewrite Hvb, app_nil_r. unfold common_blocks. cbn [g g_ring g_cmds]. rewrite Hblocks.
    unfold blocks in Ho. cbn [app]. rewrite (Permutation_app_comm (command_blocks _ _)). exact Ho.
Qed.

(** When all calls are finished the state is a device again. *)
Lemma sound_finished pb a0 g0 calls σ g vs ex G :
  sound pb a0 g0 calls σ g vs ex G → forallb finished (p_threads σ) = true →
  ∃ wrote ws G', length wrote = length calls ∧ ws ≡ₚ concat wrote ∧
    represents (p_kern σ) (write_all ws a0) G' ∧
    ∀ i c, calls !! i = Some c → ∃ r w, p_threads σ !! i = Some (Done r) ∧ wrote !! i = Some w ∧
      outcome_of c r.1 w.
Proof.
  intros [Hb Hc Hg Hcalls Hsafe Hr Hm Ho] Hfin.
  assert (∀ i t, p_threads σ !! i = Some t → ∃ r, t = Done r) as Hdone.
  { intros i t Ht. rewrite forallb_forall in Hfin. specialize (Hfin t).
    destruct t as [r|B m k|k|k]; [by exists r|..]; discriminate Hfin;
      by apply list_elem_of_In, list_elem_of_lookup_2 with i. }
  assert (∀ i v, vs !! i = Some v → ∃ r, p_threads σ !! i = Some (Done r) ∧ left r v g) as Hleft.
  { intros i v Hv. destruct (Forall2_lookup_r _ _ _ _ _ Hsafe Hv) as (t & Ht & Hs).
    destruct (Hdone _ _ Ht) as [r ->]. exists r. split; [done|]. apply (Hs g), later_refl. }
  destruct Hm as [a po Hall Hl He Hw [Hcm Hwf Hpo] (ws & Ha & Hws)|j v a fe n Hj Hv].
  2:{ destruct (Hleft _ _ Hj) as (r & _ & Hp & _). congruence. }
  exists (v_wrote <$> vs), ws, (list_to_map (concat (v_blocks <$> vs)) ∪ G).
  split; [by rewrite length_fmap, <- Hcalls, length_fmap|]. split; [done|]. split.
  - split; [by rewrite <- Ha|]. exists pb, (g_ring g), po, (g_cmds g).*1. rewrite <- Ha.
    split; try done.
    + apply Hc.
    + rewrite (co_contents _ Hc), Hcm, zip_with_fmap_l, zip_with_fmap_r. 
      rewrite zip_with_zip. clear. induction (g_cmds g) as [|[l c] q IH]; [done|]. cbn. by rewrite IH.
    + by rewrite Hcm, !length_fmap.
    + unfold blocks. rewrite Hcm.
      assert (command_blocks (g_cmds g).*1 (g_cmds g).*2 = cmd_block <$> g_cmds g) as ->.
      { unfold command_blocks. clear. induction (g_cmds g) as [|[l c] q IH]; [done|]. cbn. by rewrite <- IH. }
      rewrite (assoc_L (++)) in Ho. apply owns_app in Ho as [Ho _].
      unfold common_blocks in Ho. cbn [app] in Ho.
      rewrite (Permutation_app_comm (partial_blocks _ _)). exact Ho.
  - intros i c Hi. rewrite <- Hcalls, list_lookup_fmap in Hi.
    destruct (vs !! i) as [v|] eqn:Hv; [|done]. injection Hi as <-.
    destruct (Hleft _ _ Hv) as (r & Hr' & _ & Ho'). exists r, (v_wrote v).
    rewrite list_lookup_fmap, Hv. done.
Qed.
End theorems.

(** C7: reads, writes, seeks and closes of a device interleave statement by statement, while
    the user changes its memory.  When the stored commands and the writes together are at most
    ten, no schedule makes a statement fault; every schedule can be continued until all
    calls have returned, so nobody waits for the mutex forever; and when they have, the
    device is as after the chunks of the successful writes, one by one in some order: a
    write that returned its count has added one chunk of that length, any other call
    nothing. *)
Theorem calls_interleave {K : KernelApi} {L : KernelLaws K} (s : kstate) (a : adev)
    (G : gmap positive hval) (calls : list call) (cs : list choice)
    (Hrep : represents s a G) (Hok : Forall call_ok calls)
    (Hroom : (length (commands a) + sum_list_with writes calls ≤ 10)%nat) :
  ∃ σ, schedule cs (start s calls) = Ret σ ∧
    (∃ cs' σ', schedule cs' σ = Ret σ' ∧ forallb finished (p_threads σ') = true) ∧
    (forallb finished (p_threads σ) = true →
     ∃ wrote ws G', length wrote = length calls ∧ ws ≡ₚ concat wrote ∧
       represents (p_kern σ) (write_all ws a) G' ∧
       ∀ i c, calls !! i = Some c → ∃ r w, p_threads σ !! i = Some (Done r) ∧ wrote !! i = Some w ∧
         outcome_of c r.1 w).
Proof.
  destruct Hrep as (Ha & pb & b & po & ls & Hrep).
  pose proof (start_sound s a G pb b po ls calls Hrep Ha Hok Hroom) as Hso. cbn zeta in Hso.
  destruct (sound_schedule _ _ _ _ cs _ _ _ _ _ Hso) as (σ & g & vs & ex & E & Hso').
  exists σ. split; [done|]. split; [by eapply all_end|]. by eapply sound_finished.
Qed.


(** ** A command dropped while it is printed *)

(** The device with ten times "hi". *)
Definition s_full : kstate :=
  Nat.iter 10 (after (@aesd_write demo f_open 1000 3 0)) s_loaded.
Definition a_full : adev := mk_adev (replicate 10 hi) [] 30.

(** A file is closed while another process writes. *)
Definition close_and_write : list call := [CallRelease f_open; CallWrite f_open 1000 3].

(** The release stops when it has memory for the text of the oldest command; the write
    runs; the release copies the text. *)
Definition drop_while_printing : list choice :=
  replicate 9 (Turn 0) ++ replicate 60 (Turn 1) ++ [Turn 0].

Lemma full_represents : @represents demo s_full a_full ∅.
Proof.
  split.
  { split; cbn -[Z.pow replicate]; [|done|lia]. apply Forall_replicate. split; [done|simpl; lia]. }
  exists 1%positive, (Nat.iter 10 (λ b, added b (cmd_entry (Z.to_pos (in_offs b + 2)) hi)) empty_buffer),
         None, [2; 3; 4; 5; 6; 7; 8; 9; 10; 11]%positive.
  split; try (by vm_compute).
  split; [by vm_compute|by apply (bool_decide_unpack _); vm_compute|done].
Qed.

(** C8: the bound is exact.  On a device that is full there is a schedule of a close and one
    write in which the close reads memory that the write has freed, because
    [aesd_release] prints the commands without the mutex; one after the other the same calls
    return. *)
Theorem release_reads_freed_memory :
  @represents demo s_full a_full ∅ ∧ Forall call_ok close_and_write ∧
  (length (commands a_full) + sum_list_with writes close_and_write = 11)%nat ∧
  @schedule demo drop_while_printing (@start demo s_full close_and_write) = UB Dangling ∧
  ∃ σ, @schedule demo (replicate 150 (Turn 0) ++ replicate 60 (Turn 1))
         (@start demo s_full close_and_write) = Ret σ ∧ forallb finished (p_threads σ) = true.
Proof.
  split; [exact full_represents|]. split.
  { apply Forall_cons_2; [|apply Forall_cons_2; [|by apply Forall_nil_2]]; cbn; unfold file_ok, MAX_RW_COUNT;
      cbn; repeat split; lia. }
  split; [done|]. split; [by vm_compute|].
  assert (∃ σ, @schedule demo (replicate 150 (Turn 0) ++ replicate 60 (Turn 1))
    (@start demo s_full close_and_write) = Ret σ) as [σ E].
  { destruct (schedule _ _) as [σ| |] eqn:E; [by exists σ|..]; exfalso; revert E; vm_compute; done. }
  exists σ. split; [exact E|]. revert E. vm_compute. by intros [= <-].
Qed.

(** A close, a write and a read of the device with one command, a turn each. *)
Definition three_calls : list call :=
  [CallRelease f_open; CallWrite f_open 1000 3; CallRead f_open 2000 3].
Definition in_turn : list choice := concat (replicate 30 [Turn 0; Turn 1; Turn 2]).

Lemma calls_interleave_witness :
  ∃ σ, @schedule demo in_turn (@start demo s_written three_calls) = Ret σ ∧
    (∃ cs' σ', @schedule demo cs' σ = Ret σ' ∧ forallb finished (p_threads σ') = true) ∧
    (forallb finished (p_threads σ) = true →
     ∃ wrote ws G', length wrote = 3%nat ∧ ws ≡ₚ concat wrote ∧
       @represents demo (p_kern σ) (write_all ws a_written) G' ∧
       ∀ i c, three_calls !! i = Some c → ∃ r w, p_threads σ !! i = Some (Done r) ∧ wrote !! i = Some w ∧
         outcome_of c r.1 w).
Proof.
  apply (@calls_interleave demo (demo_laws never never 0) s_written a_written ∅ three_calls in_turn).
  - exact written_represents.
  - apply Forall_cons_2; [|apply Forall_cons_2; [|apply Forall_cons_2; [|by apply Forall_nil_2]]]; cbn;
      unfold file_ok, MAX_RW_COUNT; cbn; repeat split; lia.
  - cbn. lia.
Defined.
