(* ===== verification/SystemCalls.v ===== *)
(** * The process examples

    A translation of [examples/systemcalls/systemcalls.c]: [do_system], [do_exec] and
    [do_exec_redirect].  A process is a computation over [pstate]; [fork] runs the code
    that follows it twice, once with 0 in a copy of the process and once with the
    pid in the parent, so both branches of the source are one continuation, as they are
    in C.  The C library and the operating system are the class [UnixApi]. *)

From stdpp Require Import base list gmap option strings.
From Stdlib Require Import ZArith Lia.
From S2P Require Import Prelude.
#[local] Open Scope Z_scope.

(** ** Processes *)

(** How a process ends, and the [int] that [waitpid] stores for it. *)
Inductive ending : Type :=
  | Exited (code : Z)
  | Killed (sig : Z) (core : bool).

Definition wait_status (e : ending) : Z :=
  match e with
  | Exited code => Z.shiftl (Z.land code 255) 8
  | Killed sig core => Z.lor sig (if core then 128 else 0)
  end.

Definition WIFEXITED (status : Z) : Z := if Z.land status 127 =? 0 then 1 else 0.
Definition WEXITSTATUS (status : Z) : Z := Z.shiftr (Z.land status 65280) 8.

(** Where the descriptor [STDOUT_FILENO] leads. *)
Inductive stdout_target : Type :=
  | Terminal
  | ToFile (path : string).

(** A process: the endings of its children that were not waited for, its standard
    output, and the parts of the machine it shares with every other process: the files,
    the terminal and the lines [perror] wrote. *)
Record pstate : Type := mk_pstate {
  children : gmap Z ending;
  stdout : stdout_target;
  files : gmap string (list Byte.byte);
  terminal : list Byte.byte;
  errors : list string;
}.

Definition set_children (c : gmap Z ending) : M pstate unit :=
  mmodify (λ s, mk_pstate c (stdout s) (files s) (terminal s) (errors s)).
Definition set_stdout (t : stdout_target) : M pstate unit :=
  mmodify (λ s, mk_pstate (children s) t (files s) (terminal s) (errors s)).
Definition set_file (f : string) (d : list Byte.byte) : M pstate unit :=
  mmodify (λ s, mk_pstate (children s) (stdout s) (<[f := d]> (files s)) (terminal s) (errors s)).
Definition perror (m : string) : M pstate unit :=
  mmodify (λ s, mk_pstate (children s) (stdout s) (files s) (terminal s) (errors s ++ [m])).

(** [write] to standard output; a file that was just truncated is extended. *)
Definition write_stdout (d : list Byte.byte) : M pstate unit :=
  mmodify (λ s,
    match stdout s with
    | Terminal => mk_pstate (children s) (stdout s) (files s) (terminal s ++ d) (errors s)
    | ToFile f =>
      mk_pstate (children s) (stdout s) (<[f := default [] (files s !! f) ++ d]> (files s))
                (terminal s) (errors s)
    end).

(** What a run of a function comes to in one process: it returns, or the process ends. *)
Inductive proc_end : Type :=
  | Returned (b : bool)
  | Ended (e : ending).

(** A slot of an array of [char *]. *)
Inductive slot : Type := Uninit | Null | Str (s : string).

(** ** The operating system *)

Class UnixApi : Type := {
  (** the value of [system] *)
  system_result : option string → Z;
  (** the pid of the new process, if there is one *)
  fork_pid : option Z;
  (** what the program at a path does with its arguments: its output and how it ends;
      nothing when [execv] fails *)
  program : string → list string → option (list Byte.byte * ending);
  (** the descriptor [open] and [dup2] return, or -1 *)
  open_result : string → Z;
  dup2_result : Z → Z;
  (** whether [waitpid] fails although the child exists *)
  waitpid_interrupted : bool;
  (** how a child ends that returns from the function into the code of its caller *)
  caller_continues : bool → ending;
}.

(** Documented: a new pid is a positive [int] that no child has, a signal that ends a
    process is one of 1..126. *)
Definition valid_ending (e : ending) : Prop :=
  match e with Exited _ => True | Killed sig _ => 1 ≤ sig < 127 end.

Class UnixLaws (U : UnixApi) : Prop := {
  fork_pid_range : ∀ p, fork_pid = Some p → 0 < p < 2 ^ 31;
  program_ends : ∀ path argv d e, program path argv = Some (d, e) → valid_ending e;
}.

Section calls.
Context `{U : UnixApi}.

Definition end_of (r : proc_end) : ending :=
  match r with Ended e => e | Returned b => caller_continues b end.

(** [fork()] and everything after it, [k].  The child starts without children; what it
    does to the shared parts is there when the parent looks at its ending. *)
Definition fork (k : Z → M pstate proc_end) : M pstate proc_end := λ s,
  match fork_pid with
  | None => k (-1) s
  | Some pid =>
    '(r, c) ← k 0 (mk_pstate ∅ (stdout s) (files s) (terminal s) (errors s));
    k pid (mk_pstate (<[pid := end_of r]> (children s)) (stdout s)
                     (files c) (terminal c) (errors c))
  end.

(** [waitpid(pid, &status, 0)] for a positive pid: the result, and the new [status]. *)
Definition waitpid (pid status : Z) : M pstate (Z * Z) :=
  if waitpid_interrupted then mret (-1, status)
  else
    c ← mgets children;
    match c !! pid with
    | Some e => set_children (delete pid c);; mret (pid, wait_status e)
    | None => mret (-1, status)
    end.

(** The vector [execv] reads: up to the first [NULL]. *)
Fixpoint exec_vector (argv : list slot) : outcome (list string) :=
  match argv with
  | [] => UB OutOfBounds
  | Null :: _ => Ret []
  | Uninit :: _ => UB Dangling
  | Str a :: argv => l ← exec_vector argv; Ret (a :: l)
  end.

(** [execv(path, argv)]: [None] when it returns -1, otherwise the program has run. *)
Definition execv (path : slot) (argv : list slot) : M pstate (option ending) :=
  v ← mlift (exec_vector argv);
  match path with
  | Str p =>
    match program p v with
    | Some (d, e) => write_stdout d;; mret (Some e)
    | None => mret None
    end
  | Null => mret None
  | Uninit => mub Dangling
  end.

Definition exit (code : Z) : M pstate proc_end := mret (Ended (Exited code)).

(** [return v;] from a [bool] function. *)
Definition return_int (v : Z) : M pstate proc_end := mret (Returned (negb (v =? 0))).

(** ** [systemcalls.c] *)

Definition do_system (cmd : option string) : bool :=
  if 0 =? system_result cmd then true else false.

(** [a[i]] and [a[i] = v] on an array of [char *]. *)
Definition slot_at (a : list slot) (i : Z) : outcome slot :=
  if decide (0 ≤ i) then
    match a !! Z.to_nat i with Some v => Ret v | None => UB OutOfBounds end
  else UB OutOfBounds.

Definition set_slot (a : list slot) (i : Z) (v : slot) : outcome (list slot) :=
  if decide (0 ≤ i < Z.of_nat (length a)) then Ret (<[Z.to_nat i := v]> a)
  else UB OutOfBounds.

(** [for (i = 0; i < count; i++) command[i] = va_arg(args, char * );]: the array and the
    final [i].  Asking for an argument that was not passed is undefined. *)
Fixpoint va_loop (fuel : nat) (i count : Z) (args : list string) (command : list slot) :
    outcome (list slot * Z) :=
  match fuel with
  | O => OutOfFuel
  | S fuel =>
    if i <? count then
      match args with
      | [] => UB OutOfBounds
      | a :: args =>
        command ← set_slot command i (Str a);
        va_loop fuel (i + 1) count args command
      end
    else Ret (command, i)
  end.

(** The array [char *command[count+1]] both functions build from their arguments. *)
Definition va_command (count : Z) (args : list string) : outcome (list slot) :=
  if count + 1 <=? 0 then UB OutOfBounds
  else
    '(command, i) ← va_loop (Z.to_nat count + 1) 0 count args
                            (replicate (Z.to_nat (count + 1)) Uninit);
    set_slot command i Null.

(** The child of [do_exec]. *)
Definition do_exec_child (command : list slot) : M pstate proc_end :=
  c0 ← mlift (slot_at command 0);
  c1 ← mlift (slot_at command 1);
  c2 ← mlift (slot_at command 2);
  r ← execv c0 [c0; c1; c2; Null];
  match r with
  | Some e => mret (Ended e)
  | None => perror "execv";; exit (-1)
  end.

Definition do_exec (count : Z) (args : list string) : M pstate proc_end :=
  command ← mlift (va_command count args);
  let status := 0 in
  fork (λ child_pid,
    if -1 =? child_pid then
      perror "fork: ";;
      return_int 0
    else if 0 =? child_pid then
      do_exec_child command
    else
      '(ret_value, status) ← waitpid child_pid status;
      if -1 =? ret_value then
        perror "waitpid: ";;
        return_int 0
      else if negb (0 =? WIFEXITED status) then
        if 0 =? WEXITSTATUS status then return_int 1 else return_int 0
      else return_int ret_value).

(** The child of [do_exec_redirect]. *)
Definition do_exec_redirect_child (outputfile : string) (command : list slot) :
    M pstate proc_end :=
  c0 ← mlift (slot_at command 0);
  c1 ← mlift (slot_at command 1);
  c2 ← mlift (slot_at command 2);
  c3 ← mlift (slot_at command 3);
  let fd := open_result outputfile in
  if -1 =? fd then
    perror "open";;
    return_int 0
  else
    set_file outputfile [];;
    let fd := dup2_result fd in
    if -1 =? fd then
      perror "dup2";;
      return_int 0
    else
      set_stdout (ToFile outputfile);;
      r ← execv c0 [c0; c1; c2; c3];
      match r with
      | Some e => mret (Ended e)
      | None => perror "execv";; exit (-1)
      end.

(** [child_pid] is an [unsigned short]: it is promoted to [int] where it is compared. *)
Definition do_exec_redirect (outputfile : string) (count : Z) (args : list string) :
    M pstate proc_end :=
  command ← mlift (va_command count args);
  let status := -1 in
  fork (λ pid,
    let child_pid := u16 pid in
    if -1 =? child_pid then
      perror "fork";;
      return_int 0
    else if 0 =? child_pid then
      do_exec_redirect_child outputfile command
    else
      '(ret_val, status) ← waitpid child_pid status;
      if -1 =? ret_val then
        perror "waitpid";;
        return_int 0
      else if negb (0 =? WIFEXITED status) then
        if 0 =? WEXITSTATUS status then return_int 1 else return_int 0
      else return_int ret_val).
End calls.
