(* ===== verification/SystemCallsSpec.v ===== *)
(** * What the process examples do

    The wait status arithmetic, the argument array, and what [do_exec] and
    [do_exec_redirect] report and leave behind for every ending of the command. *)

From stdpp Require Import base list gmap option strings.
From Stdlib Require Import ZArith Lia.
From S2P Require Import Prelude SystemCalls.

#[local] Open Scope Z_scope.

(** ** The wait status *)

Lemma WIFEXITED_exited c : WIFEXITED (wait_status (Exited c)) = 1.
Proof.
  unfold WIFEXITED, wait_status.
  replace (Z.land (Z.shiftl (Z.land c 255) 8) 127) with 0; [done|].
  symmetry. apply Z.bits_inj'. intros n Hn. rewrite Z.land_spec, Z.bits_0.
  change 127 with (Z.ones 7). destruct (decide (n < 8)).
  - by rewrite Z.shiftl_spec_low.
  - rewrite (Z.ones_spec_high 7) by lia. by rewrite andb_false_r.
Qed.

Lemma WEXITSTATUS_exited c : WEXITSTATUS (wait_status (Exited c)) = Z.land c 255.
Proof.
  unfold WEXITSTATUS, wait_status. apply Z.bits_inj'. intros n Hn.
  rewrite Z.shiftr_spec, Z.land_spec, Z.shiftl_spec by lia.
  replace (n + 8 - 8) with n by lia.
  change 65280 with (Z.shiftl (Z.ones 8) 8). change 255 with (Z.ones 8).
  rewrite Z.shiftl_spec, !Z.land_spec by lia.
  replace (n + 8 - 8) with n by lia. by destruct (Z.testbit c n), (Z.testbit (Z.ones 8) n).
Qed.

Lemma WIFEXITED_killed sig core :
  1 ≤ sig < 127 → WIFEXITED (wait_status (Killed sig core)) = 0.
Proof.
  intros Hs. unfold WIFEXITED, wait_status. rewrite Z.land_lor_distr_l.
  change 127 with (Z.ones 7). rewrite !Z.land_ones by lia.
  replace ((if core then 128 else 0) mod 2 ^ 7) with 0 by by destruct core.
  rewrite Z.lor_0_r, Z.mod_small by lia.
  by destruct (Z.eqb_spec sig 0); [lia|].
Qed.

(** ** The argument array *)

Lemma va_loop_eval pre rest fuel :
  (length rest < fuel)%nat →
  va_loop fuel (Z.of_nat (length pre)) (Z.of_nat (length pre + length rest)) rest
    (map Str pre ++ replicate (length rest + 1) Uninit) =
  Ret (map Str (pre ++ rest) ++ [Uninit], Z.of_nat (length pre + length rest)).
Proof.
  revert pre fuel. induction rest as [|a rest IH]; intros pre [|fuel] Hf; simpl in *; try lia.
  - rewrite (proj2 (Z.ltb_ge _ _)) by lia. by rewrite app_nil_r, Nat.add_0_r.
  - rewrite (proj2 (Z.ltb_lt _ _)) by lia. unfold set_slot.
    rewrite decide_True by (rewrite length_app, length_map; simpl; lia). simpl.
    rewrite Nat2Z.id, insert_app_r_alt by (rewrite length_map; lia).
    rewrite length_map, Nat.sub_diag. simpl.
    specialize (IH (pre ++ [a]) fuel ltac:(lia)).
    rewrite length_app in IH. simpl in IH.
    replace (Z.of_nat (length pre) + 1) with (Z.of_nat (length pre + 1)) by lia.
    replace (Z.of_nat (length pre + S (length rest)))
      with (Z.of_nat (length pre + 1 + length rest)) by lia.
    rewrite map_app, <- app_assoc in IH. simpl in IH. rewrite IH, <- app_assoc. done.
Qed.

Lemma va_command_eval args :
  va_command (Z.of_nat (length args)) args = Ret (map Str args ++ [Null]).
Proof.
  unfold va_command. rewrite (proj2 (Z.leb_gt _ _)) by lia.
  replace (Z.to_nat (Z.of_nat (length args) + 1)) with (length args + 1)%nat by lia.
  pose proof (va_loop_eval [] args (Z.to_nat (Z.of_nat (length args)) + 1) ltac:(lia)) as H.
  simpl in H. change (Z.of_nat 0) with 0 in H. rewrite H. simpl. unfold set_slot.
  rewrite decide_True by (rewrite length_app, length_map; simpl; lia).
  rewrite Nat2Z.id, insert_app_r_alt by (rewrite length_map; lia).
  by rewrite length_map, Nat.sub_diag.
Qed.

(** An element of the array: an argument, the terminating [NULL], or out of range. *)
Lemma slot_at_command args (i : nat) :
  slot_at (map Str args ++ [Null]) (Z.of_nat i) =
  match (map Str args ++ [Null]) !! i with Some v => Ret v | None => UB OutOfBounds end.
Proof. unfold slot_at. by rewrite decide_True, Nat2Z.id by lia. Qed.

(** ** What is reported *)

(** The value the parent returns for a child that ended so. *)
Definition reported (e : ending) : bool :=
  match e with Exited c => Z.land c 255 =? 0 | Killed _ _ => true end.

(** How the child ends when it gets to call [execv]: a failure exits with [(int)-1]. *)
Definition exec_ending (r : option (list Byte.byte * ending)) : ending :=
  match r with Some (_, e) => e | None => Exited (-1) end.

Definition after_exec (r : option (list Byte.byte * ending)) (s : pstate) : pstate :=
  match r with
  | Some (d, _) =>
    match stdout s with
    | Terminal => mk_pstate (children s) (stdout s) (files s) (terminal s ++ d) (errors s)
    | ToFile f => mk_pstate (children s) (stdout s)
        (<[f := default [] (files s !! f) ++ d]> (files s)) (terminal s) (errors s)
    end
  | None => mk_pstate (children s) (stdout s) (files s) (terminal s) (errors s ++ ["execv"])
  end.

(** ** Shared evaluation lemmas *)

Section specs.
Context `{UL : UnixLaws}.

Lemma fork_ext k1 k2 s : (∀ pid s, k1 pid s = k2 pid s) → fork k1 s = fork k2 s.
Proof.
  intros E. unfold fork. destruct fork_pid as [pid|]; [|apply E].
  rewrite E. destruct (k2 0 _) as [[r c]| |]; simpl; [apply E|done..].
Qed.

(** A call of [execv] on a terminated vector, and the error exit after it. *)
Lemma exec_vector_command l rest : exec_vector (map Str l ++ Null :: rest) = Ret l.
Proof. induction l as [|a l IH]; simpl; [done|]. by rewrite IH. Qed.

Lemma execv_or_exit path args argv s :
  exec_vector argv = Ret args →
  (r ← execv (Str path) argv;
   match r with
   | Some e => mret (Ended e)
   | None => perror "execv";; exit (-1)
   end) s = Ret (Ended (exec_ending (program path args)), after_exec (program path args) s).
Proof.
  intros E. unfold execv, mbind, M_bind, mlift. rewrite E. simpl.
  destruct (program path args) as [[d e]|]; simpl; [|done].
  unfold write_stdout, mmodify. by destruct (stdout s).
Qed.

(** What the parent does once the child it waits for has ended. *)
Definition parent_wait (msg : string) (pid status : Z) : M pstate proc_end :=
  '(ret_value, status) ← waitpid pid status;
  if -1 =? ret_value then
    perror msg;;
    return_int 0
  else if negb (0 =? WIFEXITED status) then
    if 0 =? WEXITSTATUS status then return_int 1 else return_int 0
  else return_int ret_value.

Lemma waitpid_eval pid status e s :
  waitpid_interrupted = false → children s !! pid = Some e →
  waitpid pid status s =
  Ret ((pid, wait_status e),
       mk_pstate (delete pid (children s)) (stdout s) (files s) (terminal s) (errors s)).
Proof. intros Hi Hc. unfold waitpid, mbind, M_bind. rewrite Hi. simpl. by rewrite Hc. Qed.

Lemma parent_wait_eval msg pid status e s :
  waitpid_interrupted = false → 0 < pid → valid_ending e → children s !! pid = Some e →
  parent_wait msg pid status s =
  Ret (Returned (reported e),
       mk_pstate (delete pid (children s)) (stdout s) (files s) (terminal s) (errors s)).
Proof.
  intros Hi Hp Hv Hc. unfold parent_wait.
  rewrite (bind_eval _ _ _ _ _ (waitpid_eval pid status e s Hi Hc)).
  rewrite (proj2 (Z.eqb_neq _ _)) by lia.
  destruct e as [c|sig core].
  - rewrite WIFEXITED_exited, WEXITSTATUS_exited, (Z.eqb_sym 0 (Z.land c 255)).
    unfold reported. by destruct (Z.land c 255 =? 0).
  - rewrite WIFEXITED_killed by done. unfold return_int. rewrite Z.eqb_refl. simpl negb.
    cbv iota. by rewrite (proj2 (Z.eqb_neq pid 0)) by lia.
Qed.

Lemma parent_wait_fails msg pid status s :
  waitpid_interrupted = true ∨ children s !! pid = None →
  parent_wait msg pid status s =
  Ret (Returned false,
       mk_pstate (children s) (stdout s) (files s) (terminal s) (errors s ++ [msg])).
Proof.
  intros H. unfold parent_wait, waitpid, mbind, M_bind.
  destruct waitpid_interrupted; [done|]. destruct H as [|H]; [done|]. simpl. by rewrite H.
Qed.

Lemma exec_ending_valid path args : valid_ending (exec_ending (program path args)).
Proof.
  destruct (program path args) as [[d e]|] eqn:E; [|done]. by apply program_ends in E.
Qed.

(** The parent after the child ran: its copy [c] of the shared parts, its ending [e]. *)
Definition joined (s c : pstate) (pid : Z) (e : ending) : pstate :=
  mk_pstate (<[pid := e]> (children s)) (stdout s) (files c) (terminal c) (errors c).

(** The child right after [fork]. *)
Definition child_of (s : pstate) : pstate :=
  mk_pstate ∅ (stdout s) (files s) (terminal s) (errors s).

Lemma fork_split k pid s r c :
  fork_pid = Some pid → k 0 (child_of s) = Ret (r, c) →
  fork k s = k pid (joined s c pid (end_of r)).
Proof. intros Hf Hk. unfold fork, child_of in *. by rewrite Hf, Hk. Qed.

Lemma fork_faults k pid s w :
  fork_pid = Some pid → k 0 (child_of s) = UB w → fork k s = UB w.
Proof. intros Hf Hk. unfold fork, child_of in *. by rewrite Hf, Hk. Qed.

Lemma do_exec_eval a0 a1 rest pid s :
  let args := a0 :: a1 :: rest in
  let run := program a0 (take 3 args) in
  fork_pid = Some pid →
  do_exec (Z.of_nat (length args)) args s =
  parent_wait "waitpid: " pid 0 (joined s (after_exec run (child_of s)) pid (exec_ending run)).
Proof.
  intros args run Hf. unfold do_exec.
  erewrite bind_eval; [|unfold mlift; rewrite va_command_eval; reflexivity].
  pose proof (fork_pid_range _ Hf).
  rewrite (fork_split _ pid s (Ended (exec_ending run)) (after_exec run (child_of s))); auto.
  - rewrite (Z.eqb_sym (-1) pid), (Z.eqb_sym 0 pid), !(proj2 (Z.eqb_neq pid _)) by lia.
    reflexivity.
  - destruct rest as [|a2 rest].
    + exact (execv_or_exit a0 [a0; a1] [Str a0; Str a1; Null; Null] (child_of s) eq_refl).
    + exact (execv_or_exit a0 [a0; a1; a2] [Str a0; Str a1; Str a2; Null] (child_of s) eq_refl).
Qed.

Lemma do_exec_many a0 a1 a2 a3 rest s :
  do_exec (Z.of_nat (length (a0 :: a1 :: a2 :: a3 :: rest))) (a0 :: a1 :: a2 :: a3 :: rest) s =
  do_exec 3 [a0; a1; a2] s.
Proof.
  unfold do_exec.
  erewrite bind_eval; [|unfold mlift; rewrite va_command_eval; reflexivity].
  symmetry. erewrite bind_eval; [|reflexivity].
  apply fork_ext. intros pid s'. done.
Qed.

(** The child of [do_exec_redirect] on three arguments, in any process. *)
Definition redirected (f : string) (s : pstate) : pstate :=
  mk_pstate (children s) (ToFile f) (<[f := []]> (files s)) (terminal s) (errors s).

Lemma redirect_child_execs f c0 c1 c2 c3 rest s :
  open_result f ≠ -1 → dup2_result (open_result f) ≠ -1 →
  do_exec_redirect_child f (c0 :: c1 :: c2 :: c3 :: rest) s =
  (r ← execv c0 [c0; c1; c2; c3];
   match r with
   | Some e => mret (Ended e)
   | None => perror "execv";; exit (-1)
   end) (redirected f s).
Proof.
  intros Ho Hd. unfold do_exec_redirect_child.
  do 4 (erewrite bind_eval; [|reflexivity]). cbv zeta.
  rewrite (proj2 (Z.eqb_neq (-1) (open_result f))) by congruence.
  erewrite bind_eval; [|reflexivity].
  rewrite (proj2 (Z.eqb_neq (-1) (dup2_result _))) by congruence.
  by erewrite bind_eval; [|reflexivity].
Qed.

Lemma redirect_child_eval f a0 a1 a2 s :
  open_result f ≠ -1 → dup2_result (open_result f) ≠ -1 →
  let run := program a0 [a0; a1; a2] in
  do_exec_redirect_child f [Str a0; Str a1; Str a2; Null] s =
  Ret (Ended (exec_ending run), after_exec run (redirected f s)).
Proof. intros Ho Hd run. rewrite redirect_child_execs by done. by apply execv_or_exit. Qed.

Lemma u16_range pid : 0 ≤ u16 pid < 65536.
Proof. by apply (uwrap_range 16). Qed.

(** The branch of [do_exec_redirect] that the process with [pid] takes. *)
Definition redirect_branch (f : string) (command : list slot) (pid : Z) : M pstate proc_end :=
  if u16 pid =? 0 then do_exec_redirect_child f command
  else parent_wait "waitpid" (u16 pid) (-1).

Lemma do_exec_redirect_branch f args s :
  do_exec_redirect f (Z.of_nat (length args)) args s =
  fork (redirect_branch f (map Str args ++ [Null])) s.
Proof.
  unfold do_exec_redirect.
  erewrite bind_eval; [|unfold mlift; rewrite va_command_eval; reflexivity].
  apply fork_ext. intros pid s'. cbv zeta. unfold redirect_branch.
  pose proof (u16_range pid). rewrite (proj2 (Z.eqb_neq (-1) (u16 pid))) by lia.
  rewrite (Z.eqb_sym 0). by destruct (u16 pid =? 0).
Qed.

Lemma do_exec_redirect_eval f a0 a1 a2 pid s :
  let run := program a0 [a0; a1; a2] in
  fork_pid = Some pid → open_result f ≠ -1 → dup2_result (open_result f) ≠ -1 →
  do_exec_redirect f 3 [a0; a1; a2] s =
  redirect_branch f [Str a0; Str a1; Str a2; Null] pid
    (joined s (after_exec run (redirected f (child_of s))) pid (exec_ending run)).
Proof.
  intros run Hf Ho Hd. rewrite (do_exec_redirect_branch f [a0; a1; a2]).
  by erewrite fork_split; [|exact Hf|by apply redirect_child_eval].
Qed.

(** A run of a command as the documentation of [do_exec] means it: the program ran and
    its exit status, the low byte of what it passed to [exit], is 0. *)
Definition successful (r : option (list Byte.byte * ending)) : bool :=
  match r with Some (_, Exited c) => Z.land c 255 =? 0 | _ => false end.

Definition killed (r : option (list Byte.byte * ending)) : bool :=
  match r with Some (_, Killed _ _) => true | _ => false end.

Lemma reported_exec_ending r : reported (exec_ending r) = successful r || killed r.
Proof. destruct r as [[d [c|sig core]]|]; simpl; [by rewrite orb_false_r|done..]. Qed.

(** ** Properties *)


(** The array that [do_exec] hands to [execv] has room for three strings: every
    further argument is silently dropped. *)
Theorem do_exec_drops_arguments args s :
  (3 < length args)%nat →
  do_exec (Z.of_nat (length args)) args s = do_exec 3 (take 3 args) s.
Proof.
  intros Hl. destruct args as [|a0 [|a1 [|a2 [|a3 rest]]]]; simpl in Hl; try lia.
  apply do_exec_many.
Qed.

(** A command without arguments, which the documentation of [do_exec] allows, makes
    the child read the array of arguments outside its bounds. *)
Lemma do_exec_single_faults a0 pid s :
  fork_pid = Some pid → do_exec 1 [a0] s = UB OutOfBounds.
Proof. intros Hf. by apply (fork_faults _ pid). Qed.

(** When no process can be created, or the wait for it fails, [do_exec] returns false
    and reports the call that failed; after a failed wait the child stays unreaped. *)
Lemma do_exec_errors a0 a1 rest s :
  let args := a0 :: a1 :: rest in
  let run := program a0 (take 3 args) in
  (fork_pid = None →
   do_exec (Z.of_nat (length args)) args s =
   Ret (Returned false,
        mk_pstate (children s) (stdout s) (files s) (terminal s) (errors s ++ ["fork: "]))) ∧
  (∀ pid, fork_pid = Some pid → waitpid_interrupted = true →
   wp (do_exec (Z.of_nat (length args)) args) s (λ r s',
     r = Returned false ∧ children s' = <[pid := exec_ending run]> (children s) ∧
     last (errors s') = Some "waitpid: ")).
Proof.
  intros args run. split.
  - intros Hf. unfold do_exec.
    erewrite bind_eval; [|unfold mlift; rewrite va_command_eval; reflexivity].
    unfold fork. by rewrite Hf.
  - intros pid Hf Hi. unfold wp. subst args. rewrite do_exec_eval with (pid := pid) by done.
    rewrite parent_wait_fails by auto. simpl. by rewrite last_snoc.
Qed.

(** C39: [do_exec_redirect] with a path and two arguments and a pid that fits an
    [unsigned short] leaves exactly the command's output in the file, the caller's own
    standard output where it was, no unreaped child, and reports like [do_exec]. *)
Theorem do_exec_redirect_writes_file f a0 a1 a2 pid s :
  let run := program a0 [a0; a1; a2] in
  fork_pid = Some pid → pid < 65536 → waitpid_interrupted = false →
  children s !! pid = None → open_result f ≠ -1 → dup2_result (open_result f) ≠ -1 →
  wp (do_exec_redirect f 3 [a0; a1; a2]) s (λ r s',
    r = Returned (successful run || killed run) ∧
    files s' = <[f := match run with Some (d, _) => d | None => [] end]> (files s) ∧
    stdout s' = stdout s ∧ terminal s' = terminal s ∧ children s' = children s).
Proof.
  intros run Hf Hp Hi Hc Ho Hd. unfold wp. rewrite do_exec_redirect_eval with (pid := pid) by done.
  pose proof (fork_pid_range _ Hf). unfold redirect_branch.
  rewrite uwrap_small, (proj2 (Z.eqb_neq pid 0)) by lia. fold run.
  erewrite parent_wait_eval; [|done|lia|by apply exec_ending_valid|by apply lookup_insert_eq].
  rewrite reported_exec_ending. simpl. rewrite delete_insert_id by done. unfold after_exec.
  subst run. destruct (program _ _) as [[d e]|]; simpl; [|done].
  by rewrite lookup_insert_eq, insert_insert_eq.
Qed.

(** [do_exec_redirect] keeps the pid in an [unsigned short].  A pid of 65536 or more
    is truncated: if the rest is not 0 the call waits for a process that is not its
    child, reports failure whatever the command did and never reaps it; if the rest is 0
    the calling process takes the branch of the child, redirects its own output, runs the
    command a second time and never returns to its caller. *)
Theorem do_exec_redirect_truncates_pid f a0 a1 a2 pid s :
  let run := program a0 [a0; a1; a2] in
  fork_pid = Some pid → 65536 ≤ pid → children s !! u16 pid = None →
  open_result f ≠ -1 → dup2_result (open_result f) ≠ -1 →
  wp (do_exec_redirect f 3 [a0; a1; a2]) s (λ r s',
    children s' !! pid = Some (exec_ending run) ∧
    if u16 pid =? 0 then r = Ended (exec_ending run) ∧ stdout s' = ToFile f
    else r = Returned false).
Proof.
  intros run Hf Hp Hc Ho Hd. unfold wp. rewrite do_exec_redirect_eval with (pid := pid) by done.
  unfold redirect_branch. fold run. destruct (Z.eqb_spec (u16 pid) 0) as [E|E].
  - rewrite redirect_child_eval by done. fold run. unfold after_exec.
    destruct run as [[d e]|]; simpl; by rewrite lookup_insert_eq.
  - rewrite parent_wait_fails; simpl; [by rewrite lookup_insert_eq|]. right.
    pose proof (u16_range pid). by rewrite lookup_insert_ne by lia.
Qed.

(** [do_exec_redirect] is only defined for exactly three strings: with one or two
    the child reads outside the array of arguments, with more than three the vector it
    passes to [execv] has no terminating [NULL]. *)
Theorem do_exec_redirect_arity_faults f args pid s :
  fork_pid = Some pid → open_result f ≠ -1 → dup2_result (open_result f) ≠ -1 →
  (1 ≤ length args)%nat → length args ≠ 3%nat →
  do_exec_redirect f (Z.of_nat (length args)) args s = UB OutOfBounds.
Proof.
  intros Hf Ho Hd Hl Hn. rewrite do_exec_redirect_branch.
  apply (fork_faults _ pid); [done|].
  change (redirect_branch _ _ 0) with (do_exec_redirect_child f (map Str args ++ [Null])).
  destruct args as [|a0 [|a1 [|a2 [|a3 rest]]]]; simpl in Hl, Hn; try lia; try done.
  simpl map. simpl app. by rewrite redirect_child_execs by done.
Qed.

(** When the child of [do_exec_redirect] cannot open the file it does not exit: it
    returns false into a second run of its caller's code.  What the parent reports then
    is how that second run ends, so the failed call returns true when the caller's
    program goes on to exit with status 0. *)
Theorem do_exec_redirect_open_failure f a0 a1 a2 pid s :
  fork_pid = Some pid → pid < 65536 → waitpid_interrupted = false →
  open_result f = -1 → valid_ending (caller_continues false) →
  wp (do_exec_redirect f 3 [a0; a1; a2]) s (λ r s',
    r = Returned (reported (caller_continues false)) ∧ files s' = files s ∧
    errors s' = errors s ++ ["open"]).
Proof.
  intros Hf Hp Hi Ho Hv. unfold wp. rewrite (do_exec_redirect_branch f [a0; a1; a2]).
  pose proof (fork_pid_range _ Hf).
  rewrite (fork_split _ pid s (Returned false)
    (mk_pstate ∅ (stdout s) (files s) (terminal s) (errors s ++ ["open"]))); [|done|].
  - unfold redirect_branch. rewrite uwrap_small, (proj2 (Z.eqb_neq pid 0)) by lia.
    by erewrite parent_wait_eval; [|done|lia|exact Hv|by apply lookup_insert_eq].
  - unfold redirect_branch. change (u16 0 =? 0) with true. cbv iota.
    unfold do_exec_redirect_child. do 4 (erewrite bind_eval; [|reflexivity]).
    cbv zeta. by rewrite Ho.
Qed.

(** [do_exec_redirect] does not notice that no process could be created: it waits for
    the pid [(unsigned short)-1], and reports the success of an unrelated child that
    happens to have that pid. *)
Lemma do_exec_redirect_fork_failure f args s :
  fork_pid = None → waitpid_interrupted = false →
  map_Forall (λ _, valid_ending) (children s) →
  wp (do_exec_redirect f (Z.of_nat (length args)) args) s (λ r s',
    match children s !! 65535 with
    | Some e => r = Returned (reported e) ∧ errors s' = errors s
    | None => r = Returned false ∧ errors s' = errors s ++ ["waitpid"]
    end).
Proof.
  intros Hf Hi Hv. unfold wp. rewrite do_exec_redirect_branch. unfold fork. rewrite Hf.
  change (redirect_branch _ _ (-1)) with (parent_wait "waitpid" 65535 (-1)).
  destruct (children s !! 65535) as [e|] eqn:E.
  - by erewrite parent_wait_eval; [|done|lia|by apply (Hv 65535)|exact E].
  - by rewrite parent_wait_fails by auto.
Qed.
End specs.

(** ** A small machine for the process examples

    An operating system that satisfies [UnixLaws], with four programs, on which the
    theorems of [SystemCallsSpec] are applied. *)

Definition demo_program (path : string) (argv : list string) :
    option (list Byte.byte * ending) :=
  if decide (path = "/bin/echo") then Some ([Byte.x68; Byte.x69; LF], Exited 0)
  else if decide (path = "/bin/count") then Some ([], Exited (Z.of_nat (length argv)))
  else if decide (path = "/bin/crash") then Some ([], Killed 11 true)
  else None.

(** [pid] is what [fork] answers; the file ["/ro"] cannot be opened. *)
Definition demo_unix (pid : option Z) (eintr : bool) : UnixApi := {|
  system_result c := match c with Some _ => 0 | None => 1 end;
  fork_pid := pid;
  program := demo_program;
  open_result f := if decide (f = "/ro") then -1 else 3;
  dup2_result _ := 1;
  waitpid_interrupted := eintr;
  caller_continues _ := Exited 0;
|}.

Lemma demo_unix_laws pid eintr :
  match pid with Some p => 0 < p < 2 ^ 31 | None => True end → UnixLaws (demo_unix pid eintr).
Proof.
  intros Hp. split; simpl.
  - intros p ->. done.
  - intros path argv d e. unfold demo_program. repeat case_decide; intros; simplify_eq; done.
Qed.

Definition shell : pstate := mk_pstate ∅ Terminal ∅ [] [].


Lemma do_exec_drops_arguments_witness :
  do_exec (U := demo_unix (Some 7) false) 4 ["/bin/count"; "x"; "y"; "z"] shell =
  do_exec (U := demo_unix (Some 7) false) 3 ["/bin/count"; "x"; "y"] shell.
Proof.
  apply (do_exec_drops_arguments (U := demo_unix (Some 7) false)
           ["/bin/count"; "x"; "y"; "z"] shell). simpl. lia.
Defined.

Lemma do_exec_single_faults_witness :
  do_exec (U := demo_unix (Some 7) false) 1 ["/bin/echo"] shell = UB OutOfBounds.
Proof. by apply (do_exec_single_faults (U := demo_unix (Some 7) false) "/bin/echo" 7). Defined.

Lemma do_exec_errors_witness :
  do_exec (U := demo_unix None false) 2 ["/bin/echo"; "x"] shell =
    Ret (Returned false, mk_pstate ∅ Terminal ∅ [] ["fork: "]) ∧
  wp (do_exec (U := demo_unix (Some 7) true) 2 ["/bin/echo"; "x"]) shell (λ r s',
    r = Returned false ∧ children s' = {[7 := Exited 0]} ∧
    last (errors s') = Some "waitpid: ").
Proof.
  pose (L0 := demo_unix_laws None false I).
  pose (L1 := demo_unix_laws (Some 7) true ltac:(done)).
  split.
  - by apply (do_exec_errors (UL := L0) "/bin/echo" "x" [] shell).
  - by apply (do_exec_errors (UL := L1) "/bin/echo" "x" [] shell).
Defined.

Lemma do_exec_redirect_writes_file_witness :
  wp (do_exec_redirect (U := demo_unix (Some 7) false) "/out" 3 ["/bin/echo"; "x"; "y"]) shell
    (λ r s', r = Returned true ∧
       files s' = <["/out" := [Byte.x68; Byte.x69; LF]]> (files shell) ∧
       stdout s' = stdout shell ∧ terminal s' = terminal shell ∧ children s' = children shell).
Proof.
  pose (L := demo_unix_laws (Some 7) false ltac:(done)).
  by apply (do_exec_redirect_writes_file (UL := L) "/out" "/bin/echo" "x" "y" 7 shell).
Defined.

Lemma do_exec_redirect_truncates_pid_witness :
  wp (do_exec_redirect (U := demo_unix (Some 65536) false) "/out" 3 ["/bin/echo"; "x"; "y"]) shell
    (λ r s', children s' !! 65536 = Some (Exited 0) ∧ r = Ended (Exited 0) ∧
             stdout s' = ToFile "/out") ∧
  wp (do_exec_redirect (U := demo_unix (Some 65537) false) "/out" 3 ["/bin/echo"; "x"; "y"]) shell
    (λ r s', children s' !! 65537 = Some (Exited 0) ∧ r = Returned false).
Proof.
  split.
  - by apply (do_exec_redirect_truncates_pid (U := demo_unix (Some 65536) false)
           "/out" "/bin/echo" "x" "y" 65536 shell).
  - by apply (do_exec_redirect_truncates_pid (U := demo_unix (Some 65537) false)
           "/out" "/bin/echo" "x" "y" 65537 shell).
Defined.

Lemma do_exec_redirect_arity_faults_witness :
  do_exec_redirect (U := demo_unix (Some 7) false) "/out" 2 ["/bin/echo"; "x"] shell =
    UB OutOfBounds ∧
  do_exec_redirect (U := demo_unix (Some 7) false) "/out" 4 ["/bin/echo"; "x"; "y"; "z"] shell =
    UB OutOfBounds.
Proof.
  split.
  - apply (do_exec_redirect_arity_faults (U := demo_unix (Some 7) false) "/out"
             ["/bin/echo"; "x"] 7 shell); simpl; [done|done|done|lia|lia].
  - apply (do_exec_redirect_arity_faults (U := demo_unix (Some 7) false) "/out"
             ["/bin/echo"; "x"; "y"; "z"] 7 shell); simpl; [done|done|done|lia|lia].
Defined.

Lemma do_exec_redirect_open_failure_witness :
  wp (do_exec_redirect (U := demo_unix (Some 7) false) "/ro" 3 ["/bin/echo"; "x"; "y"]) shell
    (λ r s', r = Returned true ∧ files s' = files shell ∧
             errors s' = errors shell ++ ["open"]).
Proof.
  pose (L := demo_unix_laws (Some 7) false ltac:(done)).
  by apply (do_exec_redirect_open_failure (UL := L) "/ro" "/bin/echo" "x" "y" 7 shell).
Defined.

Lemma do_exec_redirect_fork_failure_witness :
  wp (do_exec_redirect (U := demo_unix None false) "/out" 3 ["/bin/echo"; "x"; "y"])
    (mk_pstate {[65535 := Exited 0]} Terminal ∅ [] [])
    (λ r s', r = Returned true ∧ errors s' = []).
Proof.
  eapply wp_mono.
  - apply (do_exec_redirect_fork_failure (U := demo_unix None false) "/out"
      ["/bin/echo"; "x"; "y"] (mk_pstate {[65535 := Exited 0]} Terminal ∅ [] []));
      [done|done|by apply map_Forall_singleton].
  - intros r s'. simpl. by rewrite lookup_singleton_eq.
Defined.
