(* ===== verification/Threading.v ===== *)
(** * The threading example

    A translation of [examples/threading/threading.h] and [threading.c].  The machine
    holds the allocated [struct thread_data]s, the mutexes and the threads; a thread is a
    position in [threadfunc] and its argument.  [threadfunc_step] executes the statement a
    thread stands at, [start_thread_obtaining_mutex] is the call of a client, and [tstep]
    interleaves them in any order. *)

From stdpp Require Import base list gmap option strings.
From Stdlib Require Import ZArith Lia.
From S2P Require Import Prelude.
#[local] Open Scope Z_scope.

(** ** Data *)

(** [struct thread_data]; [useconds_t] is a 32 bit unsigned integer. *)
Record thread_data : Type := mk_thread_data {
  wait_to_obtain_us : Z;
  wait_to_release_us : Z;
  pLock : positive;
  thread_complete_success : bool;
}.

(** The statements of [threadfunc], in order. *)
Inductive point : Type :=
  | AtClear        (** [thread_complete_success = false] *)
  | AtSleepObtain  (** [usleep(wait_to_obtain_us)] *)
  | AtLock         (** [pthread_mutex_lock] *)
  | AtSleepRelease (** [usleep(wait_to_release_us)], in the critical section *)
  | AtUnlock       (** [pthread_mutex_unlock] *)
  | AtSuccess      (** [thread_complete_success = true] *)
  | AtReturn.      (** [return thread_func_args] *)

#[export] Instance point_eq_decision : EqDecision point.
Proof. solve_decision. Defined.

(** A mutex is [None] when free, otherwise the thread that holds it. *)
Record world : Type := mk_world {
  datas : gmap positive thread_data;
  mutexes : gmap positive (option positive);
  threads : gmap positive (point * positive);
  naps : list (positive * Z);
  complaints : list string;
}.

Definition set_data (d : positive) (x : thread_data) : M world unit :=
  mmodify (λ w, mk_world (<[d := x]> (datas w)) (mutexes w) (threads w) (naps w) (complaints w)).
Definition set_mutex (m : positive) (o : option positive) : M world unit :=
  mmodify (λ w, mk_world (datas w) (<[m := o]> (mutexes w)) (threads w) (naps w) (complaints w)).
Definition set_thread (t : positive) (p : point * positive) : M world unit :=
  mmodify (λ w, mk_world (datas w) (mutexes w) (<[t := p]> (threads w)) (naps w) (complaints w)).
Definition complain (c : string) : M world unit :=
  mmodify (λ w, mk_world (datas w) (mutexes w) (threads w) (naps w) (complaints w ++ [c])).

(** ** The C library *)

Class PthreadApi : Type := {
  (** the block [malloc] finds and what is in the byte of the flag *)
  malloc_data : world → option (positive * bool);
  (** the error of [pthread_create], or the id of the new thread *)
  create_thread : world → Z + positive;
  (** the result of [usleep], which may be interrupted or refuse a long time *)
  usleep_result : world → Z → Z;
}.

(** Documented: memory and thread ids that are handed out are not in use, and an error
    number is positive. *)
Class PthreadLaws (P : PthreadApi) : Prop := {
  malloc_fresh : ∀ w d b, malloc_data w = Some (d, b) → datas w !! d = None;
  create_fresh : ∀ w t, create_thread w = inr t → threads w !! t = None;
  create_error : ∀ w e, create_thread w = inl e → 0 < e;
}.

(** Integers of type [int] of user programs: arithmetic out of range is undefined. *)
Definition int_op (z : Z) : outcome Z :=
  if decide (- 2 ^ 31 ≤ z < 2 ^ 31) then Ret z else UB IntOverflow.

Section threading.
Context `{P : PthreadApi}.

Definition usleep (t : positive) (us : Z) : M world Z :=
  w ← mget;
  mmodify (λ w, mk_world (datas w) (mutexes w) (threads w) (naps w ++ [(t, us)]) (complaints w));;
  mret (usleep_result w us).

Definition load_data (d : positive) : M world thread_data :=
  w ← mget; moption Dangling (datas w !! d).

(** ** [threading.c] *)

(** One statement of [threadfunc], run by thread [t] with argument [d]; [None] when the
    thread has to wait or has returned. *)
Definition threadfunc (t : positive) (at_ : point) (d : positive) : M world (option point) :=
  x ← load_data d;
  match at_ with
  | AtClear =>
    set_data d (mk_thread_data (wait_to_obtain_us x) (wait_to_release_us x) (pLock x) false);;
    mret (Some AtSleepObtain)
  | AtSleepObtain =>
    retval ← usleep t (wait_to_obtain_us x);
    (if negb (0 =? retval) then complain "useconds: wait_to_obtain_us" else mret tt);;
    mret (Some AtLock)
  | AtLock =>
    w ← mget;
    match mutexes w !! pLock x with
    | None => mub Dangling
    | Some (Some _) => mret None
    | Some None => set_mutex (pLock x) (Some t);; mret (Some AtSleepRelease)
    end
  | AtSleepRelease =>
    retval ← usleep t (wait_to_release_us x);
    (if negb (0 =? retval) then complain "useconds: wait_to_release_ms" else mret tt);;
    mret (Some AtUnlock)
  | AtUnlock =>
    w ← mget;
    match mutexes w !! pLock x with
    | None => mub Dangling
    | Some o =>
      if decide (o = Some t) then set_mutex (pLock x) None;; mret (Some AtSuccess)
      else mub LockMisuse
    end
  | AtSuccess =>
    set_data d (mk_thread_data (wait_to_obtain_us x) (wait_to_release_us x) (pLock x) true);;
    mret (Some AtReturn)
  | AtReturn => mret None
  end.

(** The scheduler lets thread [t] run one statement: whether it moved. *)
Definition threadfunc_step (t : positive) : M world bool :=
  w ← mget;
  match threads w !! t with
  | None => mret false
  | Some (p, d) =>
    r ← threadfunc t p d;
    match r with
    | Some p' => set_thread t (p', d);; mret true
    | None => mret false
    end
  end.

(** The three members are stored before the result of [malloc] is used otherwise: there
    is no test for [NULL].  On success the id is stored through [thread]. *)
Definition start_thread_obtaining_mutex (mutex : positive)
    (wait_to_obtain_ms wait_to_release_ms : Z) : M world (bool * option positive) :=
  w ← mget;
  '(d, garbage) ← moption NullDeref (malloc_data w);
  obtain ← mlift (int_op (wait_to_obtain_ms * 1000));
  release ← mlift (int_op (wait_to_release_ms * 1000));
  set_data d (mk_thread_data (u32 obtain) (u32 release) mutex garbage);;
  w ← mget;
  match create_thread w with
  | inl e => complain "start_thread_obtaining_mutex:";; mret (false, None)
  | inr t => set_thread t (AtClear, d);; mret (true, Some t)
  end.

(** ** Interleaving *)

(** A client starts a thread on a mutex that exists, or some thread moves. *)
Inductive tstep : world → world → Prop :=
  | step_start mutex a b r w w' :
      is_Some (mutexes w !! mutex) →
      start_thread_obtaining_mutex mutex a b w = Ret (r, w') → tstep w w'
  | step_thread t w w' :
      threadfunc_step t w = Ret (true, w') → tstep w w'.
End threading.
