(* ===== verification/ThreadingSpec.v ===== *)
(** * Mutual exclusion and completion of the threading example

    An invariant of every interleaving of [Threading.tstep], and from it: the mutex is
    held by the thread in its critical section and by no other, no statement is
    undefined, and every schedule of the started threads is finite and ends with all of
    them returned and marked complete. *)

From stdpp Require Import base list gmap option relations fin_maps strings.
From Stdlib Require Import ZArith Lia.
From S2P Require Import Prelude Threading.

#[local] Open Scope Z_scope.

(** ** The invariant *)

(** The statements between the lock and the unlock. *)
Definition holding (p : point) : bool :=
  match p with AtSleepRelease | AtUnlock => true | _ => false end.

Definition flag_ok (p : point) (x : thread_data) : Prop :=
  match p with
  | AtClear => True
  | AtReturn => thread_complete_success x = true
  | _ => thread_complete_success x = false
  end.

(** Thread [t] is between lock and unlock of [m]. *)
Definition inside (w : world) (m t : positive) : Prop :=
  ∃ p d x, threads w !! t = Some (p, d) ∧ holding p = true ∧ datas w !! d = Some x ∧ pLock x = m.

Record tinv (w : world) : Prop := {
  inv_data t p d : threads w !! t = Some (p, d) →
    ∃ x, datas w !! d = Some x ∧ is_Some (mutexes w !! pLock x) ∧ flag_ok p x;
  inv_args t1 t2 p1 p2 d : threads w !! t1 = Some (p1, d) → threads w !! t2 = Some (p2, d) →
    t1 = t2;
  inv_owner m t : mutexes w !! m = Some (Some t) ↔ inside w m t;
}.

(** The mutex after a thread goes from [p] to [p']. *)
Definition handover (t : positive) (p p' : point) (o : option positive) : option positive :=
  if holding p' then Some t else if holding p then None else o.

(** Thread [t] moves from [p] to [p'], its data becomes [x'] and its mutex changes hands
    accordingly. *)
Definition moved (w : world) (t d : positive) (p' : point) (x' : thread_data)
    (o' : option positive) : world :=
  mk_world (<[d := x']> (datas w)) (<[pLock x' := o']> (mutexes w))
           (<[t := (p', d)]> (threads w)) (naps w) (complaints w).

Lemma inside_moved w t d p p' x x' o m t' :
  tinv w → threads w !! t = Some (p, d) → datas w !! d = Some x → pLock x' = pLock x →
  inside (moved w t d p' x' o) m t' ↔
  (t' = t ∧ holding p' = true ∧ m = pLock x) ∨ (t' ≠ t ∧ inside w m t').
Proof.
  intros I Ht Hx E. unfold inside, moved. simpl. split.
  - intros (q & d' & y & Hq & Hh & Hy & Hm). destruct (decide (t' = t)) as [->|Hne].
    + rewrite lookup_insert_eq in Hq. simplify_eq. rewrite lookup_insert_eq in Hy.
      simplify_eq. rewrite E. auto.
    + rewrite lookup_insert_ne in Hq by done. right. split; [done|].
      destruct (decide (d' = d)) as [->|Hd].
      { destruct Hne. by eapply inv_args. }
      rewrite lookup_insert_ne in Hy by done. eauto 10.
  - intros [(-> & Hh & ->)|(Hne & q & d' & y & Hq & Hh & Hy & Hm)].
    + exists p', d, x'. by rewrite !lookup_insert_eq.
    + exists q, d', y. rewrite lookup_insert_ne by done. rewrite lookup_insert_ne; [done|].
      intros ->. destruct Hne. by eapply inv_args.
Qed.

Lemma inside_self w t p d x m :
  threads w !! t = Some (p, d) → datas w !! d = Some x →
  inside w m t ↔ holding p = true ∧ m = pLock x.
Proof.
  intros Ht Hx. split.
  - intros (q & d' & y & Hq & Hh & Hy & Hm). by simplify_eq.
  - intros [Hh ->]. by exists p, d, x.
Qed.

(** The new owner is right whenever the old one was. *)
Lemma handover_owner w t d p p' x o t' :
  tinv w → threads w !! t = Some (p, d) → datas w !! d = Some x →
  mutexes w !! pLock x = Some o → (holding p = false → holding p' = true → o = None) →
  handover t p p' o = Some t' ↔
  (t' = t ∧ holding p' = true) ∨ (t' ≠ t ∧ inside w (pLock x) t').
Proof.
  intros I Ht Hx Ho Hf. pose proof (inside_self w t p d x (pLock x) Ht Hx) as Hself.
  assert (∀ u, o = Some u ↔ inside w (pLock x) u) as Hown.
  { intros u. rewrite <- (inv_owner _ I), Ho. naive_solver. }
  assert (o = Some t ↔ holding p = true) as Hp by (rewrite Hown, Hself; naive_solver).
  unfold handover. rewrite <- Hown.
  destruct (holding p) eqn:E1, (holding p') eqn:E2; naive_solver.
Qed.

Lemma tinv_moved w t d p p' x x' o :
  tinv w → threads w !! t = Some (p, d) → datas w !! d = Some x →
  mutexes w !! pLock x = Some o → pLock x' = pLock x → flag_ok p' x' →
  (holding p = false → holding p' = true → o = None) →
  tinv (moved w t d p' x' (handover t p p' o)).
Proof.
  intros I Ht Hx Ho E Hflag Hf. split.
  - intros t' q d'. unfold moved. simpl. rewrite lookup_insert_Some.
    intros [[<- [= <- <-]]|[Hne Hq]].
    + exists x'. by rewrite !lookup_insert_eq.
    + destruct (inv_data _ I _ _ _ Hq) as (y & Hy & Hm & Hfl). exists y.
      rewrite lookup_insert_ne by (intros ->; destruct Hne; by eapply inv_args).
      split; [done|]. split; [|done]. rewrite lookup_insert_is_Some'. auto.
  - intros t1 t2 p1 p2 d'. unfold moved. simpl. rewrite !lookup_insert_Some.
    intros [[<- E1]|[Hn1 H1]] [[<- E2]|[Hn2 H2]]; simplify_eq; [done|..];
      by eapply inv_args.
  - intros m t'. rewrite inside_moved by done. unfold moved. simpl. rewrite E.
    destruct (decide (m = pLock x)) as [->|Hm].
    + rewrite lookup_insert_eq. rewrite (inj_iff Some).
      rewrite (handover_owner w t d p p' x o t') by done. naive_solver.
    + rewrite lookup_insert_ne, (inv_owner _ I) by done.
      destruct (decide (t' = t)) as [->|Hne]; [|naive_solver].
      rewrite (inside_self w t p d x) by done. naive_solver.
Qed.

(** Starting a thread on fresh data adds it outside every critical section. *)
Lemma tinv_started w t d x :
  tinv w → threads w !! t = None → datas w !! d = None → is_Some (mutexes w !! pLock x) →
  tinv (mk_world (<[d := x]> (datas w)) (mutexes w) (<[t := (AtClear, d)]> (threads w))
                 (naps w) (complaints w)).
Proof.
  intros I Ht Hd Hm.
  assert (∀ t' p d', threads w !! t' = Some (p, d') → d' ≠ d) as Hfresh.
  { intros t' p d' Hq ->. destruct (inv_data _ I _ _ _ Hq) as (y & Hy & _). congruence. }
  split; simpl.
  - intros t' q d'. rewrite lookup_insert_Some. intros [[<- [= <- <-]]|[Hne Hq]].
    + exists x. by rewrite lookup_insert_eq.
    + rewrite lookup_insert_ne; [by eapply inv_data|]. intros <-. by eapply Hfresh.
  - intros t1 t2 p1 p2 d'. rewrite !lookup_insert_Some.
    intros [[<- E1]|[Hn1 H1]] [[<- E2]|[Hn2 H2]]; simplify_eq; try done;
      [by destruct (Hfresh _ _ _ H2)|by destruct (Hfresh _ _ _ H1)|by eapply inv_args].
  - intros m t'. rewrite (inv_owner _ I). unfold inside. simpl. split.
    + intros (q & d' & y & Hq & Hh & Hy & Hp). exists q, d', y.
      rewrite !lookup_insert_ne; [done|..]; intros <-; [by eapply Hfresh|congruence].
    + intros (q & d' & y & Hq & Hh & Hy & Hp). rewrite lookup_insert_Some in Hq.
      destruct Hq as [[<- [= <- <-]]|[Hne Hq]]; [done|].
      rewrite lookup_insert_ne in Hy by (intros <-; by eapply Hfresh). eauto 10.
Qed.

(** Data that no thread uses does not matter. *)
Lemma tinv_leak w d x c :
  tinv w → datas w !! d = None →
  tinv (mk_world (<[d := x]> (datas w)) (mutexes w) (threads w) (naps w) c).
Proof.
  intros I Hd.
  assert (∀ t' p d', threads w !! t' = Some (p, d') → d ≠ d') as Hfresh.
  { intros t' p d' Hq ->. destruct (inv_data _ I _ _ _ Hq) as (y & Hy & _). congruence. }
  split; simpl.
  - intros t p d' Hq. rewrite lookup_insert_ne by eauto. by eapply inv_data.
  - intros t1 t2 p1 p2 d'. by apply inv_args.
  - intros m t. rewrite (inv_owner _ I). unfold inside. simpl.
    split; intros (q & d' & y & Hq & Hh & Hy & Hp); exists q, d', y;
      rewrite lookup_insert_ne in * by eauto; done.
Qed.

(** The rest of the world does not matter. *)
Lemma tinv_same w w' :
  tinv w → datas w' = datas w → mutexes w' = mutexes w → threads w' = threads w → tinv w'.
Proof. destruct w, w'. simpl. intros [H1 H2 H3] -> -> ->. by split. Qed.

(** ** What a step does *)

Definition next (p : point) : point :=
  match p with
  | AtClear => AtSleepObtain
  | AtSleepObtain => AtLock
  | AtLock => AtSleepRelease
  | AtSleepRelease => AtUnlock
  | AtUnlock => AtSuccess
  | AtSuccess | AtReturn => AtReturn
  end.

Definition mark (p : point) (x : thread_data) : thread_data :=
  match p with
  | AtClear => mk_thread_data (wait_to_obtain_us x) (wait_to_release_us x) (pLock x) false
  | AtSuccess => mk_thread_data (wait_to_obtain_us x) (wait_to_release_us x) (pLock x) true
  | _ => x
  end.

(** A thread waits when it has returned, or when its mutex is taken. *)
Definition waiting (p : point) (o : option positive) : Prop :=
  p = AtReturn ∨ (p = AtLock ∧ is_Some o).

#[export] Instance waiting_dec p o : Decision (waiting p o).
Proof. unfold waiting. apply _. Defined.

Definition same_core (w w' : world) : Prop :=
  datas w' = datas w ∧ mutexes w' = mutexes w ∧ threads w' = threads w.

Section specs.
Context `{PL : PthreadLaws}.

Lemma step_result w t d p x o :
  tinv w → threads w !! t = Some (p, d) → datas w !! d = Some x →
  mutexes w !! pLock x = Some o →
  if decide (waiting p o) then threadfunc_step t w = Ret (false, w)
  else ∃ w', threadfunc_step t w = Ret (true, w') ∧
             same_core (moved w t d (next p) (mark p x) (handover t p (next p) o)) w'.
Proof.
  intros I Ht Hx Ho.
  assert (holding p = true → o = Some t) as Hown.
  { intros Hh. assert (inside w (pLock x) t) as Hin by by exists p, d, x.
    apply (inv_owner _ I) in Hin. congruence. }
  assert (<[d := x]> (datas w) = datas w) as Hd by by apply insert_id.
  assert (<[pLock x := o]> (mutexes w) = mutexes w) as Hm by by apply insert_id.
  unfold threadfunc_step, threadfunc, load_data, usleep, mbind, M_bind. simpl. rewrite Ht, Hx.
  destruct p; simpl in Hown; case_decide as Hw; unfold waiting in Hw; simpl;
    try (by destruct Hw as [|[]]); rewrite ?Ho.
  - eexists. split; [done|]. by unfold same_core, moved, handover; simpl; rewrite Hm.
  - destruct (usleep_result _ _); (eexists; split; [done|]);
      by unfold same_core, moved, handover; simpl; rewrite Hd, Hm.
  - destruct Hw as [|[_ [u ->]]]; done.
  - destruct o as [u|]; [destruct Hw; eauto|].
    eexists. split; [done|]. by unfold same_core, moved, handover; simpl; rewrite Hd.
  - rewrite Hown in Hm by done.
    destruct (usleep_result _ _); (eexists; split; [done|]);
      by unfold same_core, moved, handover; simpl; rewrite Hd, Hm.
  - rewrite decide_True by auto.
    eexists. split; [done|]. by unfold same_core, moved, handover; simpl; rewrite Hd.
  - eexists. split; [done|]. by unfold same_core, moved, handover; simpl; rewrite Hm.
  - destruct Hw. auto.
Qed.

(** Every thread of a good world can be stepped, and the world stays good. *)
Lemma step_safe w t :
  tinv w → ∃ b w', threadfunc_step t w = Ret (b, w') ∧ tinv w'.
Proof.
  intros I. destruct (threads w !! t) as [[p d]|] eqn:Ht.
  - destruct (inv_data _ I _ _ _ Ht) as (x & Hx & [o Ho] & Hfl).
    pose proof (step_result w t d p x o I Ht Hx Ho) as H.
    destruct (decide (waiting p o)) as [Hw|Hw]; [eauto|].
    destruct H as (w' & E & Hd & Hm & Hth). exists true, w'. split; [done|].
    eapply tinv_same; [|done..].
    apply (tinv_moved w t d p (next p) x); auto.
    + by destruct p.
    + by destruct p.
    + intros. destruct p; try done. destruct o; [|done]. destruct Hw. right. eauto.
  - exists false, w. split; [|done]. unfold threadfunc_step, mbind, M_bind. simpl. by rewrite Ht.
Qed.

Lemma start_result m a b w d g :
  malloc_data w = Some (d, g) →
  - 2 ^ 31 ≤ a * 1000 < 2 ^ 31 → - 2 ^ 31 ≤ b * 1000 < 2 ^ 31 →
  let x := mk_thread_data (u32 (a * 1000)) (u32 (b * 1000)) m g in
  let w1 := mk_world (<[d := x]> (datas w)) (mutexes w) (threads w) (naps w) (complaints w) in
  start_thread_obtaining_mutex m a b w =
  match create_thread w1 with
  | inl e => Ret ((false, None), mk_world (datas w1) (mutexes w) (threads w) (naps w)
                       (complaints w ++ ["start_thread_obtaining_mutex:"%string]))
  | inr t => Ret ((true, Some t), mk_world (datas w1) (mutexes w)
                       (<[t := (AtClear, d)]> (threads w)) (naps w) (complaints w))
  end.
Proof.
  intros Hm Ha Hb x w1. unfold start_thread_obtaining_mutex, mbind, M_bind, moption, mlift, int_op.
  simpl. rewrite Hm, !decide_True by done. simpl. fold x. fold w1.
  by destruct (create_thread w1).
Qed.

Lemma start_faults m a b w :
  (malloc_data w = None → start_thread_obtaining_mutex m a b w = UB NullDeref) ∧
  (is_Some (malloc_data w) → ¬ (- 2 ^ 31 ≤ a * 1000 < 2 ^ 31) →
   start_thread_obtaining_mutex m a b w = UB IntOverflow) ∧
  (is_Some (malloc_data w) → - 2 ^ 31 ≤ a * 1000 < 2 ^ 31 → ¬ (- 2 ^ 31 ≤ b * 1000 < 2 ^ 31) →
   start_thread_obtaining_mutex m a b w = UB IntOverflow).
Proof.
  unfold start_thread_obtaining_mutex, mbind, M_bind, moption, mlift, int_op. simpl.
  split; [by intros ->|]. split; intros [[d g] ->].
  - intros Ha. by rewrite decide_False.
  - intros Ha Hb. by rewrite decide_True, decide_False.
Qed.

(** A client's call keeps the world good. *)
Lemma start_safe m a b w r w' :
  tinv w → is_Some (mutexes w !! m) →
  start_thread_obtaining_mutex m a b w = Ret (r, w') → tinv w'.
Proof.
  intros I Hm E. destruct (start_faults m a b w) as (F1 & F2 & F3).
  destruct (malloc_data w) as [[d g]|] eqn:Hd; [|rewrite F1 in E; done].
  destruct (decide (- 2 ^ 31 ≤ a * 1000 < 2 ^ 31)); [|rewrite F2 in E; eauto; done].
  destruct (decide (- 2 ^ 31 ≤ b * 1000 < 2 ^ 31)); [|rewrite F3 in E; eauto; done].
  rewrite (start_result m a b w d g) in E by done.
  pose proof (malloc_fresh _ _ _ Hd) as Hfresh.
  destruct (create_thread _) as [e|t] eqn:Hc; simplify_eq.
  - apply (tinv_leak w d); auto.
  - apply (tinv_started w t d); auto. by apply create_fresh in Hc.
Qed.

(** ** Reachable worlds *)

Definition initial (w : world) : Prop :=
  threads w = ∅ ∧ map_Forall (λ _ o, o = None) (mutexes w).

Lemma initial_inv w : initial w → tinv w.
Proof.
  intros [Ht Hm]. split.
  - intros t p d. by rewrite Ht, lookup_empty.
  - intros t1 t2 p1 p2 d. by rewrite Ht, lookup_empty.
  - intros m t. unfold inside. rewrite Ht. split.
    + intros H. by apply Hm in H.
    + intros (p & d & x & H & _). by rewrite lookup_empty in H.
Qed.

Lemma reachable_inv w0 w : initial w0 → rtc tstep w0 w → tinv w.
Proof.
  intros H0 H. apply initial_inv in H0. induction H as [|w1 w2 w3 Hs _ IH]; [done|].
  apply IH. destruct Hs as [m a b r w1 w2 Hm E|t w1 w2 E].
  - by eapply start_safe.
  - destruct (step_safe w1 t H0) as (b & w' & E' & I). congruence.
Qed.

(** ** Completion *)

(** Some thread moves. *)
Definition trun (w w' : world) : Prop := ∃ t, threadfunc_step t w = Ret (true, w').

(** The statements a thread still has to run, and their sum over all threads. *)
Definition rank (p : point) : nat :=
  match p with
  | AtClear => 6
  | AtSleepObtain => 5
  | AtLock => 4
  | AtSleepRelease => 3
  | AtUnlock => 2
  | AtSuccess => 1
  | AtReturn => 0
  end.

Definition remaining (w : world) : nat :=
  map_fold (λ _ '(p, _) n, (rank p + n)%nat) 0%nat (threads w).

Lemma remaining_insert (ts : gmap positive (point * positive)) t p d :
  ts !! t = None →
  map_fold (λ _ '(p, _) n, (rank p + n)%nat) 0%nat (<[t := (p, d)]> ts) =
  (rank p + map_fold (λ _ '(p, _) n, (rank p + n)%nat) 0%nat ts)%nat.
Proof.
  intros H. rewrite map_fold_insert_L; [done| |done].
  intros j1 j2 [p1 d1] [p2 d2] y _ _ _. lia.
Qed.

Lemma remaining_step w w' t p p' d :
  threads w !! t = Some (p, d) → threads w' = <[t := (p', d)]> (threads w) →
  (remaining w + rank p' = remaining w' + rank p)%nat.
Proof.
  intros Ht E. unfold remaining. rewrite E. rewrite <- (insert_delete_id _ _ _ Ht) at 1.
  rewrite <- (insert_delete_eq (threads w) t (p', d)), !remaining_insert by apply lookup_delete_eq. lia.
Qed.

Lemma trun_inv w w' : tinv w → trun w w' → tinv w' ∧ remaining w = S (remaining w').
Proof.
  intros I [t E]. split.
  { destruct (step_safe w t I) as (b & w1 & E1 & I1). congruence. }
  destruct (threads w !! t) as [[p d]|] eqn:Ht.
  2: { unfold threadfunc_step, mbind, M_bind in E. simpl in E. by rewrite Ht in E. }
  destruct (inv_data _ I _ _ _ Ht) as (x & Hx & [o Ho] & Hfl).
  pose proof (step_result w t d p x o I Ht Hx Ho) as H.
  destruct (decide (waiting p o)) as [Hw|Hw]; [congruence|].
  destruct H as (w1 & E1 & _ & _ & Hth). rewrite E in E1. simplify_eq.
  pose proof (remaining_step _ _ t p (next p) d Ht Hth).
  destruct p; simpl in *; try lia. by destruct Hw; left.
Qed.

(** A world without a thread that can move has only returned threads: a thread that
    waits for a mutex waits for one that can move. *)
Lemma stuck_returned w t p d :
  tinv w → (∀ w', ¬ trun w w') → threads w !! t = Some (p, d) → p = AtReturn.
Proof.
  intros I Hstuck Ht.
  assert (∀ t p d x o, threads w !! t = Some (p, d) → datas w !! d = Some x →
          mutexes w !! pLock x = Some o → waiting p o) as Hw.
  { clear t p d Ht. intros t p d x o Ht Hx Ho.
    pose proof (step_result w t d p x o I Ht Hx Ho) as H.
    destruct (decide (waiting p o)) as [?|?]; [done|].
    destruct H as (w' & E & _). destruct (Hstuck w'). by exists t. }
  destruct (inv_data _ I _ _ _ Ht) as (x & Hx & [o Ho] & _).
  destruct (Hw _ _ _ _ _ Ht Hx Ho) as [?|[-> [u ->]]]; [done|].
  apply (inv_owner _ I) in Ho as (q & d' & y & Hu & Hq & Hy & Hm).
  destruct (inv_data _ I _ _ _ Hu) as (y' & Hy' & [o' Ho'] & _). simplify_eq.
  destruct (Hw _ _ _ _ _ Hu Hy Ho') as [->|[-> _]]; done.
Qed.

Lemma runs_bounded n w w' :
  tinv w → nsteps trun n w w' → tinv w' ∧ remaining w = (n + remaining w')%nat.
Proof.
  intros I H. induction H as [w|n w1 w2 w3 Hs _ IH]; [done|].
  apply trun_inv in Hs as [I2 E]; [|done]. destruct (IH I2) as [I3 E3]. split; [done|lia].
Qed.

Lemma remaining_zero w t p d : remaining w = 0%nat → threads w !! t = Some (p, d) → p = AtReturn.
Proof.
  intros E Ht. unfold remaining in E. rewrite <- (insert_delete_id _ _ _ Ht) in E.
  rewrite remaining_insert in E by apply lookup_delete_eq. destruct p; simpl in E; try lia; done.
Qed.

Lemma returned_remaining w :
  (∀ t p d, threads w !! t = Some (p, d) → p = AtReturn) → remaining w = 0%nat.
Proof.
  unfold remaining. generalize (threads w) as ts. intros ts.
  induction ts as [|t [p d] ts Ht IH] using map_ind; intros H; [apply map_fold_empty|].
  rewrite remaining_insert, IH by
    (done || (intros t' p' d' ?; apply (H t' p' d'); rewrite lookup_insert_ne; [done|congruence])).
  by rewrite (H t p d) by apply lookup_insert_eq.
Qed.

Definition enabled (w : world) (t : positive) : bool :=
  match threadfunc_step t w with Ret (true, _) => true | _ => false end.

Lemma enabled_run w t : enabled w t = true → ∃ w', trun w w'.
Proof.
  unfold enabled. destruct (threadfunc_step t w) as [[[] w']| |] eqn:E; try done.
  intros _. by exists w', t.
Qed.

Lemma unfinished_runs w : tinv w → remaining w ≠ 0%nat → ∃ w', trun w w'.
Proof.
  intros I Hr.
  destruct (decide (map_Forall (λ t _, enabled w t = false) (threads w))) as [Hall|Hn].
  - destruct Hr. apply returned_remaining. intros t p d Ht. eapply stuck_returned; [done| |done].
    intros w' [t' E]. destruct (threads w !! t') as [q|] eqn:Hq.
    + apply Hall in Hq. unfold enabled in Hq. by rewrite E in Hq.
    + unfold threadfunc_step, mbind, M_bind in E. simpl in E. by rewrite Hq in E.
  - apply map_not_Forall in Hn as (t & q & Hq & Hne); [|apply _].
    apply (enabled_run w t). by destruct (enabled w t).
Qed.

(** ** Properties *)

(** C33: however the started threads are interleaved, a mutex is held exactly by the
    thread that is between its lock and its unlock of it: two threads are never in the
    critical section of one mutex at the same time. *)
Theorem threads_mutual_exclusion w0 w m t1 t2 :
  initial w0 → rtc tstep w0 w → inside w m t1 → inside w m t2 →
  t1 = t2 ∧ mutexes w !! m = Some (Some t1).
Proof.
  intros H0 H H1 H2. pose proof (reachable_inv _ _ H0 H) as I.
  apply (inv_owner _ I) in H1, H2. split; [congruence|done].
Qed.

(** C34: from every reachable world, whatever the scheduler does: no statement of a
    thread is undefined, no schedule takes more than [remaining w] steps, no schedule
    gets stuck before, and after them every thread has returned with
    [thread_complete_success] set, also one whose [usleep] failed. *)
Theorem threads_all_complete w0 w :
  initial w0 → rtc tstep w0 w →
  (∀ t, ∃ b w', threadfunc_step t w = Ret (b, w')) ∧
  (∀ n w', nsteps trun n w w' → (n ≤ remaining w)%nat) ∧
  (∀ n w', nsteps trun n w w' → (n < remaining w)%nat → ∃ w'', trun w' w'') ∧
  (∀ w', nsteps trun (remaining w) w w' → ∀ t p d, threads w' !! t = Some (p, d) →
     p = AtReturn ∧ ∃ x, datas w' !! d = Some x ∧ thread_complete_success x = true).
Proof.
  intros H0 H. pose proof (reachable_inv _ _ H0 H) as I. split_and!.
  - intros t. destruct (step_safe w t I) as (b & w' & E & _). eauto.
  - intros n w' Hn. apply runs_bounded in Hn as [_ E]; [lia|done].
  - intros n w' Hn Hlt. apply runs_bounded in Hn as [I' E]; [|done].
    apply unfinished_runs; [done|lia].
  - intros w' Hn t p d Ht. apply runs_bounded in Hn as [I' E]; [|done].
    assert (p = AtReturn) as -> by (eapply remaining_zero; [|done]; lia).
    split; [done|]. destruct (inv_data _ I' _ _ _ Ht) as (x & Hx & _ & Hf). eauto.
Qed.

(** [start_thread_obtaining_mutex] on waits whose microseconds fit an [int]: it
    returns true exactly when the thread was created, which then stands at the start of
    [threadfunc] with its own data, waits of 1000 times the milliseconds and the mutex;
    when the creation fails the allocated data stays allocated and unused. *)
Theorem start_thread_correct m a b w d g :
  tinv w → malloc_data w = Some (d, g) → 0 ≤ a ≤ 2147483 → 0 ≤ b ≤ 2147483 →
  wp (start_thread_obtaining_mutex m a b) w (λ r w',
    let x := mk_thread_data (a * 1000) (b * 1000) m g in
    datas w' = <[d := x]> (datas w) ∧ mutexes w' = mutexes w ∧
    match r with
    | (true, Some t) => threads w !! t = None ∧ threads w' = <[t := (AtClear, d)]> (threads w)
    | (ok, id) => ok = false ∧ id = None ∧ threads w' = threads w ∧
        ∀ t p, threads w' !! t ≠ Some (p, d)
    end).
Proof.
  intros I Hm Ha Hb. pose proof (malloc_fresh _ _ _ Hm) as Hd. unfold wp.
  rewrite (start_result m a b w d g) by (done || lia).
  rewrite !uwrap_small by lia. destruct (create_thread _) as [e|t] eqn:Hc.
  - split_and!; try done. intros t p Ht.
    destruct (inv_data _ I _ _ _ Ht) as (x & Hx & _). congruence.
  - split_and!; try done. by apply create_fresh in Hc.
Qed.

(** A wait of more than 2147483 ms overflows the [int] multiplication, and a failed
    [malloc] is dereferenced: neither is caught. *)
Lemma start_thread_faults m a b w :
  (malloc_data w = None → start_thread_obtaining_mutex m a b w = UB NullDeref) ∧
  (is_Some (malloc_data w) → 2147483 < a → start_thread_obtaining_mutex m a b w = UB IntOverflow).
Proof.
  destruct (start_faults m a b w) as (F1 & F2 & _). split; [done|].
  intros Hm Ha. apply F2; [done|lia].
Qed.
End specs.

(** ** Two threads on one mutex

    A C library that satisfies [PthreadLaws], and a run of the threading example on it
    to which the theorems of [ThreadingSpec] are applied. *)

(** The lowest unused block and thread id; [oom] and [busy] make the calls fail, a sleep
    of a second or more is refused. *)
Definition demo_pthread (oom busy : bool) : PthreadApi := {|
  malloc_data w := if oom then None else Some (fresh (dom (datas w)), true);
  create_thread w := if busy then inl 11 else inr (fresh (dom (threads w)));
  usleep_result w us := if us <? 1000000 then 0 else -1;
|}.

#[export] Instance demo_pthread_laws oom busy : PthreadLaws (demo_pthread oom busy).
Proof.
  split; simpl.
  - intros w d b. destruct oom; [done|]. intros [= <- <-]. apply not_elem_of_dom, is_fresh.
  - intros w t. destruct busy; [done|]. intros [= <-]. apply not_elem_of_dom, is_fresh.
  - intros w e. destruct busy; [|done]. intros [= <-]. done.
Qed.

Definition after {A} (m : M world A) (w : world) : world :=
  match m w with Ret (_, w') => w' | _ => w end.

Definition w_idle : world := mk_world ∅ {[1%positive := None]} ∅ [] [].
Definition demo : PthreadApi := demo_pthread false false.
Definition w_one : world := after (start_thread_obtaining_mutex (P := demo) 1 5 2000) w_idle.
Definition w_two : world := after (start_thread_obtaining_mutex (P := demo) 1 0 0) w_one.
(** The first thread ran until it holds the mutex. *)
Definition w_locked : world :=
  after (threadfunc_step (P := demo) 1;; threadfunc_step (P := demo) 1;;
         threadfunc_step (P := demo) 1) w_two.

Lemma w_idle_initial : initial w_idle.
Proof. split; [done|]. by apply map_Forall_singleton. Qed.

Lemma w_locked_reachable : rtc (tstep (P := demo)) w_idle w_locked.
Proof.
  eapply rtc_l; [eapply (step_start 1 5 2000); [done|vm_compute; reflexivity]|].
  eapply rtc_l; [eapply (step_start 1 0 0); [done|vm_compute; reflexivity]|].
  do 3 (eapply rtc_l; [apply (step_thread 1); vm_compute; reflexivity|]).
  apply rtc_refl.
Qed.

Lemma threads_mutual_exclusion_witness :
  inside w_locked 1 1 ∧ mutexes w_locked !! 1%positive = Some (Some 1%positive).
Proof.
  assert (inside w_locked 1 1) as H by (eexists _, _, _; vm_compute; done).
  split; [exact H|].
  apply (threads_mutual_exclusion (P := demo) w_idle w_locked 1 1 1
           w_idle_initial w_locked_reachable H H).
Defined.

Lemma threads_all_complete_witness :
  remaining w_locked = 9%nat ∧
  (∀ n w', nsteps (trun (P := demo)) n w_locked w' → (n ≤ 9)%nat).
Proof.
  split; [reflexivity|].
  apply (threads_all_complete (P := demo) w_idle w_locked w_idle_initial w_locked_reachable).
Defined.

Lemma start_thread_correct_witness :
  wp (start_thread_obtaining_mutex (P := demo) 1 5 2000) w_idle (λ r w',
    datas w' = <[1%positive := mk_thread_data 5000 2000000 1 true]> (datas w_idle) ∧
    mutexes w' = mutexes w_idle).
Proof.
  eapply wp_mono.
  - apply (start_thread_correct (P := demo) 1 5 2000 w_idle 1 true);
      [by apply initial_inv, w_idle_initial|reflexivity|lia|lia].
  - intros r w' (Hd & Hm & _). by split.
Defined.

Lemma start_thread_faults_witness :
  start_thread_obtaining_mutex (P := demo_pthread true false) 1 5 5 w_idle = UB NullDeref ∧
  start_thread_obtaining_mutex (P := demo) 1 2147484 5 w_idle = UB IntOverflow.
Proof.
  split.
  - by apply (start_thread_faults (P := demo_pthread true false)).
  - apply (start_thread_faults (P := demo)); [by eexists|lia].
Defined.
