(* ===== verification/LinkedList.v ===== *)
(** * The list of threads

    A translation of [server/queue.h], the class [linkedList]: a singly linked list of
    [struct node] in memory from [malloc], with [head] the only member.  The methods that
    walk the list with [head] itself do so here too.  Loops run on fuel: one step more
    than there are nodes in memory is enough for every list without a cycle. *)

From stdpp Require Import base list gmap option.
From Stdlib Require Import ZArith Lia.
From S2P Require Import Prelude.
#[local] Open Scope Z_scope.

(** ** Data *)

(** [struct node]: [threadID] is a [pthread_t], the port an [int32_t]. *)
Record node : Type := mk_node {
  threadID : Z;
  commSocketPortNo : Z;
  next_ : ptr;
}.

(** The lines [printf] writes. *)
Inductive line : Type :=
  | LDelete (head delItem : ptr)
  | LCount (threadID : Z) (item : ptr) (itemCount : Z).

(** The object and the memory its nodes live in. *)
Record lstate : Type := mk_lstate {
  nodes : gmap positive node;
  head : ptr;
  printed : list line;
}.

Definition set_head (p : ptr) : M lstate unit :=
  mmodify (λ s, mk_lstate (nodes s) p (printed s)).
Definition printf (l : line) : M lstate unit :=
  mmodify (λ s, mk_lstate (nodes s) (head s) (printed s ++ [l])).

(** [p->...] *)
Definition load_node (p : ptr) : M lstate node :=
  s ← mget;
  match p with Blk b => moption Dangling (nodes s !! b) | _ => mub NullDeref end.

Definition store_node (p : ptr) (f : node → node) : M lstate unit :=
  n ← load_node p;
  match p with
  | Blk b => mmodify (λ s, mk_lstate (<[b := f n]> (nodes s)) (head s) (printed s))
  | _ => mub NullDeref
  end.

Definition free_node (p : ptr) : M lstate unit :=
  match p with
  | Blk b =>
    s ← mget;
    match nodes s !! b with
    | Some _ => mmodify (λ s, mk_lstate (delete b (nodes s)) (head s) (printed s))
    | None => mub BadFree
    end
  | _ => mret tt
  end.

Definition walk_fuel (s : lstate) : nat := S (size (nodes s)).

(** [malloc(sizeof(struct node))]: a block with any content, or none. *)
Class NodeMalloc : Type := malloc_node : gmap positive node → option (positive * node).

Class NodeMallocLaws (A : NodeMalloc) : Prop :=
  malloc_node_fresh : ∀ h b n, malloc_node h = Some (b, n) → h !! b = None.

Section linkedList.
Context `{A : NodeMalloc}.

Definition malloc : M lstate ptr :=
  s ← mget;
  match malloc_node (nodes s) with
  | Some (b, n) =>
    mmodify (λ s, mk_lstate (<[b := n]> (nodes s)) (head s) (printed s));; mret (Blk b)
  | None => mret NULL
  end.

(** [item->commSocketPortNo = ...; item->threadID = ...; item->next = nullptr;] *)
Definition fill_node (p : ptr) (threadID commSocketPortNo : Z) : M lstate unit :=
  store_node p (λ n, mk_node (LinkedList.threadID n) commSocketPortNo (next_ n));;
  store_node p (λ n, mk_node threadID (LinkedList.commSocketPortNo n) (next_ n));;
  store_node p (λ n, mk_node (LinkedList.threadID n) (LinkedList.commSocketPortNo n) NULL).

(** ** Constructors and destructor *)

Definition linkedList_default : M lstate unit := set_head NULL.

Definition linkedList_item (threadID commSocketPortNo : Z) : M lstate unit :=
  item ← malloc;
  if is_null item then mub Terminated
  else fill_node item threadID commSocketPortNo;; set_head item.

Fixpoint destroy_loop (fuel : nat) (delItem : ptr) : M lstate unit :=
  match fuel with
  | O => λ _, OutOfFuel
  | S fuel =>
    h ← mgets head;
    if is_null h then mret tt
    else
      printf (LDelete h delItem);;
      n ← load_node h;
      set_head (next_ n);;
      free_node h;;
      destroy_loop fuel h
  end.

Definition linkedList_destroy : M lstate unit :=
  s ← mget;
  if is_null (head s) then mret tt else destroy_loop (walk_fuel s) NULL.

(** ** Methods *)

(** [while (nullptr != head->next) head = head->next;] *)
Fixpoint last_loop (fuel : nat) : M lstate unit :=
  match fuel with
  | O => λ _, OutOfFuel
  | S fuel =>
    h ← mgets head;
    n ← load_node h;
    if is_null (next_ n) then mret tt
    else set_head (next_ n);; last_loop fuel
  end.

(** The statements of [addItem]. *)
Definition addItem_body (threadID commSocketPortNo : Z) : M lstate unit :=
  s ← mget;
  if negb (is_null (head s)) then
    let initialHead := head s in
    last_loop (walk_fuel s);;
    item ← malloc;
    h ← mgets head;
    store_node h (λ n, mk_node (LinkedList.threadID n) (LinkedList.commSocketPortNo n) item);;
    n ← load_node h;
    fill_node (next_ n) threadID commSocketPortNo;;
    set_head initialHead
  else
    item ← malloc;
    if is_null item then mub Terminated
    else fill_node item threadID commSocketPortNo;; set_head item.

(** [int8_t addItem(...)] has no [return]. *)
Definition addItem (threadID commSocketPortNo : Z) : M lstate Z :=
  addItem_body threadID commSocketPortNo;; mub NoReturn.

(** The [while] loop of [removeItem]: the status. *)
Fixpoint remove_loop (fuel : nat) (port : Z) (initialhead prevItem : ptr) : M lstate Z :=
  match fuel with
  | O => λ _, OutOfFuel
  | S fuel =>
    h ← mgets head;
    if is_null h then mret (-1)
    else
      n ← load_node h;
      if port =? commSocketPortNo n then
        store_node prevItem
          (λ p, mk_node (threadID p) (LinkedList.commSocketPortNo p) (next_ n));;
        free_node h;;
        set_head initialhead;;
        mret 0
      else
        set_head (next_ n);;
        remove_loop fuel port initialhead h
  end.

(** The branch that removes the first node ends without [return]. *)
Definition removeItem (port : Z) : M lstate Z :=
  s ← mget;
  let initialhead := head s in
  n ← load_node initialhead;
  if port =? commSocketPortNo n then
    set_head (next_ n);;
    free_node initialhead;;
    mub NoReturn
  else remove_loop (walk_fuel s) port initialhead initialhead.

(** [++itemCount] on an [int32_t]. *)
Fixpoint count_loop (fuel : nat) (item : ptr) (itemCount : Z) : M lstate Z :=
  match fuel with
  | O => λ _, OutOfFuel
  | S fuel =>
    if is_null item then mret itemCount
    else
      if decide (itemCount + 1 < 2 ^ 31) then
        n ← load_node item;
        printf (LCount (threadID n) item (itemCount + 1));;
        count_loop fuel (next_ n) (itemCount + 1)
      else mub IntOverflow
  end.

Definition countItems : M lstate Z :=
  s ← mget;
  count_loop (walk_fuel s) (head s) 0.

Fixpoint get_loop (fuel : nat) (port : Z) (item : ptr) : M lstate ptr :=
  match fuel with
  | O => λ _, OutOfFuel
  | S fuel =>
    if is_null item then mret item
    else
      n ← load_node item;
      if port =? commSocketPortNo n then mret item
      else get_loop fuel port (next_ n)
  end.

Definition getItem (port : Z) : M lstate ptr :=
  s ← mget;
  get_loop (walk_fuel s) port (head s).
End linkedList.
