(* ===== verification/LinkedListSpec.v ===== *)
(** * The list of threads as a sequence

    The chain of nodes is related to the sequence of (thread, port) pairs it stores;
    each method of [LinkedList] is shown to compute on that sequence, or to lose it. *)

From stdpp Require Import base list gmap option fin_maps sets.
From Stdlib Require Import ZArith Lia.
From S2P Require Import Prelude LinkedList.

#[local] Open Scope Z_scope.

(** ** Chains *)

(** A stored element: its block, and the thread and port in it. *)
Abbreviation item := (positive * (Z * Z))%type.

(** The nodes [l] lead from [p] to [q]. *)
Fixpoint seg (h : gmap positive node) (p : ptr) (l : list item) (q : ptr) : Prop :=
  match l with
  | [] => p = q
  | (b, (t, c)) :: l => p = Blk b ∧ ∃ r, h !! b = Some (mk_node t c r) ∧ seg h r l q
  end.

Lemma seg_app h p l1 l2 q : seg h p (l1 ++ l2) q ↔ ∃ r, seg h p l1 r ∧ seg h r l2 q.
Proof.
  revert p. induction l1 as [|[b [t c]] l1 IH]; intros p; simpl.
  - split; [eauto|]. by intros (r & -> & H).
  - split.
    + intros (-> & r & Hb & H). apply IH in H as (r' & H1 & H2). eauto 10.
    + intros (r & (-> & r' & Hb & H1) & H2). split; [done|]. exists r'. split; [done|].
      apply IH. eauto.
Qed.

(** Memory outside the chain does not matter. *)
Lemma seg_ext h h' p l q :
  seg h p l q → (∀ b, b ∈ l.*1 → h' !! b = h !! b) → seg h' p l q.
Proof.
  revert p. induction l as [|[b [t c]] l IH]; intros p; simpl; [done|].
  intros (-> & r & Hb & H) E. split; [done|]. exists r.
  rewrite E by left. split; [done|]. apply IH; [done|]. intros b' Hb'. apply E. by right.
Qed.

Lemma seg_dom h p l q b : seg h p l q → b ∈ l.*1 → is_Some (h !! b).
Proof.
  revert p. induction l as [|[b' [t c]] l IH]; intros p; simpl.
  - by rewrite elem_of_nil.
  - intros (-> & r & Hb & H). rewrite elem_of_cons. intros [->|Hin]; eauto.
Qed.

(** The object stores [l] and owns nothing else. *)
Record stores (s : lstate) (l : list item) : Prop := {
  st_seg : seg (nodes s) (head s) l NULL;
  st_nodup : NoDup l.*1;
  st_dom : dom (nodes s) = list_to_set l.*1;
}.

Lemma stores_size s l : stores s l → size (nodes s) = length l.
Proof.
  intros [_ Hn Hd]. rewrite <- size_dom, Hd, size_list_to_set by done. by rewrite length_fmap.
Qed.

(** A list without elements is the null pointer. *)
Lemma stores_null s l : stores s l → is_null (head s) = true ↔ l = [].
Proof.
  intros [H _ _]. destruct l as [|[b [t c]] l]; simpl in H.
  - by rewrite H.
  - destruct H as [-> _]. done.
Qed.

(** The same object and memory, whatever was printed. *)
Lemma stores_printed s s' l : stores s l → nodes s' = nodes s → head s' = head s → stores s' l.
Proof. intros [] E1 E2. split; by rewrite ?E1, ?E2. Qed.

(** ** Loops *)

Lemma load_node_eval s b n : nodes s !! b = Some n → load_node (Blk b) s = Ret (n, s).
Proof. intros H. unfold load_node, mbind, M_bind, moption. simpl. by rewrite H. Qed.

Lemma store_node_eval s b n f :
  nodes s !! b = Some n →
  store_node (Blk b) f s = Ret (tt, mk_lstate (<[b := f n]> (nodes s)) (head s) (printed s)).
Proof. intros H. unfold store_node. by erewrite bind_eval by by eapply load_node_eval. Qed.

Lemma free_node_eval s b n :
  nodes s !! b = Some n →
  free_node (Blk b) s = Ret (tt, mk_lstate (delete b (nodes s)) (head s) (printed s)).
Proof. intros H. unfold free_node, mbind, M_bind. simpl. by rewrite H. Qed.

Lemma fill_node_eval s b n t c :
  nodes s !! b = Some n →
  fill_node (Blk b) t c s =
  Ret (tt, mk_lstate (<[b := mk_node t c NULL]> (nodes s)) (head s) (printed s)).
Proof.
  intros H. unfold fill_node.
  erewrite bind_eval by by eapply store_node_eval.
  erewrite bind_eval by (apply store_node_eval; simpl; apply lookup_insert_eq).
  erewrite store_node_eval by (simpl; apply lookup_insert_eq). simpl.
  by rewrite !insert_insert_eq.
Qed.

Lemma last_loop_eval h p l b tc pr fuel :
  seg h p (l ++ [(b, tc)]) NULL → (length l < fuel)%nat →
  last_loop fuel (mk_lstate h p pr) = Ret (tt, mk_lstate h (Blk b) pr).
Proof.
  revert p fuel. induction l as [|[b' [t c]] l IH]; intros p [|fuel] H Hf; simpl in *; try lia.
  - destruct tc as [t c]. destruct H as (-> & r & Hb & ->).
    unfold mbind at 1, M_bind at 1. simpl. by erewrite bind_eval by by eapply load_node_eval.
  - destruct H as (-> & r & Hb & H).
    unfold mbind at 1, M_bind at 1. simpl. erewrite bind_eval by by eapply load_node_eval. simpl.
    assert (is_null r = false) as ->.
    { destruct l as [|[b'' [t' c']] l]; simpl in H; [destruct tc|]; by destruct H as [-> _]. }
    apply IH; [done|lia].
Qed.

Lemma destroy_loop_eval h p l del pr fuel :
  stores (mk_lstate h p pr) l → (length l < fuel)%nat →
  ∃ pr', destroy_loop fuel del (mk_lstate h p pr) = Ret (tt, mk_lstate ∅ NULL pr').
Proof.
  revert h p del pr fuel. induction l as [|[b [t c]] l IH];
    intros h p del pr [|fuel] [Hs Hn Hd] Hf; simpl in *; try lia.
  - subst p. exists pr. apply dom_empty_inv_L in Hd. by subst h.
  - destruct Hs as (-> & r & Hb & Hs). apply NoDup_cons in Hn as [Hnin Hn].
    edestruct (IH (delete b h) r (Blk b) (pr ++ [LDelete (Blk b) del]) fuel) as [pr' E]; [split| |].
    + simpl. eapply seg_ext; [done|]. intros b' Hb'. rewrite lookup_delete_ne; [done|].
      by intros <-.
    + done.
    + simpl. rewrite dom_delete_L, Hd. set_solver.
    + lia.
    + exists pr'. unfold mbind at 1, M_bind at 1. simpl.
      erewrite bind_eval by reflexivity. erewrite bind_eval by by eapply load_node_eval.
      erewrite bind_eval by reflexivity. erewrite bind_eval by by eapply free_node_eval. done.
Qed.

Lemma count_loop_eval h p l k hd pr fuel :
  seg h p l NULL → (length l < fuel)%nat → 0 ≤ k → k + Z.of_nat (length l) < 2 ^ 31 →
  ∃ pr', count_loop fuel p k (mk_lstate h hd pr) =
         Ret (k + Z.of_nat (length l), mk_lstate h hd pr').
Proof.
  revert p k pr fuel. induction l as [|[b [t c]] l IH];
    intros p k pr [|fuel] Hs Hf Hk Hb; cbn [length seg count_loop] in *; try lia.
  - subst p. exists pr. simpl. by rewrite Z.add_0_r.
  - destruct Hs as (-> & r & Hl & Hs). rewrite decide_True by lia.
    destruct (IH r (k + 1) (pr ++ [LCount t (Blk b) (k + 1)]) fuel) as [pr' E]; [done|lia..|].
    exists pr'. cbn [is_null]. erewrite bind_eval by by eapply load_node_eval.
    erewrite bind_eval by reflexivity. cbn [next_ threadID printf nodes head printed].
    rewrite E. do 2 f_equal. lia.
Qed.

(** The first element with the port. *)
Definition port_is (port : Z) (i : item) : Prop := i.2.2 = port.
#[export] Instance port_is_dec port i : Decision (port_is port i).
Proof. unfold port_is. apply _. Defined.

Lemma get_loop_eval h p l port hd pr fuel :
  seg h p l NULL → (length l < fuel)%nat →
  get_loop fuel port p (mk_lstate h hd pr) =
  Ret (match list_find (port_is port) l with Some (_, (b, _)) => Blk b | None => NULL end,
       mk_lstate h hd pr).
Proof.
  revert p fuel. induction l as [|[b [t c]] l IH]; intros p [|fuel] Hs Hf; simpl in *; try lia.
  - by subst p.
  - destruct Hs as (-> & r & Hl & Hs). cbn [is_null].
    erewrite bind_eval by by eapply load_node_eval. cbn [commSocketPortNo next_].
    unfold port_is at 1. simpl. rewrite Z.eqb_sym.
    destruct (Z.eqb_spec c port) as [->|Hne]; [by rewrite decide_True|].
    rewrite decide_False by done. rewrite IH by (done || lia).
    by destruct (list_find _ l) as [[i [b' tc]]|].
Qed.

(** [removeItem] walks over elements with other ports. *)
Lemma remove_loop_skips h p l r port ih prev pr fuel :
  seg h p l r → Forall (λ i, ¬ port_is port i) l →
  remove_loop (length l + fuel) port ih prev (mk_lstate h p pr) =
  remove_loop fuel port ih (default prev (Blk <$> last l.*1)) (mk_lstate h r pr).
Proof.
  revert p prev. induction l as [|[b [t c]] l IH]; intros p prev Hs Hl; simpl in *.
  - by subst.
  - destruct Hs as (-> & q & Hb & Hs). apply Forall_cons in Hl as [Hne Hl].
    erewrite bind_eval by reflexivity. cbn [is_null head].
    erewrite bind_eval by by eapply load_node_eval. cbn [commSocketPortNo next_].
    rewrite (proj2 (Z.eqb_neq port c)) by (by intros ->).
    erewrite bind_eval by reflexivity. cbn [nodes printed].
    rewrite IH by done. f_equal. change (list_fmap item positive fst l) with (l.*1).
    rewrite last_cons. by destruct (last l.*1).
Qed.


(** ** Changes of the chain *)

(** A new node [b] behind the last node [bl]. *)
Lemma stores_snoc s front bl tl cl b t c pr :
  stores s (front ++ [(bl, (tl, cl))]) → nodes s !! b = None →
  stores (mk_lstate (<[b := mk_node t c NULL]> (<[bl := mk_node tl cl (Blk b)]> (nodes s)))
                    (head s) pr)
         (front ++ [(bl, (tl, cl))] ++ [(b, (t, c))]).
Proof.
  intros [Hs Hn Hd] Hb. apply seg_app in Hs as (r & Hs1 & (-> & r' & Hbl & ->)).
  rewrite fmap_app in Hn, Hd. simpl in Hn, Hd.
  assert ((b ∉ front.*1) ∧ b ≠ bl) as [Hbf Hne].
  { apply not_elem_of_dom in Hb. rewrite Hd in Hb. set_solver. }
  apply NoDup_app in Hn as (Hn1 & Hn2 & _).
  assert (bl ∉ front.*1) as Hblf by set_solver.
  split; simpl.
  - apply seg_app. exists (Blk bl). split.
    + eapply seg_ext; [done|]. intros b' Hb'. rewrite !lookup_insert_ne; [done|set_solver..].
    + simpl. split; [done|]. exists (Blk b). rewrite lookup_insert_ne, lookup_insert_eq by done.
      split; [done|]. split; [done|]. exists NULL. by rewrite lookup_insert_eq.
  - rewrite fmap_app. simpl. apply NoDup_app. split; [done|]. split; [set_solver|].
    rewrite NoDup_cons. split; [set_solver|]. apply NoDup_singleton.
  - rewrite !dom_insert_L, Hd, fmap_app. simpl. set_solver.
Qed.

(** The node [b] behind [bl] is unlinked and freed. *)
Lemma stores_unlink s front bl tl cl b t c post pr q :
  stores s (front ++ (bl, (tl, cl)) :: (b, (t, c)) :: post) →
  nodes s !! b = Some (mk_node t c q) →
  stores (mk_lstate (delete b (<[bl := mk_node tl cl q]> (nodes s))) (head s) pr)
         (front ++ (bl, (tl, cl)) :: post).
Proof.
  intros [Hs Hn Hd] Hb. apply seg_app in Hs as (r & Hs1 & (-> & r' & Hbl & (-> & q' & Hb' & Hs2))).
  assert (q' = q) as -> by congruence. rewrite fmap_app in Hn, Hd. simpl in Hn, Hd.
  apply NoDup_app in Hn as (Hn1 & Hn2 & Hn3).
  apply NoDup_cons in Hn3 as [Hn3 Hn4]. apply NoDup_cons in Hn4 as [Hn4 Hn5].
  assert (bl ≠ b) as Hne by set_solver.
  assert ((b ∉ front.*1) ∧ (bl ∉ front.*1)) as [Hbf Hblf] by set_solver.
  split; simpl.
  - apply seg_app. exists (Blk bl). split.
    + eapply seg_ext; [exact Hs1|]. intros x Hx.
      rewrite lookup_delete_ne, lookup_insert_ne; [done|set_solver..].
    + split; [done|]. exists q. rewrite lookup_delete_ne, lookup_insert_eq by done.
      split; [done|]. eapply seg_ext; [done|]. intros x Hx.
      rewrite lookup_delete_ne, lookup_insert_ne; [done|set_solver..].
  - rewrite fmap_app. simpl. apply NoDup_app. split; [done|]. split; [set_solver|].
    apply NoDup_cons. split; [set_solver|done].
  - rewrite dom_delete_L, dom_insert_L, Hd, fmap_app. simpl. set_solver.
Qed.

(** The search starts at the first node when that has another port. *)
Lemma remove_enters s l port :
  stores s l → l ≠ [] → (∀ i, hd_error l = Some i → ¬ port_is port i) →
  removeItem port s = remove_loop (walk_fuel s) port (head s) (head s) s.
Proof.
  intros [Hs _ _] Hl Hne. destruct l as [|[b [t c]] l]; [done|].
  destruct Hs as (Hh & r & Hb & _). specialize (Hne _ eq_refl). unfold port_is in Hne.
  unfold removeItem. erewrite bind_eval by reflexivity. cbv zeta. rewrite Hh.
  erewrite bind_eval by by eapply load_node_eval. cbn [commSocketPortNo]. simpl in Hne.
  by rewrite (proj2 (Z.eqb_neq port c)) by congruence.
Qed.

(** ** Properties *)

(** C38: [removeItem] of a port that is stored behind the first element unlinks and frees
    exactly the first node with that port and returns 0. *)
Theorem removeItem_removes s pre b t port post :
  stores s (pre ++ (b, (t, port)) :: post) → pre ≠ [] →
  Forall (λ i, ¬ port_is port i) pre →
  wp (removeItem port) s (λ r s',
    r = 0 ∧ stores s' (pre ++ post) ∧ head s' = head s).
Proof.
  intros Hst Hpre Hne. destruct pre as [|[bl [tl cl]] front _] using rev_ind; [done|].
  rewrite <- app_assoc. simpl. rewrite <- app_assoc in Hst. simpl in Hst. unfold wp.
  pose proof (stores_size _ _ Hst) as Hsz. rewrite length_app in Hsz. simpl in Hsz.
  pose proof Hst as Hst'.
  erewrite remove_enters; [|exact Hst|by destruct front|].
  2: { intros i Hi. destruct front as [|i' front]; apply Forall_cons in Hne as [Hne _];
       by simplify_eq/=. }
  destruct Hst as [Hs _ _]. apply seg_app in Hs as (r & Hs1 & (-> & r' & Hbl & (-> & q & Hb & Hs2))).
  replace (walk_fuel s) with (length (front ++ [(bl, (tl, cl))]) + S (S (length post)))%nat
    by (unfold walk_fuel; rewrite length_app; simpl; lia).
  destruct s as [h p pr]. cbn [nodes head printed] in *.
  rewrite remove_loop_skips with (r := Blk b) by
    (done || (apply seg_app; exists (Blk bl); simpl; eauto)).
  rewrite fmap_app, last_app. simpl. erewrite bind_eval by reflexivity. cbn [is_null head].
  erewrite bind_eval by by eapply load_node_eval. cbn [commSocketPortNo next_].
  rewrite Z.eqb_refl.
  assert (b ≠ bl) as Hbb.
  { destruct Hst' as [_ Hn _]. rewrite fmap_app in Hn. apply NoDup_app in Hn as (_ & _ & Hn).
    simpl in Hn. apply NoDup_cons in Hn as [Hn _]. set_solver. }
  erewrite bind_eval by by eapply store_node_eval. cbn [nodes head printed threadID commSocketPortNo].
  erewrite bind_eval by (eapply free_node_eval; simpl; by rewrite lookup_insert_ne).
  split; [done|]. split; [|done]. by eapply stores_unlink in Hst'.
Qed.

(** The other runs of [removeItem]: on an empty list it dereferences the null head;
    when the first element has the port the removal ends without a return value; when no
    element has the port it returns -1 but leaves the list empty, with every node
    leaked. *)
Theorem removeItem_other_runs s l port :
  stores s l →
  match l with
  | [] => removeItem port s = UB NullDeref
  | i :: _ =>
    (port_is port i → removeItem port s = UB NoReturn) ∧
    (Forall (λ i, ¬ port_is port i) l →
     removeItem port s = Ret (-1, mk_lstate (nodes s) NULL (printed s)) ∧
     size (nodes s) = length l)
  end.
Proof.
  intros Hst. pose proof (stores_size _ _ Hst) as Hsz. destruct l as [|[b [t c]] l].
  - destruct Hst as [Hs _ _]. simpl in Hs. unfold removeItem.
    erewrite bind_eval by reflexivity. cbv zeta. by rewrite Hs.
  - split.
    + destruct Hst as [(Hh & r & Hb & _) _ _]. intros <-. simpl. unfold removeItem.
      erewrite bind_eval by reflexivity. cbv zeta. rewrite Hh.
      erewrite bind_eval by by eapply load_node_eval. cbn [commSocketPortNo].
      rewrite Z.eqb_refl. erewrite bind_eval by reflexivity. by erewrite bind_eval by by eapply free_node_eval.
    + intros Hne. split; [|done].
      erewrite remove_enters; [|exact Hst|done|].
      2: { intros i [= <-]. by apply Forall_cons in Hne as [Hne _]. }
      unfold walk_fuel. rewrite Hsz.
      destruct Hst as [Hs _ _]. destruct s as [h p pr]. cbn [nodes head printed] in *.
      rewrite <- Nat.add_1_r, remove_loop_skips with (r := NULL) by done. done.
Qed.

(** The queries and the destructor on a list of fewer than 2^31 elements: [countItems]
    returns their number, [getItem] the first node with the port or the null pointer, both
    leave the list as it is; the destructor frees every node. *)
Theorem list_queries_and_destroy s l port :
  stores s l → Z.of_nat (length l) < 2 ^ 31 →
  wp countItems s (λ r s', r = Z.of_nat (length l) ∧ stores s' l) ∧
  getItem port s =
    Ret (match list_find (port_is port) l with Some (_, (b, _)) => Blk b | None => NULL end, s) ∧
  wp linkedList_destroy s (λ _ s', nodes s' = ∅ ∧ head s' = NULL).
Proof.
  intros Hst Hl. pose proof (stores_size _ _ Hst) as Hsz. pose proof (stores_null _ _ Hst) as Hnull.
  destruct s as [h p pr]. pose proof (st_seg _ _ Hst) as Hs. cbn [nodes head] in *. split_and!.
  - unfold countItems, wp, walk_fuel. erewrite bind_eval by reflexivity. cbn [nodes head].
    destruct (count_loop_eval h p l 0 p pr (S (size h))) as [pr' ->]; [done|lia..|].
    rewrite Z.add_0_l. split; [done|]. by eapply stores_printed.
  - unfold getItem, walk_fuel. erewrite bind_eval by reflexivity. cbn [nodes head].
    apply get_loop_eval; [done|lia].
  - unfold linkedList_destroy, wp, walk_fuel. erewrite bind_eval by reflexivity.
    cbn [nodes head]. destruct (is_null p) eqn:E.
    + destruct Hnull as [Hnull _]. specialize (Hnull eq_refl). subst l.
      split; [by apply dom_empty_inv_L; destruct Hst|done].
    + destruct (destroy_loop_eval h p l NULL pr (S (size h))) as [pr' ->]; [done|lia|done].
Qed.

(** ** Adding *)

Section adding.
Context `{AL : NodeMallocLaws}.

Lemma malloc_eval s b n :
  malloc_node (nodes s) = Some (b, n) →
  malloc s = Ret (Blk b, mk_lstate (<[b := n]> (nodes s)) (head s) (printed s)).
Proof. intros H. unfold malloc, mbind, M_bind. simpl. by rewrite H. Qed.

Lemma malloc_fails s : malloc_node (nodes s) = None → malloc s = Ret (NULL, s).
Proof. intros H. unfold malloc, mbind, M_bind. simpl. by rewrite H. Qed.

Lemma add_empty_eval s t c b n :
  head s = NULL → malloc_node (nodes s) = Some (b, n) →
  addItem_body t c s =
  Ret (tt, mk_lstate (<[b := mk_node t c NULL]> (nodes s)) (Blk b) (printed s)).
Proof.
  intros Hh Hm. unfold addItem_body. erewrite bind_eval by reflexivity. rewrite Hh.
  cbn [is_null negb]. erewrite bind_eval by by apply malloc_eval. cbn [is_null].
  erewrite bind_eval by (eapply fill_node_eval; simpl; apply lookup_insert_eq).
  unfold set_head, mmodify. simpl. by rewrite insert_insert_eq.
Qed.

Lemma add_last_eval s front bl tl cl t c b n :
  stores s (front ++ [(bl, (tl, cl))]) → malloc_node (nodes s) = Some (b, n) →
  addItem_body t c s =
  Ret (tt, mk_lstate (<[b := mk_node t c NULL]> (<[bl := mk_node tl cl (Blk b)]> (nodes s)))
                     (head s) (printed s)).
Proof.
  intros Hst Hm. pose proof (malloc_node_fresh _ _ _ Hm) as Hb.
  pose proof (stores_size _ _ Hst) as Hsz. rewrite length_app in Hsz. simpl in Hsz.
  pose proof (stores_null _ _ Hst) as Hnull.
  destruct Hst as [Hs _ _]. pose proof Hs as Hl.
  apply seg_app in Hs as (r & Hs1 & (-> & r' & Hbl & ->)).
  assert (b ≠ bl) as Hne by congruence.
  unfold addItem_body. erewrite bind_eval by reflexivity.
  destruct (is_null (head s)) eqn:E.
  { apply proj1 in Hnull. by destruct front; specialize (Hnull eq_refl). }
  cbn [negb]. cbv zeta. destruct s as [h p pr]. cbn [nodes head printed] in *.
  erewrite bind_eval by (eapply last_loop_eval; [done|unfold walk_fuel; simpl; lia]).
  erewrite bind_eval by by eapply malloc_eval. cbn [nodes head printed].
  erewrite bind_eval by reflexivity. cbn [head].
  erewrite bind_eval by (eapply store_node_eval; simpl; rewrite lookup_insert_ne; done).
  erewrite bind_eval by (eapply load_node_eval; simpl; apply lookup_insert_eq).
  cbn [next_ nodes head printed].
  erewrite bind_eval by
    (eapply fill_node_eval; simpl; rewrite lookup_insert_ne by done; apply lookup_insert_eq).
  unfold set_head, mmodify. simpl. do 3 f_equal.
  rewrite (insert_insert_ne _ bl b) by done. by rewrite insert_insert_eq.
Qed.

Lemma add_refines s l t c b n :
  stores s l → malloc_node (nodes s) = Some (b, n) →
  wp (addItem_body t c) s (λ _ s',
    stores s' (l ++ [(b, (t, c))]) ∧ (l ≠ [] → head s' = head s)).
Proof.
  intros Hst Hm. pose proof (malloc_node_fresh _ _ _ Hm) as Hb. unfold wp.
  destruct l as [|[bl [tl cl]] front _] using rev_ind.
  - destruct Hst as [Hs _ Hd]. simpl in Hs, Hd. erewrite add_empty_eval by done.
    split; [|done]. apply dom_empty_inv_L in Hd. rewrite Hd. split; simpl.
    + split; [done|]. exists NULL. by rewrite lookup_insert_eq.
    + apply NoDup_singleton.
    + set_solver.
  - erewrite add_last_eval by done. split; [|done]. rewrite <- app_assoc.
    by apply stores_snoc.
Qed.

(** The statements of [addItem] append the new thread to the list, in one new node;
    the list keeps its first node and nothing is leaked. *)
Theorem addItem_appends s l t c b n :
  stores s l → malloc_node (nodes s) = Some (b, n) →
  wp (addItem_body t c) s (λ _ s',
    stores s' (l ++ [(b, (t, c))]) ∧ (l ≠ [] → head s' = head s)).
Proof. apply add_refines. Qed.

(** [addItem] never returns a value: its success path reaches the end of the
    non-void function, a failed [malloc] is dereferenced when the list has elements and
    terminates the program when it is empty. *)
Theorem addItem_never_returns s l t c :
  stores s l →
  addItem t c s =
  UB (match malloc_node (nodes s), l with
      | Some _, _ => NoReturn
      | None, [] => Terminated
      | None, _ => NullDeref
      end).
Proof.
  intros Hst. unfold addItem. destruct (malloc_node (nodes s)) as [[b n]|] eqn:Hm.
  - pose proof (add_refines s l t c b n Hst Hm) as H. apply wp_run in H as (u & s' & E & _).
    by erewrite bind_eval by exact E.
  - apply bind_ub. unfold addItem_body. erewrite bind_eval by reflexivity.
    pose proof (stores_null _ _ Hst) as Hnull. pose proof (stores_size _ _ Hst) as Hsz.
    destruct l as [|[bl [tl cl]] front _] using rev_ind.
    + rewrite (proj2 Hnull) by done. cbn [negb]. by erewrite bind_eval by by apply malloc_fails.
    + destruct (is_null (head s)) eqn:E.
      { apply proj1 in Hnull. by destruct front; specialize (Hnull eq_refl). }
      cbn [negb]. cbv zeta. destruct s as [h p pr]. destruct Hst as [Hs _ _].
      cbn [nodes head printed] in *. pose proof Hs as Hl.
      apply seg_app in Hs as (r & Hs1 & (-> & r' & Hbl & ->)). rewrite length_app in Hsz.
      erewrite bind_eval by (eapply last_loop_eval; [done|unfold walk_fuel; simpl; lia]).
      erewrite bind_eval by by eapply malloc_fails. erewrite bind_eval by reflexivity.
      cbn [head]. erewrite bind_eval by by eapply store_node_eval.
      erewrite bind_eval by (eapply load_node_eval; simpl; apply lookup_insert_eq).
      cbn [next_]. by destruct front.
Qed.
End adding.

(** ** A list of two threads

    Concrete memory on which the theorems of [LinkedListSpec] are applied. *)

Definition lowest_node : NodeMalloc := λ h, Some (fresh (dom h), mk_node 7 7 ZERO_SIZE_PTR).
Definition no_node : NodeMalloc := λ _, None.

#[export] Instance lowest_node_laws : NodeMallocLaws lowest_node.
Proof. intros h b n [= <- <-]. apply not_elem_of_dom, is_fresh. Qed.

#[export] Instance no_node_laws : NodeMallocLaws no_node.
Proof. by intros h b n. Qed.

(** Threads 11 and 12 on the sockets 5 and 6. *)
Definition two : lstate :=
  mk_lstate (<[1%positive := mk_node 11 5 (Blk 2)]> {[2%positive := mk_node 12 6 NULL]})
            (Blk 1) [].

Definition two_items : list item := [(1%positive, (11, 5)); (2%positive, (12, 6))].

Lemma two_stores : stores two two_items.
Proof.
  split.
  - split; [done|]. exists (Blk 2). split; [done|]. split; [done|]. by exists NULL.
  - apply (bool_decide_unpack _). by vm_compute.
  - by vm_compute.
Qed.

Lemma addItem_appends_witness :
  wp (addItem_body (A := lowest_node) 13 8) two (λ _ s',
    stores s' (two_items ++ [(3%positive, (13, 8))]) ∧ (two_items ≠ [] → head s' = Blk 1)).
Proof.
  apply (addItem_appends (A := lowest_node) two two_items 13 8 3 (mk_node 7 7 ZERO_SIZE_PTR));
    [exact two_stores|by vm_compute].
Defined.

Lemma addItem_never_returns_witness :
  addItem (A := lowest_node) 13 8 two = UB NoReturn ∧
  addItem (A := no_node) 13 8 two = UB NullDeref.
Proof.
  split.
  - apply (addItem_never_returns (A := lowest_node) two two_items 13 8 two_stores).
  - apply (addItem_never_returns (A := no_node) two two_items 13 8 two_stores).
Defined.

Lemma removeItem_removes_witness :
  wp (removeItem 6) two (λ r s', r = 0 ∧ stores s' [(1%positive, (11, 5))] ∧ head s' = Blk 1).
Proof.
  apply (removeItem_removes two [(1%positive, (11, 5))] 2 12 6 []);
    [exact two_stores|done|by repeat constructor].
Defined.

Lemma removeItem_other_runs_witness :
  removeItem 5 two = UB NoReturn ∧
  removeItem 9 two = Ret (-1, mk_lstate (nodes two) NULL []).
Proof.
  split.
  - by apply (removeItem_other_runs two two_items 5 two_stores).
  - apply (removeItem_other_runs two two_items 9 two_stores). by repeat constructor.
Defined.

Lemma list_queries_and_destroy_witness :
  wp countItems two (λ r s', r = 2 ∧ stores s' two_items) ∧ getItem 6 two = Ret (Blk 2, two) ∧
  wp linkedList_destroy two (λ _ s', nodes s' = ∅ ∧ head s' = NULL).
Proof. apply (list_queries_and_destroy two two_items 6 two_stores). simpl. lia. Defined.
