(* ===== verification/Writer.v ===== *)
(** * The writer and the test set-up example

    A translation of [finder-app/writer.c] (a program that writes a string to a file) and
    of the functions of [examples/autotest-validate].  [fopen] and the amount [fprintf]
    gets to the disk are the class [StdioApi]. *)

From stdpp Require Import base list gmap option strings.
From Stdlib Require Import ZArith Lia.
From S2P Require Import Prelude.
#[local] Open Scope Z_scope.

(** ** [writer.c] *)

Record disk : Type := mk_disk {
  contents : gmap string string;
  console : list string;
  syslog_lines : list string;
}.

Definition puts (l : string) : M disk unit :=
  mmodify (λ s, mk_disk (contents s) (console s ++ [l]) (syslog_lines s)).
Definition syslog (l : string) : M disk unit :=
  mmodify (λ s, mk_disk (contents s) (console s) (syslog_lines s ++ [l])).
Definition set_contents (f d : string) : M disk unit :=
  mmodify (λ s, mk_disk (<[f := d]> (contents s)) (console s) (syslog_lines s)).

Class StdioApi : Type := {
  (** whether [fopen(f, mode)] succeeds *)
  fopen_ok : string → bool;
  (** how many characters of a text reach the file *)
  written_chars : string → string → nat;
}.

(** [argv[i]]: a string, the [NULL] behind the last one, or out of range. *)
Definition argv_at (argv : list string) (i : nat) : outcome (option string) :=
  match argv !! i with
  | Some a => Ret (Some a)
  | None => if decide (i = length argv) then Ret None else UB OutOfBounds
  end.

Section writer.
Context `{Io : StdioApi}.

(** [fopen(path, mode)] with mode "w" empties the file. *)
Definition fopen_w (path : option string) : M disk (option string) :=
  match path with
  | None => mub NullDeref
  | Some f => if fopen_ok f then set_contents f "";; mret (Some f) else mret None
  end.

(** [fprintf(pFile, "%s", text); fclose(pFile);], the results not looked at. *)
Definition fprintf_s (f : string) (text : option string) : M disk unit :=
  match text with
  | None => mub NullDeref
  | Some t => set_contents f (String.substring 0 (written_chars f t) t)
  end.

Definition main (argv : list string) : M disk Z :=
  let argc := Z.of_nat (length argv) in
  if argc <? 2 then
    puts "Error arguments less than 2!";;
    syslog "Error arguments less than 2!";;
    mret 1
  else
    a1 ← mlift (argv_at argv 1);
    pFile ← fopen_w a1;
    match pFile with
    | Some f =>
      a2 ← mlift (argv_at argv 2);
      fprintf_s f a2;;
      mret 0
    | None =>
      puts "Error file does not exist!";;
      syslog "Error file does not exist!";;
      mret 1
    end.

(** ** Properties *)

Lemma substring_all t n : (String.length t ≤ n)%nat → String.substring 0 n t = t.
Proof.
  revert n. induction t as [|c t IH]; intros [|n] H; simpl in *; try lia; try done.
  by rewrite IH by lia.
Qed.

(** Every run of the writer.  Without a file name it returns 1 and changes no file;
    with a file that cannot be opened it returns 1 and changes no file; with a file and a
    text it returns 0 and the file holds the text, or, when the disk took only a part,
    that part and still 0; with a file but no text it passes [NULL] to [fprintf] after
    the file was emptied. *)
Theorem writer_main_runs argv s :
  match argv with
  | [] | [_] => wp (main argv) s (λ r s', r = 1 ∧ contents s' = contents s)
  | _ :: f :: rest =>
    (fopen_ok f = false →
     wp (main argv) s (λ r s', r = 1 ∧ contents s' = contents s)) ∧
    (fopen_ok f = true →
     match rest with
     | [] => main argv s = UB NullDeref
     | t :: _ =>
       wp (main argv) s (λ r s', r = 0 ∧
         contents s' = <[f := String.substring 0 (written_chars f t) t]> (contents s) ∧
         ((String.length t ≤ written_chars f t)%nat → contents s' !! f = Some t))
     end)
  end.
Proof.
  destruct argv as [|p [|f rest]]; [done..|].
  assert ((Z.of_nat (length (p :: f :: rest)) <? 2) = false) as Hargc
    by (apply Z.ltb_ge; simpl; lia).
  unfold main. cbv zeta. rewrite Hargc. split; intros Hf.
  - unfold wp. erewrite bind_eval by reflexivity. unfold fopen_w. by rewrite Hf.
  - destruct rest as [|t rest]; unfold wp; erewrite bind_eval by reflexivity;
      unfold fopen_w; rewrite Hf; [done|].
    split; [done|]. cbn -[insert lookup String.substring]. rewrite insert_insert_eq. split; [done|].
    intros Hl. by rewrite lookup_insert_eq, substring_all.
Qed.
End writer.

(** A disk with room for three characters; one file cannot be opened. *)
Definition small_disk : StdioApi := {|
  fopen_ok f := bool_decide (f ≠ "/proc/x");
  written_chars _ _ := 3%nat;
|}.

Lemma writer_main_runs_witness :
  wp (main (Io := small_disk) ["writer"; "/tmp/a"; "hey"]) (mk_disk ∅ [] []) (λ r s',
    r = 0 ∧ contents s' = <["/tmp/a" := "hey"]> ∅ ∧
    ((3 ≤ 3)%nat → contents s' !! "/tmp/a" = Some "hey")) ∧
  main (Io := small_disk) ["writer"; "/tmp/a"] (mk_disk ∅ [] []) = UB NullDeref.
Proof.
  split.
  - by apply (writer_main_runs (Io := small_disk) ["writer"; "/tmp/a"; "hey"]).
  - by apply (writer_main_runs (Io := small_disk) ["writer"; "/tmp/a"]).
Defined.

(** ** [autotest-validate.c] and its main program *)

Definition this_function_returns_true : bool := true.
Definition this_function_returns_false : bool := false.
Definition my_username : string := "todo-please-enter-your-username-here-in-my_username".

Definition autotest_main : list string :=
  ["this_function_returns_true returned " +:+
     (if this_function_returns_true then "true" else "false");
   "this_function_returns_false returned " +:+
     (if this_function_returns_false then "true" else "false")].

Example autotest_prints :
  autotest_main = ["this_function_returns_true returned true";
                   "this_function_returns_false returned false"].
Proof. reflexivity. Qed.
