(* ===== verification/ServerThread.v ===== *)
(** * The connection thread of the socket server

    A translation of [server_thread] of [server/aesdsocket.cpp] in the configuration the
    file selects ([USE_AESD_CHAR_DEVICE] is 1).  One round of its [do ... while (1)] loop is
    [server_round]: receive, cut the first line out of the message, append it to the log
    under the mutex, read the log back and send it.  Sockets, the mutex and [fopen] are the
    class [ServerApi]; the file behind [fopen] is the class [LogFile], which the character
    driver and a plain file both implement. *)

From stdpp Require Import base list option.
From Stdlib Require Strings.Byte.
From Stdlib Require Import ZArith Lia.
From S2P Require Import Prelude.
#[local] Open Scope Z_scope.

(** ** Constants and buffers *)

Definition SERVER_MSG_LEN : Z := 100000.
Definition LF_ : Z := 10.
Definition CR_ : Z := 13.
Definition CRLF_ : Z := 218.
Definition noOfRetries : Z := 10.

Definition byte_val (c : Byte.byte) : Z := Z.of_N (Byte.to_N c).

(** The [int] a [char] is promoted to; whether [char] is signed is the platform's choice. *)
Definition char_val (signed : bool) (c : Byte.byte) : Z :=
  if signed && (128 <=? byte_val c) then byte_val c - 256 else byte_val c.

(** [p[i]] and [p[i] = c] on a block, for an [unsigned int] index. *)
Definition buf_at (b : list Byte.byte) (i : Z) : outcome Byte.byte :=
  match b !! Z.to_nat i with Some c => Ret c | None => UB OutOfBounds end.

Definition buf_set (b : list Byte.byte) (i : Z) (c : Byte.byte) : outcome (list Byte.byte) :=
  if decide (i < Z.of_nat (length b)) then Ret (<[Z.to_nat i := c]> b) else UB OutOfBounds.

(** The bytes before the first ['\0']; [strlen] runs out of the block without one. *)
Fixpoint c_text (b : list Byte.byte) : outcome (list Byte.byte) :=
  match b with
  | [] => UB OutOfBounds
  | c :: b => if decide (c = NUL) then Ret [] else t ← c_text b; Ret (c :: t)
  end.

Definition zeros (n : Z) : list Byte.byte := replicate (Z.to_nat n) NUL.

(** ** Cutting out a line *)

Section framing.
Context (char_signed : bool).

Definition is_char (k : Z) (c : Byte.byte) : bool := k =? char_val char_signed c.

(** A character that ends the copying loop. *)
Definition ends_line (c : Byte.byte) : bool :=
  is_char LF_ c || is_char CR_ c || is_char CRLF_ c || bool_decide (c = NUL).

(** The copying loop: the new [fileBuffer], [i] and [j]. *)
Fixpoint copy_loop (fuel : nat) (msgLen : Z) (msg fileBuffer : list Byte.byte) (i j : Z) :
    outcome (list Byte.byte * Z * Z) :=
  match fuel with
  | O => OutOfFuel
  | S fuel =>
    if i <? msgLen then
      c ← buf_at msg i;
      if negb (bool_decide (c = NUL)) then
        if negb (is_char LF_ c) && negb (is_char CR_ c) && negb (is_char CRLF_ c)
           && negb (bool_decide (c = NUL))
        then
          fileBuffer ← buf_set fileBuffer j c;
          copy_loop fuel msgLen msg fileBuffer (u32 (i + 1)) (u32 (j + 1))
        else Ret (fileBuffer, i, j)
      else Ret (fileBuffer, i, j)
    else Ret (fileBuffer, i, j)
  end.

(** The [if] chain that stores the end of the line.  The second test increments [i] also
    when it fails, so the later ones look at the next character. *)
Definition store_end (msg fileBuffer : list Byte.byte) (i j : Z) : outcome (list Byte.byte) :=
  c ← buf_at msg i;
  if is_char LF_ c then buf_set fileBuffer j Byte.x0a
  else
    let i := u32 (i + 1) in
    crlf ← (if is_char CR_ c then d ← buf_at msg i; Ret (is_char LF_ d) else Ret false);
    if (crlf : bool) then
      fileBuffer ← buf_set fileBuffer j Byte.x0d;
      buf_set fileBuffer (u32 (j + 1)) Byte.x0a
    else
      d ← buf_at msg i;
      if is_char CR_ d then buf_set fileBuffer j Byte.x0d
      else if is_char CRLF_ d then buf_set fileBuffer j Byte.xda
      else buf_set fileBuffer j Byte.x0a.

Definition frame (msgLen : Z) (msg fileBuffer : list Byte.byte) : outcome (list Byte.byte) :=
  '(fileBuffer, i, j) ← copy_loop (Z.to_nat msgLen + 1) msgLen msg fileBuffer 0 0;
  store_end msg fileBuffer i j.
End framing.

(** ** The thread *)

(** The file that [fopen] gives: what writing a text makes of it (the driver does not look
    at the position, and a file opened with ["a+"] is always written at its end), what a
    reader sees from its beginning, and the position of its end. *)
Class LogFile (D : Type) : Type := {
  log_write : D → list Byte.byte → D;
  log_read : D → list Byte.byte;
  log_end : D → Z;
}.

(** What the system answers to the n-th call. *)
Class ServerApi : Type := {
  char_signed : bool;
  (** whether [malloc] finds memory for [fileBuffer] *)
  malloc_ok : bool;
  (** nothing for an error, no bytes for a closed connection *)
  recv_result : nat → Z → option (list Byte.byte);
  lock_result : nat → Z;
  unlock_result : nat → Z;
  fopen_ok : nat → bool;
  (** whether the position of the stream is moved *)
  fseek_ok : nat → bool;
  (** how many bytes of the text get to the file before the stream is moved *)
  fwrite_taken : nat → list Byte.byte → nat;
  (** how many of the bytes behind the position are read *)
  fread_taken : nat → list Byte.byte → nat;
  send_result : nat → list Byte.byte → Z;
}.

(** [recv] delivers at most the bytes asked for. *)
Class ServerLaws (A : ServerApi) : Prop :=
  recv_length : ∀ t n l, recv_result t n = Some l → Z.of_nat (length l) ≤ n.

(** The thread's arguments and locals, the log it shares with the other threads, whether
    it holds the mutex, what it sent, and the flag the main thread sets. *)
Record srv (D : Type) : Type := mk_srv {
  msg : list Byte.byte;
  msgLen : Z;
  fileBuffer : list Byte.byte;
  k : Z;
  calls : nat;
  log : D;
  holds : bool;
  sent : list (list Byte.byte);
  sigThreadTerminateFlag : bool;
  isComplete : bool;
}.
Arguments mk_srv {D}.
Arguments msg {D}.
Arguments msgLen {D}.
Arguments fileBuffer {D}.
Arguments k {D}.
Arguments calls {D}.
Arguments log {D}.
Arguments holds {D}.
Arguments sent {D}.
Arguments sigThreadTerminateFlag {D}.
Arguments isComplete {D}.

(** How a round ends: the loop goes on, the thread leaves it, or the process exits. *)
Inductive flow : Type := Next | Leave | ExitProcess.

Section thread.
Context {D : Type} `{L : LogFile D} `{A : ServerApi}.

Definition set_msg (b : list Byte.byte) : M (srv D) unit :=
  mmodify (λ s, mk_srv b (msgLen s) (fileBuffer s) (k s) (calls s) (log s) (holds s) (sent s)
                       (sigThreadTerminateFlag s) (isComplete s)).
Definition set_fileBuffer (b : list Byte.byte) : M (srv D) unit :=
  mmodify (λ s, mk_srv (msg s) (msgLen s) b (k s) (calls s) (log s) (holds s) (sent s)
                       (sigThreadTerminateFlag s) (isComplete s)).
Definition set_k (z : Z) : M (srv D) unit :=
  mmodify (λ s, mk_srv (msg s) (msgLen s) (fileBuffer s) z (calls s) (log s) (holds s) (sent s)
                       (sigThreadTerminateFlag s) (isComplete s)).
Definition set_log (d : D) : M (srv D) unit :=
  mmodify (λ s, mk_srv (msg s) (msgLen s) (fileBuffer s) (k s) (calls s) d (holds s) (sent s)
                       (sigThreadTerminateFlag s) (isComplete s)).
Definition set_holds (b : bool) : M (srv D) unit :=
  mmodify (λ s, mk_srv (msg s) (msgLen s) (fileBuffer s) (k s) (calls s) (log s) b (sent s)
                       (sigThreadTerminateFlag s) (isComplete s)).
Definition add_sent (l : list Byte.byte) : M (srv D) unit :=
  mmodify (λ s, mk_srv (msg s) (msgLen s) (fileBuffer s) (k s) (calls s) (log s) (holds s)
                       (sent s ++ [l]) (sigThreadTerminateFlag s) (isComplete s)).
Definition set_complete : M (srv D) unit :=
  mmodify (λ s, mk_srv (msg s) (msgLen s) (fileBuffer s) (k s) (calls s) (log s) (holds s)
                       (sent s) (sigThreadTerminateFlag s) true).
Definition next_call : M (srv D) nat :=
  λ s, Ret (calls s, mk_srv (msg s) (msgLen s) (fileBuffer s) (k s) (S (calls s)) (log s)
                       (holds s) (sent s) (sigThreadTerminateFlag s) (isComplete s)).

(** [recv(socketfd, msg, msgLen, 0)]. *)
Definition recv : M (srv D) Z :=
  t ← next_call;
  s ← mget;
  match recv_result t (msgLen s) with
  | None => mret (-1)
  | Some l =>
    if decide (length l ≤ length (msg s))%nat
    then set_msg (l ++ drop (length l) (msg s));; mret (Z.of_nat (length l))
    else mub OutOfBounds
  end.

Definition pthread_mutex_lock : M (srv D) Z :=
  t ← next_call;
  let r := lock_result t in
  (if r =? 0 then set_holds true else mret tt);;
  mret r.

(** Unlocking a mutex the thread does not hold is undefined. *)
Definition pthread_mutex_unlock : M (srv D) Z :=
  t ← next_call;
  h ← mgets holds;
  if (h : bool) then
    let r := unlock_result t in
    (if r =? 0 then set_holds false else mret tt);;
    mret r
  else mub LockMisuse.

(** [do { ... mutexRes = op(); } while ((0 != mutexRes) && (k++ < noOfRetries));] *)
Fixpoint retry_loop (fuel : nat) (op : M (srv D) Z) : M (srv D) Z :=
  match fuel with
  | O => λ _, OutOfFuel
  | S fuel =>
    mutexRes ← op;
    if negb (0 =? mutexRes) then
      z ← mgets k;
      set_k (u8 (z + 1));;
      if z <? noOfRetries then retry_loop fuel op else mret mutexRes
    else mret mutexRes
  end.

Definition retry (op : M (srv D) Z) : M (srv D) Z :=
  mutexRes ← op;
  if negb (0 =? mutexRes) then retry_loop (Z.to_nat noOfRetries + 1) op else mret mutexRes.

(** The stream [pFile] is its position; the results of [fseek], [fwrite], [fread] and
    [fclose] are not looked at, so a failure is what the file and the buffer hold then. *)
Definition fseek (pos target : Z) : M (srv D) Z :=
  t ← next_call;
  mret (if fseek_ok t then target else pos).

Definition fwrite (text : list Byte.byte) (pos : Z) : M (srv D) Z :=
  t ← next_call;
  d ← mgets log;
  let text := take (fwrite_taken t text) text in
  (if decide (text = []) then mret tt else set_log (log_write d text));;
  mret (pos + Z.of_nat (length text)).

Definition fread (n pos : Z) : M (srv D) (list Byte.byte) :=
  t ← next_call;
  d ← mgets log;
  let text := take (Z.to_nat n) (drop (Z.to_nat pos) (log_read d)) in
  mret (take (fread_taken t text) text).

Definition fclose : M (srv D) unit := next_call;; mret tt.

(** The part that runs with the mutex held: append the line, read the log back. *)
Definition critical_section : M (srv D) flow :=
  set_k 0;;
  t ← next_call;
  if negb (fopen_ok t) then mret ExitProcess
  else
    d ← mgets log;
    pos ← fseek 0 (log_end d);
    fb ← mgets fileBuffer;
    line ← mlift (c_text fb);
    pos ← fwrite line pos;
    set_fileBuffer (zeros SERVER_MSG_LEN);;
    pos ← fseek pos 0;
    text ← fread SERVER_MSG_LEN pos;
    set_fileBuffer (text ++ drop (length text) (zeros SERVER_MSG_LEN));;
    fclose;;
    retry pthread_mutex_unlock;;
    mret Next.

Definition send : M (srv D) Z :=
  fb ← mgets fileBuffer;
  text ← mlift (c_text fb);
  t ← next_call;
  add_sent text;;
  mret (send_result t text).

(** A message has arrived, or [recv] failed. *)
Definition handle_message : M (srv D) flow :=
  s ← mget;
  fb ← mlift (frame char_signed (msgLen s) (msg s) (fileBuffer s));
  set_fileBuffer fb;;
  mutexRes ← retry pthread_mutex_lock;
  f ← (if 0 =? mutexRes then critical_section else mret Next);
  match f with
  | Next =>
    send;;
    set_fileBuffer (zeros SERVER_MSG_LEN);;
    mret Next
  | f => mret f
  end.

(** One round of the loop. *)
Definition server_round : M (srv D) flow :=
  s ← mget;
  if sigThreadTerminateFlag s then
    pthread_mutex_unlock;;
    mret Leave
  else
    numOfBytes ← recv;
    f ← (if negb (0 =? numOfBytes) then handle_message else mret Next);
    match f with
    | Next =>
      s ← mget;
      set_msg (zeros (msgLen s));;
      mret Next
    | f => mret f
    end.

(** [n] rounds, as long as the thread stays in its loop. *)
Fixpoint server_rounds (n : nat) : M (srv D) flow :=
  match n with
  | O => mret Next
  | S n => f ← server_round; match f with Next => server_rounds n | f => mret f end
  end.

(** The thread up to round [n]: the two buffers are cleared, then the loop, and the end
    of a thread that left it. *)
Definition server_thread (n : nat) : M (srv D) flow :=
  s ← mget;
  set_msg (zeros (msgLen s));;
  (if malloc_ok then set_fileBuffer (zeros SERVER_MSG_LEN) else mub NullDeref);;
  f ← server_rounds n;
  match f with
  | Leave => set_complete;; mret Leave
  | f => mret f
  end.
End thread.
