(* ===== verification/ServerThreadSpec.v ===== *)
(** * What the connection thread does with a message

    The line that is cut out of a message as a function of the message, and from it the
    effect of a whole round on the log and on the client. *)

From stdpp Require Import base list option sets.
From Stdlib Require Strings.Byte.
From Stdlib Require Import ZArith Lia.
From S2P Require Import Prelude ServerThread.
#[local] Open Scope Z_scope.

(** ** Buffers *)

Lemma length_zeros n : length (zeros n) = Z.to_nat n.
Proof. apply length_replicate. Qed.

Lemma drop_zeros n k : drop k (zeros n) = zeros (n - Z.of_nat k).
Proof. unfold zeros. rewrite drop_replicate. f_equal. lia. Qed.

Lemma zeros_cons n : 0 < n → zeros n = NUL :: zeros (n - 1).
Proof. intros Hn. unfold zeros. by replace (Z.to_nat n) with (S (Z.to_nat (n - 1))) by lia. Qed.

Lemma buf_at_app pre c rest i :
  i = Z.of_nat (length pre) → buf_at (pre ++ c :: rest) i = Ret c.
Proof. intros ->. unfold buf_at. by rewrite Nat2Z.id, list_lookup_middle by done. Qed.

Lemma buf_at_end b i : i = Z.of_nat (length b) → buf_at b i = UB OutOfBounds.
Proof. intros ->. unfold buf_at. by rewrite Nat2Z.id, lookup_ge_None_2 by lia. Qed.

Lemma buf_set_app pre x rest i c :
  i = Z.of_nat (length pre) → buf_set (pre ++ x :: rest) i c = Ret (pre ++ c :: rest).
Proof.
  intros ->. unfold buf_set. rewrite decide_True by (rewrite length_app; simpl; lia).
  rewrite Nat2Z.id, insert_app_r_alt by lia. by rewrite Nat.sub_diag.
Qed.

(** The text of a buffer that was cleared before. *)
Lemma c_text_zeros t n : 0 < n → NUL ∉ t → c_text (t ++ zeros n) = Ret t.
Proof.
  intros Hn. induction t as [|c t IH]; simpl; intros Ht.
  - by rewrite zeros_cons by done.
  - rewrite decide_False by set_solver. rewrite IH by set_solver. done.
Qed.

(** ** The line of a message *)

Section framing.
Context (cs : bool).
#[local] Abbreviation ends_line := (ends_line cs).
#[local] Abbreviation is_char := (is_char cs).

(** The end of a line that stops at [c], when [d] comes next. *)
Definition line_end (c d : Byte.byte) : list Byte.byte :=
  if is_char LF_ c then [Byte.x0a]
  else if is_char CR_ c && is_char LF_ d then [Byte.x0d; Byte.x0a]
  else if is_char CR_ d then [Byte.x0d]
  else if is_char CRLF_ d then [Byte.xda]
  else [Byte.x0a].

(** What is cut out of the received bytes: the characters before the first one that ends
    a line, and an end.  Behind the last byte received the buffer holds zeros. *)
Fixpoint framed (l : list Byte.byte) : list Byte.byte :=
  match l with
  | [] => [Byte.x0a]
  | c :: l =>
    if ends_line c then line_end c (default NUL (hd_error l)) else c :: framed l
  end.

Lemma ends_line_NUL : ends_line NUL = true.
Proof. unfold ServerThread.ends_line. rewrite bool_decide_true by done. apply orb_true_r. Qed.

Lemma line_end_NUL : line_end NUL NUL = [Byte.x0a].
Proof. unfold line_end. by destruct cs. Qed.

Lemma is_char_NUL z : 0 < z → is_char z NUL = false.
Proof. intros Hz. unfold ServerThread.is_char. apply Z.eqb_neq. destruct cs; cbn; lia. Qed.

Lemma line_end_length c l : (length (line_end c (default NUL (hd_error l))) ≤ length l + 1)%nat.
Proof.
  unfold line_end. destruct l as [|d l].
  - change (default NUL (hd_error [])) with NUL. rewrite (is_char_NUL LF_), andb_false_r by done. repeat case_match; simpl; lia.
  - repeat case_match; simpl; lia.
Qed.

Lemma framed_length l : (length (framed l) ≤ length l + 1)%nat.
Proof.
  induction l as [|c l IH]; simpl; [lia|]. destruct (ends_line c).
  - pose proof (line_end_length c l). lia.
  - simpl. lia.
Qed.

Lemma framed_nonempty l : framed l ≠ [].
Proof.
  destruct l as [|c l]; simpl; [done|]. destruct (ends_line c); [|done].
  unfold line_end. by repeat case_match.
Qed.

Lemma framed_no_NUL l : NUL ∉ framed l.
Proof.
  induction l as [|c l IH]; simpl; [set_solver|]. destruct (ends_line c) eqn:E.
  - unfold line_end. repeat case_match; set_solver.
  - apply not_elem_of_cons. split; [|done]. intros <-. by rewrite ends_line_NUL in E.
Qed.

(** ** The copying loop *)

Lemma ends_line_split c :
  ends_line c = false →
  bool_decide (c = NUL) = false ∧ is_char LF_ c = false ∧ is_char CR_ c = false ∧
  is_char CRLF_ c = false.
Proof.
  unfold ServerThread.ends_line. intros H. apply orb_false_iff in H as [H Hn].
  apply orb_false_iff in H as [H H3]. apply orb_false_iff in H as [H1 H2]. done.
Qed.

(** One character that does not end the line is copied. *)
Lemma copy_loop_copies fuel msgLen pre c rest x fb :
  ends_line c = false → Z.of_nat (length (pre ++ c :: rest)) ≤ msgLen → msgLen < 2 ^ 32 →
  copy_loop cs (S fuel) msgLen (pre ++ c :: rest) (pre ++ x :: fb)
    (Z.of_nat (length pre)) (Z.of_nat (length pre)) =
  copy_loop cs fuel msgLen ((pre ++ [c]) ++ rest) ((pre ++ [c]) ++ fb)
    (Z.of_nat (length (pre ++ [c]))) (Z.of_nat (length (pre ++ [c]))).
Proof.
  intros Hc Hm H32. rewrite length_app in Hm. simpl in Hm.
  apply ends_line_split in Hc as (H0 & H1 & H2 & H3). cbn [copy_loop].
  rewrite (proj2 (Z.ltb_lt _ _)) by lia. rewrite buf_at_app by done. cbn [mbind outcome_bind].
  rewrite H0, H1, H2, H3. cbn [negb andb]. rewrite buf_set_app by done.
  cbn [mbind outcome_bind]. rewrite <- !app_assoc. cbn [app].
  rewrite length_app, uwrap_small by lia. simpl. do 2 f_equal; lia.
Qed.

(** At a character that ends the line the loop stops. *)
Lemma copy_loop_stops fuel msgLen pre c rest fb :
  ends_line c = true → Z.of_nat (length (pre ++ c :: rest)) ≤ msgLen →
  copy_loop cs (S fuel) msgLen (pre ++ c :: rest) fb
    (Z.of_nat (length pre)) (Z.of_nat (length pre)) =
  Ret (fb, Z.of_nat (length pre), Z.of_nat (length pre)).
Proof.
  intros Hc Hm. rewrite length_app in Hm. simpl in Hm. cbn [copy_loop].
  rewrite (proj2 (Z.ltb_lt _ _)) by lia. rewrite buf_at_app by done. cbn [mbind outcome_bind].
  unfold ServerThread.ends_line in Hc. unfold ServerThread.is_char in *.
  destruct (bool_decide (c = NUL)); [done|]. rewrite orb_false_r in Hc.
  destruct (LF_ =? _); [done|]. destruct (CR_ =? _); [done|]. by destruct (CRLF_ =? _).
Qed.

Lemma store_end_eval pre c d rest fb x y :
  Z.of_nat (length (pre ++ c :: d :: rest)) < 2 ^ 32 →
  store_end cs (pre ++ c :: d :: rest) (pre ++ x :: y :: fb)
    (Z.of_nat (length pre)) (Z.of_nat (length pre)) =
  Ret (pre ++ line_end c d ++ drop (length (line_end c d)) (x :: y :: fb)).
Proof.
  intros H32. rewrite length_app in H32. simpl in H32. unfold store_end.
  rewrite (buf_at_app pre c (d :: rest) (Z.of_nat (length pre))) by done. cbn [mbind outcome_bind]. unfold line_end.
  destruct (is_char LF_ c) eqn:E1; [by rewrite buf_set_app|]. cbv zeta.
  rewrite uwrap_small by lia.
  assert (∀ l, buf_at (pre ++ c :: d :: l) (Z.of_nat (length pre) + 1) = Ret d) as Hd.
  { intros l. rewrite (cons_middle c pre), app_assoc. apply buf_at_app.
    rewrite length_app. simpl. lia. }
  rewrite Hd. destruct (is_char CR_ c) eqn:E2; cbn [mbind outcome_bind andb].
  - destruct (is_char LF_ d) eqn:E3.
    + rewrite buf_set_app by done. cbn [mbind outcome_bind].
      rewrite (cons_middle Byte.x0d pre), app_assoc.
      rewrite buf_set_app by (rewrite length_app; simpl; lia). by rewrite <- app_assoc.
    + destruct (is_char CR_ d); [by rewrite buf_set_app|].
      destruct (is_char CRLF_ d); by rewrite buf_set_app.
  - destruct (is_char CR_ d); [by rewrite buf_set_app|].
    destruct (is_char CRLF_ d); by rewrite buf_set_app.
Qed.

(** The copying loop and the end of the line from any point on. *)
Lemma frame_from l : ∀ pre fuel n m,
  let msg := pre ++ l ++ zeros n in
  Z.of_nat (length msg) < 2 ^ 32 → 2 ≤ n → Z.of_nat (length l) + 2 ≤ m → (length l < fuel)%nat →
  ('(fb, i, j) ← copy_loop cs fuel (Z.of_nat (length msg)) msg (pre ++ zeros m)
     (Z.of_nat (length pre)) (Z.of_nat (length pre)); store_end cs msg fb i j) =
  Ret (pre ++ framed l ++ zeros (m - Z.of_nat (length (framed l)))).
Proof.
  induction l as [|c l IH]; intros pre [|fuel] n m msg H32 Hn Hm Hf; subst msg; simpl in Hf, Hm;
    try lia.
  - cbn [app] in *. rewrite (zeros_cons n), (zeros_cons (n - 1)) in * by lia.
    rewrite copy_loop_stops by (apply ends_line_NUL || lia). cbn [mbind outcome_bind].
    rewrite (zeros_cons m), (zeros_cons (m - 1)) by lia. rewrite store_end_eval by done.
    rewrite line_end_NUL. change (Z.of_nat (length (framed []))) with 1.
    by rewrite (zeros_cons (m - 1)) by lia.
  - cbn [app framed] in *. destruct (ends_line c) eqn:E.
    + rewrite copy_loop_stops by (done || lia). cbn [mbind outcome_bind].
      assert (∃ d rest, l ++ zeros n = d :: rest ∧ d = default NUL (hd_error l)) as (d & rest & Hl & Hd).
      { destruct l as [|d l]; [|by eexists d, _]. rewrite (zeros_cons n) by lia. by eexists NUL, _. }
      rewrite <- Hd. rewrite Hl in *. rewrite (zeros_cons m), (zeros_cons (m - 1)) by lia.
      rewrite store_end_eval by done. do 3 f_equal.
      rewrite <- (zeros_cons (m - 1)), <- (zeros_cons m) by lia. by rewrite drop_zeros.
    + rewrite (zeros_cons m) by lia. rewrite copy_loop_copies by (done || lia).
      specialize (IH (pre ++ [c]) fuel n (m - 1)). cbv zeta in IH.
      rewrite <- !app_assoc in IH. cbn [app] in IH. rewrite <- !app_assoc. cbn [app].
      rewrite IH by (done || lia). cbn [length]. do 4 f_equal. f_equal. lia.
Qed.

Lemma frame_framed l msgLen :
  Z.of_nat (length l) + 2 ≤ msgLen ≤ SERVER_MSG_LEN →
  frame cs msgLen (l ++ zeros (msgLen - Z.of_nat (length l))) (zeros SERVER_MSG_LEN) =
  Ret (framed l ++ zeros (SERVER_MSG_LEN - Z.of_nat (length (framed l)))).
Proof.
  intros H. unfold SERVER_MSG_LEN in *. unfold frame.
  pose proof (frame_from l [] (Z.to_nat msgLen + 1) (msgLen - Z.of_nat (length l)) 100000) as E.
  cbv zeta in E. cbn [app length] in E.
  assert (Z.of_nat (length (l ++ zeros (msgLen - Z.of_nat (length l)))) = msgLen) as Hlen
    by (rewrite length_app, length_zeros; lia).
  rewrite Hlen in E. change (Z.of_nat 0) with 0 in E. apply E; lia.
Qed.

(** A message that fills the buffer and has no end of line is read past its end. *)
Lemma copy_loop_all l : ∀ pre fuel m,
  Forall (λ c, ends_line c = false) l → Z.of_nat (length (pre ++ l)) < 2 ^ 32 →
  (length l < fuel)%nat → Z.of_nat (length l) ≤ m →
  copy_loop cs fuel (Z.of_nat (length (pre ++ l))) (pre ++ l) (pre ++ zeros m)
    (Z.of_nat (length pre)) (Z.of_nat (length pre)) =
  Ret (pre ++ l ++ zeros (m - Z.of_nat (length l)),
       Z.of_nat (length (pre ++ l)), Z.of_nat (length (pre ++ l))).
Proof.
  induction l as [|c l IH]; intros pre [|fuel] m Hl H32 Hf Hm; simpl in Hf, Hm; try lia.
  - rewrite app_nil_r. cbn [copy_loop length app]. rewrite Z.ltb_irrefl.
    by replace (m - Z.of_nat 0) with m by lia.
  - apply Forall_cons in Hl as [Hc Hl]. rewrite (zeros_cons m) by lia.
    rewrite copy_loop_copies by (done || lia).
    specialize (IH (pre ++ [c]) fuel (m - 1)). rewrite <- !app_assoc in IH. cbn [app] in IH.
    rewrite <- !app_assoc. cbn [app]. rewrite IH by (done || lia).
    by replace (m - 1 - Z.of_nat (length l)) with (m - Z.of_nat (length (c :: l))) by (simpl; lia).
Qed.

Lemma frame_overlong l :
  Forall (λ c, ends_line c = false) l → Z.of_nat (length l) = SERVER_MSG_LEN →
  frame cs SERVER_MSG_LEN l (zeros SERVER_MSG_LEN) = UB OutOfBounds.
Proof.
  intros Hl Hlen. unfold frame.
  pose proof (copy_loop_all l [] (Z.to_nat SERVER_MSG_LEN + 1) SERVER_MSG_LEN Hl) as E.
  cbn [app length] in E. change (Z.of_nat 0) with 0 in E. rewrite Hlen in E.
  rewrite E by (unfold SERVER_MSG_LEN in *; lia). cbn [mbind outcome_bind].
  unfold store_end. by rewrite (buf_at_end l SERVER_MSG_LEN) by auto.
Qed.
End framing.

(** ** A round *)

(** A system on which the mutex and the calls on the file always work. *)
Class ServerSmooth (A : ServerApi) : Prop := {
  smooth_lock : ∀ t, lock_result t = 0;
  smooth_unlock : ∀ t, unlock_result t = 0;
  smooth_fopen : ∀ t, fopen_ok t = true;
  smooth_fseek : ∀ t, fseek_ok t = true;
  smooth_fwrite : ∀ t l, fwrite_taken t l = length l;
  smooth_fread : ∀ t l, fread_taken t l = length l;
}.

Section rounds.
Context {D : Type} `{L : LogFile D} `{A : ServerApi} `{SL : !ServerLaws A} `{SS : !ServerSmooth A}.
#[local] Abbreviation framed := (framed char_signed).

(** The state between two rounds. *)
Record ready (s : srv D) : Prop := {
  rd_msg : msg s = zeros (msgLen s);
  rd_fileBuffer : fileBuffer s = zeros SERVER_MSG_LEN;
  rd_holds : holds s = false;
  rd_flag : sigThreadTerminateFlag s = false;
  rd_len : 2 ≤ msgLen s ≤ SERVER_MSG_LEN;
}.

Lemma lock_eval (s : srv D) :
  retry pthread_mutex_lock s =
  Ret (0, mk_srv (msg s) (msgLen s) (fileBuffer s) (k s) (S (calls s)) (log s) true (sent s)
                 (sigThreadTerminateFlag s) (isComplete s)).
Proof.
  unfold retry, pthread_mutex_lock, mbind, M_bind. cbn [next_call]. by rewrite smooth_lock.
Qed.

Lemma unlock_eval (s : srv D) :
  holds s = true →
  retry pthread_mutex_unlock s =
  Ret (0, mk_srv (msg s) (msgLen s) (fileBuffer s) (k s) (S (calls s)) (log s) false (sent s)
                 (sigThreadTerminateFlag s) (isComplete s)).
Proof.
  intros Hh. unfold retry, pthread_mutex_unlock, mbind, M_bind, mgets. cbn [next_call holds].
  by rewrite Hh, smooth_unlock.
Qed.

(** One step of a handler, with the state after it written out. *)
#[local] Tactic Notation "call" tactic3(tac) :=
  erewrite bind_eval by tac;
  cbn [msg msgLen fileBuffer k calls log holds sent sigThreadTerminateFlag isComplete].

(** The calls on the file when they work. *)
Lemma fseek_eval (s : srv D) pos target :
  fseek pos target s =
  Ret (target, mk_srv (msg s) (msgLen s) (fileBuffer s) (k s) (S (calls s)) (log s)
         (holds s) (sent s) (sigThreadTerminateFlag s) (isComplete s)).
Proof. unfold fseek. erewrite bind_eval by reflexivity. by rewrite smooth_fseek. Qed.

Lemma fwrite_eval (s : srv D) text pos :
  text ≠ [] →
  fwrite text pos s =
  Ret (pos + Z.of_nat (length text),
       mk_srv (msg s) (msgLen s) (fileBuffer s) (k s) (S (calls s)) (log_write (log s) text)
              (holds s) (sent s) (sigThreadTerminateFlag s) (isComplete s)).
Proof.
  intros Ht. unfold fwrite. erewrite bind_eval by reflexivity. erewrite bind_eval by reflexivity.
  cbv zeta. rewrite smooth_fwrite, firstn_all, decide_False by done. done.
Qed.

Lemma fread_eval (s : srv D) n :
  (length (log_read (log s)) ≤ Z.to_nat n)%nat →
  fread n 0 s =
  Ret (log_read (log s), mk_srv (msg s) (msgLen s) (fileBuffer s) (k s) (S (calls s)) (log s)
         (holds s) (sent s) (sigThreadTerminateFlag s) (isComplete s)).
Proof.
  intros Hn. unfold fread. erewrite bind_eval by reflexivity. erewrite bind_eval by reflexivity.
  cbv zeta. cbn [log]. rewrite smooth_fread, firstn_all. cbn [Z.to_nat drop]. by rewrite take_ge.
Qed.

(** The critical section writes the line and leaves the log in the buffer. *)
Lemma critical_section_eval (s : srv D) line n :
  holds s = true → fileBuffer s = line ++ zeros n → 0 < n → NUL ∉ line → line ≠ [] →
  let d := log_write (log s) line in
  (length (log_read d) ≤ Z.to_nat SERVER_MSG_LEN)%nat →
  critical_section s =
  Ret (Next, mk_srv (msg s) (msgLen s)
               (log_read d ++ zeros (SERVER_MSG_LEN - Z.of_nat (length (log_read d)))) 0
               (7 + calls s) d false (sent s) (sigThreadTerminateFlag s) (isComplete s)).
Proof.
  intros Hh Hfb Hn Hnul Hne d Hlen. unfold critical_section. do 2 call reflexivity.
  rewrite smooth_fopen. cbn [negb]. call reflexivity. call (apply fseek_eval).
  call reflexivity. call (unfold mlift; rewrite Hfb, c_text_zeros by done; reflexivity).
  call (by apply fwrite_eval). call reflexivity. call (apply fseek_eval).
  call (by apply fread_eval). cbn [log]. fold d.
  rewrite (drop_zeros SERVER_MSG_LEN (length (log_read d))).
  do 2 call reflexivity. by call (by apply unlock_eval).
Qed.

(** A message is cut, logged and answered. *)
Lemma handle_message_eval (s : srv D) l :
  msg s = l ++ zeros (msgLen s - Z.of_nat (length l)) → fileBuffer s = zeros SERVER_MSG_LEN →
  Z.of_nat (length l) + 2 ≤ msgLen s ≤ SERVER_MSG_LEN →
  let d := log_write (log s) (framed l) in
  Z.of_nat (length (log_read d)) < SERVER_MSG_LEN → NUL ∉ log_read d →
  handle_message s =
  Ret (Next, mk_srv (msg s) (msgLen s) (zeros SERVER_MSG_LEN) 0 (9 + calls s) d false
               (sent s ++ [log_read d]) (sigThreadTerminateFlag s) (isComplete s)).
Proof.
  intros Hmsg Hfb Hlen d Hd Hnul. unfold handle_message.
  erewrite bind_eval by reflexivity.
  erewrite bind_eval by (unfold mlift; rewrite Hmsg, Hfb, frame_framed by done; reflexivity).
  erewrite bind_eval by reflexivity. erewrite bind_eval by apply lock_eval.
  change (0 =? 0) with true. cbv iota.
  pose proof (framed_length char_signed l).
  erewrite bind_eval by (eapply critical_section_eval;
    [done|reflexivity|lia|apply framed_no_NUL|apply framed_nonempty|cbn [log]; fold d; lia]).
  cbn [log msg msgLen k calls holds sent]. fold d. unfold send.
  erewrite bind_eval; [|erewrite bind_eval by reflexivity; cbn [fileBuffer];
    erewrite bind_eval by (unfold mlift; rewrite c_text_zeros by (done || lia); reflexivity);
    erewrite bind_eval by reflexivity; erewrite bind_eval by reflexivity; reflexivity].
  by erewrite bind_eval by reflexivity.
Qed.

(** The bytes of a round: what was received, or nothing after an error. *)
Lemma round_eval (s : srv D) r l :
  ready s → recv_result (calls s) (msgLen s) = r →
  match r with Some l' => l' = l ∧ l ≠ [] | None => l = [] end →
  Z.of_nat (length l) + 2 ≤ msgLen s →
  let d := log_write (log s) (framed l) in
  Z.of_nat (length (log_read d)) < SERVER_MSG_LEN → NUL ∉ log_read d →
  server_round s =
  Ret (Next, mk_srv (zeros (msgLen s)) (msgLen s) (zeros SERVER_MSG_LEN) 0 (10 + calls s) d false
               (sent s ++ [log_read d]) false (isComplete s)).
Proof.
  intros [Hm Hfb Hh Hf Hl] Hr Hcase Hlen d Hd Hnul. unfold server_round.
  erewrite bind_eval by reflexivity. rewrite Hf.
  assert (∃ n, n ≠ 0 ∧ recv s = Ret (n, mk_srv (l ++ zeros (msgLen s - Z.of_nat (length l)))
    (msgLen s) (fileBuffer s) (k s) (S (calls s)) (log s) (holds s) (sent s)
    (sigThreadTerminateFlag s) (isComplete s))) as (n & Hn & Hrecv).
  { unfold recv. erewrite bind_eval by reflexivity. erewrite bind_eval by reflexivity.
    cbn [msgLen msg]. rewrite Hr. destruct r as [l'|].
    - destruct Hcase as [-> Hne]. rewrite decide_True by (rewrite Hm, length_zeros; lia).
      exists (Z.of_nat (length l)). split; [destruct l; [done|simpl; lia]|].
      erewrite bind_eval by reflexivity. cbn [msg]. by rewrite Hm, drop_zeros.
    - subst l. exists (-1). split; [done|]. simpl. by rewrite Z.sub_0_r, <- Hm. }
  erewrite bind_eval by exact Hrecv. rewrite (proj2 (Z.eqb_neq 0 n)) by congruence. cbn [negb].
  erewrite bind_eval by (apply handle_message_eval with (l := l); [done|done|simpl; lia|done|done]).
  cbv iota beta. erewrite bind_eval by reflexivity. cbn [msgLen]. erewrite bind_eval by reflexivity.
  cbn [msg msgLen fileBuffer k calls log holds sent sigThreadTerminateFlag isComplete].
  by rewrite Hf.
Qed.

(** ** Properties of single rounds *)

(** A receive error is handled like a message: a bare newline is appended to the log
    and the whole log is sent to the client. *)
Theorem recv_error_logs_newline (s : srv D) :
  ready s → recv_result (calls s) (msgLen s) = None →
  let d := log_write (log s) [LF] in
  Z.of_nat (length (log_read d)) < SERVER_MSG_LEN → NUL ∉ log_read d →
  wp server_round s (λ f s',
    f = Next ∧ log s' = d ∧ sent s' = sent s ++ [log_read d] ∧ ready s').
Proof.
  intros Hr Hn d Hd Hnul. pose proof (rd_len _ Hr). unfold wp.
  rewrite (round_eval s None []) by (done || (simpl; lia)).
  split_and!; [done..|]. by split.
Qed.
End rounds.

Section failures.
Context {D : Type} `{L : LogFile D} `{A : ServerApi}.

(** A thread that is told to terminate unlocks the mutex it does not hold. *)
Theorem terminate_unlocks_unheld (s : srv D) :
  sigThreadTerminateFlag s = true → holds s = false → server_round s = UB LockMisuse.
Proof.
  intros Hf Hh. unfold server_round. erewrite bind_eval by reflexivity. rewrite Hf.
  apply bind_ub. unfold pthread_mutex_unlock. erewrite bind_eval by reflexivity.
  erewrite bind_eval by reflexivity. cbn [holds]. by rewrite Hh.
Qed.

(** Only the retry counter and the number of calls change while the lock fails. *)
Definition tried (s : srv D) (k' : Z) (n : nat) : srv D :=
  mk_srv (msg s) (msgLen s) (fileBuffer s) k' (n + calls s) (log s) (holds s) (sent s)
         (sigThreadTerminateFlag s) (isComplete s).

Lemma lock_refused (s : srv D) :
  lock_result (calls s) ≠ 0 →
  pthread_mutex_lock s = Ret (lock_result (calls s), tried s (k s) 1).
Proof.
  intros H. unfold pthread_mutex_lock. erewrite bind_eval by reflexivity. cbv zeta.
  rewrite (proj2 (Z.eqb_neq _ _)) by done. by erewrite bind_eval by reflexivity.
Qed.

Lemma retry_loop_gives_up (s : srv D) fuel :
  (∀ t, lock_result t ≠ 0) → 0 ≤ k s < 256 → noOfRetries - k s < Z.of_nat fuel →
  (1 ≤ fuel)%nat →
  ∃ r k' n, retry_loop fuel pthread_mutex_lock s = Ret (r, tried s k' n) ∧ r ≠ 0 ∧
            0 ≤ k' < 256 ∧ (n ≤ fuel)%nat.
Proof.
  intros Hl. revert s. induction fuel as [|fuel IH]; intros s Hk Hf H1; [lia|].
  cbn [retry_loop]. erewrite bind_eval by by apply lock_refused.
  rewrite (proj2 (Z.eqb_neq 0 _)) by (intros E; by eapply Hl). cbn [negb].
  erewrite bind_eval by reflexivity. erewrite bind_eval by reflexivity.
  cbn [k msg msgLen fileBuffer calls log holds sent sigThreadTerminateFlag isComplete tried].
  pose proof (uwrap_range 8 (k s + 1) ltac:(lia)) as Hu.
  destruct (Z.ltb_spec (k s) noOfRetries) as [Hlt|Hge].
  - unfold noOfRetries in *. rewrite uwrap_small in * by lia.
    destruct (IH (tried s (k s + 1) 1)) as (r & k' & n & E & Hr & Hk' & Hn); simpl; try lia.
    unfold tried in E. simpl in E. simpl. rewrite E. exists r, k', (S n).
    split; [|split; [done|split; [done|lia]]]. unfold tried. simpl. by rewrite Nat.add_succ_r.
  - eexists _, _, 1%nat. split; [reflexivity|]. split; [apply Hl|]. split; [done|lia].
Qed.

Lemma retry_gives_up (s : srv D) :
  (∀ t, lock_result t ≠ 0) → 0 ≤ k s < 256 →
  ∃ r k' n, retry pthread_mutex_lock s = Ret (r, tried s k' n) ∧ r ≠ 0 ∧ 0 ≤ k' < 256 ∧
            (n ≤ 12)%nat.
Proof.
  intros Hl Hk. unfold retry. erewrite bind_eval by by apply lock_refused.
  rewrite (proj2 (Z.eqb_neq 0 _)) by (intros E; by eapply Hl). cbn [negb].
  destruct (retry_loop_gives_up (tried s (k s) 1) (Z.to_nat noOfRetries + 1))
    as (r & k' & n & E & Hr & Hk' & Hn); [done|done|simpl; unfold noOfRetries in *; lia|simpl; lia|].
  rewrite E. exists r, k', (S n). split; [|split; [done|split; [done|simpl in Hn; lia]]].
  unfold tried. simpl. by rewrite Nat.add_succ_r.
Qed.

(** When the mutex cannot be locked, the retries end after at most twelve calls, the
    message is not logged, and the client is sent its own line back as if it were the
    log. *)
Theorem lock_failure_echoes (s : srv D) l :
  (∀ t, lock_result t ≠ 0) → 0 ≤ k s < 256 →
  msg s = l ++ zeros (msgLen s - Z.of_nat (length l)) → fileBuffer s = zeros SERVER_MSG_LEN →
  Z.of_nat (length l) + 2 ≤ msgLen s ≤ SERVER_MSG_LEN →
  wp handle_message s (λ f s',
    f = Next ∧ log s' = log s ∧ holds s' = holds s ∧
    sent s' = sent s ++ [framed char_signed l] ∧ (calls s' ≤ calls s + 13)%nat).
Proof.
  intros Hl Hk Hmsg Hfb Hlen. unfold wp, handle_message.
  erewrite bind_eval by reflexivity.
  erewrite bind_eval by (unfold mlift; rewrite Hmsg, Hfb, frame_framed by done; reflexivity).
  erewrite bind_eval by reflexivity.
  destruct (retry_gives_up (mk_srv (msg s) (msgLen s)
    (framed char_signed l ++ zeros (SERVER_MSG_LEN - Z.of_nat (length (framed char_signed l))))
    (k s) (calls s) (log s) (holds s) (sent s) (sigThreadTerminateFlag s) (isComplete s)))
    as (r & k' & n & E & Hr & Hk' & Hn); [done|done|].
  erewrite bind_eval by exact E.
  rewrite (proj2 (Z.eqb_neq 0 r)) by congruence. erewrite bind_eval by reflexivity. cbv iota beta.
  pose proof (framed_length char_signed l).
  unfold send. erewrite bind_eval; [|erewrite bind_eval by reflexivity; cbn [fileBuffer tried];
    erewrite bind_eval by (unfold mlift; rewrite c_text_zeros by
      (apply framed_no_NUL || lia); reflexivity);
    erewrite bind_eval by reflexivity; erewrite bind_eval by reflexivity; reflexivity].
  erewrite bind_eval by reflexivity. cbn -[framed zeros]. repeat split; lia.
Qed.
Lemma wp_next_call (s : srv D) Q :
  wp next_call s Q ↔
  Q (calls s) (mk_srv (msg s) (msgLen s) (fileBuffer s) (k s) (S (calls s)) (log s) (holds s)
                 (sent s) (sigThreadTerminateFlag s) (isComplete s)).
Proof. done. Qed.

(** One attempt to unlock, and the attempts that follow while it fails: at most twelve, and
    the file stays as it is. *)
Lemma wp_unlock (s : srv D) :
  holds s = true →
  wp pthread_mutex_unlock s (λ r s', log s' = log s ∧ k s' = k s ∧ (r ≠ 0 → holds s' = true)).
Proof.
  intros Hh. unfold wp, pthread_mutex_unlock. erewrite bind_eval by reflexivity.
  erewrite bind_eval by reflexivity. cbn [holds]. rewrite Hh. cbv zeta.
  destruct (Z.eqb_spec (unlock_result (calls s)) 0) as [E|E];
    erewrite bind_eval by reflexivity; cbn; [by rewrite E|done].
Qed.

Lemma wp_retry_loop_unlock fuel : ∀ s : srv D,
  holds s = true → 0 ≤ k s ≤ noOfRetries → noOfRetries - k s < Z.of_nat fuel →
  wp (retry_loop fuel pthread_mutex_unlock) s (λ _ s', log s' = log s).
Proof.
  unfold noOfRetries. induction fuel as [|fuel IH]; intros s Hh Hk Hf; [lia|].
  cbn [retry_loop]. apply wp_bind. eapply wp_mono; [by apply wp_unlock|].
  intros r s1 (Hl & Hk1 & Hh1). destruct (Z.eqb_spec 0 r) as [|Hr]; [done|]. cbn [negb].
  rewrite wp_bind, wp_gets, wp_bind. unfold set_k. rewrite wp_modify. unfold noOfRetries.
  destruct (Z.ltb_spec (k s1) 10) as [Hlt|Hge]; [|done]. rewrite uwrap_small by lia.
  eapply wp_mono; [apply IH; cbn [holds k]; [by apply Hh1|lia|lia]|]. cbn [log]. intros. congruence.
Qed.

Lemma wp_retry_unlock (s : srv D) :
  holds s = true → k s = 0 → wp (retry pthread_mutex_unlock) s (λ _ s', log s' = log s).
Proof.
  intros Hh Hk. unfold retry. apply wp_bind. eapply wp_mono; [by apply wp_unlock|].
  intros r s1 (Hl & Hk1 & Hh1). destruct (Z.eqb_spec 0 r) as [|Hr]; [done|]. cbn [negb].
  eapply wp_mono; [apply wp_retry_loop_unlock; unfold noOfRetries in *; [by apply Hh1|lia|simpl; lia]|].
  cbn. intros. congruence.
Qed.

(** Whatever the calls on the file answer, the critical section is defined: the process
    exits before it touched the file, or the thread goes on with the file as it was or with
    a part of the line behind it. *)
Theorem critical_section_appends (s : srv D) line n :
  holds s = true → fileBuffer s = line ++ zeros n → 0 < n → NUL ∉ line →
  wp critical_section s (λ f s',
    f = ExitProcess ∧ log s' = log s ∨
    f = Next ∧ (log s' = log s ∨ ∃ m, log s' = log_write (log s) (take m line))).
Proof.
  intros Hh Hfb Hn Hnul. unfold critical_section, set_k, set_fileBuffer, fseek, fwrite, fread, fclose.
  rewrite wp_bind, wp_modify, wp_bind, wp_next_call.
  destruct (fopen_ok _); cbn [negb]; [|by rewrite wp_ret; left].
  rewrite wp_bind, wp_gets, !wp_bind, wp_next_call, wp_ret, wp_bind, wp_gets.
  cbn [fileBuffer]. rewrite Hfb, wp_bind, wp_lift, c_text_zeros by done. cbn [owp].
  rewrite !wp_bind, wp_next_call, wp_bind, wp_gets, wp_bind.
  match goal with |- context [take (fwrite_taken ?t line) line] =>
    set (m := fwrite_taken t line) end.
  set (put := if decide (take m line = []) then _ else _).
  match goal with |- wp put ?s1 _ =>
    assert (wp put s1 (λ _ s', holds s' = true ∧ k s' = 0 ∧
      (log s' = log s ∨ log s' = log_write (log s) (take m line)))) as Hput
      by (subst put; case_decide; unfold set_log; rewrite ?wp_ret, ?wp_modify; auto) end.
  eapply wp_mono; [exact Hput|]. intros _ s1 (H1 & H2 & H3).
  rewrite wp_ret, wp_bind, wp_modify, !wp_bind, wp_next_call, wp_ret.
  rewrite !wp_bind, wp_next_call, wp_bind, wp_gets, wp_ret.
  rewrite wp_bind, wp_modify, !wp_bind, wp_next_call, wp_ret, wp_bind.
  eapply wp_mono; [by apply wp_retry_unlock|]. intros r s2 H4. rewrite wp_ret. right.
  split; [done|]. rewrite H4. cbn [log]. destruct H3; eauto.
Qed.
End failures.

(** ** Properties of the framing *)

Definition clean (cs : bool) (l : list Byte.byte) : Prop :=
  Forall (λ c, ends_line cs c = false) l.

Lemma ends_line_LF cs : ends_line cs LF = true.
Proof. by destruct cs. Qed.

Lemma framed_clean cs line rest :
  clean cs line → framed cs (line ++ LF :: rest) = line ++ [LF] ∧ framed cs line = line ++ [LF].
Proof.
  intros H. induction H as [|c line Hc H [IH1 IH2]]; simpl.
  - rewrite ends_line_LF. split; [|done]. by destruct cs.
  - by rewrite Hc, IH1, IH2.
Qed.

(** Of a message only the first line is kept: what follows its newline in the same
    message is dropped, and a message without a newline gets one. *)
Theorem frame_keeps_first_line cs line rest msgLen :
  clean cs line →
  Z.of_nat (length (line ++ LF :: rest)) + 2 ≤ msgLen ≤ SERVER_MSG_LEN →
  let out := line ++ [LF] in
  let kept := Ret (out ++ zeros (SERVER_MSG_LEN - Z.of_nat (length out))) in
  let received l := l ++ zeros (msgLen - Z.of_nat (length l)) in
  frame cs msgLen (received (line ++ LF :: rest)) (zeros SERVER_MSG_LEN) = kept ∧
  frame cs msgLen (received line) (zeros SERVER_MSG_LEN) = kept.
Proof.
  intros Hc Hl out kept received. subst received kept out. cbv beta.
  pose proof Hl as Hl'. rewrite length_app in Hl'. simpl in Hl'.
  destruct (framed_clean cs line rest Hc) as [E1 E2].
  split; rewrite frame_framed by lia; by rewrite ?E1, ?E2.
Qed.

(** A message that fills the receive buffer and has no end of line makes the thread
    read behind the buffer. *)
Theorem frame_overruns_full_message cs l :
  clean cs l → Z.of_nat (length l) = SERVER_MSG_LEN →
  frame cs SERVER_MSG_LEN l (zeros SERVER_MSG_LEN) = UB OutOfBounds.
Proof. apply frame_overlong. Qed.
