(* ===== verification/ServerDevice.v ===== *)
(** * The server on the character device

    The interface [LogFile] of the connection thread, implemented by the abstract device
    that [CharDriverTrace] shows the driver to be and by a plain file.  Put together: what
    a client that sends lines gets back. *)

From stdpp Require Import base list option sets.
From Stdlib Require Strings.Byte.
From Stdlib Require Import ZArith Lia.
From S2P Require Import Prelude CircularBufferSpec CharDriverSpec CharDriverTrace.
From S2P Require Import ServerThread ServerThreadSpec.
#[local] Open Scope Z_scope.

(** [/dev/aesdchar]: a write goes to the driver whatever the position, and a reader that
    starts at 0 sees the stored commands ([CharDriverTrace]). *)
#[export] Instance device_log : LogFile adev := {
  log_write := spec_write;
  log_read := stored;
  log_end := written;
}.

(** A plain file opened for appending. *)
Definition plain_log : LogFile (list Byte.byte) := {|
  log_write d l := d ++ l;
  log_read d := d;
  log_end d := Z.of_nat (length d);
|}.

(** ** Lines and commands *)










Section device.
Context `{A : ServerApi} `{SL : !ServerLaws A} `{SS : !ServerSmooth A}.



End device.
