(* ===== verification/Server.v ===== *)
(** * The server class and its main loop

    A translation of the class [server] of [server/server.h] (its service string, its
    socket, the table of thread arguments) and of [main] and [signal_handler] of
    [server/aesdsocket.cpp].  The C library is the class [NetApi]; a new thread is an
    entry of [started] with what its arguments held at the moment of its creation. *)

From stdpp Require Import base list gmap option strings pretty.
From Stdlib Require Strings.Byte.
From Stdlib Require Import ZArith Lia.
From S2P Require Import Prelude.
#[local] Open Scope Z_scope.

(** ** Data *)

Definition THREAD_MAX : Z := 100.
Definition SERVER_MSG_LEN : Z := 100000.
Definition sizeof_service : Z := 5.

(** [struct thread_args]; [None] in the last two is memory that was never written. *)
Record thread_args : Type := mk_args {
  isComplete : bool;
  socketfd_ : Z;
  msgLen : Z;
  msg : ptr;
  threadId : option Z;
  fileMutex : option positive;
}.

(** The object, the memory of the thread arguments and message buffers, the threads that
    were created with a copy of their arguments, and the addresses and sockets in use. *)
Record sstate : Type := mk_sstate {
  service : list Byte.byte;
  socketfd : Z;
  isAllocated : bool;
  pThreadArgs : list (option ptr);
  numOfThreads : Z;
  args_heap : gmap positive thread_args;
  msg_heap : gset positive;
  started : list (Z * thread_args);
  calls : nat;
}.

Definition upd_table (l : list (option ptr)) (n : Z) : M sstate unit :=
  mmodify (λ s, mk_sstate (service s) (socketfd s) (isAllocated s) l n (args_heap s) (msg_heap s)
                          (started s) (calls s)).
Definition upd_socket (fd : Z) (al : bool) : M sstate unit :=
  mmodify (λ s, mk_sstate (service s) fd al (pThreadArgs s) (numOfThreads s) (args_heap s)
                          (msg_heap s) (started s) (calls s)).
Definition upd_args (h : gmap positive thread_args) : M sstate unit :=
  mmodify (λ s, mk_sstate (service s) (socketfd s) (isAllocated s) (pThreadArgs s)
                          (numOfThreads s) h (msg_heap s) (started s) (calls s)).
Definition upd_msgs (h : gset positive) : M sstate unit :=
  mmodify (λ s, mk_sstate (service s) (socketfd s) (isAllocated s) (pThreadArgs s)
                          (numOfThreads s) (args_heap s) h (started s) (calls s)).
Definition add_started (t : Z) (x : thread_args) : M sstate unit :=
  mmodify (λ s, mk_sstate (service s) (socketfd s) (isAllocated s) (pThreadArgs s)
                          (numOfThreads s) (args_heap s) (msg_heap s) (started s ++ [(t, x)])
                          (calls s)).
Definition next_call : M sstate nat :=
  λ s, Ret (calls s, mk_sstate (service s) (socketfd s) (isAllocated s) (pThreadArgs s)
                       (numOfThreads s) (args_heap s) (msg_heap s) (started s) (S (calls s))).

(** ** The C library *)

Class NetApi : Type := {
  (** blocks for the arguments and for a message, with what the former hold *)
  malloc_args : nat → gmap positive thread_args → option (positive * thread_args);
  malloc_msg : nat → gset positive → Z → option positive;
  (** the error, or the id of the new thread *)
  create_result : nat → Z + Z;
  getaddrinfo_result : nat → Z;
  socket_result : nat → Z;
  setsockopt_result : nat → Z;
  bind_result : nat → Z;
  listen_result : nat → Z;
  accept_result : nat → Z;
  join_result : nat → Z;
}.

(** Documented: new blocks are not in use and hold no thread id or mutex of ours, an
    error number is not 0, [socket] answers -1 or a descriptor. *)
Class NetLaws (N : NetApi) : Prop := {
  malloc_args_fresh : ∀ t h p x, malloc_args t h = Some (p, x) →
    h !! p = None ∧ threadId x = None ∧ fileMutex x = None;
  malloc_msg_fresh : ∀ t h n p, malloc_msg t h n = Some p → p ∉ h;
  create_error : ∀ t e, create_result t = inl e → e ≠ 0;
  socket_range : ∀ t, -1 ≤ socket_result t;
}.

(** ** Constructors *)

Definition fresh_server (srv : list Byte.byte) : sstate :=
  mk_sstate srv (-1) false (replicate (Z.to_nat THREAD_MAX) None) 0 ∅ ∅ [] 0.

(** [server()]: [sprintf(service, "%d", (rand() % 65335) + 1025)] into five bytes. *)
Definition server_default (rand : Z) : outcome sstate :=
  let text := String.list_byte_of_string (pretty (rand mod 65335 + 1025)) in
  if decide (Z.of_nat (length text) + 1 ≤ sizeof_service)
  then Ret (fresh_server (text ++ replicate (Z.to_nat sizeof_service - length text) NUL))
  else UB OutOfBounds.

(** [server(const char *port)]: [strncpy(service, port, sizeof(service))]. *)
Definition server_port (port : list Byte.byte) : sstate :=
  fresh_server (take (Z.to_nat sizeof_service) (port ++ replicate (Z.to_nat sizeof_service) NUL)).

Section server.
Context `{N : NetApi}.

(** ** Methods *)

(** [getaddrinfo] reads [service] as a string. *)
Definition service_string (s : sstate) : outcome (list Byte.byte) :=
  if decide (NUL ∈ service s) then Ret (service s) else UB OutOfBounds.

Definition create (backlog : Z) : M sstate Z :=
  s ← mget;
  mlift (service_string s);;
  t ← next_call;
  if negb (0 =? getaddrinfo_result t) then mret (-1)
  else
    upd_socket (socketfd s) true;;
    t ← next_call;
    let fd := socket_result t in
    upd_socket fd true;;
    if -1 =? fd then mret fd
    else
      t ← next_call;
      let status := setsockopt_result t in
      if -1 =? status then mret status
      else
        t ← next_call;
        let status := setsockopt_result t in
        if -1 =? status then mret status
        else
          t ← next_call;
          let status := bind_result t in
          if negb (0 =? status) then mret status
          else
            t ← next_call;
            let status := listen_result t in
            if negb (0 =? status) then mret status
            else mret fd.

Definition newClientSocket : M sstate Z :=
  t ← next_call;
  mret (accept_result t).

(** [pThreadArgs[i]]: out of range, or a pointer that was never stored, is undefined. *)
Definition args_ptr (i : Z) : M sstate ptr :=
  s ← mget;
  if decide (0 ≤ i < THREAD_MAX) then
    match pThreadArgs s !! Z.to_nat i with
    | Some (Some p) => mret p
    | _ => mub Dangling
    end
  else mub OutOfBounds.

(** [pThreadArgs[i]->...] *)
Definition load_args (i : Z) : M sstate thread_args :=
  p ← args_ptr i;
  s ← mget;
  match p with
  | Blk q => moption Dangling (args_heap s !! q)
  | _ => mub NullDeref
  end.

Definition store_args (i : Z) (f : thread_args → thread_args) : M sstate unit :=
  x ← load_args i;
  p ← args_ptr i;
  s ← mget;
  match p with
  | Blk q => upd_args (<[q := f x]> (args_heap s))
  | _ => mub NullDeref
  end.

(** The result is a [pthread_t], so the -1 of the failures is [(pthread_t)-1]. *)
Definition initServerThread (commSocket msgLen_ : Z) (mutex : positive) : M sstate Z :=
  s ← mget;
  let n := numOfThreads s in
  if THREAD_MAX <=? n then mret (u64 (-1))
  else
    t ← next_call;
    p ← (match malloc_args t (args_heap s) with
         | Some (q, x) => upd_args (<[q := x]> (args_heap s));; mret (Blk q)
         | None => mret NULL
         end);
    upd_table (<[Z.to_nat n := Some p]> (pThreadArgs s)) n;;
    store_args n (λ x, mk_args false (socketfd_ x) (msgLen x) (msg x) (threadId x) (fileMutex x));;
    store_args n (λ x, mk_args (isComplete x) commSocket (msgLen x) (msg x) (threadId x) (fileMutex x));;
    store_args n (λ x, mk_args (isComplete x) (socketfd_ x) (u32 msgLen_) (msg x) (threadId x) (fileMutex x));;
    t ← next_call;
    s ← mget;
    m ← (match malloc_msg t (msg_heap s) msgLen_ with
         | Some q => upd_msgs ({[q]} ∪ msg_heap s);; mret (Blk q)
         | None => mret NULL
         end);
    store_args n (λ x, mk_args (isComplete x) (socketfd_ x) (msgLen x) m (threadId x) (fileMutex x));;
    (** the [memset] of the message comes before the test of its pointer *)
    (if is_null m then mub NullDeref else mret tt);;
    t ← next_call;
    match create_result t with
    | inl status => mret (u64 (-1))
    | inr id =>
      x ← load_args n;
      add_started id x;;
      store_args n (λ x, mk_args (isComplete x) (socketfd_ x) (msgLen x) (msg x) (Some id) (fileMutex x));;
      store_args n (λ x, mk_args (isComplete x) (socketfd_ x) (msgLen x) (msg x) (threadId x) (Some mutex));;
      s ← mget;
      upd_table (pThreadArgs s) (n + 1);;
      mret id
    end.

(** [None] is the value of memory that was never written. *)
Definition getThreadId (threadNum : Z) : M sstate (option Z) :=
  x ← load_args threadNum;
  mret (threadId x).

(** The loop over all [THREAD_MAX] entries of the table, used or not. *)
Fixpoint completion_loop (fuel : nat) (id i : Z) : M sstate bool :=
  match fuel with
  | O => λ _, OutOfFuel
  | S fuel =>
    if i <? THREAD_MAX then
      x ← load_args i;
      id' ← moption Dangling (threadId x);
      if id =? id' then mret (isComplete x)
      else completion_loop fuel id (i + 1)
    else mret false
  end.

Definition threadCompletionStatus (id : Z) : M sstate bool :=
  completion_loop (Z.to_nat THREAD_MAX + 1) id 0.

Definition free_msg (p : ptr) : M sstate unit :=
  match p with
  | Blk q => s ← mget; if decide (q ∈ msg_heap s) then upd_msgs (msg_heap s ∖ {[q]}) else mub BadFree
  | _ => mret tt
  end.

Definition free_args (p : ptr) : M sstate unit :=
  match p with
  | Blk q =>
    s ← mget;
    match args_heap s !! q with
    | Some _ => upd_args (delete q (args_heap s))
    | None => mub BadFree
    end
  | _ => mret tt
  end.

Fixpoint destroy_loop (fuel : nat) (i : Z) : M sstate unit :=
  match fuel with
  | O => λ _, OutOfFuel
  | S fuel =>
    s ← mget;
    if i <? numOfThreads s then
      x ← load_args i;
      free_msg (msg x);;
      p ← args_ptr i;
      free_args p;;
      destroy_loop fuel (i + 1)
    else mret tt
  end.

(** [~server()]; [close] and [freeaddrinfo] leave the members as they are. *)
Definition server_destroy : M sstate unit := destroy_loop (Z.to_nat THREAD_MAX + 1) 0.

(** ** [main] of [aesdsocket.cpp] *)

(** The locals of [main] and the flags its signal handler sets. *)
Record mstate : Type := mk_mstate {
  ipServer : sstate;
  i_ : Z;
  thread_id_list : list (option Z);
  sigTermFlag : bool;
  sigIntFlag : bool;
  sigThreadTerminateFlag : bool;
}.

Definition on_server {A} (m : M sstate A) : M mstate A := λ s,
  '(a, sv) ← m (ipServer s);
  Ret (a, mk_mstate sv (i_ s) (thread_id_list s) (sigTermFlag s) (sigIntFlag s)
                    (sigThreadTerminateFlag s)).

Definition SIGINT : Z := 2.
Definition SIGTERM : Z := 15.

Definition signal_handler (signalNo : Z) : M mstate unit :=
  mmodify (λ s, mk_mstate (ipServer s) (i_ s) (thread_id_list s)
    (if SIGTERM =? signalNo then true else sigTermFlag s)
    (if SIGINT =? signalNo then true else sigIntFlag s)
    (sigThreadTerminateFlag s)).

(** One round of [while (1)]: whether the loop goes on.  [i] is an [unsigned char]. *)
Definition accept_round (fileMutex : positive) : M mstate bool :=
  s ← mget;
  if sigTermFlag s then
    mmodify (λ s, mk_mstate (ipServer s) (i_ s) (thread_id_list s) (sigTermFlag s) false true);;
    mret false
  else if sigIntFlag s then
    mmodify (λ s, mk_mstate (ipServer s) (i_ s) (thread_id_list s) false (sigIntFlag s) true);;
    mret false
  else if i_ s <? 100 then
    listenPort ← on_server newClientSocket;
    if (0 <? listenPort) && (i_ s <? THREAD_MAX + 1) then
      on_server (initServerThread listenPort SERVER_MSG_LEN fileMutex);;
      id ← on_server (getThreadId (i_ s - 1));
      (if decide (i_ s < Z.of_nat (length (thread_id_list s))) then mret tt else mub OutOfBounds);;
      mmodify (λ s, mk_mstate (ipServer s) (u8 (i_ s + 1))
        (<[Z.to_nat (i_ s) := id]> (thread_id_list s)) (sigTermFlag s) (sigIntFlag s)
        (sigThreadTerminateFlag s));;
      mret true
    else mret true
  else mret true.

Fixpoint accept_rounds (n : nat) (fileMutex : positive) : M mstate bool :=
  match n with
  | O => mret true
  | S n => c ← accept_round fileMutex; if (c : bool) then accept_rounds n fileMutex else mret false
  end.

(** [pthread_join(thread_id_list[j], NULL)] for [j] from 1: the ids that are joined, and
    [prog_status], which every call overwrites.  A failure is only printed. *)
Fixpoint join_loop (fuel : nat) (j prog_status : Z) : M mstate (list Z * Z) :=
  match fuel with
  | O => λ _, OutOfFuel
  | S fuel =>
    s ← mget;
    if j <? i_ s then
      match thread_id_list s !! Z.to_nat j with
      | Some (Some id) =>
        t ← on_server next_call;
        let prog_status := join_result t in
        '(l, prog_status) ← join_loop fuel (j + 1) prog_status;
        mret (id :: l, prog_status)
      | Some None => mub Dangling
      | None => mub OutOfBounds
      end
    else mret ([], prog_status)
  end.

Definition EXIT_SUCCESS : Z := 0.

(** From the end of the loop to the end of the program: the joins, the flag, and the
    destructor of [ipServer]; the ids that are joined and the status [main] returns.  In
    the loop [prog_status] still is [EXIT_SUCCESS]: the program would have ended otherwise. *)
Definition main_end : M mstate (list Z * Z) :=
  '(l, prog_status) ← join_loop 256 1 EXIT_SUCCESS;
  mmodify (λ s, mk_mstate (ipServer s) (i_ s) (thread_id_list s) (sigTermFlag s) (sigIntFlag s) false);;
  on_server server_destroy;;
  mret (l, prog_status).

(** [main] up to its loop: the result of [create] is only printed. *)
Definition main_start : M mstate unit :=
  on_server (create 20);; mret tt.

Definition port_9000 : list Byte.byte := [Byte.x39; Byte.x30; Byte.x30; Byte.x30].

Definition main_init : mstate :=
  mk_mstate (server_port port_9000) 1 (replicate (Z.to_nat THREAD_MAX) None) false false false.
End server.
