(* ===== verification/ServerSpec.v ===== *)
(** * The thread table of the server

    The invariant that ties the table of thread arguments to the memory they live in, its
    preservation by [initServerThread], and what [main] makes of it. *)

From stdpp Require Import base list gmap option sets.
From Stdlib Require Import ZArith Lia.
From S2P Require Import Prelude Server.
#[local] Open Scope Z_scope.

(** An entry: the block of the arguments, the block of the message, the thread. *)
Abbreviation entry := (positive * (positive * Z))%type.

Definition entry_ok (s : sstate) (i : nat) (e : entry) : Prop :=
  pThreadArgs s !! i = Some (Some (Blk e.1)) ∧
  ∃ x, args_heap s !! e.1 = Some x ∧ msg x = Blk e.2.1 ∧ threadId x = Some e.2.2 ∧
       is_Some (fileMutex x).

(** The entries from [k] on are in memory, and nothing else is. *)
Record table_from (k : nat) (s : sstate) (es : list entry) : Prop := {
  tb_len : length (pThreadArgs s) = Z.to_nat THREAD_MAX;
  tb_num : numOfThreads s = Z.of_nat (length es);
  tb_max : Z.of_nat (length es) ≤ THREAD_MAX;
  tb_entry : ∀ i e, (k ≤ i)%nat → es !! i = Some e → entry_ok s i e;
  tb_nodup_args : NoDup es.*1;
  tb_nodup_msgs : NoDup es.*2.*1;
  tb_args : dom (args_heap s) = list_to_set (drop k es).*1;
  tb_msgs : msg_heap s = list_to_set (drop k es).*2.*1;
}.

Abbreviation table := (table_from 0).

Section evaluation.
Context `{N : NetApi}.

Definition with_args (s : sstate) (h : gmap positive thread_args) : sstate :=
  mk_sstate (service s) (socketfd s) (isAllocated s) (pThreadArgs s) (numOfThreads s) h
            (msg_heap s) (started s) (calls s).

Lemma args_ptr_eval s i p :
  0 ≤ i < THREAD_MAX → pThreadArgs s !! Z.to_nat i = Some (Some p) → args_ptr i s = Ret (p, s).
Proof.
  intros Hi Hp. unfold args_ptr. erewrite bind_eval by reflexivity.
  rewrite decide_True by done. by rewrite Hp.
Qed.

Lemma load_args_eval s i q x :
  0 ≤ i < THREAD_MAX → pThreadArgs s !! Z.to_nat i = Some (Some (Blk q)) →
  args_heap s !! q = Some x → load_args i s = Ret (x, s).
Proof.
  intros Hi Hp Hx. unfold load_args. erewrite bind_eval by by apply args_ptr_eval.
  erewrite bind_eval by reflexivity. unfold moption. by rewrite Hx.
Qed.

Lemma store_args_eval s i q x f :
  0 ≤ i < THREAD_MAX → pThreadArgs s !! Z.to_nat i = Some (Some (Blk q)) →
  args_heap s !! q = Some x →
  store_args i f s = Ret (tt, with_args s (<[q := f x]> (args_heap s))).
Proof.
  intros Hi Hp Hx. unfold store_args. erewrite bind_eval by by eapply load_args_eval.
  erewrite bind_eval by by apply args_ptr_eval. by erewrite bind_eval by reflexivity.
Qed.

Lemma args_ptr_same s i p s' : args_ptr i s = Ret (p, s') → s' = s.
Proof.
  unfold args_ptr, mbind, M_bind, mget, mub, mret, M_ret. intros. repeat case_match; by simplify_eq.
Qed.

Lemma load_args_same s i x s' : load_args i s = Ret (x, s') → s' = s.
Proof.
  unfold load_args, mbind, M_bind, mget, mub, moption. intros E.
  destruct (args_ptr i s) as [[p s1]| |] eqn:E1; [|done..]. apply args_ptr_same in E1 as ->.
  destruct p; try done. by destruct (args_heap s !! b); simplify_eq.
Qed.

(** The arguments of a thread when it is created, and after [initServerThread]. *)
Definition args_at_start (commSocket msgLen_ : Z) (q : positive) : thread_args :=
  mk_args false commSocket (u32 msgLen_) (Blk q) None None.
Definition args_ready (commSocket msgLen_ : Z) (q : positive) (id : Z) (mutex : positive) :
    thread_args :=
  mk_args false commSocket (u32 msgLen_) (Blk q) (Some id) (Some mutex).

(** The state with the new arguments [p] and message [q] and [n] threads. *)
Definition grown (s : sstate) (p q : positive) (x : thread_args) (n : Z) (st : list (Z * thread_args)) :
    sstate :=
  mk_sstate (service s) (socketfd s) (isAllocated s)
    (<[Z.to_nat (numOfThreads s) := Some (Blk p)]> (pThreadArgs s)) n
    (<[p := x]> (args_heap s)) ({[q]} ∪ msg_heap s) st (3 + calls s).

(** Symbolic execution: states are kept in normal form. *)
#[local] Ltac normal :=
  cbn [service socketfd isAllocated pThreadArgs numOfThreads args_heap msg_heap started calls
       with_args isComplete socketfd_ msgLen msg threadId fileMutex mret M_ret];
  cbv zeta beta.
#[local] Ltac step := erewrite bind_eval by reflexivity; normal.
#[local] Ltac step_store H :=
  erewrite bind_eval by (eapply store_args_eval;
    [done|normal; exact H|normal; first [apply lookup_insert_eq|eassumption]]); normal.

Lemma init_thread_eval s c l m p x0 q :
  length (pThreadArgs s) = Z.to_nat THREAD_MAX → 0 ≤ numOfThreads s < THREAD_MAX →
  malloc_args (calls s) (args_heap s) = Some (p, x0) → threadId x0 = None → fileMutex x0 = None →
  malloc_msg (S (calls s)) (msg_heap s) l = Some q →
  initServerThread c l m s =
  match create_result (S (S (calls s))) with
  | inl _ => Ret (u64 (-1), grown s p q (args_at_start c l q) (numOfThreads s) (started s))
  | inr id => Ret (id, grown s p q (args_ready c l q id m) (numOfThreads s + 1)
                         (started s ++ [(id, args_at_start c l q)]))
  end.
Proof.
  destruct s as [sv fd al tb n ah mh st cl]. cbn [pThreadArgs numOfThreads calls args_heap msg_heap].
  intros Hlen Hn Hp Hid Hmu Hq. unfold initServerThread.
  assert (<[Z.to_nat n := Some (Blk p)]> tb !! Z.to_nat n = Some (Some (Blk p))) as Hslot.
  { apply list_lookup_insert_eq. unfold THREAD_MAX in *. lia. }
  step. rewrite (proj2 (Z.leb_gt _ _)) by lia. step. rewrite Hp. step. step.
  do 3 step_store Hslot. step. step. rewrite Hq. step. step_store Hslot.
  cbn [is_null]. step. step. unfold grown, args_at_start, args_ready.
  destruct (create_result (S (S cl))) as [e|id].
  - normal. by rewrite !insert_insert_eq, Hid, Hmu.
  - erewrite bind_eval by (eapply load_args_eval; [done|exact Hslot|normal; apply lookup_insert_eq]).
    step. do 2 step_store Hslot. step. step. normal. by rewrite !insert_insert_eq, Hid, Hmu.
Qed.
End evaluation.

(** ** The invariant is kept *)

Lemma table_grown s es p q x id st :
  table s es → Z.of_nat (length es) < THREAD_MAX →
  args_heap s !! p = None → q ∉ msg_heap s →
  msg x = Blk q → threadId x = Some id → is_Some (fileMutex x) →
  table (grown s p q x (numOfThreads s + 1) st) (es ++ [(p, (q, id))]).
Proof.
  intros [Hlen Hnum Hmax He Hn1 Hn2 Ha Hm] Hlt Hp Hq Hx1 Hx2 Hx3.
  rewrite drop_0 in Ha, Hm.
  assert (p ∉ es.*1) as Hp'.
  { apply not_elem_of_dom in Hp. rewrite Ha in Hp. set_solver. }
  assert (q ∉ es.*2.*1) as Hq' by (rewrite Hm in Hq; set_solver).
  split; unfold grown; cbn [pThreadArgs numOfThreads args_heap msg_heap].
  - by rewrite length_insert.
  - rewrite length_app. simpl. lia.
  - rewrite length_app. simpl. lia.
  - intros i e _ Hi. apply lookup_snoc_Some in Hi as [[Hi Hi']|[-> <-]].
    + destruct (He i e ltac:(lia) Hi') as (Hs & y & Hy & Hrest). split; cbn.
      * rewrite list_lookup_insert_ne by lia. done.
      * exists y. rewrite lookup_insert_ne; [done|]. intros ->. apply Hp'.
        apply list_elem_of_fmap. exists e. split; [done|]. by eapply list_elem_of_lookup_2.
    + split; cbn.
      * rewrite Hnum, Nat2Z.id. apply list_lookup_insert_eq. unfold THREAD_MAX in *. lia.
      * exists x. rewrite lookup_insert_eq. done.
  - rewrite fmap_app. apply NoDup_app. split; [done|]. split; [set_solver|apply NoDup_singleton].
  - rewrite !fmap_app. apply NoDup_app. split; [done|]. split; [set_solver|apply NoDup_singleton].
  - rewrite drop_0, dom_insert_L, Ha, fmap_app. simpl. set_solver.
  - rewrite drop_0, Hm, !fmap_app. simpl. set_solver.
Qed.

(** The destructor frees the entries one after the other. *)
Lemma destroy_loop_frees es : ∀ rest k s fuel,
  table_from k s es → drop k es = rest → (k ≤ length es)%nat → (length rest < fuel)%nat →
  ∃ s', destroy_loop fuel (Z.of_nat k) s = Ret (tt, s') ∧ args_heap s' = ∅ ∧ msg_heap s' = ∅.
Proof.
  induction rest as [|[p [q id]] rest IH]; intros k s [|fuel] Ht Hd Hk Hf; simpl in Hf; try lia;
    pose proof Ht as [Hlen Hnum Hmax He Hn1 Hn2 Ha Hm]; rewrite Hd in Ha, Hm.
  - exists s. split_and!; [|by apply dom_empty_inv_L|done]. cbn [destroy_loop].
    erewrite bind_eval by reflexivity.
    assert (length (drop k es) = 0%nat) as Hz by by rewrite Hd. rewrite length_drop in Hz.
    by rewrite (proj2 (Z.ltb_ge _ _)) by lia.
  - assert (es !! k = Some (p, (q, id))) as Hek.
    { rewrite <- (Nat.add_0_r k), <- lookup_drop, Hd. done. }
    pose proof (lookup_lt_Some _ _ _ Hek) as Hlt.
    assert (drop (S k) es = rest) as Hd'.
    { rewrite <- Nat.add_1_r, <- drop_drop, Hd. done. }
    destruct (He k _ ltac:(lia) Hek) as (Hs & x & Hx & Hmsg & _). cbn in Hs, Hx, Hmsg.
    assert (NoDup ((p, (q, id)) :: rest).*1 ∧ NoDup ((p, (q, id)) :: rest).*2.*1) as [Hd1 Hd2].
    { rewrite <- Hd, !fmap_drop. split; by eapply sublist_NoDup, sublist_drop. }
    simpl in Hd1, Hd2. apply NoDup_cons in Hd1 as [Hp Hd1]. apply NoDup_cons in Hd2 as [Hq Hd2].
    set (s1 := mk_sstate (service s) (socketfd s) (isAllocated s) (pThreadArgs s) (numOfThreads s)
                 (delete p (args_heap s)) (msg_heap s ∖ {[q]}) (started s) (calls s)).
    destruct (IH (S k) s1 fuel) as (s' & E & Hh); [|done|lia|lia|].
    { split; cbn; try done.
      - intros i e Hi Hie. destruct (He i e ltac:(lia) Hie) as (Hs' & y & Hy & Hr).
        split; [done|]. exists y. cbn. rewrite lookup_delete_ne; [done|]. intros ->.
        assert (i = k); [|lia]. apply (NoDup_lookup es.*1 i k e.1); [done|..];
          rewrite list_lookup_fmap; by rewrite ?Hie, ?Hek.
      - rewrite dom_delete_L, Ha, Hd'. simpl. set_solver.
      - rewrite Hm, Hd'. simpl. set_solver. }
    exists s'. split; [|done]. cbn [destroy_loop]. erewrite bind_eval by reflexivity.
    rewrite (proj2 (Z.ltb_lt _ _)) by lia.
    erewrite bind_eval by (eapply load_args_eval; [lia|by rewrite Nat2Z.id|exact Hx]).
    rewrite Hmsg. cbn [free_msg].
    erewrite bind_eval; [|erewrite bind_eval by reflexivity; rewrite decide_True
      by (rewrite Hm; set_solver); reflexivity].
    erewrite bind_eval by (apply args_ptr_eval; [lia|rewrite Nat2Z.id; exact Hs]).
    cbn [free_args].
    erewrite bind_eval; [|erewrite bind_eval by reflexivity; cbn [args_heap]; rewrite Hx; reflexivity].
    replace (Z.of_nat k + 1) with (Z.of_nat (S k)) by lia. exact E.
Qed.

(** Freeing does not touch the record of the started threads and of the calls. *)
Lemma destroy_loop_keeps fuel : ∀ i s r s',
  destroy_loop fuel i s = Ret (r, s') → started s' = started s ∧ calls s' = calls s.
Proof.
  induction fuel as [|fuel IH]; intros i s r s'; [done|].
  cbn [destroy_loop]. unfold mbind, M_bind, mget. destruct (i <? numOfThreads s); [|by intros [= _ <-]].
  destruct (load_args i s) as [[x s1]| |] eqn:E1; [|done..].
  apply load_args_same in E1 as ->.
  destruct (free_msg (msg x) s) as [[? s2]| |] eqn:E2; [|done..].
  destruct (args_ptr i s2) as [[y s3]| |] eqn:E3; [|done..].
  apply args_ptr_same in E3 as ->.
  destruct (free_args y s2) as [[? s4]| |] eqn:E4; [|done..].
  intros E. apply IH in E as [-> ->].
  unfold free_args, free_msg, mbind, M_bind, mget, upd_args, upd_msgs, mmodify, mret, M_ret
    in E2, E4.
  destruct y; destruct (msg x); repeat case_match; simplify_eq; done.
Qed.

Lemma server_destroy_calls s r s' : server_destroy s = Ret (r, s') → calls s' = calls s.
Proof. apply destroy_loop_keeps. Qed.

Lemma server_destroy_started s r s' : server_destroy s = Ret (r, s') → started s' = started s.
Proof. apply destroy_loop_keeps. Qed.

Lemma server_destroy_frees s es :
  table s es → ∃ s', server_destroy s = Ret (tt, s') ∧ args_heap s' = ∅ ∧ msg_heap s' = ∅.
Proof.
  intros Ht. apply (destroy_loop_frees es es 0 s); [done|by rewrite drop_0|lia|].
  pose proof (tb_max _ _ _ Ht). lia.
Qed.

(** ** The main loop *)

(** A system on which memory and threads do not run out. *)
Class NetSmooth (N : NetApi) : Prop := {
  smooth_args : ∀ t h, is_Some (malloc_args t h);
  smooth_msg : ∀ t h n, is_Some (malloc_msg t h n);
  smooth_create : ∀ t, ∃ id, create_result t = inr id;
}.

Definition with_server (s : mstate) (sv : sstate) : mstate :=
  mk_mstate sv (i_ s) (thread_id_list s) (sigTermFlag s) (sigIntFlag s) (sigThreadTerminateFlag s).

Lemma on_server_eval {B} (m : M sstate B) s b sv :
  m (ipServer s) = Ret (b, sv) → on_server m s = Ret (b, with_server s sv).
Proof. intros E. unfold on_server. by rewrite E. Qed.

(** [main] in its loop with the threads [es]: entry [j] of the class is thread [j + 1] of
    the list in [main]; every thread was created before its mutex was stored. *)
Record minv (s : mstate) (es : list entry) : Prop := {
  mi_table : table (ipServer s) es;
  mi_i : i_ s = Z.of_nat (length es) + 1;
  mi_max : i_ s ≤ 100;
  mi_len : length (thread_id_list s) = Z.to_nat THREAD_MAX;
  mi_ids : ∀ j e, es !! j = Some e → thread_id_list s !! S j = Some (Some e.2.2);
  mi_started : (started (ipServer s)).*1 = es.*2.*2;
  mi_racy : Forall (λ y, fileMutex y.2 = None) (started (ipServer s));
}.

Section main.
Context `{N : NetApi} `{NL : !NetLaws N}.

(** A new connection, the thread table before the thread is created. *)
Definition accepted (sv : sstate) : sstate :=
  mk_sstate (service sv) (socketfd sv) (isAllocated sv) (pThreadArgs sv) (numOfThreads sv)
            (args_heap sv) (msg_heap sv) (started sv) (S (calls sv)).

Lemma table_accepted s es : table s es → table (accepted s) es.
Proof. by intros []. Qed.

Lemma accept_enters s m f :
  sigTermFlag s = false → sigIntFlag s = false → i_ s < 100 →
  0 < accept_result (calls (ipServer s)) →
  accept_round m s = f →
  (on_server (initServerThread (accept_result (calls (ipServer s))) SERVER_MSG_LEN m);;
   id ← on_server (getThreadId (i_ s - 1));
   (if decide (i_ s < Z.of_nat (length (thread_id_list s))) then mret tt else mub OutOfBounds);;
   mmodify (λ s, mk_mstate (ipServer s) (u8 (i_ s + 1))
     (<[Z.to_nat (i_ s) := id]> (thread_id_list s)) (sigTermFlag s) (sigIntFlag s)
     (sigThreadTerminateFlag s));;
   mret true) (with_server s (accepted (ipServer s))) = f.
Proof.
  intros Ht Hi Hlt Ha <-. unfold accept_round. symmetry. erewrite bind_eval by reflexivity.
  rewrite Ht, Hi, (proj2 (Z.ltb_lt _ _)) by done.
  erewrite bind_eval by (apply on_server_eval; reflexivity).
  rewrite (proj2 (Z.ltb_lt 0 _)) by done.
  rewrite (proj2 (Z.ltb_lt (i_ s) _)) by (unfold THREAD_MAX; lia). done.
Qed.

(** The sockets of the threads that were created, in the order of their creation. *)
Definition sockets (s : mstate) : list Z := socketfd_ <$> (started (ipServer s)).*2.

Lemma accept_round_grows s es m `{!NetSmooth N} :
  minv s es → sigTermFlag s = false → sigIntFlag s = false → i_ s < 100 →
  0 < accept_result (calls (ipServer s)) →
  ∃ s' e, accept_round m s = Ret (true, s') ∧ minv s' (es ++ [e]) ∧
          sigTermFlag s' = false ∧ sigIntFlag s' = false ∧
          calls (ipServer s') = (4 + calls (ipServer s))%nat ∧
          sockets s' = sockets s ++ [accept_result (calls (ipServer s))].
Proof.
  intros [Ht Hi Hmax Hlen Hids Hst Hr] Hf1 Hf2 Hlt Hacc.
  pose proof (accept_enters s m _ Hf1 Hf2 Hlt Hacc eq_refl) as E.
  set (sv := accepted (ipServer s)) in *.
  pose proof (table_accepted _ _ Ht) as Ht'. fold sv in Ht'.
  destruct (smooth_args (calls sv) (args_heap sv)) as [[p x0] Hp].
  destruct (smooth_msg (S (calls sv)) (msg_heap sv) SERVER_MSG_LEN) as [q Hq].
  destruct (smooth_create (S (S (calls sv)))) as [id Hc].
  destruct (malloc_args_fresh _ _ _ _ Hp) as (Hpf & Hx1 & Hx2).
  pose proof (malloc_msg_fresh _ _ _ _ Hq) as Hqf.
  pose proof (tb_num _ _ _ Ht') as Hnum. pose proof (tb_len _ _ _ Ht') as Htl.
  pose proof (init_thread_eval sv (accept_result (calls (ipServer s))) SERVER_MSG_LEN m p x0 q
    Htl ltac:(unfold THREAD_MAX; lia) Hp Hx1 Hx2 Hq) as Hinit. rewrite Hc in Hinit.
  set (x := args_ready _ _ _ _ _) in Hinit.
  set (sv' := grown _ _ _ _ _ _) in Hinit.
  assert (table sv' (es ++ [(p, (q, id))])) as Ht''.
  { apply table_grown; try done. unfold THREAD_MAX. lia. }
  destruct (tb_entry _ _ _ Ht'' (length es) (p, (q, id))) as (Hslot & y & Hy & _ & Hid & _);
    [lia|by rewrite list_lookup_middle|].
  erewrite bind_eval in E by (apply on_server_eval; exact Hinit).
  erewrite bind_eval in E.
  2: { apply on_server_eval. unfold getThreadId. cbn [ipServer with_server].
       erewrite bind_eval by (eapply load_args_eval;
         [unfold THREAD_MAX; lia|replace (Z.to_nat (i_ s - 1)) with (length es) by lia; exact Hslot|exact Hy]).
       by rewrite Hid. }
  cbn [thread_id_list with_server] in E. rewrite decide_True in E
    by (rewrite Hlen; unfold THREAD_MAX in *; lia).
  erewrite bind_eval in E by reflexivity. erewrite bind_eval in E by reflexivity.
  eexists _, (p, (q, id)). split; [symmetry; exact E|]. split; [|split_and!; try done].
  2:{ unfold sockets, sv', grown, sv, accepted. cbn. by rewrite !fmap_app. }
  split; cbn [ipServer i_ thread_id_list with_server sigTermFlag sigIntFlag].
  - done.
  - rewrite uwrap_small, length_app by lia. simpl. lia.
  - rewrite uwrap_small by lia. lia.
  - by rewrite length_insert.
  - intros j e Hj. apply lookup_snoc_Some in Hj as [[Hj Hj']|[-> <-]].
    + rewrite list_lookup_insert_ne by lia. by apply Hids.
    + replace (Z.to_nat (i_ s)) with (S (length es)) by lia. apply list_lookup_insert_eq.
      rewrite Hlen. unfold THREAD_MAX in *. lia.
  - unfold sv', grown, sv, accepted. cbn [started]. by rewrite !fmap_app, Hst.
  - unfold sv', grown, sv, accepted. cbn [started]. apply Forall_app. split; [done|].
    by apply Forall_singleton.
Qed.

(** After 99 connections the loop spins without accepting. *)
Lemma accept_round_full s m :
  sigTermFlag s = false → sigIntFlag s = false → 100 ≤ i_ s → accept_round m s = Ret (true, s).
Proof.
  intros Ht Hi Hge. unfold accept_round. erewrite bind_eval by reflexivity.
  by rewrite Ht, Hi, (proj2 (Z.ltb_ge _ _)).
Qed.

(** A failed [accept] leaves everything but the number of calls. *)
Lemma accept_round_none s m es :
  minv s es → sigTermFlag s = false → sigIntFlag s = false → i_ s < 100 →
  accept_result (calls (ipServer s)) ≤ 0 →
  accept_round m s = Ret (true, with_server s (accepted (ipServer s))) ∧
  minv (with_server s (accepted (ipServer s))) es.
Proof.
  intros [Ht Hi Hmax Hlen Hids Hst Hr] Hf1 Hf2 Hlt Ha. split; [|by split; [apply table_accepted|..]].
  unfold accept_round. erewrite bind_eval by reflexivity.
  rewrite Hf1, Hf2, (proj2 (Z.ltb_lt _ _)) by done.
  erewrite bind_eval by (apply on_server_eval; reflexivity).
  by rewrite (proj2 (Z.ltb_ge 0 _)) by done.
Qed.

(** The connections that [n] rounds accept from call [t] on, at most [room] of them: a round
    that accepts one makes four calls, another one a single call. *)
Fixpoint connections (n room t : nat) : list Z :=
  match n, room with
  | S n, S room' =>
    let c := accept_result t in
    if 0 <? c then c :: connections n room' (4 + t) else connections n room (1 + t)
  | _, _ => []
  end.

Lemma length_connections n room t : (length (connections n room t) ≤ room)%nat.
Proof.
  revert room t. induction n as [|n IH]; intros [|room] t; simpl; try lia.
  destruct (0 <? accept_result t); simpl; [specialize (IH room (S (S (S (S t)))))|specialize (IH (S room) (S t))]; lia.
Qed.

Lemma accept_rounds_grow m n `{!NetSmooth N} : ∀ s es,
  minv s es → sigTermFlag s = false → sigIntFlag s = false →
  ∃ s' es', accept_rounds n m s = Ret (true, s') ∧ minv s' es' ∧
            sockets s' = sockets s ++ connections n (99 - length es) (calls (ipServer s)) ∧
            sigTermFlag s' = false ∧ sigIntFlag s' = false.
Proof.
  induction n as [|n IH]; intros s es Hm Hf1 Hf2; pose proof (mi_i _ _ Hm); pose proof (mi_max _ _ Hm).
  { exists s, es. split_and!; try done. by rewrite app_nil_r. }
  cbn [accept_rounds]. destruct (99 - length es)%nat as [|room] eqn:Er.
  - erewrite bind_eval by (apply accept_round_full; [done|done|lia]).
    destruct (IH s es Hm Hf1 Hf2) as (s' & es' & E' & Hm' & Hl & Hg1 & Hg2). exists s', es'.
    rewrite Er in Hl. destruct n; done.
  - cbn [connections]. destruct (Z.ltb_spec 0 (accept_result (calls (ipServer s)))) as [Ha|Ha].
    + destruct (accept_round_grows s es m Hm Hf1 Hf2 ltac:(lia) Ha)
        as (s1 & e & E & Hm1 & G1 & G2 & Hc & Hso).
      erewrite bind_eval by exact E.
      destruct (IH s1 _ Hm1 G1 G2) as (s' & es' & E' & Hm' & Hl & Hg1 & Hg2). exists s', es'.
      split_and!; try done. rewrite Hl, Hso, Hc, <- app_assoc, length_app. simpl.
      by replace (99 - (length es + 1))%nat with room by lia.
    + destruct (accept_round_none s m es Hm Hf1 Hf2 ltac:(lia) Ha) as [E Hm1].
      erewrite bind_eval by exact E.
      destruct (IH _ _ Hm1 Hf1 Hf2) as (s' & es' & E' & Hm' & Hl & Hg1 & Hg2). exists s', es'.
      split_and!; try done. by rewrite Hl, Er.
Qed.

(** [main] after [n] more calls. *)
Definition called (n : nat) (s : mstate) : mstate :=
  let sv := ipServer s in
  with_server s (mk_sstate (service sv) (socketfd sv) (isAllocated sv) (pThreadArgs sv)
    (numOfThreads sv) (args_heap sv) (msg_heap sv) (started sv) (n + calls sv)).

Lemma called_minv n s es : minv s es → minv (called n s) es.
Proof. intros [[] ? ? ? ? ? ?]. by split. Qed.

(** The result of the last of [n] joins from call [t] on. *)
Definition join_status (t n : nat) : Z :=
  match n with O => EXIT_SUCCESS | S n => join_result (t + n) end.

(** The joins wait for every thread, in the order of their creation. *)
Lemma join_loop_eval es : ∀ rest j fuel st s,
  minv s es → drop j es = rest → (j ≤ length es)%nat → (length rest < fuel)%nat →
  join_loop fuel (Z.of_nat (S j)) st s =
  Ret ((rest.*2.*2, match length rest with O => st | S n => join_result (calls (ipServer s) + n) end),
       called (length rest) s).
Proof.
  induction rest as [|e rest IH]; intros j [|fuel] st s Hm Hd Hj Hf; simpl in Hf; try lia;
    pose proof (mi_i _ _ Hm) as Hi; cbn [join_loop]; erewrite bind_eval by reflexivity.
  - assert (length (drop j es) = 0%nat) as Hz by by rewrite Hd. rewrite length_drop in Hz.
    rewrite (proj2 (Z.ltb_ge _ _)) by lia. by destruct s as [[] ? ? ? ? ?].
  - assert (es !! j = Some e) as He.
    { rewrite <- (Nat.add_0_r j), <- lookup_drop, Hd. done. }
    pose proof (lookup_lt_Some _ _ _ He) as Hlt.
    rewrite (proj2 (Z.ltb_lt _ _)) by lia. rewrite Nat2Z.id, (mi_ids _ _ Hm _ _ He).
    erewrite bind_eval by (apply on_server_eval; reflexivity). cbv zeta.
    change (with_server s _) with (called 1 s).
    replace (Z.of_nat (S j) + 1) with (Z.of_nat (S (S j))) by lia.
    erewrite bind_eval by (apply IH; [by apply called_minv| |lia|lia];
      rewrite <- Nat.add_1_r, <- drop_drop, Hd; done).
    cbn [length]. unfold called, with_server, mret, M_ret. cbn. do 3 f_equal.
    + destruct (length rest) as [|n]; f_equal; f_equal; lia.
    + f_equal. f_equal. lia.
Qed.

(** A connection whose thread cannot be created is counted by [main] alone. *)
Lemma failed_round s es m e :
  minv s es → sigTermFlag s = false → sigIntFlag s = false → i_ s < 100 →
  (∀ t, 0 < accept_result t) → (∀ t h, is_Some (malloc_args t h)) →
  (∀ t h n, is_Some (malloc_msg t h n)) →
  create_result (3 + calls (ipServer s)) = inl e →
  ∃ s', accept_round m s = Ret (true, s') ∧ sigTermFlag s' = false ∧ sigIntFlag s' = false ∧
        i_ s' = i_ s + 1 ∧ numOfThreads (ipServer s') = Z.of_nat (length es) ∧
        length (pThreadArgs (ipServer s')) = Z.to_nat THREAD_MAX ∧
        pThreadArgs (ipServer s') !! S (length es) = pThreadArgs (ipServer s) !! S (length es).
Proof.
  intros Hm Hf1 Hf2 Hlt Hacc Hargs Hmsg Hc. pose proof (mi_i _ _ Hm) as Hi.
  destruct (mi_table _ _ Hm) as [Htl Hnum _ _ _ _ _ _].
  rewrite <- (accept_enters s m _ Hf1 Hf2 Hlt (Hacc _) eq_refl).
  set (sv := accepted (ipServer s)).
  destruct (Hargs (calls sv) (args_heap sv)) as [[p x0] Hp].
  destruct (Hmsg (S (calls sv)) (msg_heap sv) SERVER_MSG_LEN) as [q Hq].
  destruct (malloc_args_fresh _ _ _ _ Hp) as (_ & Hx1 & Hx2).
  pose proof (init_thread_eval sv (accept_result (calls (ipServer s))) SERVER_MSG_LEN m p x0 q
    Htl ltac:(unfold THREAD_MAX; cbn; lia) Hp Hx1 Hx2 Hq) as Hinit.
  change (S (S (calls sv))) with (3 + calls (ipServer s))%nat in Hinit. rewrite Hc in Hinit.
  assert (<[Z.to_nat (numOfThreads sv) := Some (Blk p)]> (pThreadArgs sv) !! length es
          = Some (Some (Blk p))) as Hslot.
  { unfold sv, accepted. cbn [numOfThreads pThreadArgs]. rewrite Hnum, Nat2Z.id.
    apply list_lookup_insert_eq. unfold THREAD_MAX in *. lia. }
  eexists. split.
  { erewrite bind_eval by (apply on_server_eval; exact Hinit).
    erewrite bind_eval.
    2: { apply on_server_eval. unfold getThreadId. cbn [ipServer with_server].
         erewrite bind_eval by (eapply load_args_eval; [unfold THREAD_MAX; lia|
           replace (Z.to_nat (i_ s - 1)) with (length es) by lia; exact Hslot|
           unfold grown; cbn [args_heap]; apply lookup_insert_eq]).
         reflexivity. }
    cbn [thread_id_list with_server].
    rewrite decide_True by (rewrite (mi_len _ _ Hm); unfold THREAD_MAX in *; lia).
    erewrite bind_eval by reflexivity. erewrite bind_eval by reflexivity. reflexivity. }
  cbn [ipServer i_ sigTermFlag sigIntFlag with_server]. unfold grown, sv, accepted.
  cbn [pThreadArgs numOfThreads]. split_and!; try done.
  - rewrite uwrap_small; lia.
  - by rewrite length_insert.
  - rewrite list_lookup_insert_ne by lia. done.
Qed.

(** ** Properties *)

(** A whole run of [main]: some rounds of the loop, the signal, the end. *)
Definition main_run (n : nat) (fileMutex : positive) (signalNo : Z) :
    M mstate (bool * (list Z * Z)) :=
  accept_rounds n fileMutex;;
  signal_handler signalNo;;
  c ← accept_round fileMutex;
  r ← main_end;
  mret (c, r).

Definition main_fresh (s : mstate) : Prop :=
  table (ipServer s) [] ∧ started (ipServer s) = [] ∧ i_ s = 1 ∧
  length (thread_id_list s) = Z.to_nat THREAD_MAX ∧
  sigTermFlag s = false ∧ sigIntFlag s = false.

Lemma main_fresh_minv s : main_fresh s → minv s [].
Proof.
  intros (Ht & Hst & Hi & Hl & _). split; rewrite ?Hst; simpl; try done; lia.
Qed.

(** The signal ends the loop. *)
Lemma accept_round_signalled s m sig :
  sigTermFlag s = false → sigIntFlag s = false → sig = SIGTERM ∨ sig = SIGINT →
  ∃ s1 s', signal_handler sig s = Ret (tt, s1) ∧ accept_round m s1 = Ret (false, s') ∧
    ipServer s' = ipServer s ∧ i_ s' = i_ s ∧ thread_id_list s' = thread_id_list s.
Proof.
  intros Hf1 Hf2 Hsig. unfold accept_round.
  destruct Hsig as [->| ->]; (do 2 eexists; split; [reflexivity|]); erewrite bind_eval by reflexivity;
    cbn [sigTermFlag sigIntFlag SIGTERM SIGINT Z.eqb Pos.eqb]; rewrite ?Hf1, ?Hf2;
    by erewrite bind_eval by reflexivity.
Qed.

(** C36: a run of [main] on a system on which memory and threads do not run out, ended by
    SIGTERM or SIGINT after [n] rounds; [accept] and [pthread_join] may fail at any time.
    One thread was created for each of the first 99 connections that were accepted, with its
    socket, and none for later ones; [pthread_join] is called for every created thread, in
    order; [main] returns the result of the last of these calls, 0 when there was none; and
    all memory of the thread table is freed exactly once.  Every thread was created while
    its [fileMutex] was still unset. *)
Theorem server_main_lifecycle s n m sig `{!NetSmooth N} :
  main_fresh s → sig = SIGTERM ∨ sig = SIGINT →
  wp (main_run n m sig) s (λ '(c, (joined, status)) s',
    let threads := started (ipServer s') in
    c = false ∧ socketfd_ <$> threads.*2 = connections n 99 (calls (ipServer s)) ∧
    joined = threads.*1 ∧ (length threads ≤ 99)%nat ∧
    status = join_status (calls (ipServer s') - length threads) (length threads) ∧
    args_heap (ipServer s') = ∅ ∧ msg_heap (ipServer s') = ∅ ∧
    Forall (λ y, fileMutex y.2 = None) threads).
Proof.
  intros Hs Hsig. pose proof (main_fresh_minv _ Hs) as Hm.
  destruct Hs as (_ & Hst0 & _ & _ & Hf1 & Hf2).
  destruct (accept_rounds_grow m n s [] Hm Hf1 Hf2) as (s1 & es & E & Hm1 & Hl & G1 & G2).
  destruct (accept_round_signalled s1 m sig G1 G2 Hsig) as (s2 & s3 & E2 & E3 & I1 & I2 & I3).
  assert (minv s3 es) as Hm3 by (destruct Hm1; split; by rewrite ?I1, ?I2, ?I3).
  pose proof (called_minv (length es) _ _ Hm3) as Hm4.
  destruct (server_destroy_frees _ es (mi_table _ _ Hm4)) as (sv & Ed & Hh1 & Hh2).
  pose proof (server_destroy_started _ _ _ Ed) as Hstd. cbn in Hstd.
  pose proof (server_destroy_calls _ _ _ Ed) as Hcd. cbn in Hcd.
  pose proof (mi_i _ _ Hm3). pose proof (mi_max _ _ Hm3). pose proof (mi_started _ _ Hm3) as Hids.
  assert (length (started (ipServer s3)) = length es) as Hlen
    by (apply (f_equal length) in Hids; by rewrite !length_fmap in Hids).
  unfold wp, main_run. erewrite bind_eval by exact E.
  erewrite bind_eval by exact E2. erewrite bind_eval by exact E3. unfold main_end.
  erewrite bind_eval; [|erewrite bind_eval by
    (apply (join_loop_eval es es 0); [done|by rewrite drop_0|lia|lia]); cbv beta iota;
    erewrite bind_eval by reflexivity;
    erewrite bind_eval by (apply on_server_eval; exact Ed); reflexivity].
  cbn. rewrite Hstd, Hcd, Hlen. split_and!; [done| |done|lia| |done|done|exact (mi_racy _ _ Hm3)].
  - unfold sockets in Hl. rewrite Hst0 in Hl. by rewrite I1, Hl.
  - rewrite Nat.add_comm, Nat.add_sub. unfold join_status. by destruct (length es).
Qed.

(** When the creation of a thread fails, [main] counts the connection but the class
    does not: the next connection makes [getThreadId] follow a pointer of the table that
    was never stored. *)
Theorem failed_create_breaks_server s es m e :
  minv s es → sigTermFlag s = false → sigIntFlag s = false → i_ s < 99 →
  (∀ t, 0 < accept_result t) → (∀ t h, is_Some (malloc_args t h)) →
  (∀ t h n, is_Some (malloc_msg t h n)) →
  create_result (3 + calls (ipServer s)) = inl e →
  pThreadArgs (ipServer s) !! S (length es) = Some None →
  accept_rounds 2 m s = UB Dangling.
Proof.
  intros Hm Hf1 Hf2 Hlt Hacc Hargs Hmsg Hc Hslot. cbn [accept_rounds].
  destruct (failed_round s es m e) as (s1 & E1 & G1 & G2 & Hi & Hn & Hl & Hs1); try done; [lia|].
  erewrite bind_eval by exact E1. apply bind_ub.
  pose proof (mi_i _ _ Hm).
  rewrite <- (accept_enters s1 m _ G1 G2 ltac:(lia) (Hacc _) eq_refl).
  set (sv := accepted (ipServer s1)).
  destruct (Hargs (calls sv) (args_heap sv)) as [[p x0] Hp].
  destruct (Hmsg (S (calls sv)) (msg_heap sv) SERVER_MSG_LEN) as [q Hq].
  destruct (malloc_args_fresh _ _ _ _ Hp) as (_ & Hx1 & Hx2).
  assert (∃ r sv', initServerThread (accept_result (calls (ipServer s1))) SERVER_MSG_LEN m sv =
            Ret (r, sv') ∧ pThreadArgs sv' !! S (length es) = Some None) as (r & sv' & Ei & Hsl).
  { pose proof (init_thread_eval sv (accept_result (calls (ipServer s1))) SERVER_MSG_LEN m p x0 q) as Hi'.
    rewrite Hi' by (done || (unfold THREAD_MAX; cbn; lia)).
    destruct (create_result (S (S (calls sv)))); (eexists _, _; split; [reflexivity|]);
      unfold grown, sv, accepted; cbn [pThreadArgs numOfThreads]; rewrite Hn;
      rewrite list_lookup_insert_ne by lia; by rewrite Hs1. }
  erewrite bind_eval by (apply on_server_eval; exact Ei).
  apply bind_ub. unfold on_server. cbn [ipServer with_server].
  unfold getThreadId, load_args, args_ptr, mbind, M_bind, mget.
  rewrite decide_True by (unfold THREAD_MAX; lia).
  replace (Z.to_nat (i_ s1 - 1)) with (S (length es)) by lia. by rewrite Hsl.
Qed.
End main.
