(* ===== verification/ServerDemo.v ===== *)
(** * A client of the server, and a run of its main program

    A system that satisfies the laws of [ServerThread] and delivers two messages, on
    which the theorems about the connection thread are applied; then one for [main]. *)

From stdpp Require Import base list option sets gmap.
From Stdlib Require Strings.Byte.
From Stdlib Require Import ZArith Lia.
From S2P Require Import Prelude CircularBufferSpec CharDriverSpec Server ServerSpec.
From S2P Require Import ServerThread ServerThreadSpec ServerDevice.

#[local] Open Scope Z_scope.

Definition a : Byte.byte := Byte.x61.
Definition b : Byte.byte := Byte.x62.

(** The first round receives a line and more, the second a line; then the connection
    breaks.  [lock] is what the mutex answers. *)
Definition demo_server (lock : Z) : ServerApi := {|
  char_signed := true;
  malloc_ok := true;
  recv_result t n :=
    if n <? 16 then None
    else match t with 0%nat => Some [a; LF; b] | 10%nat => Some [b; b; LF] | _ => None end;
  lock_result _ := lock;
  unlock_result _ := 0;
  fopen_ok _ := true;
  fseek_ok _ := true;
  fwrite_taken _ l := length l;
  fread_taken _ l := length l;
  send_result _ l := Z.of_nat (length l);
|}.

#[export] Instance demo_server_laws lock : ServerLaws (demo_server lock).
Proof.
  intros t n l. simpl. destruct (Z.ltb_spec n 16) as [|Hn]; [done|].
  intros H. repeat case_match; simplify_eq; simpl; lia.
Qed.

#[export] Instance demo_server_smooth : ServerSmooth (demo_server 0).
Proof. by split. Qed.

(** A thread about to enter its loop. *)
Definition fresh_thread {D} (d : D) (len : Z) (quit : bool) : srv D :=
  mk_srv (zeros len) len (zeros SERVER_MSG_LEN) 0 0 d false [] quit false.

Lemma fresh_ready {D} (d : D) len : 2 ≤ len ≤ SERVER_MSG_LEN → ready (fresh_thread d len false).
Proof. intros H. by split. Qed.


Lemma recv_error_logs_newline_witness :
  wp (server_round (L := plain_log) (A := demo_server 0)) (fresh_thread [a] 8 false) (λ f s',
    f = Next ∧ log s' = [a; LF] ∧ sent s' = [[a; LF]] ∧ ready s').
Proof.
  apply (recv_error_logs_newline (L := plain_log) (A := demo_server 0) (fresh_thread [a] 8 false)).
  - apply fresh_ready. unfold SERVER_MSG_LEN. lia.
  - reflexivity.
  - unfold SERVER_MSG_LEN. simpl. lia.
  - simpl. set_solver.
Defined.

Lemma terminate_unlocks_unheld_witness :
  server_round (L := plain_log) (A := demo_server 0) (fresh_thread [a] 8 true) = UB LockMisuse.
Proof.
  by apply (terminate_unlocks_unheld (L := plain_log) (A := demo_server 0) (fresh_thread [a] 8 true)).
Defined.

Lemma lock_failure_echoes_witness :
  wp (handle_message (L := plain_log) (A := demo_server 22))
    (mk_srv ([a; LF] ++ zeros 6) 8 (zeros SERVER_MSG_LEN) 0 0 [b; LF] false [] false false)
    (λ f s', f = Next ∧ log s' = [b; LF] ∧ holds s' = false ∧ sent s' = [[a; LF]] ∧
             (calls s' ≤ 0 + 13)%nat).
Proof.
  apply (lock_failure_echoes (L := plain_log) (A := demo_server 22)
    (mk_srv ([a; LF] ++ zeros 6) 8 (zeros SERVER_MSG_LEN) 0 0 [b; LF] false [] false false) [a; LF]).
  - done.
  - simpl. lia.
  - reflexivity.
  - reflexivity.
  - unfold SERVER_MSG_LEN. simpl. lia.
Defined.

Lemma frame_keeps_first_line_witness :
  frame true 16 ([a; LF; b] ++ zeros 13) (zeros SERVER_MSG_LEN) =
    Ret ([a; LF] ++ zeros (SERVER_MSG_LEN - 2)) ∧
  frame true 16 ([a] ++ zeros 15) (zeros SERVER_MSG_LEN) =
    Ret ([a; LF] ++ zeros (SERVER_MSG_LEN - 2)).
Proof.
  apply (frame_keeps_first_line true [a] [b] 16).
  - repeat constructor.
  - unfold SERVER_MSG_LEN. simpl. lia.
Defined.

Lemma frame_overruns_full_message_witness :
  frame true SERVER_MSG_LEN (replicate (Z.to_nat SERVER_MSG_LEN) a) (zeros SERVER_MSG_LEN) =
  UB OutOfBounds.
Proof.
  apply (frame_overruns_full_message true (replicate (Z.to_nat SERVER_MSG_LEN) a)).
  - apply Forall_replicate. reflexivity.
  - rewrite length_replicate. unfold SERVER_MSG_LEN. lia.
Defined.

(** ** A run of the server's main program

    A system that satisfies [NetLaws], on which the theorems of [ServerSpec] are applied
    to the state [main] starts its loop in. *)

(** The lowest free blocks; the creation of threads fails while [busy] says so, and
    [accept] while [drops] does. *)
Definition demo_net (busy drops : nat → bool) : NetApi := {|
  malloc_args _ h := Some (fresh (dom h), mk_args true 0 0 NULL None None);
  malloc_msg _ h _ := Some (fresh h);
  create_result t := if busy t then inl 11 else inr (1000 + Z.of_nat t);
  getaddrinfo_result _ := 0;
  socket_result _ := 3;
  setsockopt_result _ := 0;
  bind_result _ := 0;
  listen_result _ := 0;
  accept_result t := if drops t then -1 else 4 + Z.of_nat t;
  join_result t := if busy t then 3 else 0;
|}.

#[export] Instance demo_net_laws busy drops : NetLaws (demo_net busy drops).
Proof.
  split; simpl.
  - intros _ h p x [= <- <-]. split; [|done]. apply not_elem_of_dom, is_fresh.
  - intros _ h _ p [= <-]. apply is_fresh.
  - intros t e. destruct (busy t); [|done]. by intros [= <-].
  - done.
Qed.

#[export] Instance demo_net_smooth drops : NetSmooth (demo_net (λ _, false) drops).
Proof. split; simpl; eauto. Qed.

Lemma main_init_fresh : main_fresh main_init.
Proof.
  split_and!; try done. split; try done; constructor.
Qed.

(** A system where the second call of [accept] fails. *)
Definition flaky : NetApi := demo_net (λ _, false) (λ t, bool_decide (t = 4%nat)).

(** Three rounds, the second without a connection. *)
Lemma server_main_lifecycle_witness :
  connections (N := flaky) 3 99 (Server.calls (ipServer main_init)) = [4; 9] ∧
  wp (main_run (N := flaky) 3 1 SIGINT) main_init
    (λ '(c, (joined, status)) s',
      let threads := started (ipServer s') in
      c = false ∧
      socketfd_ <$> threads.*2 = connections (N := flaky) 3 99 (Server.calls (ipServer main_init)) ∧
      joined = threads.*1 ∧ (length threads ≤ 99)%nat ∧
      status = join_status (N := flaky) (Server.calls (ipServer s') - length threads)
                 (length threads) ∧
      args_heap (ipServer s') = ∅ ∧ msg_heap (ipServer s') = ∅ ∧
      Forall (λ y, fileMutex y.2 = None) threads).
Proof.
  split; [reflexivity|].
  exact (server_main_lifecycle (N := flaky) (NL := demo_net_laws _ _) main_init 3 1 SIGINT
    (NetSmooth0 := demo_net_smooth _) main_init_fresh (or_intror eq_refl)).
Defined.

Lemma failed_create_breaks_server_witness :
  accept_rounds (N := demo_net (λ t, bool_decide (t = 3%nat)) (λ _, false)) 2 1 main_init = UB Dangling.
Proof.
  apply (failed_create_breaks_server (N := demo_net (λ t, bool_decide (t = 3%nat)) (λ _, false))
           main_init [] 1 11).
  - apply main_fresh_minv, main_init_fresh.
  - reflexivity.
  - reflexivity.
  - simpl. lia.
  - intros t. simpl. lia.
  - intros t h. by eexists.
  - intros t h n. by eexists.
  - reflexivity.
  - reflexivity.
Defined.

(** The string of the default constructor does not fit for most ports. *)
Example default_port_overflows : server_default 10000 = UB OutOfBounds.
Proof. by vm_compute. Qed.

(** The server comes up on port 9000. *)
Example create_9000 : ∃ s, create (N := demo_net (λ _, false) (λ _, false)) 20 (server_port port_9000) = Ret (3, s).
Proof. eexists. vm_compute. reflexivity. Qed.
