(* ===== verification/ServerAddress.v ===== *)
(** * The other methods of the server class, and the start of the server

    [sendMsg], [recvMsg], [getIpAddr] and the four-argument constructor of [server/server.h],
    and the statements of [main] of [server/aesdsocket.cpp] between the creation of the
    socket and the loop: the option [-d] and the signals.  The address functions of the
    library are the class [AddressApi]. *)

From stdpp Require Import base list gmap option sets strings.
From Stdlib Require Strings.Byte.
From Stdlib Require Import ZArith Lia.
From S2P Require Import Prelude ServerThread Server.
#[local] Open Scope Z_scope.

(** ** Addresses *)

Definition AF_INET : Z := 2.
Definition AF_INET6 : Z := 10.
Definition IP_ADDR_LEN : Z := 20.

(** The members of [struct addrinfo] that are read, and the address it points to. *)
Record addrinfo : Type := mk_addrinfo {
  ai_family : Z;
  ai_addr : list Byte.byte;
}.

Class AddressApi : Type := {
  (** the text of an address of a family *)
  address_text : Z → list Byte.byte → list Byte.byte;
  (** what [send] and [recv] answer *)
  send_answer : Z → list Byte.byte → Z;
  recv_answer : Z → Z → option (list Byte.byte);
  daemon_answer : Z;
}.

(** A text has no terminator in it and fits the constant of its family. *)
Class AddressLaws (A : AddressApi) : Prop := {
  address_text_clean : ∀ f a, NUL ∉ address_text f a;
  address_text_inet : ∀ a, (length (address_text AF_INET a) < 16)%nat;
  address_text_inet6 : ∀ a, (length (address_text AF_INET6 a) < 46)%nat;
}.

Section address.
Context `{A : AddressApi}.

(** [inet_ntop]: without room for the text and a terminator it fails and stores nothing. *)
Definition inet_ntop (family : Z) (addr dst : list Byte.byte) (size : Z) : list Byte.byte :=
  let text := address_text family addr ++ [NUL] in
  if Z.of_nat (length text) <=? size then text ++ drop (length text) dst else dst.

(** The static buffer after the call, which is also what the result points to. *)
Definition getIpAddr (resInfo : option addrinfo) (ipAddr : list Byte.byte)
    : outcome (list Byte.byte) :=
  match resInfo with
  | None => UB NullDeref
  | Some r =>
    if AF_INET6 =? ai_family r then Ret (inet_ntop (ai_family r) (ai_addr r) ipAddr IP_ADDR_LEN)
    else if AF_INET =? ai_family r then
      Ret (inet_ntop (ai_family r) (ai_addr r) ipAddr IP_ADDR_LEN)
    else Ret ipAddr
  end.

Definition sendMsg (commSocket : Z) (msg : list Byte.byte) : outcome Z :=
  text ← c_text msg;
  Ret (send_answer commSocket text).

(** The number of bytes, and the buffer. *)
Definition recvMsg (commSocket : Z) (msg : list Byte.byte) (msgLen : Z)
    : outcome (Z * list Byte.byte) :=
  match recv_answer commSocket msgLen with
  | None => Ret (-1, msg)
  | Some l =>
    if decide (length l ≤ length msg)%nat
    then Ret (Z.of_nat (length l), l ++ drop (length l) msg) else UB OutOfBounds
  end.

(** [server(char *n, char *s, ...)]: [strncpy] of five bytes; [n] is not used. *)
Definition server_hints (s : list Byte.byte) : outcome sstate :=
  text ← c_text s;
  Ret (fresh_server (take (Z.to_nat sizeof_service)
         (text ++ replicate (Z.to_nat sizeof_service) NUL))).

(** ** The start of [main] *)

(** Whether the process goes on to its loop. *)
Inductive startup : Type := Running | ExitFailure.

Definition dash_d : list Byte.byte := [Byte.x2d; Byte.x64].

(** The option, with the value of [prog_status] afterwards. *)
Definition main_option (argv1 : option (list Byte.byte)) : outcome (startup * Z) :=
  match argv1 with
  | None => Ret (Running, 0)
  | Some arg =>
    text ← c_text arg;
    if decide (text = dash_d) then
      let prog_status := daemon_answer in
      if negb (0 =? prog_status) then Ret (ExitFailure, prog_status)
      else Ret (Running, prog_status)
    else Ret (Running, 0)
  end.

(** The results of the two calls of [sigaction] are dropped: the tests look at the value
    [prog_status] had before. *)
Definition main_signals (prog_status sigint_result sigterm_result : Z) : startup :=
  if negb (0 =? prog_status) then ExitFailure
  else if negb (0 =? prog_status) then ExitFailure
  else Running.

Definition main_prologue (argv1 : option (list Byte.byte)) (sigint_result sigterm_result : Z)
    : outcome startup :=
  '(st, prog_status) ← main_option argv1;
  match st with
  | Running => Ret (main_signals prog_status sigint_result sigterm_result)
  | ExitFailure => Ret ExitFailure
  end.

(** ** What they do *)

Lemma c_text_stops t rest : NUL ∉ t → c_text (t ++ NUL :: rest) = Ret t.
Proof.
  induction t as [|c t IH]; intros Ht; [done|]. cbn [app c_text].
  rewrite decide_False by set_solver. rewrite IH by set_solver. done.
Qed.

(** A buffer that never held an address reads as the empty string. *)
Definition no_address : list Byte.byte := replicate (Z.to_nat IP_ADDR_LEN) NUL.

(** [getIpAddr] gives the text of an address of the server that fits nineteen characters,
    which every IPv4 address does; of a longer one, as most IPv6 addresses are, it gives
    what the buffer held before. *)
Theorem getIpAddr_text `{!AddressLaws A} r b :
  length b = Z.to_nat IP_ADDR_LEN → ai_family r = AF_INET ∨ ai_family r = AF_INET6 →
  let text := address_text (ai_family r) (ai_addr r) in
  owp (getIpAddr (Some r) b) (λ b',
    if (length text <? 20)%nat then c_text b' = Ret text else b' = b) ∧
  (ai_family r = AF_INET → (length text <? 20)%nat = true).
Proof.
  intros Hb Hf text. assert (getIpAddr (Some r) b =
    Ret (inet_ntop (ai_family r) (ai_addr r) b IP_ADDR_LEN)) as ->.
  { unfold getIpAddr. destruct Hf as [->| ->]; done. }
  split.
  - unfold inet_ntop, owp. fold text. rewrite length_app. cbn [length].
    destruct (Nat.ltb_spec (length text) 20).
    + rewrite (proj2 (Z.leb_le _ _)) by (unfold IP_ADDR_LEN; lia). rewrite <- app_assoc.
      apply c_text_stops, address_text_clean.
    + by rewrite (proj2 (Z.leb_gt _ _)) by (unfold IP_ADDR_LEN; lia).
  - intros E. apply Nat.ltb_lt. unfold text. rewrite E.
    pose proof (address_text_inet (ai_addr r)). lia.
Qed.

(** The server reaches its loop whatever the two calls of [sigaction] answer, unless [-d] was
    given and [daemon] failed. *)
Theorem main_prologue_ignores_sigaction argv1 r1 r2 text :
  (∀ arg, argv1 = Some arg → c_text arg = Ret text) →
  main_prologue argv1 r1 r2 =
  Ret (match argv1 with
       | Some _ => if decide (text = dash_d ∧ daemon_answer ≠ 0) then ExitFailure else Running
       | None => Running
       end).
Proof.
  intros Harg. unfold main_prologue, main_option, main_signals. destruct argv1 as [arg|]; [|done].
  rewrite (Harg arg eq_refl). cbn [mbind outcome_bind].
  destruct (decide (text = dash_d)) as [->|Hne]; cbn [mbind outcome_bind].
  - destruct (Z.eqb_spec 0 daemon_answer) as [<-|Hd]; cbn [negb]; cbn.
    + by rewrite decide_False by tauto.
    + by rewrite decide_True by (split; congruence).
  - by rewrite decide_False by tauto.
Qed.
End address.

(** A server that listens on an IPv6 address. *)
#[local] Instance demo_address : AddressApi := {|
  address_text f _ :=
    if f =? AF_INET then String.list_byte_of_string "192.168.100.200"
    else String.list_byte_of_string "2001:db8:85a3::8a2e:370:7334";
  send_answer _ l := Z.of_nat (length l);
  recv_answer _ _ := None;
  daemon_answer := -1;
|}.

#[local] Instance demo_address_laws : AddressLaws demo_address.
Proof.
  split; intros; cbn -[String.list_byte_of_string].
  - destruct (f =? AF_INET); apply (bool_decide_unpack _); by vm_compute.
  - apply (bool_decide_unpack _). by vm_compute.
  - apply (bool_decide_unpack _). by vm_compute.
Qed.

Lemma getIpAddr_text_witness :
  owp (getIpAddr (Some (mk_addrinfo AF_INET6 [])) no_address) (λ b', b' = no_address) ∧
  (AF_INET6 = AF_INET → false = true).
Proof.
  exact (getIpAddr_text (mk_addrinfo AF_INET6 []) no_address eq_refl (or_intror eq_refl)).
Defined.

Lemma main_prologue_ignores_sigaction_witness :
  main_prologue (Some (dash_d ++ [NUL])) (-1) (-1) = Ret ExitFailure.
Proof.
  rewrite (main_prologue_ignores_sigaction (Some (dash_d ++ [NUL])) (-1) (-1) dash_d)
    by (by intros ? [= <-]).
  by rewrite decide_True.
Defined.
