(* ===== verification/Timestamp.v ===== *)
(** * The timestamp thread of the socket server

    A translation of [timestamp_thread_init] and [timestamp_thread] of
    [server/aesdsocket.cpp] and of [server/timestamp.h], the part that is compiled when
    [USE_AESD_CHAR_DEVICE] is 0: a timer sets [sigAlrmFlag] every ten seconds and the thread
    appends a line with the time to the log that the connection threads write to.  The
    library is the class [TimeApi]; the log is a [LogFile]. *)

From stdpp Require Import base list option strings sets.
From Stdlib Require Strings.Byte.
From Stdlib Require Import ZArith Lia.
From S2P Require Import Prelude ServerThread ServerThreadSpec ServerDevice.

#[local] Open Scope Z_scope.

(** ** Data *)

(** What a [char *] of the thread points to: nothing when [malloc] failed, memory that was
    freed, a block whose bytes were not written, or the bytes up to the last one written. *)
Inductive block : Type := NoBlock | Freed | Unwritten | Bytes (l : list Byte.byte).

(** [struct timestamp_args]; a thread id that was never stored is [None].  Its pointer
    [sTimeStamp_RFC2822] is never moved: the block behind it is a field of the state, so
    that it is still there when the struct is gone. *)
Record timestamp_args : Type := mk_targs {
  timestamp_len : Z;
  threadID : option Z;
}.

Record itimerval : Type := mk_itimerval {
  it_value_sec : Z;
  it_value_usec : Z;
  it_interval_sec : Z;
  it_interval_usec : Z;
}.

Definition BUFFER_LEN : Z := 100.
Definition stamp_prefix : list Byte.byte := String.list_byte_of_string "timestamp:".
Definition fileBufferSize : Z := u16 (Z.of_nat (length stamp_prefix) + BUFFER_LEN).
Definition stampRetries : Z := 20.

(** What the library answers to the n-th call.  [stamp_text] is the time in the format of
    [strftime], or nothing when [localtime] fails. *)
Class TimeApi : Type := {
  stamp_malloc_ok : nat → bool;
  stamp_create : nat → Z + Z;
  stamp_text : nat → option (list Byte.byte);
  stamp_lock : nat → Z;
  stamp_unlock : nat → Z;
  stamp_fopen_ok : nat → bool;
  (** how many bytes of the line get to the file *)
  stamp_fwrite_taken : nat → list Byte.byte → nat;
}.

(** The arguments of the thread ([None] once freed) and the block they point to, its locals, the log, whether it holds
    the mutex, and the flags. *)
Record tstate (D : Type) : Type := mk_tstate {
  args : option timestamp_args;
  sTimeStamp_RFC2822 : block;
  fileBuffer : block;
  k : Z;
  calls : nat;
  log : D;
  holds : bool;
  sigAlrmFlag : bool;
  sigThreadTerminateFlag : bool;
}.
Arguments mk_tstate {D}.
Arguments args {D}.
Arguments sTimeStamp_RFC2822 {D}.
Arguments fileBuffer {D}.
Arguments k {D}.
Arguments calls {D}.
Arguments log {D}.
Arguments holds {D}.
Arguments sigAlrmFlag {D}.
Arguments sigThreadTerminateFlag {D}.

(** ** Starting the thread *)

Section start.
Context `{T : TimeApi}.

Definition malloc_block (t : nat) : block := if stamp_malloc_ok t then Unwritten else NoBlock.

(** The arguments of the new thread with its id if it was created, their block, and the
    timer. *)
Definition timestamp_thread_init (strLen : Z) : outcome (timestamp_args * block * itimerval) :=
  if negb (stamp_malloc_ok 0) then UB NullDeref
  else
    let stamp := malloc_block 1 in
    let a := mk_targs (u8 strLen)
               (match stamp_create 2 with inr id => Some id | inl _ => None end) in
    Ret (a, stamp, mk_itimerval 0 10 10 0).
End start.

Definition SIGALRM : Z := 14.

(** The branch of [signal_handler] that this configuration adds. *)
Definition alarm_handler {D} (signalNo : Z) : M (tstate D) unit :=
  mmodify (λ s, mk_tstate (args s) (sTimeStamp_RFC2822 s) (fileBuffer s) (k s) (calls s) (log s) (holds s)
                  (if SIGALRM =? signalNo then true else sigAlrmFlag s)
                  (sigThreadTerminateFlag s)).

(** ** The thread *)

Section thread.
Context {D : Type} `{L : LogFile D} `{T : TimeApi}.

Definition set_args (a : option timestamp_args) : M (tstate D) unit :=
  mmodify (λ s, mk_tstate a (sTimeStamp_RFC2822 s) (fileBuffer s) (k s) (calls s) (log s) (holds s) (sigAlrmFlag s)
                  (sigThreadTerminateFlag s)).
Definition set_stamp (b : block) : M (tstate D) unit :=
  mmodify (λ s, mk_tstate (args s) b (fileBuffer s) (k s) (calls s) (log s) (holds s)
                  (sigAlrmFlag s) (sigThreadTerminateFlag s)).
Definition set_fileBuffer (b : block) : M (tstate D) unit :=
  mmodify (λ s, mk_tstate (args s) (sTimeStamp_RFC2822 s) b (k s) (calls s) (log s) (holds s) (sigAlrmFlag s)
                  (sigThreadTerminateFlag s)).
Definition set_k (z : Z) : M (tstate D) unit :=
  mmodify (λ s, mk_tstate (args s) (sTimeStamp_RFC2822 s) (fileBuffer s) z (calls s) (log s) (holds s)
                  (sigAlrmFlag s) (sigThreadTerminateFlag s)).
Definition set_log (d : D) : M (tstate D) unit :=
  mmodify (λ s, mk_tstate (args s) (sTimeStamp_RFC2822 s) (fileBuffer s) (k s) (calls s) d (holds s)
                  (sigAlrmFlag s) (sigThreadTerminateFlag s)).
Definition set_holds (b : bool) : M (tstate D) unit :=
  mmodify (λ s, mk_tstate (args s) (sTimeStamp_RFC2822 s) (fileBuffer s) (k s) (calls s) (log s) b
                  (sigAlrmFlag s) (sigThreadTerminateFlag s)).
Definition clear_alarm : M (tstate D) unit :=
  mmodify (λ s, mk_tstate (args s) (sTimeStamp_RFC2822 s) (fileBuffer s) (k s) (calls s) (log s) (holds s) false
                  (sigThreadTerminateFlag s)).
Definition next_call : M (tstate D) nat :=
  λ s, Ret (calls s, mk_tstate (args s) (sTimeStamp_RFC2822 s) (fileBuffer s) (k s) (S (calls s)) (log s) (holds s)
                       (sigAlrmFlag s) (sigThreadTerminateFlag s)).

(** [pTimestamp_args->...] *)
Definition get_args : M (tstate D) timestamp_args := a ← mgets args; moption Dangling a.

(** What [pTimestamp_args->sTimeStamp_RFC2822] points to. *)
Definition get_stamp : M (tstate D) block := get_args;; mgets sTimeStamp_RFC2822.

(** Reading a block whose bytes were not written is undefined. *)
Definition block_bytes (b : block) : outcome (list Byte.byte) :=
  match b with
  | NoBlock => UB NullDeref
  | Freed | Unwritten => UB Dangling
  | Bytes l => Ret l
  end.

(** [p[0] = '\0'] leaves the other bytes unwritten. *)
Definition store_first (b : block) : outcome block :=
  match b with
  | NoBlock => UB NullDeref
  | Freed => UB Dangling
  | Unwritten => Ret Unwritten
  | Bytes [] => UB OutOfBounds
  | Bytes (_ :: l) => Ret (Bytes (NUL :: l))
  end.

Definition free_block (b : block) : outcome block :=
  match b with NoBlock => Ret NoBlock | Freed => UB BadFree | _ => Ret Freed end.

(** [strcat(fileBuffer, src)]: the string in the buffer, [src] and a terminator must fit. *)
Definition append_text (src : list Byte.byte) : M (tstate D) unit :=
  b ← mgets fileBuffer;
  dst ← mlift (block_bytes b);
  old ← mlift (c_text dst);
  let new := old ++ src ++ [NUL] in
  if decide (length new ≤ length dst)%nat
  then set_fileBuffer (Bytes (new ++ drop (length new) dst))
  else mub OutOfBounds.

(** [strftime]: a text that does not fit leaves the block unspecified. *)
Definition strftime (text : list Byte.byte) : M (tstate D) unit :=
  a ← get_args;
  b ← get_stamp;
  match b with
  | NoBlock => mub NullDeref
  | Freed => mub Dangling
  | _ =>
    set_stamp (if Z.of_nat (length text) <? timestamp_len a
               then Bytes (text ++ [NUL]) else Unwritten)
  end.

Definition stamp_mutex_lock : M (tstate D) Z :=
  t ← next_call;
  let r := stamp_lock t in
  (if r =? 0 then set_holds true else mret tt);;
  mret r.

Definition stamp_mutex_unlock : M (tstate D) Z :=
  t ← next_call;
  h ← mgets holds;
  if (h : bool) then
    let r := stamp_unlock t in
    (if r =? 0 then set_holds false else mret tt);;
    mret r
  else mub LockMisuse.

Fixpoint stamp_retry_loop (fuel : nat) (op : M (tstate D) Z) : M (tstate D) Z :=
  match fuel with
  | O => λ _, OutOfFuel
  | S fuel =>
    mutexRes ← op;
    if negb (0 =? mutexRes) then
      z ← mgets k;
      set_k (u8 (z + 1));;
      if z <? stampRetries then stamp_retry_loop fuel op else mret mutexRes
    else mret mutexRes
  end.

Definition stamp_retry (op : M (tstate D) Z) : M (tstate D) Z :=
  mutexRes ← op;
  if negb (0 =? mutexRes) then stamp_retry_loop (Z.to_nat stampRetries + 1) op
  else mret mutexRes.

(** Both ends of the thread free its buffers and its arguments. *)
Definition free_all : M (tstate D) unit :=
  b ← mgets fileBuffer;
  b ← mlift (free_block b);
  set_fileBuffer b;;
  b ← get_stamp;
  b ← mlift (free_block b);
  set_stamp b;;
  set_args None.

(** The results of [fwrite], [fflush] and [fclose] are not looked at. *)
Definition stamp_fwrite (line : list Byte.byte) : M (tstate D) unit :=
  t ← next_call;
  d ← mgets log;
  let line := take (stamp_fwrite_taken t line) line in
  if decide (line = []) then mret tt else set_log (log_write d line).

(** The part that runs with the mutex held. *)
Definition log_stamp : M (tstate D) flow :=
  set_k 0;;
  t ← next_call;
  if negb (stamp_fopen_ok t) then mret ExitProcess
  else
    b ← mgets fileBuffer;
    bytes ← mlift (block_bytes b);
    line ← mlift (c_text bytes);
    stamp_fwrite line;;
    next_call;; (** [fflush] *)
    next_call;; (** [fclose] *)
    stamp_retry stamp_mutex_unlock;;
    mret Next.

(** The time as a string, and the line in the buffer. *)
Definition compose_line (text : list Byte.byte) : M (tstate D) unit :=
  strftime text;;
  set_fileBuffer (Bytes (zeros fileBufferSize));;
  append_text stamp_prefix;;
  b ← get_stamp;
  bytes ← mlift (block_bytes b);
  stamp ← mlift (c_text bytes);
  append_text stamp;;
  append_text [LF].

(** The alarm went off. *)
Definition handle_alarm : M (tstate D) flow :=
  t ← next_call;
  match stamp_text t with
  | None => free_all;; mret Leave
  | Some text =>
    compose_line text;;
    mutexRes ← stamp_retry stamp_mutex_lock;
    if 0 =? mutexRes then log_stamp else mret Next
  end.

(** One round of [while (1)]; [Leave] is the end of the thread. *)
Definition timestamp_round : M (tstate D) flow :=
  s ← mget;
  if sigThreadTerminateFlag s then free_all;; mret Leave
  else if sigAlrmFlag s then clear_alarm;; handle_alarm
  else mret Next.

(** The statements before the loop. *)
Definition timestamp_enter : M (tstate D) unit :=
  t ← next_call;
  let b := malloc_block t in
  stamp ← get_stamp;
  stamp ← mlift (store_first stamp);
  set_stamp stamp;;
  b ← mlift (store_first b);
  set_fileBuffer b;;
  set_k 0.

(** The thread over [n] rounds; before each one the timer may have gone off. *)
Fixpoint timestamp_rounds (alarms : list bool) : M (tstate D) flow :=
  match alarms with
  | [] => mret Next
  | al :: alarms =>
    (if (al : bool) then alarm_handler SIGALRM else mret tt);;
    f ← timestamp_round;
    match f with Next => timestamp_rounds alarms | f => mret f end
  end.

Definition timestamp_thread (alarms : list bool) : M (tstate D) flow :=
  timestamp_enter;; timestamp_rounds alarms.
End thread.

(** ** The timestamp thread: one line per alarm

    The thread as a transformer of the log: which lines a sequence of alarms leaves, that
    every way out frees the memory of the thread, and how long a text its buffer holds. *)

(** The line of a text. *)
Definition stamp_line (text : list Byte.byte) : list Byte.byte := stamp_prefix ++ text ++ [LF].

(** A library whose mutex and [fopen] work. *)
Class TimeSmooth (T : TimeApi) : Prop := {
  stamp_lock_ok : ∀ t, stamp_lock t = 0;
  stamp_unlock_ok : ∀ t, stamp_unlock t = 0;
  stamp_fopen_works : ∀ t, stamp_fopen_ok t = true;
  stamp_fwrite_all : ∀ t l, stamp_fwrite_taken t l = length l;
}.

Lemma stamp_prefix_length : length stamp_prefix = 10%nat.
Proof. reflexivity. Qed.

Lemma stamp_prefix_text : NUL ∉ stamp_prefix.
Proof. apply (bool_decide_unpack _). by vm_compute. Qed.

(** Memory of the thread that it may still use. *)
Definition live (b : block) : Prop := match b with Unwritten | Bytes _ => True | _ => False end.

Lemma free_block_live b : live b → free_block b = Ret Freed.
Proof. by destruct b. Qed.

Section stamps.
Context {D : Type} `{L : LogFile D} `{T : TimeApi}.
Implicit Types s : tstate D.

(** The state between two rounds: the memory of the thread is there. *)
Record awake (s : tstate D) : Prop := {
  aw_args : ∃ a, args s = Some a ∧ timestamp_len a = BUFFER_LEN;
  aw_stamp : live (sTimeStamp_RFC2822 s);
  aw_buffer : live (fileBuffer s);
  aw_holds : holds s = false }.

(** A record with another buffer. *)
Definition put_buffer (b : block) (s : tstate D) : tstate D :=
  mk_tstate (args s) (sTimeStamp_RFC2822 s) b (k s) (calls s) (log s) (holds s) (sigAlrmFlag s)
    (sigThreadTerminateFlag s).

Lemma append_text_eval s old src n :
  fileBuffer s = Bytes (old ++ zeros n) → NUL ∉ old → Z.of_nat (length src) < n →
  append_text src s =
  Ret (tt, put_buffer (Bytes ((old ++ src) ++ zeros (n - Z.of_nat (length src)))) s).
Proof.
  intros Hb Hold Hn. unfold append_text. erewrite bind_eval by reflexivity. rewrite Hb.
  erewrite bind_eval by reflexivity.
  erewrite bind_eval by (unfold mlift; rewrite c_text_zeros by (done || lia); reflexivity).
  cbv zeta. rewrite decide_True by (rewrite !length_app, length_zeros; simpl; lia).
  unfold set_fileBuffer, mmodify, put_buffer. do 4 f_equal.
  rewrite (zeros_cons (n - Z.of_nat (length src))) by lia.
  rewrite drop_app_ge by (rewrite length_app; lia).
  rewrite drop_zeros, !length_app, <- !app_assoc. simpl. do 4 f_equal. lia.
Qed.

(** A text that is too long for the buffer. *)
Lemma append_text_overruns s old src n :
  fileBuffer s = Bytes (old ++ zeros n) → NUL ∉ old → 0 < n ≤ Z.of_nat (length src) →
  append_text src s = UB OutOfBounds.
Proof.
  intros Hb Hold Hn. unfold append_text. erewrite bind_eval by reflexivity. rewrite Hb.
  erewrite bind_eval by reflexivity.
  erewrite bind_eval by (unfold mlift; rewrite c_text_zeros by (done || lia); reflexivity).
  cbv zeta. by rewrite decide_False by (rewrite !length_app, length_zeros; simpl; lia).
Qed.

Lemma get_stamp_eval s a :
  args s = Some a → get_stamp s = Ret (sTimeStamp_RFC2822 s, s).
Proof.
  intros Ha. unfold get_stamp, get_args. erewrite bind_eval; [reflexivity|].
  erewrite bind_eval by reflexivity. by rewrite Ha.
Qed.

Lemma strftime_eval s a text :
  args s = Some a → live (sTimeStamp_RFC2822 s) → Z.of_nat (length text) < timestamp_len a →
  strftime text s =
  Ret (tt, mk_tstate (args s) (Bytes (text ++ [NUL])) (fileBuffer s) (k s) (calls s) (log s)
             (holds s) (sigAlrmFlag s) (sigThreadTerminateFlag s)).
Proof.
  intros Ha Hl Hn. unfold strftime.
  erewrite bind_eval by (unfold get_args; erewrite bind_eval by reflexivity; rewrite Ha; reflexivity).
  erewrite bind_eval by by eapply get_stamp_eval.
  rewrite (proj2 (Z.ltb_lt _ _)) by done. by destruct (sTimeStamp_RFC2822 s).
Qed.

Lemma c_text_nul text : NUL ∉ text → c_text (text ++ [NUL]) = Ret text.
Proof. intros H. by apply (c_text_zeros text 1). Qed.

(** The memory is freed once. *)
Lemma free_all_eval s a :
  args s = Some a → live (sTimeStamp_RFC2822 s) → live (fileBuffer s) →
  free_all s = Ret (tt, mk_tstate None Freed Freed (k s) (calls s) (log s) (holds s)
                          (sigAlrmFlag s) (sigThreadTerminateFlag s)).
Proof.
  intros Ha Hl Hb. unfold free_all. erewrite bind_eval by reflexivity.
  erewrite bind_eval by (unfold mlift; rewrite free_block_live by done; reflexivity).
  erewrite bind_eval by reflexivity.
  erewrite bind_eval by (eapply get_stamp_eval; cbn [args]; exact Ha).
  erewrite bind_eval by (unfold mlift; cbn [sTimeStamp_RFC2822]; rewrite free_block_live by done;
    reflexivity).
  by erewrite bind_eval by reflexivity.
Qed.

(** The string and the line of a text. *)
Definition composed (text line : list Byte.byte) (n : Z) (s : tstate D) : tstate D :=
  mk_tstate (args s) (Bytes (text ++ [NUL])) (Bytes (line ++ zeros n)) (k s) (calls s) (log s)
    (holds s) (sigAlrmFlag s) (sigThreadTerminateFlag s).

Lemma compose_starts s a text :
  args s = Some a → live (sTimeStamp_RFC2822 s) → timestamp_len a = BUFFER_LEN →
  NUL ∉ text → Z.of_nat (length text) < BUFFER_LEN →
  compose_line text s =
  append_text [LF] (composed text (stamp_prefix ++ text) (BUFFER_LEN - Z.of_nat (length text)) s).
Proof.
  intros Ha Hl Hlen Hnul Hn. unfold compose_line.
  erewrite bind_eval by (eapply strftime_eval; [done..|by rewrite Hlen]).
  erewrite bind_eval by reflexivity.
  erewrite bind_eval by (apply (append_text_eval _ [] _ fileBufferSize); done || set_solver).
  unfold put_buffer.
  cbn [args sTimeStamp_RFC2822 fileBuffer k calls log holds sigAlrmFlag sigThreadTerminateFlag].
  erewrite bind_eval by (eapply get_stamp_eval; cbn [args]; exact Ha).
  erewrite bind_eval by reflexivity.
  erewrite bind_eval by (unfold mlift; cbn; rewrite c_text_nul by done; reflexivity).
  erewrite bind_eval by (apply (append_text_eval _ stamp_prefix _ BUFFER_LEN);
    [done|apply stamp_prefix_text|done]).
  done.
Qed.

Lemma line_start_text text : NUL ∉ text → NUL ∉ stamp_prefix ++ text.
Proof. pose proof stamp_prefix_text. set_solver. Qed.

Lemma compose_eval s a text :
  args s = Some a → live (sTimeStamp_RFC2822 s) → timestamp_len a = BUFFER_LEN →
  NUL ∉ text → Z.of_nat (length text) + 1 < BUFFER_LEN →
  compose_line text s =
  Ret (tt, composed text (stamp_line text) (BUFFER_LEN - Z.of_nat (length text) - 1) s).
Proof.
  intros Ha Hl Hlen Hnul Hn. rewrite (compose_starts s a) by (done || lia).
  erewrite append_text_eval; [|reflexivity|by apply line_start_text|simpl; lia].
  unfold composed, put_buffer, stamp_line. by rewrite <- app_assoc.
Qed.

(** The line of a text of ninety-nine characters has no room for its terminator. *)
Lemma compose_overruns s a text :
  args s = Some a → live (sTimeStamp_RFC2822 s) → timestamp_len a = BUFFER_LEN →
  NUL ∉ text → Z.of_nat (length text) = BUFFER_LEN - 1 →
  compose_line text s = UB OutOfBounds.
Proof.
  intros Ha Hl Hlen Hnul Hn. rewrite (compose_starts s a) by (done || lia).
  eapply append_text_overruns; [reflexivity|by apply line_start_text|simpl; lia].
Qed.

Lemma stamp_line_text text : NUL ∉ text → NUL ∉ stamp_line text.
Proof. pose proof stamp_prefix_text. unfold stamp_line. set_solver. Qed.

Lemma stamp_lock_eval `{!TimeSmooth T} s :
  stamp_retry stamp_mutex_lock s =
  Ret (0, mk_tstate (args s) (sTimeStamp_RFC2822 s) (fileBuffer s) (k s) (S (calls s)) (log s) true (sigAlrmFlag s)
            (sigThreadTerminateFlag s)).
Proof.
  unfold stamp_retry, stamp_mutex_lock, mbind, M_bind. cbn [next_call].
  by rewrite stamp_lock_ok.
Qed.

Lemma stamp_unlock_eval `{!TimeSmooth T} s :
  holds s = true →
  stamp_retry stamp_mutex_unlock s =
  Ret (0, mk_tstate (args s) (sTimeStamp_RFC2822 s) (fileBuffer s) (k s) (S (calls s)) (log s) false (sigAlrmFlag s)
            (sigThreadTerminateFlag s)).
Proof.
  intros Hh. unfold stamp_retry, stamp_mutex_unlock, mbind, M_bind, mgets.
  cbn [next_call holds]. by rewrite Hh, stamp_unlock_ok.
Qed.

Lemma log_stamp_eval `{!TimeSmooth T} s line n :
  holds s = true → fileBuffer s = Bytes (line ++ zeros n) → NUL ∉ line → 0 < n → line ≠ [] →
  log_stamp s =
  Ret (Next, mk_tstate (args s) (sTimeStamp_RFC2822 s) (fileBuffer s) 0 (5 + calls s)
               (log_write (log s) line) false (sigAlrmFlag s) (sigThreadTerminateFlag s)).
Proof.
  intros Hh Hb Hnul Hn Hne. unfold log_stamp. erewrite bind_eval by reflexivity.
  erewrite bind_eval by reflexivity. rewrite stamp_fopen_works. cbn [negb].
  erewrite bind_eval by reflexivity. cbn [fileBuffer]. rewrite Hb.
  erewrite bind_eval by reflexivity.
  erewrite bind_eval by (unfold mlift; rewrite c_text_zeros by done; reflexivity).
  erewrite bind_eval.
  2:{ unfold stamp_fwrite. erewrite bind_eval by reflexivity. erewrite bind_eval by reflexivity.
      cbv zeta. rewrite stamp_fwrite_all, firstn_all, decide_False by done. reflexivity. }
  do 2 erewrite bind_eval by reflexivity.
  by erewrite bind_eval by (apply stamp_unlock_eval; exact Hh).
Qed.

Lemma stamp_line_nonempty text : stamp_line text ≠ [].
Proof. unfold stamp_line. by destruct stamp_prefix eqn:E. Qed.

Lemma round_alarm_eval `{!TimeSmooth T} s a text :
  args s = Some a → live (sTimeStamp_RFC2822 s) → timestamp_len a = BUFFER_LEN →
  sigThreadTerminateFlag s = false → sigAlrmFlag s = true →
  stamp_text (calls s) = Some text → NUL ∉ text → Z.of_nat (length text) + 1 < BUFFER_LEN →
  timestamp_round s =
  Ret (Next, mk_tstate (args s) (Bytes (text ++ [NUL]))
    (Bytes (stamp_line text ++ zeros (BUFFER_LEN - Z.of_nat (length text) - 1))) 0
    (7 + calls s) (log_write (log s) (stamp_line text)) false false false).
Proof.
  intros Ha Hl Hlen Hq Hal Ht Hnul Hn. unfold timestamp_round.
  erewrite bind_eval by reflexivity. rewrite Hq, Hal. erewrite bind_eval by reflexivity.
  unfold handle_alarm. erewrite bind_eval by reflexivity. cbn [calls]. rewrite Ht.
  erewrite bind_eval by (eapply compose_eval; done).
  erewrite bind_eval by apply stamp_lock_eval. cbv iota beta.
  change (0 =? 0) with true. cbv iota.
  erewrite log_stamp_eval;
    [|done|reflexivity|by apply stamp_line_text|lia|apply stamp_line_nonempty].
  by unfold composed; cbn; rewrite Hq.
Qed.

Lemma round_alarm `{!TimeSmooth T} s text :
  awake s → sigThreadTerminateFlag s = false → sigAlrmFlag s = true →
  stamp_text (calls s) = Some text → NUL ∉ text → Z.of_nat (length text) + 1 < BUFFER_LEN →
  wp timestamp_round s (λ f s',
    f = Next ∧ log s' = log_write (log s) (stamp_line text) ∧ sigAlrmFlag s' = false ∧
    sigThreadTerminateFlag s' = false ∧ calls s' = (7 + calls s)%nat ∧ awake s').
Proof.
  intros [(a & Ha & Hlen) Hl Hb Hh] Hq Hal Ht Hnul Hn. unfold wp.
  erewrite round_alarm_eval by done. split_and!; try done. split; [by eexists|done..].
Qed.

(** An alarm is answered in one round: the line [timestamp:], the time and a newline is
    appended to the log, the alarm is cleared, the mutex is free, and the thread goes on. *)
Theorem alarm_logs_timestamp `{!TimeSmooth T} s text :
  awake s → sigThreadTerminateFlag s = false → sigAlrmFlag s = true →
  stamp_text (calls s) = Some text → NUL ∉ text → Z.of_nat (length text) + 1 < BUFFER_LEN →
  wp timestamp_round s (λ f s',
    f = Next ∧ log s' = log_write (log s) (stamp_line text) ∧ sigAlrmFlag s' = false ∧ awake s').
Proof. intros. eapply wp_mono; [by eapply round_alarm|]. by intros f s' (? & ? & ? & _ & _ & ?). Qed.

(** A text of ninety-nine characters, which [strftime] may store in a buffer of a hundred,
    is written past the end of the buffer of the line, which is ten characters longer but has
    to hold the eleven around the text and a terminator. *)
Theorem timestamp_overruns s text :
  awake s → sigThreadTerminateFlag s = false → sigAlrmFlag s = true →
  stamp_text (calls s) = Some text → NUL ∉ text → Z.of_nat (length text) = BUFFER_LEN - 1 →
  timestamp_round s = UB OutOfBounds.
Proof.
  intros [(a & Ha & Hlen) Hl Hb Hh] Hq Hal Ht Hnul Hn. unfold timestamp_round.
  erewrite bind_eval by reflexivity. rewrite Hq, Hal. erewrite bind_eval by reflexivity.
  unfold handle_alarm. erewrite bind_eval by reflexivity. cbn [calls]. rewrite Ht.
  apply bind_ub. by eapply compose_overruns.
Qed.

(** C19: both ways out of the thread, the flag of the main thread and a time that cannot be
    converted, free the buffer of the line, the buffer of the time and the arguments, each
    exactly once (a second [free] would be undefined), and leave the log and the mutex. *)
Theorem timestamp_thread_frees s :
  awake s →
  sigThreadTerminateFlag s = true ∨ sigAlrmFlag s = true ∧ stamp_text (calls s) = None →
  wp timestamp_round s (λ f s',
    f = Leave ∧ args s' = None ∧ sTimeStamp_RFC2822 s' = Freed ∧ fileBuffer s' = Freed ∧ log s' = log s ∧ holds s' = false).
Proof.
  intros [(a & Ha & Hlen) Hl Hb Hh] Hout. unfold wp, timestamp_round.
  erewrite bind_eval by reflexivity. destruct (sigThreadTerminateFlag s).
  { erewrite bind_eval by (by eapply free_all_eval). by rewrite Hh. }
  destruct Hout as [|[Hal Ht]]; [done|]. rewrite Hal. erewrite bind_eval by reflexivity.
  unfold handle_alarm. erewrite bind_eval by reflexivity. cbn [calls]. rewrite Ht.
  erewrite bind_eval by (by eapply free_all_eval). by rewrite Hh.
Qed.

(** ** Many rounds *)

(** Documented: the format gives a text of less than ninety-nine characters. *)
Class TimeLaws : Prop :=
  stamp_fits : ∀ t, ∃ text, stamp_text t = Some text ∧ (NUL ∉ text) ∧
                            Z.of_nat (length text) + 1 < BUFFER_LEN.

(** The lines of some texts in a log. *)
Definition log_stamps (d : D) (texts : list (list Byte.byte)) : D :=
  foldl (λ d text, log_write d (stamp_line text)) d texts.
Definition alarm_count (alarms : list bool) : nat := length (filter Is_true alarms).

(** What the clock answers to [n] alarms, when the first one asks it with call [t]: a round
    makes seven calls. *)
Definition times_read (t n : nat) : list (list Byte.byte) :=
  omap (λ i, stamp_text (t + 7 * i)%nat) (seq 0 n).

Lemma times_read_S t n text :
  stamp_text t = Some text → times_read t (S n) = text :: times_read (7 + t) n.
Proof.
  intros Ht. unfold times_read. cbn [seq omap list_omap]. rewrite Nat.mul_0_r, Nat.add_0_r, Ht.
  f_equal. rewrite <- seq_shift. generalize (seq 0 n) as l.
  induction l as [|i l IH]; [done|]. cbn [map omap list_omap].
  replace (t + 7 * S i)%nat with (7 + t + 7 * i)%nat by lia.
  destruct (stamp_text _); by rewrite IH.
Qed.

Lemma length_times_read `{!TimeLaws} t n : length (times_read t n) = n.
Proof.
  revert t. induction n as [|n IH]; intros t; [done|].
  destruct (stamp_fits t) as (text & Ht & _). rewrite (times_read_S _ _ text) by done.
  simpl. by rewrite IH.
Qed.

Lemma rounds_log `{!TimeSmooth T, !TimeLaws} alarms s :
  awake s → sigThreadTerminateFlag s = false → sigAlrmFlag s = false →
  wp (timestamp_rounds alarms) s (λ f s',
    f = Next ∧ awake s' ∧ log s' = log_stamps (log s) (times_read (calls s) (alarm_count alarms))).
Proof.
  revert s. induction alarms as [|al alarms IH]; intros s Hs Hq Hal; [done|].
  cbn [timestamp_rounds]. apply wp_bind. destruct al.
  - apply wp_modify, wp_bind.
    set (s1 := mk_tstate _ _ _ _ _ _ _ _ _).
    assert (awake s1) as H1 by (destruct Hs; by split).
    destruct (stamp_fits (calls s1)) as (text & Ht & Hnul & Hn).
    eapply wp_mono; [by eapply (round_alarm s1 text)|].
    intros f s' (-> & Hlog & Hal' & Hq' & Hc' & Hs').
    eapply wp_mono; [by apply IH|]. intros f s'' (-> & Hs'' & Hlog'').
    split_and!; try done. rewrite Hlog'', Hlog, Hc'. unfold alarm_count. cbn [filter list_filter].
    rewrite decide_True by done. cbn [length]. by rewrite (times_read_S _ _ text).
  - apply wp_ret, wp_bind. unfold timestamp_round at 1. apply wp_bind, wp_get.
    rewrite Hq, Hal. apply wp_ret. by apply IH.
Qed.

Lemma enter_awake a q s :
  (∀ t, stamp_malloc_ok t = true) → args s = Some a → timestamp_len a = BUFFER_LEN →
  live (sTimeStamp_RFC2822 s) → sTimeStamp_RFC2822 s ≠ Bytes [] → holds s = false →
  sigThreadTerminateFlag s = q →
  wp timestamp_enter s (λ _ s',
    awake s' ∧ log s' = log s ∧ calls s' = S (calls s) ∧ sigAlrmFlag s' = sigAlrmFlag s ∧
    sigThreadTerminateFlag s' = q).
Proof.
  intros Hm Ha Hlen Hl Hne Hh Hq. unfold timestamp_enter, wp.
  erewrite bind_eval by reflexivity. cbv zeta. unfold malloc_block. rewrite Hm.
  erewrite bind_eval by (eapply get_stamp_eval; cbn [args]; exact Ha). cbn [sTimeStamp_RFC2822].
  destruct (sTimeStamp_RFC2822 s) as [| | |[|c l]]; try done; cbn; rewrite Hh.
  all: split_and!; try done; split; [by eexists|done..].
Qed.

(** C18: the thread that [timestamp_thread_init] starts, on a library whose calls work and
    whose times fit the buffer, over any number of rounds: for each round before which the
    timer went off the log grows by one line, [timestamp:], the time the clock gave when it
    was asked in that round, and a newline; by these lines in their order and by nothing
    else. *)
Theorem one_line_per_alarm `{!TimeSmooth T, !TimeLaws} a b itv d alarms :
  (∀ t, stamp_malloc_ok t = true) → timestamp_thread_init BUFFER_LEN = Ret (a, b, itv) →
  wp (timestamp_thread alarms) (mk_tstate (Some a) b NoBlock 0 0 d false false false) (λ f s',
    f = Next ∧ holds s' = false ∧ length (times_read 1 (alarm_count alarms)) = alarm_count alarms ∧
    log s' = log_stamps d (times_read 1 (alarm_count alarms))).
Proof.
  intros Hm Hi. unfold timestamp_thread_init, malloc_block in Hi. rewrite !Hm in Hi.
  injection Hi as <- <- <-. apply wp_bind.
  eapply wp_mono; [by eapply enter_awake with (q := false)|].
  intros _ s (Hs & Hlog & Hc & Hal & Hq). eapply wp_mono; [by apply rounds_log|].
  intros f s' (-> & Hs' & Hlog'). split_and!; [done|by destruct Hs'|apply length_times_read|].
  by rewrite Hlog', Hlog, Hc.
Qed.
End stamps.

(** ** The timestamp thread on a concrete clock

    A clock that answers with a fixed text, on which the theorems about the thread are
    applied. *)

#[local] Existing Instance plain_log.

(** [lock] is what the mutex answers, [text] the time, if it can be converted. *)
Definition clock (lock : Z) (text : option (list Byte.byte)) : TimeApi := {|
  stamp_malloc_ok _ := true;
  stamp_create _ := inr 77;
  stamp_text _ := text;
  stamp_lock _ := lock;
  stamp_unlock _ := 0;
  stamp_fopen_ok _ := true;
  stamp_fwrite_taken _ l := length l;
|}.

Definition noon : list Byte.byte := String.list_byte_of_string "Sun, 12 May 2024 12:00:00 +0200".

Lemma noon_text : NUL ∉ noon.
Proof. apply (bool_decide_unpack _). by vm_compute. Qed.

Example noon_line : stamp_line noon =
  String.list_byte_of_string "timestamp:Sun, 12 May 2024 12:00:00 +0200" ++ [LF].
Proof. reflexivity. Qed.

#[export] Instance clock_smooth text : TimeSmooth (clock 0 text).
Proof. by split. Qed.

#[export] Instance clock_laws : TimeLaws (T := clock 0 (Some noon)).
Proof. intros t. exists noon. split_and!; [done|apply noon_text|done]. Qed.

Definition with_alarm (quit : bool) : tstate (list Byte.byte) :=
  mk_tstate (Some (mk_targs BUFFER_LEN (Some 77))) Unwritten Unwritten 0 0 [] false true quit.

Lemma with_alarm_awake quit : awake (with_alarm quit).
Proof. split; [by eexists|done..]. Qed.

Lemma alarm_logs_timestamp_witness :
  wp (timestamp_round (T := clock 0 (Some noon))) (with_alarm false) (λ f s',
    f = Next ∧ log s' = log_write (log (with_alarm false)) (stamp_line noon) ∧ sigAlrmFlag s' = false ∧ awake s').
Proof.
  apply (alarm_logs_timestamp (T := clock 0 (Some noon)) (with_alarm false) noon).
  - apply with_alarm_awake.
  - reflexivity.
  - reflexivity.
  - reflexivity.
  - apply noon_text.
  - reflexivity.
Defined.

Lemma timestamp_overruns_witness :
  timestamp_round (T := clock 0 (Some (replicate 99 Byte.x61))) (with_alarm false) = UB OutOfBounds.
Proof.
  apply (timestamp_overruns (T := clock 0 (Some (replicate 99 Byte.x61))) (with_alarm false)
           (replicate 99 Byte.x61)).
  - apply with_alarm_awake.
  - reflexivity.
  - reflexivity.
  - reflexivity.
  - apply (bool_decide_unpack _). by vm_compute.
  - reflexivity.
Defined.

Lemma timestamp_thread_frees_witness :
  wp (timestamp_round (T := clock 0 None)) (with_alarm false) (λ f s',
    f = Leave ∧ args s' = None ∧ sTimeStamp_RFC2822 s' = Freed ∧ fileBuffer s' = Freed ∧
    log s' = [] ∧ holds s' = false).
Proof.
  apply (timestamp_thread_frees (T := clock 0 None) (with_alarm false)).
  - apply with_alarm_awake.
  - by right.
Defined.

(** A clock whose answers differ, as the calls are numbered. *)
Definition two_times : TimeApi := {|
  stamp_malloc_ok _ := true;
  stamp_create _ := inr 77;
  stamp_text t := Some (if decide (t = 1%nat) then [Byte.x61] else [Byte.x62]);
  stamp_lock _ := 0;
  stamp_unlock _ := 0;
  stamp_fopen_ok _ := true;
  stamp_fwrite_taken _ l := length l;
|}.

#[export] Instance two_times_smooth : TimeSmooth two_times.
Proof. by split. Qed.

#[export] Instance two_times_laws : TimeLaws (T := two_times).
Proof.
  intros t. eexists. split; [reflexivity|]. split; case_decide; try done.
  all: apply (bool_decide_unpack _); by vm_compute.
Qed.

(** Two alarms in four rounds. *)
Lemma one_line_per_alarm_witness :
  wp (timestamp_thread (T := two_times) [true; false; true; false])
    (mk_tstate (Some (mk_targs 100 (Some 77))) Unwritten NoBlock 0 0 [] false false false)
    (λ f s', f = Next ∧ holds s' = false ∧ length (times_read (T := two_times) 1 2) = 2%nat ∧
      log s' = log_stamps [] [[Byte.x61]; [Byte.x62]]).
Proof.
  apply (one_line_per_alarm (T := two_times) (mk_targs 100 (Some 77)) Unwritten
           (mk_itimerval 0 10 10 0) [] [true; false; true; false]); reflexivity.
Defined.
