(* ===== verification/CecMsg.v ===== *)
(** * CEC messages ([linux/cec.h])

    [struct cec_msg], access to its bytes, and the inline functions of [cec.h].  A function
    that writes a message is in the monad [M cec_msg]; one that reads it is a function of
    the message to an [outcome].  Fields keep the width of their type: a store wraps.  The
    array [msg] has sixteen bytes and an access outside it is undefined behaviour; the code
    does not compare an index with [len], so a read beyond [len] sees stale bytes. *)

From stdpp Require Import base list numbers.
From Stdlib Require Import ZArith Lia.
From S2P Require Import Prelude CecConst.

#[local] Open Scope c_scope.
#[local] Open Scope Z_scope.

(** ** The structures *)

Record cec_msg : Type := CecMsg {
  tx_ts : Z;
  rx_ts : Z;
  len : Z;
  timeout : Z;
  sequence : Z;
  flags : Z;
  msg : list Z;
  reply : Z;
  rx_status : Z;
  tx_status : Z;
  tx_arb_lost_cnt : Z;
  tx_nack_cnt : Z;
  tx_low_drive_cnt : Z;
  tx_error_cnt : Z }.

Record cec_log_addrs : Type := CecLogAddrs {
  log_addr : list Z;
  log_addr_mask : Z;
  las_cec_version : Z;
  num_log_addrs : Z;
  las_vendor_id : Z;
  las_flags : Z;
  osd_name : list Z;
  primary_device_type : list Z;
  log_addr_type : list Z;
  las_all_device_types : list Z;
  features : list (list Z) }.

(** The three fields of a message that the functions assign, besides its timeout. *)
Definition with_len (n : Z) (m : cec_msg) : cec_msg :=
  CecMsg (tx_ts m) (rx_ts m) n (timeout m) (sequence m) (flags m) (msg m) (reply m)
    (rx_status m) (tx_status m) (tx_arb_lost_cnt m) (tx_nack_cnt m)
    (tx_low_drive_cnt m) (tx_error_cnt m).
Definition with_msg (l : list Z) (m : cec_msg) : cec_msg :=
  CecMsg (tx_ts m) (rx_ts m) (len m) (timeout m) (sequence m) (flags m) l (reply m)
    (rx_status m) (tx_status m) (tx_arb_lost_cnt m) (tx_nack_cnt m)
    (tx_low_drive_cnt m) (tx_error_cnt m).
Definition with_reply (r : Z) (m : cec_msg) : cec_msg :=
  CecMsg (tx_ts m) (rx_ts m) (len m) (timeout m) (sequence m) (flags m) (msg m) r
    (rx_status m) (tx_status m) (tx_arb_lost_cnt m) (tx_nack_cnt m)
    (tx_low_drive_cnt m) (tx_error_cnt m).
Definition with_timeout (t : Z) (m : cec_msg) : cec_msg :=
  CecMsg (tx_ts m) (rx_ts m) (len m) t (sequence m) (flags m) (msg m) (reply m)
    (rx_status m) (tx_status m) (tx_arb_lost_cnt m) (tx_nack_cnt m)
    (tx_low_drive_cnt m) (tx_error_cnt m).

(** ** Access to memory *)

(** An array of bytes: [a[i]], [a[i] = v]. *)
Definition arr_get {A} (a : list A) (i : Z) : outcome A :=
  if 0 <=? i then match a !! Z.to_nat i with Some v => Ret v | None => UB OutOfBounds end
  else UB OutOfBounds.
Definition arr_set {A} (a : list A) (i : Z) (v : A) : outcome (list A) :=
  if (0 <=? i) && (i <? Z.of_nat (length a)) then Ret (<[Z.to_nat i := v]> a)
  else UB OutOfBounds.

(** [msg->msg[i]], [msg->msg[i] = v], [msg->msg[i] |= v]. *)
Definition msg_at (m : cec_msg) (i : Z) : outcome Z := arr_get (msg m) i.
Definition set_msg (i v : Z) : M cec_msg unit :=
  λ m, l ← arr_set (msg m) i (u8 v); Ret (tt, with_msg l m).
Definition or_msg (i v : Z) : M cec_msg unit :=
  λ m, b ← msg_at m i; set_msg i (b .| v) m.

(** [msg->len = n], [msg->len += n], [msg->len++], [msg->reply = r]. *)
Definition set_len (n : Z) : M cec_msg unit := mmodify (with_len (u32 n)).
Definition add_len (n : Z) : M cec_msg unit := λ m, set_len (len m + n) m.
Definition len_inc : M cec_msg Z := λ m, (set_len (len m + 1);; mret (len m)) m.
Definition set_reply (r : Z) : M cec_msg unit := mmodify (with_reply (u8 r)).

(** [msg->msg[i] = x >> 8; msg->msg[j] = x & 0xff;] and [(msg->msg[i] << 8) | msg->msg[j]]. *)
Definition put_be16 (i j x : Z) : M cec_msg unit :=
  set_msg i (x ≫ 8);;
  set_msg j (x .& 0xff).
Definition get_be16 (m : cec_msg) (i j : Z) : outcome Z :=
  hi ← msg_at m i; lo ← msg_at m j;
  mret (u16 (hi ≪ 8 .| lo)).

(** [msg->msg[i] = ((x / 10) << 4) | (x % 10);] and
    [(msg->msg[i] >> 4) * 10 + (msg->msg[i] & 0xf)]. *)
Definition put_bcd (i x : Z) : M cec_msg unit :=
  set_msg i ((x / 10) ≪ 4 .| x mod 10).
Definition get_bcd (m : cec_msg) (i : Z) : outcome Z :=
  b ← msg_at m i;
  mret (u8 ((b ≫ 4) * 10 + (b .& 0xf))).

(** A C string is a block of bytes with a terminator in it; [strlen] looks for it. *)
Fixpoint strlen (s : list Z) : outcome Z :=
  match s with
  | [] => UB OutOfBounds
  | c :: s => if c =? 0 then Ret 0 else n ← strlen s; Ret (n + 1)
  end.

(** [memcpy(msg->msg + i, src, n)]: one store per byte. *)
Fixpoint memcpy_to_msg (i : Z) (src : list Z) (n : nat) {struct n} : M cec_msg unit :=
  match n with
  | O => mret tt
  | S n => match src with
           | [] => mub OutOfBounds
           | c :: src => set_msg i c;; memcpy_to_msg (i + 1) src n
           end
  end.

(** [memcpy(dst + k, msg->msg + i, n)]: the new contents of [dst]. *)
Fixpoint memcpy_from_msg (dst : list Z) (k : Z) (m : cec_msg) (i : Z) (n : nat)
    : outcome (list Z) :=
  match n with
  | O => mret dst
  | S n => c ← msg_at m i; dst ← arr_set dst k c; memcpy_from_msg dst (k + 1) m (i + 1) n
  end.

(** ** The inline functions of [cec.h] *)

Definition cec_msg_initiator (m : cec_msg) : outcome Z :=
  b ← msg_at m 0; mret (u8 (b ≫ 4)).

Definition cec_msg_destination (m : cec_msg) : outcome Z :=
  b ← msg_at m 0; mret (u8 (b .& 0xf)).

Definition cec_msg_opcode (m : cec_msg) : outcome Z :=
  if 1 <? len m then msg_at m 1 else mret (-1).

Definition cec_msg_is_broadcast (m : cec_msg) : outcome bool :=
  b ← msg_at m 0; mret ((b .& 0xf) =? 0xf).

(** [memset(msg, 0, sizeof( *msg))]. *)
Definition cec_msg_zero : cec_msg :=
  CecMsg 0 0 0 0 0 0 (replicate 16 0) 0 0 0 0 0 0 0.

Definition cec_msg_init (initiator destination : Z) : M cec_msg unit :=
  mmodify (λ _, cec_msg_zero);;
  set_msg 0 (initiator ≪ 4 .| destination);;
  set_len 1.

(** [orig] may be the message itself: the caller passes its value. *)
Definition cec_msg_set_reply_to (orig : cec_msg) : M cec_msg unit :=
  d ← mlift (cec_msg_destination orig);
  i ← mlift (cec_msg_initiator orig);
  set_msg 0 (d ≪ 4 .| i);;
  mmodify (with_timeout 0);;
  set_reply 0.

Definition cec_msg_status_is_ok (m : cec_msg) : bool :=
  if negb (tx_status m =? 0) && ((tx_status m .& CEC_TX_STATUS_OK) =? 0) then false
  else if negb (rx_status m =? 0) && ((rx_status m .& CEC_RX_STATUS_OK) =? 0) then false
  else if (tx_status m =? 0) && (rx_status m =? 0) then false
  else (rx_status m .& CEC_RX_STATUS_FEATURE_ABORT) =? 0.

Definition cec_has_tv (log_addr_mask : Z) : Z := log_addr_mask .& CEC_LOG_ADDR_MASK_TV.
Definition cec_has_record (log_addr_mask : Z) : Z :=
  log_addr_mask .& CEC_LOG_ADDR_MASK_RECORD.
Definition cec_has_tuner (log_addr_mask : Z) : Z :=
  log_addr_mask .& CEC_LOG_ADDR_MASK_TUNER.
Definition cec_has_playback (log_addr_mask : Z) : Z :=
  log_addr_mask .& CEC_LOG_ADDR_MASK_PLAYBACK.
Definition cec_has_audiosystem (log_addr_mask : Z) : Z :=
  log_addr_mask .& CEC_LOG_ADDR_MASK_AUDIOSYSTEM.
Definition cec_has_backup (log_addr_mask : Z) : Z :=
  log_addr_mask .& CEC_LOG_ADDR_MASK_BACKUP.
Definition cec_has_specific (log_addr_mask : Z) : Z :=
  log_addr_mask .& CEC_LOG_ADDR_MASK_SPECIFIC.
Definition cec_is_unregistered (log_addr_mask : Z) : Z :=
  log_addr_mask .& CEC_LOG_ADDR_MASK_UNREGISTERED.
Definition cec_is_unconfigured (log_addr_mask : Z) : bool := log_addr_mask =? 0.

(** The conjunctions stop at the first operand that is false. *)
Definition cec_is_2nd_tv (las : cec_log_addrs) : outcome bool :=
  if num_log_addrs las =? 0 then mret false
  else a ← arr_get (log_addr las) 0;
    if a <? CEC_LOG_ADDR_SPECIFIC then mret false
    else t ← arr_get (primary_device_type las) 0;
      mret (t =? CEC_OP_PRIM_DEVTYPE_TV).

Definition cec_is_processor (las : cec_log_addrs) : outcome bool :=
  if num_log_addrs las =? 0 then mret false
  else a ← arr_get (log_addr las) 0;
    if a <? CEC_LOG_ADDR_BACKUP_1 then mret false
    else t ← arr_get (primary_device_type las) 0;
      mret (t =? CEC_OP_PRIM_DEVTYPE_PROCESSOR).

Definition cec_is_switch (las : cec_log_addrs) : outcome bool :=
  if negb (num_log_addrs las =? 1) then mret false
  else a ← arr_get (log_addr las) 0;
    if negb (a =? CEC_LOG_ADDR_UNREGISTERED) then mret false
    else t ← arr_get (primary_device_type las) 0;
      mret ((t =? CEC_OP_PRIM_DEVTYPE_SWITCH) &&
            ((las_flags las .& CEC_LOG_ADDRS_FL_CDC_ONLY) =? 0)).

Definition cec_is_cdc_only (las : cec_log_addrs) : outcome bool :=
  if negb (num_log_addrs las =? 1) then mret false
  else a ← arr_get (log_addr las) 0;
    if negb (a =? CEC_LOG_ADDR_UNREGISTERED) then mret false
    else t ← arr_get (primary_device_type las) 0;
      mret ((t =? CEC_OP_PRIM_DEVTYPE_SWITCH) &&
            negb ((las_flags las .& CEC_LOG_ADDRS_FL_CDC_ONLY) =? 0)).
