(* ===== verification/CecRecord.v ===== *)
(** * CEC messages: one touch play, routing control, standby and one touch record

    Lines 1 to 366 of [linux/cec-funcs.h].  Each [cec_msg_x] writes a message and each
    [cec_ops_x] reads its operands. *)

From stdpp Require Import base list numbers.
From Stdlib Require Import ZArith Lia.
From S2P Require Import Prelude CecConst CecMsg.

#[local] Open Scope c_scope.
#[local] Open Scope Z_scope.

(** ** One Touch Play Feature *)

Definition cec_msg_active_source (phys_addr : Z) : M cec_msg unit :=
  set_len 4;;
  or_msg 0 0xf;;
  set_msg 1 CEC_MSG_ACTIVE_SOURCE;;
  put_be16 2 3 phys_addr.

Definition cec_ops_active_source (msg : cec_msg) : outcome Z :=
  phys_addr ← get_be16 msg 2 3;
  mret phys_addr.

Definition cec_msg_image_view_on : M cec_msg unit :=
  set_len 2;;
  set_msg 1 CEC_MSG_IMAGE_VIEW_ON.

Definition cec_msg_text_view_on : M cec_msg unit :=
  set_len 2;;
  set_msg 1 CEC_MSG_TEXT_VIEW_ON.

(** ** Routing Control Feature *)

Definition cec_msg_inactive_source (phys_addr : Z) : M cec_msg unit :=
  set_len 4;;
  set_msg 1 CEC_MSG_INACTIVE_SOURCE;;
  put_be16 2 3 phys_addr.

Definition cec_ops_inactive_source (msg : cec_msg) : outcome Z :=
  phys_addr ← get_be16 msg 2 3;
  mret phys_addr.

Definition cec_msg_request_active_source (reply : Z) : M cec_msg unit :=
  set_len 2;;
  or_msg 0 0xf;;
  set_msg 1 CEC_MSG_REQUEST_ACTIVE_SOURCE;;
  set_reply (ternary reply CEC_MSG_ACTIVE_SOURCE 0).

Definition cec_msg_routing_information (phys_addr : Z) : M cec_msg unit :=
  set_len 4;;
  or_msg 0 0xf;;
  set_msg 1 CEC_MSG_ROUTING_INFORMATION;;
  put_be16 2 3 phys_addr.

Definition cec_ops_routing_information (msg : cec_msg) : outcome Z :=
  phys_addr ← get_be16 msg 2 3;
  mret phys_addr.

Definition cec_msg_routing_change
    (reply orig_phys_addr new_phys_addr : Z) : M cec_msg unit :=
  set_len 6;;
  or_msg 0 0xf;;
  set_msg 1 CEC_MSG_ROUTING_CHANGE;;
  put_be16 2 3 orig_phys_addr;;
  put_be16 4 5 new_phys_addr;;
  set_reply (ternary reply CEC_MSG_ROUTING_INFORMATION 0).

Definition cec_ops_routing_change (msg : cec_msg) : outcome (Z * Z) :=
  orig_phys_addr ← get_be16 msg 2 3;
  new_phys_addr ← get_be16 msg 4 5;
  mret (orig_phys_addr, new_phys_addr).

Definition cec_msg_set_stream_path (phys_addr : Z) : M cec_msg unit :=
  set_len 4;;
  or_msg 0 0xf;;
  set_msg 1 CEC_MSG_SET_STREAM_PATH;;
  put_be16 2 3 phys_addr.

Definition cec_ops_set_stream_path (msg : cec_msg) : outcome Z :=
  phys_addr ← get_be16 msg 2 3;
  mret phys_addr.

(** ** Standby Feature *)

Definition cec_msg_standby : M cec_msg unit :=
  set_len 2;;
  set_msg 1 CEC_MSG_STANDBY.

(** ** The structures *)

Record cec_op_arib_data : Type := AribData {
  arib_transport_id : Z;
  arib_service_id : Z;
  arib_orig_network_id : Z }.

Record cec_op_atsc_data : Type := AtscData {
  atsc_transport_id : Z;
  program_number : Z }.

Record cec_op_dvb_data : Type := DvbData {
  dvb_transport_id : Z;
  dvb_service_id : Z;
  dvb_orig_network_id : Z }.

Record cec_op_channel_data : Type := ChannelData {
  channel_number_fmt : Z;
  major : Z;
  minor : Z }.

(** The union of the four is six bytes: three words in the byte order of the machine
    (little endian), so the members overlay each other as they do in memory. *)
Record cec_op_digital_service_id : Type := DigitalServiceId {
  service_id_method : Z;
  dig_bcast_system : Z;
  word0 : Z;
  word1 : Z;
  word2 : Z }.

Definition arib (d : cec_op_digital_service_id) : cec_op_arib_data :=
  AribData (word0 d) (word1 d) (word2 d).
Definition atsc (d : cec_op_digital_service_id) : cec_op_atsc_data :=
  AtscData (word0 d) (word1 d).
Definition dvb (d : cec_op_digital_service_id) : cec_op_dvb_data :=
  DvbData (word0 d) (word1 d) (word2 d).
Definition channel (d : cec_op_digital_service_id) : cec_op_channel_data :=
  ChannelData (word0 d .& 0xff) (word1 d) (word2 d).

(** A store of a byte keeps the other byte of its word. *)
Definition set_low_byte (w b : Z) : Z := (w .& 0xff00) .| b.

Definition with_channel (c : cec_op_channel_data) (d : cec_op_digital_service_id)
    : cec_op_digital_service_id :=
  DigitalServiceId (service_id_method d) (dig_bcast_system d)
    (set_low_byte (word0 d) (channel_number_fmt c)) (major c) (minor c).
Definition with_dvb (v : cec_op_dvb_data) (d : cec_op_digital_service_id)
    : cec_op_digital_service_id :=
  DigitalServiceId (service_id_method d) (dig_bcast_system d)
    (dvb_transport_id v) (dvb_service_id v) (dvb_orig_network_id v).

(** The unnamed structures of an analogue service.  In the unions below they start at the
    first byte of the digital service: its two bytes are the broadcast type and the
    padding, its words the frequency and the broadcast system. *)
Record analog_service : Type := AnalogService {
  ana_bcast_type : Z;
  ana_freq : Z;
  bcast_system : Z }.

Definition analog (d : cec_op_digital_service_id) : analog_service :=
  AnalogService (service_id_method d) (word0 d) (word1 d .& 0xff).
Definition with_analog (a : analog_service) (d : cec_op_digital_service_id)
    : cec_op_digital_service_id :=
  DigitalServiceId (ana_bcast_type a) (dig_bcast_system d) (ana_freq a)
    (set_low_byte (word1 d) (bcast_system a)) (word2 d).

(** The union is held as its largest member. *)
Record cec_op_record_src : Type := RecordSrc {
  rec_type : Z;
  rec_digital : cec_op_digital_service_id }.

Definition ext_plug (r : cec_op_record_src) : Z := service_id_method (rec_digital r).
Definition with_ext_plug (plug : Z) (r : cec_op_record_src) : cec_op_record_src :=
  let d := rec_digital r in
  RecordSrc (rec_type r)
    (DigitalServiceId plug (dig_bcast_system d) (word0 d) (word1 d) (word2 d)).
Definition ext_phys_addr (r : cec_op_record_src) : Z :=
  service_id_method (rec_digital r) .| (dig_bcast_system (rec_digital r) ≪ 8).
Definition with_ext_phys_addr (a : Z) (r : cec_op_record_src) : cec_op_record_src :=
  let d := rec_digital r in
  RecordSrc (rec_type r)
    (DigitalServiceId (a .& 0xff) (a ≫ 8) (word0 d) (word1 d) (word2 d)).

(** ** One Touch Record *)

(** The labels of the [switch] that share the layout of ATSC. *)
Definition is_atsc_system (s : Z) : bool :=
  (s =? CEC_OP_DIG_SERVICE_BCAST_SYSTEM_ATSC_GEN) ||
  (s =? CEC_OP_DIG_SERVICE_BCAST_SYSTEM_ATSC_CABLE) ||
  (s =? CEC_OP_DIG_SERVICE_BCAST_SYSTEM_ATSC_SAT) ||
  (s =? CEC_OP_DIG_SERVICE_BCAST_SYSTEM_ATSC_T).

Definition cec_msg_record_off (reply : Z) : M cec_msg unit :=
  set_len 2;;
  set_msg 1 CEC_MSG_RECORD_OFF;;
  set_reply (ternary reply CEC_MSG_RECORD_STATUS 0).

Definition cec_set_digital_service_id (p : Z) (digital : cec_op_digital_service_id)
    : M cec_msg unit :=
  set_msg p (service_id_method digital ≪ 7 .| dig_bcast_system digital);;
  if service_id_method digital =? CEC_OP_SERVICE_ID_METHOD_BY_CHANNEL then
    set_msg (p + 1) (channel_number_fmt (channel digital) ≪ 2 .| major (channel digital) ≫ 8);;
    set_msg (p + 2) (major (channel digital) .& 0xff);;
    set_msg (p + 3) (minor (channel digital) ≫ 8);;
    set_msg (p + 4) (minor (channel digital) .& 0xff);;
    set_msg (p + 5) 0;;
    set_msg (p + 6) 0
  else if is_atsc_system (dig_bcast_system digital) then
    set_msg (p + 1) (atsc_transport_id (atsc digital) ≫ 8);;
    set_msg (p + 2) (atsc_transport_id (atsc digital) .& 0xff);;
    set_msg (p + 3) (program_number (atsc digital) ≫ 8);;
    set_msg (p + 4) (program_number (atsc digital) .& 0xff);;
    set_msg (p + 5) 0;;
    set_msg (p + 6) 0
  else
    set_msg (p + 1) (dvb_transport_id (dvb digital) ≫ 8);;
    set_msg (p + 2) (dvb_transport_id (dvb digital) .& 0xff);;
    set_msg (p + 3) (dvb_service_id (dvb digital) ≫ 8);;
    set_msg (p + 4) (dvb_service_id (dvb digital) .& 0xff);;
    set_msg (p + 5) (dvb_orig_network_id (dvb digital) ≫ 8);;
    set_msg (p + 6) (dvb_orig_network_id (dvb digital) .& 0xff).

Definition cec_get_digital_service_id (msg : cec_msg) (p : Z)
    (digital : cec_op_digital_service_id) : outcome cec_op_digital_service_id :=
  b0 ← msg_at msg p;
  let method := u8 (b0 ≫ 7) in
  let digital := DigitalServiceId method (u8 (b0 .& 0x7f))
                   (word0 digital) (word1 digital) (word2 digital) in
  if method =? CEC_OP_SERVICE_ID_METHOD_BY_CHANNEL then
    b1 ← msg_at msg (p + 1); b2 ← msg_at msg (p + 2);
    minor ← get_be16 msg (p + 3) (p + 4);
    mret (with_channel (ChannelData (u8 (b1 ≫ 2)) (u16 ((b1 .& 3) ≪ 6 .| b2)) minor) digital)
  else
    transport_id ← get_be16 msg (p + 1) (p + 2);
    service_id ← get_be16 msg (p + 3) (p + 4);
    orig_network_id ← get_be16 msg (p + 5) (p + 6);
    mret (with_dvb (DvbData transport_id service_id orig_network_id) digital).

Definition cec_msg_record_on_own : M cec_msg unit :=
  set_len 3;;
  set_msg 1 CEC_MSG_RECORD_ON;;
  set_msg 2 CEC_OP_RECORD_SRC_OWN.

Definition cec_msg_record_on_digital
    (digital : cec_op_digital_service_id) : M cec_msg unit :=
  set_len 10;;
  set_msg 1 CEC_MSG_RECORD_ON;;
  set_msg 2 CEC_OP_RECORD_SRC_DIGITAL;;
  cec_set_digital_service_id 3 digital.

Definition cec_msg_record_on_analog
    (ana_bcast_type ana_freq bcast_system : Z) : M cec_msg unit :=
  set_len 7;;
  set_msg 1 CEC_MSG_RECORD_ON;;
  set_msg 2 CEC_OP_RECORD_SRC_ANALOG;;
  set_msg 3 ana_bcast_type;;
  put_be16 4 5 ana_freq;;
  set_msg 6 bcast_system.

Definition cec_msg_record_on_plug (plug : Z) : M cec_msg unit :=
  set_len 4;;
  set_msg 1 CEC_MSG_RECORD_ON;;
  set_msg 2 CEC_OP_RECORD_SRC_EXT_PLUG;;
  set_msg 3 plug.

Definition cec_msg_record_on_phys_addr (phys_addr : Z) : M cec_msg unit :=
  set_len 5;;
  set_msg 1 CEC_MSG_RECORD_ON;;
  set_msg 2 CEC_OP_RECORD_SRC_EXT_PHYS_ADDR;;
  put_be16 3 4 phys_addr.

Definition cec_msg_record_on (reply : Z) (rec_src : cec_op_record_src) : M cec_msg unit :=
  (if rec_type rec_src =? CEC_OP_RECORD_SRC_OWN then cec_msg_record_on_own
   else if rec_type rec_src =? CEC_OP_RECORD_SRC_DIGITAL then
     cec_msg_record_on_digital (rec_digital rec_src)
   else if rec_type rec_src =? CEC_OP_RECORD_SRC_ANALOG then
     cec_msg_record_on_analog (ana_bcast_type (analog (rec_digital rec_src)))
       (ana_freq (analog (rec_digital rec_src))) (bcast_system (analog (rec_digital rec_src)))
   else if rec_type rec_src =? CEC_OP_RECORD_SRC_EXT_PLUG then
     cec_msg_record_on_plug (ext_plug rec_src)
   else if rec_type rec_src =? CEC_OP_RECORD_SRC_EXT_PHYS_ADDR then
     cec_msg_record_on_phys_addr (ext_phys_addr rec_src)
   else mret tt);;
  set_reply (ternary reply CEC_MSG_RECORD_STATUS 0).

Definition cec_ops_record_on (msg : cec_msg) (rec_src : cec_op_record_src)
    : outcome cec_op_record_src :=
  type ← msg_at msg 2;
  let digital := rec_digital rec_src in
  if type =? CEC_OP_RECORD_SRC_OWN then mret (RecordSrc type digital)
  else if type =? CEC_OP_RECORD_SRC_DIGITAL then
    digital ← cec_get_digital_service_id msg 3 digital;
    mret (RecordSrc type digital)
  else if type =? CEC_OP_RECORD_SRC_ANALOG then
    bcast_type ← msg_at msg 3;
    freq ← get_be16 msg 4 5;
    system ← msg_at msg 6;
    mret (RecordSrc type (with_analog (AnalogService bcast_type freq system) digital))
  else if type =? CEC_OP_RECORD_SRC_EXT_PLUG then
    plug ← msg_at msg 3;
    mret (with_ext_plug plug (RecordSrc type digital))
  else if type =? CEC_OP_RECORD_SRC_EXT_PHYS_ADDR then
    phys_addr ← get_be16 msg 3 4;
    mret (with_ext_phys_addr phys_addr (RecordSrc type digital))
  else mret (RecordSrc type digital).

Definition cec_msg_record_status (rec_status : Z) : M cec_msg unit :=
  set_len 3;;
  set_msg 1 CEC_MSG_RECORD_STATUS;;
  set_msg 2 rec_status.

Definition cec_ops_record_status (msg : cec_msg) : outcome Z :=
  rec_status ← msg_at msg 2;
  mret rec_status.

Definition cec_msg_record_tv_screen (reply : Z) : M cec_msg unit :=
  set_len 2;;
  set_msg 1 CEC_MSG_RECORD_TV_SCREEN;;
  set_reply (ternary reply CEC_MSG_RECORD_ON 0).
