(* ===== verification/CecTimer.v ===== *)
(** * CEC messages: timer programming, system information and deck control

    Lines 367 to 949 of [linux/cec-funcs.h].  Each [cec_msg_x] writes a message and each
    [cec_ops_x] reads its operands. *)

From stdpp Require Import base list numbers.
From Stdlib Require Import ZArith Lia.
From S2P Require Import Prelude CecConst CecMsg CecRecord.

#[local] Open Scope c_scope.
#[local] Open Scope Z_scope.

(** ** Timer Programming Feature *)

(** The condition of both functions of the timer status. *)
Definition timer_has_duration (prog_info prog_error : Z) : bool :=
  (prog_info =? CEC_OP_PROG_INFO_NOT_ENOUGH_SPACE) ||
  (prog_info =? CEC_OP_PROG_INFO_MIGHT_NOT_BE_ENOUGH_SPACE) ||
  (prog_error =? CEC_OP_PROG_ERROR_DUPLICATE).

Definition cec_msg_timer_status (timer_overlap_warning media_info prog_info prog_error
    duration_hr duration_min : Z) : M cec_msg unit :=
  set_len 3;;
  set_msg 1 CEC_MSG_TIMER_STATUS;;
  set_msg 2 ((timer_overlap_warning ≪ 7) .| (media_info ≪ 5) .|
             ternary prog_info 0x10 0 .| ternary prog_info prog_info prog_error);;
  if timer_has_duration prog_info prog_error then
    add_len 2;;
    put_bcd 3 duration_hr;;
    put_bcd 4 duration_min
  else mret tt.

Definition cec_ops_timer_status (msg : cec_msg) : outcome (Z * Z * Z * Z * Z * Z) :=
  b2 ← msg_at msg 2;
  let timer_overlap_warning := u8 (b2 ≫ 7) in
  let media_info := u8 ((b2 ≫ 5) .& 3) in
  let prog_info := ternary (b2 .& 0x10) (u8 (b2 .& 0xf)) 0 in
  let prog_error := ternary (b2 .& 0x10) 0 (u8 (b2 .& 0xf)) in
  if timer_has_duration prog_info prog_error then
    duration_hr ← get_bcd msg 3;
    duration_min ← get_bcd msg 4;
    mret (timer_overlap_warning, media_info, prog_info, prog_error, duration_hr, duration_min)
  else mret (timer_overlap_warning, media_info, prog_info, prog_error, 0, 0).

Definition cec_msg_timer_cleared_status (timer_cleared_status : Z) : M cec_msg unit :=
  set_len 3;;
  set_msg 1 CEC_MSG_TIMER_CLEARED_STATUS;;
  set_msg 2 timer_cleared_status.

Definition cec_ops_timer_cleared_status (msg : cec_msg) : outcome Z :=
  timer_cleared_status ← msg_at msg 2;
  mret timer_cleared_status.

Definition cec_msg_clear_analogue_timer
    (reply day month start_hr start_min duration_hr duration_min recording_seq
    ana_bcast_type ana_freq bcast_system : Z) : M cec_msg unit :=
  set_len 13;;
  set_msg 1 CEC_MSG_CLEAR_ANALOGUE_TIMER;;
  set_msg 2 day;;
  set_msg 3 month;;
  put_bcd 4 start_hr;;
  put_bcd 5 start_min;;
  put_bcd 6 duration_hr;;
  put_bcd 7 duration_min;;
  set_msg 8 recording_seq;;
  set_msg 9 ana_bcast_type;;
  put_be16 10 11 ana_freq;;
  set_msg 12 bcast_system;;
  set_reply (ternary reply CEC_MSG_TIMER_CLEARED_STATUS 0).

Definition cec_ops_clear_analogue_timer (msg : cec_msg)
    : outcome (Z * Z * Z * Z * Z * Z * Z * Z * Z * Z) :=
  day ← msg_at msg 2;
  month ← msg_at msg 3;
  start_hr ← get_bcd msg 4;
  start_min ← get_bcd msg 5;
  duration_hr ← get_bcd msg 6;
  duration_min ← get_bcd msg 7;
  recording_seq ← msg_at msg 8;
  ana_bcast_type ← msg_at msg 9;
  ana_freq ← get_be16 msg 10 11;
  bcast_system ← msg_at msg 12;
  mret (day, month, start_hr, start_min, duration_hr, duration_min, recording_seq,
        ana_bcast_type, ana_freq, bcast_system).

Definition cec_msg_clear_digital_timer
    (reply day month start_hr start_min duration_hr duration_min recording_seq : Z) (digital
    : cec_op_digital_service_id) : M cec_msg unit :=
  set_len 16;;
  set_reply (ternary reply CEC_MSG_TIMER_CLEARED_STATUS 0);;
  set_msg 1 CEC_MSG_CLEAR_DIGITAL_TIMER;;
  set_msg 2 day;;
  set_msg 3 month;;
  put_bcd 4 start_hr;;
  put_bcd 5 start_min;;
  put_bcd 6 duration_hr;;
  put_bcd 7 duration_min;;
  set_msg 8 recording_seq;;
  cec_set_digital_service_id 9 digital.

Definition cec_ops_clear_digital_timer (msg : cec_msg) (digital : cec_op_digital_service_id)
    : outcome (Z * Z * Z * Z * Z * Z * Z * cec_op_digital_service_id) :=
  day ← msg_at msg 2;
  month ← msg_at msg 3;
  start_hr ← get_bcd msg 4;
  start_min ← get_bcd msg 5;
  duration_hr ← get_bcd msg 6;
  duration_min ← get_bcd msg 7;
  recording_seq ← msg_at msg 8;
  digital ← cec_get_digital_service_id msg 9 digital;
  mret (day, month, start_hr, start_min, duration_hr, duration_min, recording_seq, digital).

Definition cec_msg_clear_ext_timer
    (reply day month start_hr start_min duration_hr duration_min recording_seq ext_src_spec
    plug phys_addr : Z) : M cec_msg unit :=
  set_len 13;;
  set_msg 1 CEC_MSG_CLEAR_EXT_TIMER;;
  set_msg 2 day;;
  set_msg 3 month;;
  put_bcd 4 start_hr;;
  put_bcd 5 start_min;;
  put_bcd 6 duration_hr;;
  put_bcd 7 duration_min;;
  set_msg 8 recording_seq;;
  set_msg 9 ext_src_spec;;
  set_msg 10 plug;;
  put_be16 11 12 phys_addr;;
  set_reply (ternary reply CEC_MSG_TIMER_CLEARED_STATUS 0).

Definition cec_ops_clear_ext_timer (msg : cec_msg)
    : outcome (Z * Z * Z * Z * Z * Z * Z * Z * Z * Z) :=
  day ← msg_at msg 2;
  month ← msg_at msg 3;
  start_hr ← get_bcd msg 4;
  start_min ← get_bcd msg 5;
  duration_hr ← get_bcd msg 6;
  duration_min ← get_bcd msg 7;
  recording_seq ← msg_at msg 8;
  ext_src_spec ← msg_at msg 9;
  plug ← msg_at msg 10;
  phys_addr ← get_be16 msg 11 12;
  mret (day, month, start_hr, start_min, duration_hr, duration_min, recording_seq,
        ext_src_spec, plug, phys_addr).

Definition cec_msg_set_analogue_timer
    (reply day month start_hr start_min duration_hr duration_min recording_seq
    ana_bcast_type ana_freq bcast_system : Z) : M cec_msg unit :=
  set_len 13;;
  set_msg 1 CEC_MSG_SET_ANALOGUE_TIMER;;
  set_msg 2 day;;
  set_msg 3 month;;
  put_bcd 4 start_hr;;
  put_bcd 5 start_min;;
  put_bcd 6 duration_hr;;
  put_bcd 7 duration_min;;
  set_msg 8 recording_seq;;
  set_msg 9 ana_bcast_type;;
  put_be16 10 11 ana_freq;;
  set_msg 12 bcast_system;;
  set_reply (ternary reply CEC_MSG_TIMER_STATUS 0).

Definition cec_ops_set_analogue_timer (msg : cec_msg)
    : outcome (Z * Z * Z * Z * Z * Z * Z * Z * Z * Z) :=
  day ← msg_at msg 2;
  month ← msg_at msg 3;
  start_hr ← get_bcd msg 4;
  start_min ← get_bcd msg 5;
  duration_hr ← get_bcd msg 6;
  duration_min ← get_bcd msg 7;
  recording_seq ← msg_at msg 8;
  ana_bcast_type ← msg_at msg 9;
  ana_freq ← get_be16 msg 10 11;
  bcast_system ← msg_at msg 12;
  mret (day, month, start_hr, start_min, duration_hr, duration_min, recording_seq,
        ana_bcast_type, ana_freq, bcast_system).

Definition cec_msg_set_digital_timer
    (reply day month start_hr start_min duration_hr duration_min recording_seq : Z) (digital
    : cec_op_digital_service_id) : M cec_msg unit :=
  set_len 16;;
  set_reply (ternary reply CEC_MSG_TIMER_STATUS 0);;
  set_msg 1 CEC_MSG_SET_DIGITAL_TIMER;;
  set_msg 2 day;;
  set_msg 3 month;;
  put_bcd 4 start_hr;;
  put_bcd 5 start_min;;
  put_bcd 6 duration_hr;;
  put_bcd 7 duration_min;;
  set_msg 8 recording_seq;;
  cec_set_digital_service_id 9 digital.

Definition cec_ops_set_digital_timer (msg : cec_msg) (digital : cec_op_digital_service_id)
    : outcome (Z * Z * Z * Z * Z * Z * Z * cec_op_digital_service_id) :=
  day ← msg_at msg 2;
  month ← msg_at msg 3;
  start_hr ← get_bcd msg 4;
  start_min ← get_bcd msg 5;
  duration_hr ← get_bcd msg 6;
  duration_min ← get_bcd msg 7;
  recording_seq ← msg_at msg 8;
  digital ← cec_get_digital_service_id msg 9 digital;
  mret (day, month, start_hr, start_min, duration_hr, duration_min, recording_seq, digital).

Definition cec_msg_set_ext_timer
    (reply day month start_hr start_min duration_hr duration_min recording_seq ext_src_spec
    plug phys_addr : Z) : M cec_msg unit :=
  set_len 13;;
  set_msg 1 CEC_MSG_SET_EXT_TIMER;;
  set_msg 2 day;;
  set_msg 3 month;;
  put_bcd 4 start_hr;;
  put_bcd 5 start_min;;
  put_bcd 6 duration_hr;;
  put_bcd 7 duration_min;;
  set_msg 8 recording_seq;;
  set_msg 9 ext_src_spec;;
  set_msg 10 plug;;
  put_be16 11 12 phys_addr;;
  set_reply (ternary reply CEC_MSG_TIMER_STATUS 0).

Definition cec_ops_set_ext_timer (msg : cec_msg)
    : outcome (Z * Z * Z * Z * Z * Z * Z * Z * Z * Z) :=
  day ← msg_at msg 2;
  month ← msg_at msg 3;
  start_hr ← get_bcd msg 4;
  start_min ← get_bcd msg 5;
  duration_hr ← get_bcd msg 6;
  duration_min ← get_bcd msg 7;
  recording_seq ← msg_at msg 8;
  ext_src_spec ← msg_at msg 9;
  plug ← msg_at msg 10;
  phys_addr ← get_be16 msg 11 12;
  mret (day, month, start_hr, start_min, duration_hr, duration_min, recording_seq,
        ext_src_spec, plug, phys_addr).

Definition cec_msg_set_timer_program_title (prog_title : list Z) : M cec_msg unit :=
  n ← mlift (strlen prog_title);
  let n := u32 n in
  let n := if 14 <? n then 14 else n in
  set_len (2 + n);;
  set_msg 1 CEC_MSG_SET_TIMER_PROGRAM_TITLE;;
  memcpy_to_msg 2 prog_title (Z.to_nat n).

Definition cec_ops_set_timer_program_title (msg : cec_msg) (prog_title : list Z)
    : outcome (list Z) :=
  let n := if 2 <? len msg then u32 (len msg - 2) else 0 in
  let n := if 14 <? n then 14 else n in
  prog_title ← memcpy_from_msg prog_title 0 msg 2 (Z.to_nat n);
  prog_title ← arr_set prog_title n 0;
  mret prog_title.

(** ** System Information Feature *)

Definition cec_msg_cec_version (cec_version : Z) : M cec_msg unit :=
  set_len 3;;
  set_msg 1 CEC_MSG_CEC_VERSION;;
  set_msg 2 cec_version.

Definition cec_ops_cec_version (msg : cec_msg) : outcome Z :=
  cec_version ← msg_at msg 2;
  mret cec_version.

Definition cec_msg_get_cec_version (reply : Z) : M cec_msg unit :=
  set_len 2;;
  set_msg 1 CEC_MSG_GET_CEC_VERSION;;
  set_reply (ternary reply CEC_MSG_CEC_VERSION 0).

Definition cec_msg_report_physical_addr (phys_addr prim_devtype : Z) : M cec_msg unit :=
  set_len 5;;
  or_msg 0 0xf;;
  set_msg 1 CEC_MSG_REPORT_PHYSICAL_ADDR;;
  put_be16 2 3 phys_addr;;
  set_msg 4 prim_devtype.

Definition cec_ops_report_physical_addr (msg : cec_msg) : outcome (Z * Z) :=
  phys_addr ← get_be16 msg 2 3;
  prim_devtype ← msg_at msg 4;
  mret (phys_addr, prim_devtype).

Definition cec_msg_give_physical_addr (reply : Z) : M cec_msg unit :=
  set_len 2;;
  set_msg 1 CEC_MSG_GIVE_PHYSICAL_ADDR;;
  set_reply (ternary reply CEC_MSG_REPORT_PHYSICAL_ADDR 0).

Definition cec_msg_set_menu_language (language : list Z) : M cec_msg unit :=
  set_len 5;;
  or_msg 0 0xf;;
  set_msg 1 CEC_MSG_SET_MENU_LANGUAGE;;
  memcpy_to_msg 2 language 3.

Definition cec_ops_set_menu_language (msg : cec_msg) (language : list Z) : outcome (list Z) :=
  language ← memcpy_from_msg language 0 msg 2 3;
  arr_set language 3 0.

Definition cec_msg_get_menu_language (reply : Z) : M cec_msg unit :=
  set_len 2;;
  set_msg 1 CEC_MSG_GET_MENU_LANGUAGE;;
  set_reply (ternary reply CEC_MSG_SET_MENU_LANGUAGE 0).

Definition cec_msg_report_features
    (cec_version all_device_types rc_profile dev_features : Z) : M cec_msg unit :=
  set_len 6;;
  or_msg 0 0xf;;
  set_msg 1 CEC_MSG_REPORT_FEATURES;;
  set_msg 2 cec_version;;
  set_msg 3 all_device_types;;
  set_msg 4 rc_profile;;
  set_msg 5 dev_features.

(** [while (p < &msg->msg[limit] && ( *p & CEC_OP_FEAT_EXT)) p++;]: a pointer into the
    message is its index.  At most eleven bytes are passed. *)
Fixpoint skip_extended (msg : cec_msg) (limit p : Z) (fuel : nat) : outcome Z :=
  match fuel with
  | O => OutOfFuel
  | S fuel =>
      if p <? limit then
        b ← msg_at msg p;
        if (b .& CEC_OP_FEAT_EXT) =? 0 then mret p
        else skip_extended msg limit (p + 1) fuel
      else mret p
  end.

Definition features_fuel : nat := 12.

Definition cec_ops_report_features (msg : cec_msg)
    : outcome (Z * Z * option Z * option Z) :=
  let p := 4 in
  cec_version ← msg_at msg 2;
  all_device_types ← msg_at msg 3;
  let rc_profile := Some p in
  let dev_features := None in
  p ← skip_extended msg 14 p features_fuel;
  b ← msg_at msg p;
  '(p, dev_features) ← (if (b .& CEC_OP_FEAT_EXT) =? 0 then
      let dev_features := Some (p + 1) in
      p ← skip_extended msg 15 p features_fuel;
      mret (p, dev_features)
    else mret (p, dev_features));
  b ← msg_at msg p;
  if (b .& CEC_OP_FEAT_EXT) =? 0 then
    mret (cec_version, all_device_types, rc_profile, dev_features)
  else mret (cec_version, all_device_types, None, None).

Definition cec_msg_give_features (reply : Z) : M cec_msg unit :=
  set_len 2;;
  set_msg 1 CEC_MSG_GIVE_FEATURES;;
  set_reply (ternary reply CEC_MSG_REPORT_FEATURES 0).

(** ** Deck Control Feature *)

Definition cec_msg_deck_control (deck_control_mode : Z) : M cec_msg unit :=
  set_len 3;;
  set_msg 1 CEC_MSG_DECK_CONTROL;;
  set_msg 2 deck_control_mode.

Definition cec_ops_deck_control (msg : cec_msg) : outcome Z :=
  deck_control_mode ← msg_at msg 2;
  mret deck_control_mode.

Definition cec_msg_deck_status (deck_info : Z) : M cec_msg unit :=
  set_len 3;;
  set_msg 1 CEC_MSG_DECK_STATUS;;
  set_msg 2 deck_info.

Definition cec_ops_deck_status (msg : cec_msg) : outcome Z :=
  deck_info ← msg_at msg 2;
  mret deck_info.

Definition cec_msg_give_deck_status (reply status_req : Z) : M cec_msg unit :=
  set_len 3;;
  set_msg 1 CEC_MSG_GIVE_DECK_STATUS;;
  set_msg 2 status_req;;
  set_reply (ternary reply CEC_MSG_DECK_STATUS 0).

Definition cec_ops_give_deck_status (msg : cec_msg) : outcome Z :=
  status_req ← msg_at msg 2;
  mret status_req.

Definition cec_msg_play (play_mode : Z) : M cec_msg unit :=
  set_len 3;;
  set_msg 1 CEC_MSG_PLAY;;
  set_msg 2 play_mode.

Definition cec_ops_play (msg : cec_msg) : outcome Z :=
  play_mode ← msg_at msg 2;
  mret play_mode.
