(* ===== verification/CecTuner.v ===== *)
(** * CEC messages: tuner and vendor commands, display, menus and remote control

    Lines 950 to 1417 of [linux/cec-funcs.h].  Each [cec_msg_x] writes a message and each
    [cec_ops_x] reads its operands. *)

From stdpp Require Import base list numbers.
From Stdlib Require Import ZArith Lia.
From S2P Require Import Prelude CecConst CecMsg CecRecord.

#[local] Open Scope c_scope.
#[local] Open Scope Z_scope.

(** ** Tuner Control Feature *)

Record cec_op_tuner_device_info : Type := TunerDeviceInfo {
  rec_flag : Z;
  tuner_display_info : Z;
  is_analog : Z;
  tuner_digital : cec_op_digital_service_id }.

Definition cec_msg_tuner_device_status_analog
    (rec_flag tuner_display_info ana_bcast_type ana_freq bcast_system : Z) :
    M cec_msg unit :=
  set_len 7;;
  set_msg 1 CEC_MSG_TUNER_DEVICE_STATUS;;
  set_msg 2 ((rec_flag ≪ 7) .| tuner_display_info);;
  set_msg 3 ana_bcast_type;;
  put_be16 4 5 ana_freq;;
  set_msg 6 bcast_system.

Definition cec_msg_tuner_device_status_digital
    (rec_flag tuner_display_info : Z) (digital : cec_op_digital_service_id) :
    M cec_msg unit :=
  set_len 10;;
  set_msg 1 CEC_MSG_TUNER_DEVICE_STATUS;;
  set_msg 2 ((rec_flag ≪ 7) .| tuner_display_info);;
  cec_set_digital_service_id 3 digital.

Definition cec_msg_tuner_device_status (tuner_dev_info : cec_op_tuner_device_info)
    : M cec_msg unit :=
  let digital := tuner_digital tuner_dev_info in
  if negb (is_analog tuner_dev_info =? 0) then
    cec_msg_tuner_device_status_analog (rec_flag tuner_dev_info)
      (tuner_display_info tuner_dev_info) (ana_bcast_type (analog digital))
      (ana_freq (analog digital)) (bcast_system (analog digital))
  else
    cec_msg_tuner_device_status_digital (rec_flag tuner_dev_info)
      (tuner_display_info tuner_dev_info) digital.

Definition cec_ops_tuner_device_status (msg : cec_msg)
    (tuner_dev_info : cec_op_tuner_device_info) : outcome cec_op_tuner_device_info :=
  let is_analog := if len msg <? 10 then 1 else 0 in
  b2 ← msg_at msg 2;
  let rec_flag := u8 (b2 ≫ 7) in
  let tuner_display_info := u8 (b2 .& 0x7f) in
  let digital := tuner_digital tuner_dev_info in
  if negb (is_analog =? 0) then
    bcast_type ← msg_at msg 3;
    freq ← get_be16 msg 4 5;
    system ← msg_at msg 6;
    mret (TunerDeviceInfo rec_flag tuner_display_info is_analog
            (with_analog (AnalogService bcast_type freq system) digital))
  else
    digital ← cec_get_digital_service_id msg 3 digital;
    mret (TunerDeviceInfo rec_flag tuner_display_info is_analog digital).

Definition cec_msg_give_tuner_device_status (reply status_req : Z) : M cec_msg unit :=
  set_len 3;;
  set_msg 1 CEC_MSG_GIVE_TUNER_DEVICE_STATUS;;
  set_msg 2 status_req;;
  set_reply (ternary reply CEC_MSG_TUNER_DEVICE_STATUS 0).

Definition cec_ops_give_tuner_device_status (msg : cec_msg) : outcome Z :=
  status_req ← msg_at msg 2;
  mret status_req.

Definition cec_msg_select_analogue_service
    (ana_bcast_type ana_freq bcast_system : Z) : M cec_msg unit :=
  set_len 6;;
  set_msg 1 CEC_MSG_SELECT_ANALOGUE_SERVICE;;
  set_msg 2 ana_bcast_type;;
  put_be16 3 4 ana_freq;;
  set_msg 5 bcast_system.

Definition cec_ops_select_analogue_service (msg : cec_msg) : outcome (Z * Z * Z) :=
  ana_bcast_type ← msg_at msg 2;
  ana_freq ← get_be16 msg 3 4;
  bcast_system ← msg_at msg 5;
  mret (ana_bcast_type, ana_freq, bcast_system).

Definition cec_msg_select_digital_service
    (digital : cec_op_digital_service_id) : M cec_msg unit :=
  set_len 9;;
  set_msg 1 CEC_MSG_SELECT_DIGITAL_SERVICE;;
  cec_set_digital_service_id 2 digital.

Definition cec_ops_select_digital_service (msg : cec_msg) (digital : cec_op_digital_service_id)
    : outcome cec_op_digital_service_id :=
  digital ← cec_get_digital_service_id msg 2 digital;
  mret digital.

Definition cec_msg_tuner_step_decrement : M cec_msg unit :=
  set_len 2;;
  set_msg 1 CEC_MSG_TUNER_STEP_DECREMENT.

Definition cec_msg_tuner_step_increment : M cec_msg unit :=
  set_len 2;;
  set_msg 1 CEC_MSG_TUNER_STEP_INCREMENT.

(** ** Vendor Specific Commands Feature *)

Definition cec_msg_device_vendor_id (vendor_id : Z) : M cec_msg unit :=
  set_len 5;;
  or_msg 0 0xf;;
  set_msg 1 CEC_MSG_DEVICE_VENDOR_ID;;
  set_msg 2 (vendor_id ≫ 16);;
  set_msg 3 ((vendor_id ≫ 8) .& 0xff);;
  set_msg 4 (vendor_id .& 0xff).

Definition cec_ops_device_vendor_id (msg : cec_msg) : outcome Z :=
  b2 ← msg_at msg 2;
  b3 ← msg_at msg 3;
  b4 ← msg_at msg 4;
  let vendor_id := u32 ((b2 ≪ 16) .| (b3 ≪ 8) .| b4) in
  mret vendor_id.

Definition cec_msg_give_device_vendor_id (reply : Z) : M cec_msg unit :=
  set_len 2;;
  set_msg 1 CEC_MSG_GIVE_DEVICE_VENDOR_ID;;
  set_reply (ternary reply CEC_MSG_DEVICE_VENDOR_ID 0).

Definition cec_msg_vendor_command (size : Z) (vendor_cmd : list Z) : M cec_msg unit :=
  let size := if 14 <? size then 14 else size in
  set_len (2 + size);;
  set_msg 1 CEC_MSG_VENDOR_COMMAND;;
  memcpy_to_msg 2 vendor_cmd (Z.to_nat size).

Definition cec_ops_vendor_command (msg : cec_msg) : outcome (Z * Z) :=
  let size := u8 (u32 (len msg - 2)) in
  let size := if 14 <? size then 14 else size in
  let vendor_cmd := 2 in
  mret (size, vendor_cmd).

Definition cec_msg_vendor_command_with_id (vendor_id size : Z) (vendor_cmd : list Z)
    : M cec_msg unit :=
  let size := if 11 <? size then 11 else size in
  set_len (5 + size);;
  set_msg 1 CEC_MSG_VENDOR_COMMAND_WITH_ID;;
  set_msg 2 (vendor_id ≫ 16);;
  set_msg 3 ((vendor_id ≫ 8) .& 0xff);;
  set_msg 4 (vendor_id .& 0xff);;
  memcpy_to_msg 5 vendor_cmd (Z.to_nat size).

Definition cec_ops_vendor_command_with_id (msg : cec_msg) : outcome (Z * Z * Z) :=
  let size := u8 (u32 (len msg - 5)) in
  let size := if 11 <? size then 11 else size in
  b2 ← msg_at msg 2;
  b3 ← msg_at msg 3;
  b4 ← msg_at msg 4;
  let vendor_id := u32 ((b2 ≪ 16) .| (b3 ≪ 8) .| b4) in
  let vendor_cmd := 5 in
  mret (vendor_id, size, vendor_cmd).

Definition cec_msg_vendor_remote_button_down (size : Z) (rc_code : list Z) : M cec_msg unit :=
  let size := if 14 <? size then 14 else size in
  set_len (2 + size);;
  set_msg 1 CEC_MSG_VENDOR_REMOTE_BUTTON_DOWN;;
  memcpy_to_msg 2 rc_code (Z.to_nat size).

Definition cec_ops_vendor_remote_button_down (msg : cec_msg) : outcome (Z * Z) :=
  let size := u8 (u32 (len msg - 2)) in
  let size := if 14 <? size then 14 else size in
  let rc_code := 2 in
  mret (size, rc_code).

Definition cec_msg_vendor_remote_button_up : M cec_msg unit :=
  set_len 2;;
  set_msg 1 CEC_MSG_VENDOR_REMOTE_BUTTON_UP.

(** ** OSD Display Feature *)

Definition cec_msg_set_osd_string (disp_ctl : Z) (osd : list Z) : M cec_msg unit :=
  n ← mlift (strlen osd);
  let n := u32 n in
  let n := if 13 <? n then 13 else n in
  set_len (3 + n);;
  set_msg 1 CEC_MSG_SET_OSD_STRING;;
  set_msg 2 disp_ctl;;
  memcpy_to_msg 3 osd (Z.to_nat n).

Definition cec_ops_set_osd_string (msg : cec_msg) (osd : list Z)
    : outcome (Z * list Z) :=
  let n := if 3 <? len msg then u32 (len msg - 3) else 0 in
  disp_ctl ← msg_at msg 2;
  let n := if 13 <? n then 13 else n in
  osd ← memcpy_from_msg osd 0 msg 3 (Z.to_nat n);
  osd ← arr_set osd n 0;
  mret (disp_ctl, osd).

(** ** Device OSD Transfer Feature *)

Definition cec_msg_set_osd_name (name : list Z) : M cec_msg unit :=
  n ← mlift (strlen name);
  let n := u32 n in
  let n := if 14 <? n then 14 else n in
  set_len (2 + n);;
  set_msg 1 CEC_MSG_SET_OSD_NAME;;
  memcpy_to_msg 2 name (Z.to_nat n).

Definition cec_ops_set_osd_name (msg : cec_msg) (name : list Z)
    : outcome (list Z) :=
  let n := if 2 <? len msg then u32 (len msg - 2) else 0 in
  let n := if 14 <? n then 14 else n in
  name ← memcpy_from_msg name 0 msg 2 (Z.to_nat n);
  name ← arr_set name n 0;
  mret name.

Definition cec_msg_give_osd_name (reply : Z) : M cec_msg unit :=
  set_len 2;;
  set_msg 1 CEC_MSG_GIVE_OSD_NAME;;
  set_reply (ternary reply CEC_MSG_SET_OSD_NAME 0).

(** ** Device Menu Control Feature *)

Definition cec_msg_menu_status (menu_state : Z) : M cec_msg unit :=
  set_len 3;;
  set_msg 1 CEC_MSG_MENU_STATUS;;
  set_msg 2 menu_state.

Definition cec_ops_menu_status (msg : cec_msg) : outcome Z :=
  menu_state ← msg_at msg 2;
  mret menu_state.

Definition cec_msg_menu_request (reply menu_req : Z) : M cec_msg unit :=
  set_len 3;;
  set_msg 1 CEC_MSG_MENU_REQUEST;;
  set_msg 2 menu_req;;
  set_reply (ternary reply CEC_MSG_MENU_STATUS 0).

Definition cec_ops_menu_request (msg : cec_msg) : outcome Z :=
  menu_req ← msg_at msg 2;
  mret menu_req.

(** The union is a channel identifier: three words, with the one-byte arguments in the low
    byte of the first. *)
Record cec_op_ui_command : Type := UiCommand {
  ui_cmd : Z;
  has_opt_arg : Z;
  ui_word0 : Z;
  ui_word1 : Z;
  ui_word2 : Z }.

Definition channel_identifier (c : cec_op_ui_command) : cec_op_channel_data :=
  ChannelData (ui_word0 c .& 0xff) (ui_word1 c) (ui_word2 c).
Definition with_channel_identifier (ch : cec_op_channel_data) (c : cec_op_ui_command)
    : cec_op_ui_command :=
  UiCommand (ui_cmd c) (has_opt_arg c) (set_low_byte (ui_word0 c) (channel_number_fmt ch))
    (major ch) (minor ch).
Definition ui_play_mode (c : cec_op_ui_command) : Z := ui_word0 c .& 0xff.
Definition with_ui_play_mode (b : Z) (c : cec_op_ui_command) : cec_op_ui_command :=
  UiCommand (ui_cmd c) (has_opt_arg c) (set_low_byte (ui_word0 c) b) (ui_word1 c) (ui_word2 c).
Definition with_has_opt_arg (h : Z) (c : cec_op_ui_command) : cec_op_ui_command :=
  UiCommand (ui_cmd c) h (ui_word0 c) (ui_word1 c) (ui_word2 c).

(** The commands with an optional argument of one byte. *)
Definition has_byte_argument (cmd : Z) : bool :=
  bool_decide (cmd ∈ [0x56; 0x57; 0x60; 0x68; 0x69; 0x6a]).

Definition cec_msg_user_control_pressed (cmd : cec_op_ui_command) : M cec_msg unit :=
  set_len 3;;
  set_msg 1 CEC_MSG_USER_CONTROL_PRESSED;;
  set_msg 2 (ui_cmd cmd);;
  if has_opt_arg cmd =? 0 then mret tt
  else if has_byte_argument (ui_cmd cmd) then
    _ ← len_inc;
    set_msg 3 (ui_play_mode cmd)
  else if ui_cmd cmd =? 0x67 then
    add_len 4;;
    set_msg 3 ((channel_number_fmt (channel_identifier cmd) ≪ 2) .|
               (major (channel_identifier cmd) ≫ 8));;
    set_msg 4 (major (channel_identifier cmd) .& 0xff);;
    set_msg 5 (minor (channel_identifier cmd) ≫ 8);;
    set_msg 6 (minor (channel_identifier cmd) .& 0xff)
  else mret tt.

Definition cec_ops_user_control_pressed (msg : cec_msg) (cmd : cec_op_ui_command)
    : outcome cec_op_ui_command :=
  ui ← msg_at msg 2;
  let cmd := UiCommand ui 0 (ui_word0 cmd) (ui_word1 cmd) (ui_word2 cmd) in
  if len msg =? 3 then mret cmd
  else if has_byte_argument ui then
    mode ← msg_at msg 3;
    mret (with_has_opt_arg 1 (with_ui_play_mode mode cmd))
  else if ui =? 0x67 then
    if len msg <? 7 then mret cmd
    else
      b3 ← msg_at msg 3; b4 ← msg_at msg 4;
      minor ← get_be16 msg 5 6;
      mret (with_channel_identifier
              (ChannelData (u8 (b3 ≫ 2)) (u16 ((b3 .& 3) ≪ 6 .| b4)) minor)
              (with_has_opt_arg 1 cmd))
  else mret cmd.

Definition cec_msg_user_control_released : M cec_msg unit :=
  set_len 2;;
  set_msg 1 CEC_MSG_USER_CONTROL_RELEASED.

(** ** Power Status Feature *)

Definition cec_msg_report_power_status (pwr_state : Z) : M cec_msg unit :=
  set_len 3;;
  set_msg 1 CEC_MSG_REPORT_POWER_STATUS;;
  set_msg 2 pwr_state.

Definition cec_ops_report_power_status (msg : cec_msg) : outcome Z :=
  pwr_state ← msg_at msg 2;
  mret pwr_state.

Definition cec_msg_give_device_power_status (reply : Z) : M cec_msg unit :=
  set_len 2;;
  set_msg 1 CEC_MSG_GIVE_DEVICE_POWER_STATUS;;
  set_reply (ternary reply CEC_MSG_REPORT_POWER_STATUS 0).

(** ** General Protocol Messages *)

Definition cec_msg_feature_abort (abort_msg reason : Z) : M cec_msg unit :=
  set_len 4;;
  set_msg 1 CEC_MSG_FEATURE_ABORT;;
  set_msg 2 abort_msg;;
  set_msg 3 reason.

Definition cec_ops_feature_abort (msg : cec_msg) : outcome (Z * Z) :=
  abort_msg ← msg_at msg 2;
  reason ← msg_at msg 3;
  mret (abort_msg, reason).

Definition cec_msg_reply_feature_abort (reason : Z) : M cec_msg unit :=
  orig ← mget;
  cec_msg_set_reply_to orig;;
  set_len 4;;
  m ← mget; opcode ← mlift (msg_at m 1); set_msg 2 opcode;;
  set_msg 3 reason;;
  set_msg 1 CEC_MSG_FEATURE_ABORT.

Definition cec_msg_abort : M cec_msg unit :=
  set_len 2;;
  set_msg 1 CEC_MSG_ABORT.
