(* ===== verification/CecAudio.v ===== *)
(** * CEC messages: audio, latency, and capability discovery and control

    Lines 1418 to 1942 of [linux/cec-funcs.h].  Each [cec_msg_x] writes a message and each
    [cec_ops_x] reads its operands. *)

From stdpp Require Import base list numbers.
From Stdlib Require Import ZArith Lia.
From S2P Require Import Prelude CecConst CecMsg.

#[local] Open Scope c_scope.
#[local] Open Scope Z_scope.

(** ** System Audio Control Feature *)

Definition cec_msg_report_audio_status
    (aud_mute_status aud_vol_status : Z) : M cec_msg unit :=
  set_len 3;;
  set_msg 1 CEC_MSG_REPORT_AUDIO_STATUS;;
  set_msg 2 ((aud_mute_status ≪ 7) .| (aud_vol_status .& 0x7f)).

Definition cec_ops_report_audio_status (msg : cec_msg) : outcome (Z * Z) :=
  b2 ← msg_at msg 2;
  let aud_mute_status := u8 (b2 ≫ 7) in
  let aud_vol_status := u8 (b2 .& 0x7f) in
  mret (aud_mute_status, aud_vol_status).

Definition cec_msg_give_audio_status (reply : Z) : M cec_msg unit :=
  set_len 2;;
  set_msg 1 CEC_MSG_GIVE_AUDIO_STATUS;;
  set_reply (ternary reply CEC_MSG_REPORT_AUDIO_STATUS 0).

Definition cec_msg_set_system_audio_mode (sys_aud_status : Z) : M cec_msg unit :=
  set_len 3;;
  set_msg 1 CEC_MSG_SET_SYSTEM_AUDIO_MODE;;
  set_msg 2 sys_aud_status.

Definition cec_ops_set_system_audio_mode (msg : cec_msg) : outcome Z :=
  sys_aud_status ← msg_at msg 2;
  mret sys_aud_status.

Definition cec_msg_system_audio_mode_request (reply phys_addr : Z) : M cec_msg unit :=
  set_len (if phys_addr =? 0xffff then 2 else 4);;
  set_msg 1 CEC_MSG_SYSTEM_AUDIO_MODE_REQUEST;;
  put_be16 2 3 phys_addr;;
  set_reply (ternary reply CEC_MSG_SET_SYSTEM_AUDIO_MODE 0).

Definition cec_ops_system_audio_mode_request (msg : cec_msg) : outcome Z :=
  if len msg <? 4 then mret 0xffff
  else get_be16 msg 2 3.

Definition cec_msg_system_audio_mode_status (sys_aud_status : Z) : M cec_msg unit :=
  set_len 3;;
  set_msg 1 CEC_MSG_SYSTEM_AUDIO_MODE_STATUS;;
  set_msg 2 sys_aud_status.

Definition cec_ops_system_audio_mode_status (msg : cec_msg) : outcome Z :=
  sys_aud_status ← msg_at msg 2;
  mret sys_aud_status.

Definition cec_msg_give_system_audio_mode_status (reply : Z) : M cec_msg unit :=
  set_len 2;;
  set_msg 1 CEC_MSG_GIVE_SYSTEM_AUDIO_MODE_STATUS;;
  set_reply (ternary reply CEC_MSG_SYSTEM_AUDIO_MODE_STATUS 0).

(** [for (i = k; n > 0; i++, n--) body]: the loops count up to a bound fixed before. *)
Fixpoint for_up {St} (body : Z → M St unit) (i : Z) (n : nat) : M St unit :=
  match n with
  | O => mret tt
  | S n => body i;; for_up body (i + 1) n
  end.

Definition cec_msg_report_short_audio_descriptor (num_descriptors : Z) (descriptors : list Z)
    : M cec_msg unit :=
  let num_descriptors := if 4 <? num_descriptors then 4 else num_descriptors in
  set_len (2 + num_descriptors * 3);;
  set_msg 1 CEC_MSG_REPORT_SHORT_AUDIO_DESCRIPTOR;;
  for_up (λ i,
    d ← mlift (arr_get descriptors i);
    set_msg (2 + i * 3) ((d ≫ 16) .& 0xff);;
    set_msg (3 + i * 3) ((d ≫ 8) .& 0xff);;
    set_msg (4 + i * 3) (d .& 0xff)) 0 (Z.to_nat num_descriptors).

Definition cec_ops_report_short_audio_descriptor (msg : cec_msg) (descriptors : list Z)
    : outcome (Z * list Z) :=
  let num_descriptors := u8 (u32 (len msg - 2) / 3) in
  let num_descriptors := if 4 <? num_descriptors then 4 else num_descriptors in
  '(_, descriptors) ← for_up (λ i descriptors,
    b0 ← msg_at msg (2 + i * 3);
    b1 ← msg_at msg (3 + i * 3);
    b2 ← msg_at msg (4 + i * 3);
    descriptors ← arr_set descriptors i (u32 ((b0 ≪ 16) .| (b1 ≪ 8) .| b2));
    mret (tt, descriptors)) 0 (Z.to_nat num_descriptors) descriptors;
  mret (num_descriptors, descriptors).

Definition cec_msg_request_short_audio_descriptor (reply num_descriptors : Z)
    (audio_format_id audio_format_code : list Z) : M cec_msg unit :=
  let num_descriptors := if 4 <? num_descriptors then 4 else num_descriptors in
  set_len (2 + num_descriptors);;
  set_msg 1 CEC_MSG_REQUEST_SHORT_AUDIO_DESCRIPTOR;;
  set_reply (ternary reply CEC_MSG_REPORT_SHORT_AUDIO_DESCRIPTOR 0);;
  for_up (λ i,
    id ← mlift (arr_get audio_format_id i);
    code ← mlift (arr_get audio_format_code i);
    set_msg (2 + i) ((id ≪ 6) .| (code .& 0x3f))) 0 (Z.to_nat num_descriptors).

Definition cec_ops_request_short_audio_descriptor (msg : cec_msg)
    (audio_format_id audio_format_code : list Z) : outcome (Z * list Z * list Z) :=
  let num_descriptors := u8 (u32 (len msg - 2)) in
  let num_descriptors := if 4 <? num_descriptors then 4 else num_descriptors in
  '(_, (audio_format_id, audio_format_code)) ← for_up (λ i '(ids, codes),
    b ← msg_at msg (2 + i);
    ids ← arr_set ids i (u8 (b ≫ 6));
    codes ← arr_set codes i (u8 (b .& 0x3f));
    mret (tt, (ids, codes))) 0 (Z.to_nat num_descriptors) (audio_format_id, audio_format_code);
  mret (num_descriptors, audio_format_id, audio_format_code).

(** ** Audio Rate Control Feature *)

Definition cec_msg_set_audio_rate (audio_rate : Z) : M cec_msg unit :=
  set_len 3;;
  set_msg 1 CEC_MSG_SET_AUDIO_RATE;;
  set_msg 2 audio_rate.

Definition cec_ops_set_audio_rate (msg : cec_msg) : outcome Z :=
  audio_rate ← msg_at msg 2;
  mret audio_rate.

(** ** Audio Return Channel Control Feature *)

Definition cec_msg_report_arc_initiated : M cec_msg unit :=
  set_len 2;;
  set_msg 1 CEC_MSG_REPORT_ARC_INITIATED.

Definition cec_msg_initiate_arc (reply : Z) : M cec_msg unit :=
  set_len 2;;
  set_msg 1 CEC_MSG_INITIATE_ARC;;
  set_reply (ternary reply CEC_MSG_REPORT_ARC_INITIATED 0).

Definition cec_msg_request_arc_initiation (reply : Z) : M cec_msg unit :=
  set_len 2;;
  set_msg 1 CEC_MSG_REQUEST_ARC_INITIATION;;
  set_reply (ternary reply CEC_MSG_INITIATE_ARC 0).

Definition cec_msg_report_arc_terminated : M cec_msg unit :=
  set_len 2;;
  set_msg 1 CEC_MSG_REPORT_ARC_TERMINATED.

Definition cec_msg_terminate_arc (reply : Z) : M cec_msg unit :=
  set_len 2;;
  set_msg 1 CEC_MSG_TERMINATE_ARC;;
  set_reply (ternary reply CEC_MSG_REPORT_ARC_TERMINATED 0).

Definition cec_msg_request_arc_termination (reply : Z) : M cec_msg unit :=
  set_len 2;;
  set_msg 1 CEC_MSG_REQUEST_ARC_TERMINATION;;
  set_reply (ternary reply CEC_MSG_TERMINATE_ARC 0).

(** ** Dynamic Audio Lipsync Feature *)

Definition cec_msg_report_current_latency (phys_addr video_latency low_latency_mode
    audio_out_compensated audio_out_delay : Z) : M cec_msg unit :=
  set_len 6;;
  or_msg 0 0xf;;
  set_msg 1 CEC_MSG_REPORT_CURRENT_LATENCY;;
  put_be16 2 3 phys_addr;;
  set_msg 4 video_latency;;
  set_msg 5 ((low_latency_mode ≪ 2) .| audio_out_compensated);;
  if audio_out_compensated =? 3 then
    i ← len_inc;
    set_msg i audio_out_delay
  else mret tt.

Definition cec_ops_report_current_latency (msg : cec_msg) : outcome (Z * Z * Z * Z * Z) :=
  phys_addr ← get_be16 msg 2 3;
  video_latency ← msg_at msg 4;
  b5 ← msg_at msg 5;
  let low_latency_mode := u8 ((b5 ≫ 2) .& 1) in
  let audio_out_compensated := u8 (b5 .& 3) in
  audio_out_delay ←
    (if (audio_out_compensated =? 3) && (7 <=? len msg) then msg_at msg 6 else mret 0);
  mret (phys_addr, video_latency, low_latency_mode, audio_out_compensated, audio_out_delay).

Definition cec_msg_request_current_latency (reply phys_addr : Z) : M cec_msg unit :=
  set_len 4;;
  or_msg 0 0xf;;
  set_msg 1 CEC_MSG_REQUEST_CURRENT_LATENCY;;
  put_be16 2 3 phys_addr;;
  set_reply (ternary reply CEC_MSG_REPORT_CURRENT_LATENCY 0).

Definition cec_ops_request_current_latency (msg : cec_msg) : outcome Z :=
  phys_addr ← get_be16 msg 2 3;
  mret phys_addr.

(** ** Capability Discovery and Control Feature *)

Definition cec_msg_cdc_hec_inquire_state (phys_addr1 phys_addr2 : Z) : M cec_msg unit :=
  set_len 9;;
  or_msg 0 0xf;;
  set_msg 1 CEC_MSG_CDC_MESSAGE;;
  set_msg 4 CEC_MSG_CDC_HEC_INQUIRE_STATE;;
  put_be16 5 6 phys_addr1;;
  put_be16 7 8 phys_addr2.

Definition cec_ops_cdc_hec_inquire_state (msg : cec_msg) : outcome (Z * Z * Z) :=
  phys_addr ← get_be16 msg 2 3;
  phys_addr1 ← get_be16 msg 5 6;
  phys_addr2 ← get_be16 msg 7 8;
  mret (phys_addr, phys_addr1, phys_addr2).

Definition cec_msg_cdc_hec_report_state (target_phys_addr hec_func_state host_func_state
    enc_func_state cdc_errcode has_field hec_field : Z) : M cec_msg unit :=
  set_len (ternary has_field 10 8);;
  or_msg 0 0xf;;
  set_msg 1 CEC_MSG_CDC_MESSAGE;;
  set_msg 4 CEC_MSG_CDC_HEC_REPORT_STATE;;
  put_be16 5 6 target_phys_addr;;
  set_msg 7 ((hec_func_state ≪ 6) .| (host_func_state ≪ 4) .|
             (enc_func_state ≪ 2) .| cdc_errcode);;
  if negb (has_field =? 0) then put_be16 8 9 hec_field else mret tt.

Definition cec_ops_cdc_hec_report_state (msg : cec_msg)
    : outcome (Z * Z * Z * Z * Z * Z * Z * Z) :=
  phys_addr ← get_be16 msg 2 3;
  target_phys_addr ← get_be16 msg 5 6;
  b7 ← msg_at msg 7;
  let hec_func_state := u8 (b7 ≫ 6) in
  let host_func_state := u8 ((b7 ≫ 4) .& 3) in
  let enc_func_state := u8 ((b7 ≫ 4) .& 3) in
  let cdc_errcode := u8 (b7 .& 3) in
  let has_field := if 10 <=? len msg then 1 else 0 in
  hec_field ← (if negb (has_field =? 0) then get_be16 msg 8 9 else mret 0);
  mret (phys_addr, target_phys_addr, hec_func_state, host_func_state, enc_func_state,
        cdc_errcode, has_field, hec_field).

(** [msg->msg[msg->len++] = x >> 8; msg->msg[msg->len++] = x & 0xff;] *)
Definition append_be16 (x : Z) : M cec_msg unit :=
  i ← len_inc; set_msg i (x ≫ 8);;
  i ← len_inc; set_msg i (x .& 0xff).

Definition cec_msg_cdc_hec_set_state (phys_addr1 phys_addr2 hec_set_state
    phys_addr3 phys_addr4 phys_addr5 : Z) : M cec_msg unit :=
  set_len 10;;
  or_msg 0 0xf;;
  set_msg 1 CEC_MSG_CDC_MESSAGE;;
  set_msg 4 CEC_MSG_CDC_HEC_INQUIRE_STATE;;
  put_be16 5 6 phys_addr1;;
  put_be16 7 8 phys_addr2;;
  set_msg 9 hec_set_state;;
  if phys_addr3 =? CEC_PHYS_ADDR_INVALID then mret tt
  else
    append_be16 phys_addr3;;
    if phys_addr4 =? CEC_PHYS_ADDR_INVALID then mret tt
    else
      append_be16 phys_addr4;;
      if phys_addr5 =? CEC_PHYS_ADDR_INVALID then mret tt
      else append_be16 phys_addr5.

Definition cec_ops_cdc_hec_set_state (msg : cec_msg)
    : outcome (Z * Z * Z * Z * Z * Z * Z) :=
  phys_addr ← get_be16 msg 2 3;
  phys_addr1 ← get_be16 msg 5 6;
  phys_addr2 ← get_be16 msg 7 8;
  hec_set_state ← msg_at msg 9;
  phys_addr3 ← (if 12 <=? len msg then get_be16 msg 10 11 else mret CEC_PHYS_ADDR_INVALID);
  phys_addr4 ← (if 14 <=? len msg then get_be16 msg 12 13 else mret CEC_PHYS_ADDR_INVALID);
  phys_addr5 ← (if 16 <=? len msg then get_be16 msg 14 15 else mret CEC_PHYS_ADDR_INVALID);
  mret (phys_addr, phys_addr1, phys_addr2, hec_set_state, phys_addr3, phys_addr4, phys_addr5).

Definition cec_msg_cdc_hec_set_state_adjacent
    (phys_addr1 hec_set_state : Z) : M cec_msg unit :=
  set_len 8;;
  or_msg 0 0xf;;
  set_msg 1 CEC_MSG_CDC_MESSAGE;;
  set_msg 4 CEC_MSG_CDC_HEC_SET_STATE_ADJACENT;;
  put_be16 5 6 phys_addr1;;
  set_msg 7 hec_set_state.

Definition cec_ops_cdc_hec_set_state_adjacent (msg : cec_msg) : outcome (Z * Z * Z) :=
  phys_addr ← get_be16 msg 2 3;
  phys_addr1 ← get_be16 msg 5 6;
  hec_set_state ← msg_at msg 7;
  mret (phys_addr, phys_addr1, hec_set_state).

Definition cec_msg_cdc_hec_request_deactivation
    (phys_addr1 phys_addr2 phys_addr3 : Z) : M cec_msg unit :=
  set_len 11;;
  or_msg 0 0xf;;
  set_msg 1 CEC_MSG_CDC_MESSAGE;;
  set_msg 4 CEC_MSG_CDC_HEC_REQUEST_DEACTIVATION;;
  put_be16 5 6 phys_addr1;;
  put_be16 7 8 phys_addr2;;
  put_be16 9 10 phys_addr3.

Definition cec_ops_cdc_hec_request_deactivation (msg : cec_msg) : outcome (Z * Z * Z * Z) :=
  phys_addr ← get_be16 msg 2 3;
  phys_addr1 ← get_be16 msg 5 6;
  phys_addr2 ← get_be16 msg 7 8;
  phys_addr3 ← get_be16 msg 9 10;
  mret (phys_addr, phys_addr1, phys_addr2, phys_addr3).

Definition cec_msg_cdc_hec_notify_alive : M cec_msg unit :=
  set_len 5;;
  or_msg 0 0xf;;
  set_msg 1 CEC_MSG_CDC_MESSAGE;;
  set_msg 4 CEC_MSG_CDC_HEC_NOTIFY_ALIVE.

Definition cec_ops_cdc_hec_notify_alive (msg : cec_msg) : outcome Z :=
  phys_addr ← get_be16 msg 2 3;
  mret phys_addr.

Definition cec_msg_cdc_hec_discover : M cec_msg unit :=
  set_len 5;;
  or_msg 0 0xf;;
  set_msg 1 CEC_MSG_CDC_MESSAGE;;
  set_msg 4 CEC_MSG_CDC_HEC_DISCOVER.

Definition cec_ops_cdc_hec_discover (msg : cec_msg) : outcome Z :=
  phys_addr ← get_be16 msg 2 3;
  mret phys_addr.

Definition cec_msg_cdc_hpd_set_state (input_port hpd_state : Z) : M cec_msg unit :=
  set_len 6;;
  or_msg 0 0xf;;
  set_msg 1 CEC_MSG_CDC_MESSAGE;;
  set_msg 4 CEC_MSG_CDC_HPD_SET_STATE;;
  set_msg 5 ((input_port ≪ 4) .| hpd_state).

Definition cec_ops_cdc_hpd_set_state (msg : cec_msg) : outcome (Z * Z * Z) :=
  phys_addr ← get_be16 msg 2 3;
  b5 ← msg_at msg 5;
  let input_port := u8 (b5 ≫ 4) in
  let hpd_state := u8 (b5 .& 0xf) in
  mret (phys_addr, input_port, hpd_state).

Definition cec_msg_cdc_hpd_report_state (hpd_state hpd_error : Z) : M cec_msg unit :=
  set_len 6;;
  or_msg 0 0xf;;
  set_msg 1 CEC_MSG_CDC_MESSAGE;;
  set_msg 4 CEC_MSG_CDC_HPD_REPORT_STATE;;
  set_msg 5 ((hpd_state ≪ 4) .| hpd_error).

Definition cec_ops_cdc_hpd_report_state (msg : cec_msg) : outcome (Z * Z * Z) :=
  phys_addr ← get_be16 msg 2 3;
  b5 ← msg_at msg 5;
  let hpd_state := u8 (b5 ≫ 4) in
  let hpd_error := u8 (b5 .& 0xf) in
  mret (phys_addr, hpd_state, hpd_error).
