(* ===== verification/CecSpec.v ===== *)
(** * What a CEC message function promises

    [typed] is the invariant of [struct cec_msg].  [carries m l] says that the bytes [l] are
    the message in [m]: what follows them in the array is not transmitted.  A [codec] pairs
    the function that builds a message with the one that reads it and describes both by the
    bytes of the operands, in arithmetic rather than in shifts and masks; [codec_ok] is the
    contract, and [codec_sound] what follows for a sender and a receiver. *)

From stdpp Require Import base list numbers.
From Stdlib Require Import ZArith Lia Morphisms.
From S2P Require Import Prelude CecConst CecMsg.

#[local] Open Scope c_scope.
#[local] Open Scope Z_scope.

(** ** The invariant *)

Definition is_byte (b : Z) : Prop := 0 ≤ b < 2 ^ 8.
Definition is_u16 (z : Z) : Prop := 0 ≤ z < 2 ^ 16.
Definition is_bcd (z : Z) : Prop := 0 ≤ z < 100.
Definition is_bits (w z : Z) : Prop := 0 ≤ z < 2 ^ w.

Record typed (m : cec_msg) : Prop := {
  typed_length : length (msg m) = 16%nat;
  typed_bytes : Forall is_byte (msg m);
  typed_len : 0 ≤ len m < 2 ^ 32;
  typed_reply : is_byte (reply m);
  typed_times : 0 ≤ tx_ts m < 2 ^ 64 ∧ 0 ≤ rx_ts m < 2 ^ 64;
  typed_words : 0 ≤ timeout m < 2 ^ 32 ∧ 0 ≤ sequence m < 2 ^ 32 ∧ 0 ≤ flags m < 2 ^ 32;
  typed_status : Forall is_byte [rx_status m; tx_status m; tx_arb_lost_cnt m; tx_nack_cnt m;
                                 tx_low_drive_cnt m; tx_error_cnt m] }.

(** The fields that no message function assigns. *)
Definition envelope (m : cec_msg) : list Z :=
  [tx_ts m; rx_ts m; timeout m; sequence m; flags m; rx_status m; tx_status m;
   tx_arb_lost_cnt m; tx_nack_cnt m; tx_low_drive_cnt m; tx_error_cnt m].

(** ** Messages as byte strings *)

Definition carries (m : cec_msg) (l : list Z) : Prop :=
  len m = Z.of_nat (length l) ∧ ∃ rest, msg m = l ++ rest.

(** Two messages with the same transmitted bytes. *)
Definition same_bytes (m m' : cec_msg) : Prop :=
  len m = len m' ∧ take (Z.to_nat (len m)) (msg m) = take (Z.to_nat (len m')) (msg m').

#[export] Instance same_bytes_equiv : Equivalence same_bytes.
Proof.
  split.
  - intros m. done.
  - intros m m' [E1 E2]. done.
  - intros m1 m2 m3 [E1 E2] [E3 E4]. split; congruence.
Qed.

#[export] Instance carries_proper : Proper (same_bytes ==> eq ==> iff) carries.
Proof.
  assert (∀ m m' l, same_bytes m m' → carries m l → carries m' l) as H.
  { intros m m' l [E1 E2] [El [rest Er]]. split; [congruence|].
    rewrite <- E1, El, Nat2Z.id, Er, take_app_length in E2.
    exists (drop (length l) (msg m')).
    rewrite <- (take_drop (length l) (msg m')) at 1. by rewrite <- E2. }
  intros m m' E l ? <-. split; apply H; [done|by symmetry].
Qed.

(** ** The bytes of the operands *)

Definition be16 (x : Z) : list Z := [x / 256; x mod 256].
Definition be24 (x : Z) : list Z := [x / 65536; (x / 256) mod 256; x mod 256].
Definition bcd (x : Z) : Z := (x / 10) * 16 + x mod 10.
(** [hi] above a field of [w] bits. *)
Definition packed (hi w lo : Z) : Z := hi * 2 ^ w + lo.

(** ** Codecs *)

Record codec : Type := Codec {
  operand : Type;
  build : Z → operand → M cec_msg unit;   (** the first argument asks for a reply *)
  parse : cec_msg → outcome operand;
  opcode : Z;
  to_all : bool;                          (** broadcast *)
  answer : option Z;                      (** the reply, if the builder can ask for one *)
  payload : operand → list Z;
  safe : operand → Prop;                  (** the builder stays within its arguments *)
  valid : operand → Prop }.               (** the operands fit their fields *)

Definition header (c : codec) (m : cec_msg) : Z :=
  let b := nth 0 (msg m) 0 in if to_all c then b / 16 * 16 + 15 else b.
Definition reply_after (c : codec) (r : Z) (m : cec_msg) : Z :=
  match answer c with Some a => ternary r a 0 | None => reply m end.

Record codec_ok (c : codec) : Prop := {
  codec_safe x : valid c x → safe c x;
  codec_total r x m : typed m → safe c x →
    wp (build c r x) m (λ _ m', typed m' ∧ 2 ≤ len m' ≤ 16 ∧ envelope m' = envelope m);
  codec_builds r x m : typed m → valid c x →
    wp (build c r x) m (λ _ m', carries m' (header c m :: opcode c :: payload c x) ∧
                                reply m' = reply_after c r m);
  codec_parses x m h : typed m → valid c x →
    carries m (h :: opcode c :: payload c x) → parse c m = Ret x }.

(** The part of the contract that does not describe the operands' bytes: what is sent has the
    header, the opcode and the awaited reply of the message, and a typed receiver whose buffer
    got the bytes of the sender reads the operands, whatever else is in the buffer. *)
Record codec_sound (c : codec) : Prop := {
  sound_safe x : valid c x → safe c x;
  sound_total r x m : typed m → safe c x →
    wp (build c r x) m (λ _ m', typed m' ∧ 2 ≤ len m' ≤ 16 ∧ envelope m' = envelope m);
  sound_sends r x m : typed m → valid c x →
    wp (build c r x) m (λ _ m',
      (∃ l, carries m' (header c m :: opcode c :: l)) ∧ reply m' = reply_after c r m ∧
      ∀ rx, typed rx → same_bytes m' rx → parse c rx = Ret x) }.

Lemma codec_ok_sound c : codec_ok c → codec_sound c.
Proof.
  intros Hc. split; [apply Hc|apply Hc|].
  intros r x m Hm Hx. eapply wp_mono; [by apply (codec_builds c Hc)|].
  intros _ m' [Hcar Hr]. split; [by eexists|]. split; [done|].
  intros rx Hrx E. rewrite E in Hcar. by eapply (codec_parses c Hc).
Qed.

(** ** Arithmetic of bytes *)

Lemma lor_shiftl h k l : 0 ≤ k → 0 ≤ l < 2 ^ k → (h ≪ k) .| l = h * 2 ^ k + l.
Proof.
  intros Hk Hl. rewrite <- Z.shiftl_mul_pow2, <- Z.add_lor_land by done.
  enough ((h ≪ k) .& l = 0) as -> by lia.
  apply Z.bits_inj'. intros n Hn. rewrite Z.land_spec, Z.shiftl_spec, Z.bits_0 by done.
  destruct (decide (n < k)) as [Hlt|Hge].
  - by rewrite Z.testbit_neg_r by lia.
  - apply andb_false_intro2. rewrite <- (Z.mod_small l (2 ^ k)) by done.
    apply Z.mod_pow2_bits_high. lia.
Qed.

(** A fact about every byte is a computation. *)
Lemma byte_cases (P : Z → Prop) `{∀ z, Decision (P z)} :
  bool_decide (Forall P (seqZ 0 256)) = true → ∀ b, is_byte b → P b.
Proof.
  intros HP%bool_decide_eq_true_1 b Hb.
  rewrite Forall_forall in HP. apply HP, list_elem_of_In, elem_of_seqZ. unfold is_byte in Hb. lia.
Qed.

Lemma lor_header b : is_byte b → u8 (b .| 0xf) = b / 16 * 16 + 15.
Proof. revert b. apply (byte_cases _). by vm_compute. Qed.

Lemma land_mask x m w : 0 ≤ w → m = 2 ^ w - 1 → x .& m = x mod 2 ^ w.
Proof. intros Hw ->. rewrite <- Z.land_ones by done.
  f_equal. rewrite Z.ones_equiv. lia. Qed.

Lemma u8_byte b : is_byte b → u8 b = b.
Proof. apply uwrap_small. Qed.

Lemma is_byte_u8 b : is_byte (u8 b).
Proof. by apply uwrap_range. Qed.

(** The opcode a builder waits for fits the field. *)
Lemma u8_ternary r a : (0 <=? a) && (a <? 256) = true → u8 (ternary r a 0) = ternary r a 0.
Proof.
  intros [?%Z.leb_le ?%Z.ltb_lt]%andb_prop. apply u8_byte. unfold is_byte, ternary.
  destruct (r =? 0); lia.
Qed.

Lemma is_byte_nth l i : Forall is_byte l → is_byte (nth i l 0).
Proof.
  intros Hl. revert i. induction Hl; intros [|i]; simpl; auto; unfold is_byte; lia.
Qed.

(** ** Rules for the primitive operations *)

(** A message being written: the fields of [m], except those the functions assign. *)
Definition edit (m : cec_msg) (n : Z) (l : list Z) (r : Z) : cec_msg :=
  with_len n (with_msg l (with_reply r m)).

Lemma edit_id m : m = edit m (len m) (msg m) (reply m).
Proof. by destruct m. Qed.

Lemma typed_edit m n l r :
  typed m → 0 ≤ n < 2 ^ 32 → length l = 16%nat → Forall is_byte l → is_byte r →
  typed (edit m n l r).
Proof. intros [] ????. by split. Qed.

Lemma arr_set_eval {A} (a : list A) (i : Z) (v : A) :
  0 ≤ i < Z.of_nat (length a) → arr_set a i v = Ret (<[Z.to_nat i := v]> a).
Proof.
  intros. unfold arr_set. rewrite (proj2 (Z.leb_le _ _)), (proj2 (Z.ltb_lt _ _)); lia || done.
Qed.

Lemma arr_get_eval {A} (a : list A) (i : Z) (v : A) :
  0 ≤ i → a !! Z.to_nat i = Some v → arr_get a i = Ret v.
Proof. intros Hi E. unfold arr_get. by rewrite (proj2 (Z.leb_le _ _)), E by done. Qed.

Section rules.
Context (m : cec_msg) (n : Z) (l : list Z) (r : Z).
Implicit Types Q : unit → cec_msg → Prop.

Lemma set_msg_eval i v :
  0 ≤ i < Z.of_nat (length l) →
  set_msg i v (edit m n l r) = Ret (tt, edit m n (<[Z.to_nat i := u8 v]> l) r).
Proof. intros Hi. unfold set_msg. by rewrite arr_set_eval by done. Qed.

Lemma wp_set_msg i v Q :
  0 ≤ i < Z.of_nat (length l) →
  Q tt (edit m n (<[Z.to_nat i := u8 v]> l) r) → wp (set_msg i v) (edit m n l r) Q.
Proof. intros Hi HQ. unfold wp. by rewrite set_msg_eval. Qed.

Lemma wp_or_msg i v b Q :
  0 ≤ i < Z.of_nat (length l) → l !! Z.to_nat i = Some b →
  Q tt (edit m n (<[Z.to_nat i := u8 (b .| v)]> l) r) → wp (or_msg i v) (edit m n l r) Q.
Proof.
  intros Hi E HQ. unfold wp, or_msg, msg_at. rewrite (arr_get_eval _ _ b) by (lia || done).
  cbn. by rewrite set_msg_eval.
Qed.

Lemma wp_set_len k Q :
  0 ≤ k < 2 ^ 32 → Q tt (edit m k l r) → wp (set_len k) (edit m n l r) Q.
Proof. intros Hn. unfold wp, set_len, mmodify. by rewrite uwrap_small. Qed.

Lemma wp_add_len k Q :
  0 ≤ n + k < 2 ^ 32 → Q tt (edit m (n + k) l r) → wp (add_len k) (edit m n l r) Q.
Proof. apply wp_set_len. Qed.

Lemma wp_len_inc (Q : Z → cec_msg → Prop) :
  0 ≤ n + 1 < 2 ^ 32 → Q n (edit m (n + 1) l r) → wp len_inc (edit m n l r) Q.
Proof. intros Hn. unfold wp, len_inc, set_len, mmodify. cbn. by rewrite uwrap_small. Qed.

Lemma wp_set_reply q Q : Q tt (edit m n l (u8 q)) → wp (set_reply q) (edit m n l r) Q.
Proof. done. Qed.
End rules.

Lemma owp_msg_at m i b (P : Z → Prop) :
  0 ≤ i → msg m !! Z.to_nat i = Some b → P b → owp (msg_at m i) P.
Proof. intros Hi E HP. unfold msg_at. by rewrite (arr_get_eval _ _ b). Qed.

(** The rules of the prelude in the direction of the program text. *)
Lemma wp_seq {St A B} (o : M St A) (f : A → M St B) s Q :
  wp o s (λ a s', wp (f a) s' Q) → wp (o ≫= f) s Q.
Proof. apply wp_bind. Qed.
Lemma wp_done {St A} (a : A) (s : St) (Q : A → St → Prop) : Q a s → wp (mret a) s Q.
Proof. done. Qed.
Lemma owp_seq {A B} (o : outcome A) (f : A → outcome B) Q :
  owp o (λ a, owp (f a) Q) → owp (o ≫= f) Q.
Proof. apply owp_bind. Qed.
Lemma owp_done {A} (a : A) (Q : A → Prop) : Q a → owp (mret a) Q.
Proof. done. Qed.

(** ** Symbolic execution *)

(** Compute the index and the list of bytes. *)
Ltac cec_norm :=
  repeat match goal with
  | |- context [Z.to_nat ?z] =>
      let n := eval vm_compute in (Z.to_nat z) in
      lazymatch n with O => idtac | S _ => idtac end; change (Z.to_nat z) with n
  end;
  cbn [insert list_insert lookup list_lookup length msg].

(** One statement; the side conditions are computations, and so is the condition of a
    branch that does not depend on an operand. *)
Ltac cec_side := cec_norm; first [reflexivity | lia].
Ltac cec_decide c :=
  let b := eval vm_compute in c in
  lazymatch b with true => change c with true | false => change c with false end;
  cbv iota.
Ltac cec_step :=
  match goal with
  | |- wp (_ ≫= _) _ _ => apply wp_seq
  | |- wp (mret _) _ _ => apply wp_done
  | |- wp (set_msg _ _) _ _ => apply wp_set_msg; [cec_side|cec_norm]
  | |- wp (or_msg _ _) _ _ => eapply wp_or_msg; [cec_side|cec_side|cec_norm]
  | |- wp (set_len _) _ _ => apply wp_set_len; [cec_side|]
  | |- wp (add_len _) _ _ => apply wp_add_len; [cec_side|]
  | |- wp (mlift _) _ _ => apply wp_lift
  | |- wp len_inc _ _ => apply wp_len_inc; [cec_side|]
  | |- wp (set_reply _) _ _ => apply wp_set_reply
  | |- wp (put_be16 _ _ _) _ _ => unfold put_be16
  | |- wp (put_bcd _ _) _ _ => unfold put_bcd
  | |- wp (if ?c then _ else _) _ _ => cec_decide c
  | |- owp (if ?c then _ else _) _ => cec_decide c
  | |- owp (_ ≫= _) _ => apply owp_seq
  | |- owp (mret _) _ => apply owp_done
  | |- owp (msg_at _ _) _ => eapply owp_msg_at; [cec_side|cec_side|]
  | |- owp (get_be16 _ _ _) _ => unfold get_be16
  | |- owp (get_bcd _ _) _ => unfold get_bcd
  end.

(** ** Proving a codec *)

Lemma ret_owp {A} (o : outcome A) a : owp o (λ b, b = a) → o = Ret a.
Proof. destruct o; simpl; [by intros ->|intros []..]. Qed.

(** The sixteen bytes of a typed message have names. *)
Lemma typed_open (P : cec_msg → Prop) m :
  typed m →
  (∀ n b0 b1 b2 b3 b4 b5 b6 b7 b8 b9 b10 b11 b12 b13 b14 b15 q,
    Forall is_byte [b0; b1; b2; b3; b4; b5; b6; b7; b8; b9; b10; b11; b12; b13; b14; b15] →
    is_byte q →
    P (edit m n [b0; b1; b2; b3; b4; b5; b6; b7; b8; b9; b10; b11; b12; b13; b14; b15] q)) →
  P m.
Proof.
  intros [Hl Hb _ Hr _ _ _] HP. rewrite (edit_id m).
  destruct (msg m) as [|b0 l]; [done|]. do 15 (destruct l as [|? l]; [done|]).
  destruct l; [|done]. by apply HP.
Qed.

(** The state a builder leaves. *)
Definition wrote (m m' : cec_msg) : Prop :=
  ∃ n l q, m' = edit m n l q ∧ 2 ≤ n ≤ 16 ∧ length l = 16%nat ∧ Forall is_byte l ∧ is_byte q.

Lemma wrote_total m n l q m' :
  typed m → wrote m m' →
  typed m' ∧ 2 ≤ len m' ≤ 16 ∧ envelope m' = envelope (edit m n l q).
Proof.
  intros Hm (n' & l' & q' & -> & Hn & Hl & Hb & Hq).
  split_and!; cbn; [apply typed_edit; auto; lia|lia..|done].
Qed.

Section codec_intro.
Context (c : codec).

Lemma codec_intro :
  (∀ x, valid c x → safe c x) →
  (∀ r x m n b0 b1 b2 b3 b4 b5 b6 b7 b8 b9 b10 b11 b12 b13 b14 b15 q, safe c x →
    Forall is_byte [b0; b1; b2; b3; b4; b5; b6; b7; b8; b9; b10; b11; b12; b13; b14; b15] →
    is_byte q →
    wp (build c r x)
      (edit m n [b0; b1; b2; b3; b4; b5; b6; b7; b8; b9; b10; b11; b12; b13; b14; b15] q)
      (λ _ m', wrote m m')) →
  (∀ r x m n b0 b1 b2 b3 b4 b5 b6 b7 b8 b9 b10 b11 b12 b13 b14 b15 q, valid c x →
    is_byte b0 →
    wp (build c r x)
      (edit m n [b0; b1; b2; b3; b4; b5; b6; b7; b8; b9; b10; b11; b12; b13; b14; b15] q)
      (λ _ m', carries m' ((if to_all c then b0 / 16 * 16 + 15 else b0) ::
                           opcode c :: payload c x) ∧
               reply m' = from_option (λ a, ternary r a 0) q (answer c))) →
  (∀ x m h rest q, valid c x →
    owp (parse c (edit m (2 + Z.of_nat (length (payload c x)))
                       (h :: opcode c :: payload c x ++ rest) q)) (λ y, y = x)) →
  codec_ok c.
Proof.
  intros Hsafe Htotal Hbuilds Hparses. split; [done|..].
  - intros r x m Hm Hx.
    apply (typed_open (λ m0, wp (build c r x) m0
      (λ _ m', typed m' ∧ 2 ≤ len m' ≤ 16 ∧ envelope m' = envelope m0)) m Hm).
    intros. eapply wp_mono; [by eauto|]. simpl. intros _ m' Hw. by apply wrote_total.
  - intros r x m Hm Hx.
    apply (typed_open (λ m0, wp (build c r x) m0
      (λ _ m', carries m' (header c m0 :: opcode c :: payload c x) ∧
               reply m' = reply_after c r m0)) m Hm).
    intros * Hb Hq. apply Forall_inv in Hb. by apply Hbuilds.
  - intros x m h Hm Hx [El [rest Er]]. apply ret_owp. rewrite (edit_id m), El, Er.
    replace (Z.of_nat _) with (2 + Z.of_nat (length (payload c x))) by (simpl; lia).
    by apply Hparses.
Qed.
End codec_intro.

(** ** The tactics of the codecs *)

Create HintDb cec_unfold.
#[export] Hint Unfold is_byte is_u16 is_bcd is_bits be16 be24 bcd packed : cec_unfold.

(** Shifts and masks become products, quotients and remainders. *)
Ltac cec_width m :=
  lazymatch m with
  | 255 => constr:(8) | 127 => constr:(7) | 63 => constr:(6) | 15 => constr:(4)
  | 7 => constr:(3) | 3 => constr:(2) | 1 => constr:(1)
  end.
Ltac cec_shifts :=
  rewrite <- ?Z.lor_assoc;
  repeat match goal with
  | |- context [Z.land ?x ?m] =>
      let w := cec_width m in rewrite (land_mask x m w) by (lia || reflexivity)
  | |- context [Z.shiftr ?x ?k] => rewrite (Z.shiftr_div_pow2 x k) by lia
  end.
Ltac cec_lia :=
  autounfold with cec_unfold in *; unfold uwrap in *;
  Z.to_euclidean_division_equations; lia.
Ltac cec_lors :=
  repeat match goal with
  | |- context [Z.lor (Z.shiftl ?h ?k) ?l] =>
      lazymatch l with context [Z.lor] => fail | _ => idtac end;
      rewrite (lor_shiftl h k l) by (first [lia | cec_lia])
  end.
Ltac cec_value :=
  first [ reflexivity | assumption
        | by apply lor_header | by apply u8_byte | by apply u8_ternary
        | cec_shifts; cec_lors; cec_lia ].

(** The four goals of [codec_intro], for a builder and a parser without branches. *)
Ltac cec_list :=
  repeat match goal with |- _ :: _ = _ :: _ => apply f_equal2 end.
Ltac cec_bytes :=
  repeat (apply List.Forall_cons; [first [assumption | apply is_byte_u8]|]);
  apply List.Forall_nil.
Ltac cec_wrote :=
  eexists _, _, _; split; [reflexivity|];
  split; [cbn; lia|]; split; [reflexivity|];
  decompose_Forall_hyps; split; [cec_bytes|first [assumption | apply is_byte_u8]].
Ltac cec_carries :=
  split; [split; [reflexivity|eexists; cbn; cec_list; try reflexivity; cec_value]|cec_value].
Ltac cec_parsed :=
  repeat match goal with |- (_, _) = (_, _) => apply f_equal2 end; cec_value.

(** Run the program in the goal to its end or to a branch. *)
Ltac cec_head t := lazymatch t with ?f _ => cec_head f | _ => t end.
Ltac cec_unfold :=
  lazymatch goal with
  | |- wp (_ ≫= _) _ _ => fail
  | |- owp (_ ≫= _) _ => fail
  | |- wp ?p _ _ => let h := cec_head p in unfold h
  | |- owp ?p _ => let h := cec_head p in unfold h
  end.
Ltac cec_run := repeat first [cec_step | cec_unfold].

(** The operands of a message in the goals of [codec_intro], one by one. *)
Ltac cec_operands :=
  repeat match goal with
  | x : _ * _ |- _ => destruct x
  | x : unit |- _ => destruct x
  end; simpl in *; destruct_and?.

(** A codec whose two functions have no branch. *)
Ltac cec_codec :=
  apply codec_intro; simpl; intros; cec_operands;
  [ tauto | cec_run; cec_wrote | cec_run; cec_carries | cec_run; cec_parsed ].

(** ** Codecs of common shapes: no operand, a byte, a physical address, two bytes *)

Definition bare_codec (op : Z) (all : bool) (ans : option Z) (f : Z → M cec_msg unit)
    : codec := {|
  operand := unit; build r _ := f r; parse _ := mret tt;
  opcode := op; to_all := all; answer := ans;
  payload _ := []; safe _ := True; valid _ := True |}.

Definition byte_codec (op : Z) (all : bool) (ans : option Z) (f : Z → Z → M cec_msg unit)
    (g : cec_msg → outcome Z) : codec := {|
  operand := Z; build := f; parse := g;
  opcode := op; to_all := all; answer := ans;
  payload x := [x]; safe _ := True; valid := is_byte |}.

Definition addr_codec (op : Z) (all : bool) (ans : option Z) (f : Z → Z → M cec_msg unit)
    (g : cec_msg → outcome Z) : codec := {|
  operand := Z; build := f; parse := g;
  opcode := op; to_all := all; answer := ans;
  payload := be16; safe _ := True; valid := is_u16 |}.

Definition bytes_codec (op : Z) (all : bool) (ans : option Z)
    (f : Z → Z → Z → M cec_msg unit) (g : cec_msg → outcome (Z * Z)) : codec := {|
  operand := Z * Z; build r '(x, y) := f r x y; parse := g;
  opcode := op; to_all := all; answer := ans;
  payload '(x, y) := [x; y]; safe _ := True; valid '(x, y) := is_byte x ∧ is_byte y |}.
