(* ===== verification/CecPlainSpec.v ===== *)
(** * The codecs of the messages without variants

    The messages whose operands sit at fixed places: no operand, bytes, physical addresses
    and two-digit decimals.  One list of codecs for each file of functions, and the contract
    of every codec in it. *)

From stdpp Require Import base list numbers.
From Stdlib Require Import ZArith Lia.
From S2P Require Import Prelude CecConst CecMsg CecRecord CecTimer.
From S2P Require Import CecTuner CecAudio CecSpec.

#[local] Open Scope Z_scope.

(** ** One touch play, routing control, standby *)

Definition routing_change_codec : codec := {|
  operand := Z * Z;
  build r '(orig, new) := cec_msg_routing_change r orig new;
  parse := cec_ops_routing_change;
  opcode := CEC_MSG_ROUTING_CHANGE; to_all := true;
  answer := Some CEC_MSG_ROUTING_INFORMATION;
  payload '(orig, new) := be16 orig ++ be16 new;
  safe _ := True; valid '(orig, new) := is_u16 orig ∧ is_u16 new |}.

Definition source_codecs : list codec :=
  [addr_codec CEC_MSG_ACTIVE_SOURCE true None (λ _, cec_msg_active_source)
     cec_ops_active_source;
   bare_codec CEC_MSG_IMAGE_VIEW_ON false None (λ _, cec_msg_image_view_on);
   bare_codec CEC_MSG_TEXT_VIEW_ON false None (λ _, cec_msg_text_view_on);
   addr_codec CEC_MSG_INACTIVE_SOURCE false None (λ _, cec_msg_inactive_source)
     cec_ops_inactive_source;
   bare_codec CEC_MSG_REQUEST_ACTIVE_SOURCE true (Some CEC_MSG_ACTIVE_SOURCE)
     cec_msg_request_active_source;
   addr_codec CEC_MSG_ROUTING_INFORMATION true None (λ _, cec_msg_routing_information)
     cec_ops_routing_information;
   routing_change_codec;
   addr_codec CEC_MSG_SET_STREAM_PATH true None (λ _, cec_msg_set_stream_path)
     cec_ops_set_stream_path;
   bare_codec CEC_MSG_STANDBY false None (λ _, cec_msg_standby)].

(** ** One touch record *)

Definition record_codecs : list codec :=
  [bare_codec CEC_MSG_RECORD_OFF false (Some CEC_MSG_RECORD_STATUS) cec_msg_record_off;
   byte_codec CEC_MSG_RECORD_STATUS false None (λ _, cec_msg_record_status)
     cec_ops_record_status;
   bare_codec CEC_MSG_RECORD_TV_SCREEN false (Some CEC_MSG_RECORD_ON)
     cec_msg_record_tv_screen].

(** ** Timers *)

(** The day, month, start, duration and sequence of a recording. *)
Abbreviation timer_time := (Z * Z * Z * Z * Z * Z * Z)%type.
Definition time_bytes (t : timer_time) : list Z :=
  let '(day, month, start_hr, start_min, duration_hr, duration_min, seq) := t in
  [day; month; bcd start_hr; bcd start_min; bcd duration_hr; bcd duration_min; seq].
Definition valid_time (t : timer_time) : Prop :=
  let '(day, month, start_hr, start_min, duration_hr, duration_min, seq) := t in
  is_byte day ∧ is_byte month ∧ is_bcd start_hr ∧ is_bcd start_min ∧ is_bcd duration_hr ∧
  is_bcd duration_min ∧ is_byte seq.

Definition analogue_timer_codec (op ans : Z)
    (f : Z → Z → Z → Z → Z → Z → Z → Z → Z → Z → Z → M cec_msg unit)
    (g : cec_msg → outcome (timer_time * Z * Z * Z)) : codec := {|
  operand := timer_time * Z * Z * Z;
  build r '(t, ty, freq, sys) :=
    let '(day, month, sh, sm, dh, dm, seq) := t in f r day month sh sm dh dm seq ty freq sys;
  parse := g;
  opcode := op; to_all := false; answer := Some ans;
  payload '(t, ty, freq, sys) := time_bytes t ++ [ty] ++ be16 freq ++ [sys];
  safe _ := True;
  valid '(t, ty, freq, sys) := valid_time t ∧ is_byte ty ∧ is_u16 freq ∧ is_byte sys |}.

Definition ext_timer_codec (op ans : Z)
    (f : Z → Z → Z → Z → Z → Z → Z → Z → Z → Z → Z → M cec_msg unit)
    (g : cec_msg → outcome (timer_time * Z * Z * Z)) : codec := {|
  operand := timer_time * Z * Z * Z;
  build r '(t, spec, plug, addr) :=
    let '(day, month, sh, sm, dh, dm, seq) := t in f r day month sh sm dh dm seq spec plug addr;
  parse := g;
  opcode := op; to_all := false; answer := Some ans;
  payload '(t, spec, plug, addr) := time_bytes t ++ [spec; plug] ++ be16 addr;
  safe _ := True;
  valid '(t, spec, plug, addr) :=
    valid_time t ∧ is_byte spec ∧ is_byte plug ∧ is_u16 addr |}.

Definition timer_codecs : list codec :=
  [byte_codec CEC_MSG_TIMER_CLEARED_STATUS false None (λ _, cec_msg_timer_cleared_status)
     cec_ops_timer_cleared_status;
   analogue_timer_codec CEC_MSG_CLEAR_ANALOGUE_TIMER CEC_MSG_TIMER_CLEARED_STATUS
     cec_msg_clear_analogue_timer cec_ops_clear_analogue_timer;
   ext_timer_codec CEC_MSG_CLEAR_EXT_TIMER CEC_MSG_TIMER_CLEARED_STATUS
     cec_msg_clear_ext_timer cec_ops_clear_ext_timer;
   analogue_timer_codec CEC_MSG_SET_ANALOGUE_TIMER CEC_MSG_TIMER_STATUS
     cec_msg_set_analogue_timer cec_ops_set_analogue_timer;
   ext_timer_codec CEC_MSG_SET_EXT_TIMER CEC_MSG_TIMER_STATUS
     cec_msg_set_ext_timer cec_ops_set_ext_timer].

(** ** System information and deck control *)

Definition report_physical_addr_codec : codec := {|
  operand := Z * Z;
  build _ '(addr, ty) := cec_msg_report_physical_addr addr ty;
  parse := cec_ops_report_physical_addr;
  opcode := CEC_MSG_REPORT_PHYSICAL_ADDR; to_all := true; answer := None;
  payload '(addr, ty) := be16 addr ++ [ty];
  safe _ := True; valid '(addr, ty) := is_u16 addr ∧ is_byte ty |}.

Definition system_codecs : list codec :=
  [byte_codec CEC_MSG_CEC_VERSION false None (λ _, cec_msg_cec_version) cec_ops_cec_version;
   bare_codec CEC_MSG_GET_CEC_VERSION false (Some CEC_MSG_CEC_VERSION)
     cec_msg_get_cec_version;
   report_physical_addr_codec;
   bare_codec CEC_MSG_GIVE_PHYSICAL_ADDR false (Some CEC_MSG_REPORT_PHYSICAL_ADDR)
     cec_msg_give_physical_addr;
   bare_codec CEC_MSG_GET_MENU_LANGUAGE false (Some CEC_MSG_SET_MENU_LANGUAGE)
     cec_msg_get_menu_language;
   bare_codec CEC_MSG_GIVE_FEATURES false (Some CEC_MSG_REPORT_FEATURES)
     cec_msg_give_features;
   byte_codec CEC_MSG_DECK_CONTROL false None (λ _, cec_msg_deck_control)
     cec_ops_deck_control;
   byte_codec CEC_MSG_DECK_STATUS false None (λ _, cec_msg_deck_status) cec_ops_deck_status;
   byte_codec CEC_MSG_GIVE_DECK_STATUS false (Some CEC_MSG_DECK_STATUS)
     cec_msg_give_deck_status cec_ops_give_deck_status;
   byte_codec CEC_MSG_PLAY false None (λ _, cec_msg_play) cec_ops_play].

(** ** Tuner control and vendor commands *)

Definition select_analogue_service_codec : codec := {|
  operand := Z * Z * Z;
  build _ '(ty, freq, sys) := cec_msg_select_analogue_service ty freq sys;
  parse := cec_ops_select_analogue_service;
  opcode := CEC_MSG_SELECT_ANALOGUE_SERVICE; to_all := false; answer := None;
  payload '(ty, freq, sys) := [ty] ++ be16 freq ++ [sys];
  safe _ := True; valid '(ty, freq, sys) := is_byte ty ∧ is_u16 freq ∧ is_byte sys |}.

Definition device_vendor_id_codec : codec := {|
  operand := Z;
  build _ := cec_msg_device_vendor_id;
  parse := cec_ops_device_vendor_id;
  opcode := CEC_MSG_DEVICE_VENDOR_ID; to_all := true; answer := None;
  payload := be24;
  safe _ := True; valid := is_bits 24 |}.

Definition tuner_codecs : list codec :=
  [byte_codec CEC_MSG_GIVE_TUNER_DEVICE_STATUS false (Some CEC_MSG_TUNER_DEVICE_STATUS)
     cec_msg_give_tuner_device_status cec_ops_give_tuner_device_status;
   select_analogue_service_codec;
   bare_codec CEC_MSG_TUNER_STEP_DECREMENT false None (λ _, cec_msg_tuner_step_decrement);
   bare_codec CEC_MSG_TUNER_STEP_INCREMENT false None (λ _, cec_msg_tuner_step_increment);
   device_vendor_id_codec;
   bare_codec CEC_MSG_GIVE_DEVICE_VENDOR_ID false (Some CEC_MSG_DEVICE_VENDOR_ID)
     cec_msg_give_device_vendor_id;
   bare_codec CEC_MSG_VENDOR_REMOTE_BUTTON_UP false None
     (λ _, cec_msg_vendor_remote_button_up)].

(** ** Menus, remote control, power status, aborts *)

Definition menu_codecs : list codec :=
  [bare_codec CEC_MSG_GIVE_OSD_NAME false (Some CEC_MSG_SET_OSD_NAME) cec_msg_give_osd_name;
   byte_codec CEC_MSG_MENU_STATUS false None (λ _, cec_msg_menu_status) cec_ops_menu_status;
   byte_codec CEC_MSG_MENU_REQUEST false (Some CEC_MSG_MENU_STATUS) cec_msg_menu_request
     cec_ops_menu_request;
   bare_codec CEC_MSG_USER_CONTROL_RELEASED false None (λ _, cec_msg_user_control_released);
   byte_codec CEC_MSG_REPORT_POWER_STATUS false None (λ _, cec_msg_report_power_status)
     cec_ops_report_power_status;
   bare_codec CEC_MSG_GIVE_DEVICE_POWER_STATUS false (Some CEC_MSG_REPORT_POWER_STATUS)
     cec_msg_give_device_power_status;
   bytes_codec CEC_MSG_FEATURE_ABORT false None (λ _, cec_msg_feature_abort)
     cec_ops_feature_abort;
   bare_codec CEC_MSG_ABORT false None (λ _, cec_msg_abort)].

(** ** System audio, audio return channel *)

Definition report_audio_status_codec : codec := {|
  operand := Z * Z;
  build _ '(mute, volume) := cec_msg_report_audio_status mute volume;
  parse := cec_ops_report_audio_status;
  opcode := CEC_MSG_REPORT_AUDIO_STATUS; to_all := false; answer := None;
  payload '(mute, volume) := [packed mute 7 volume];
  safe _ := True; valid '(mute, volume) := is_bits 1 mute ∧ is_bits 7 volume |}.

Definition audio_codecs : list codec :=
  [report_audio_status_codec;
   bare_codec CEC_MSG_GIVE_AUDIO_STATUS false (Some CEC_MSG_REPORT_AUDIO_STATUS)
     cec_msg_give_audio_status;
   byte_codec CEC_MSG_SET_SYSTEM_AUDIO_MODE false None (λ _, cec_msg_set_system_audio_mode)
     cec_ops_set_system_audio_mode;
   byte_codec CEC_MSG_SYSTEM_AUDIO_MODE_STATUS false None
     (λ _, cec_msg_system_audio_mode_status) cec_ops_system_audio_mode_status;
   bare_codec CEC_MSG_GIVE_SYSTEM_AUDIO_MODE_STATUS false
     (Some CEC_MSG_SYSTEM_AUDIO_MODE_STATUS) cec_msg_give_system_audio_mode_status;
   byte_codec CEC_MSG_SET_AUDIO_RATE false None (λ _, cec_msg_set_audio_rate)
     cec_ops_set_audio_rate;
   bare_codec CEC_MSG_REPORT_ARC_INITIATED false None (λ _, cec_msg_report_arc_initiated);
   bare_codec CEC_MSG_INITIATE_ARC false (Some CEC_MSG_REPORT_ARC_INITIATED)
     cec_msg_initiate_arc;
   bare_codec CEC_MSG_REQUEST_ARC_INITIATION false (Some CEC_MSG_INITIATE_ARC)
     cec_msg_request_arc_initiation;
   bare_codec CEC_MSG_REPORT_ARC_TERMINATED false None (λ _, cec_msg_report_arc_terminated);
   bare_codec CEC_MSG_TERMINATE_ARC false (Some CEC_MSG_REPORT_ARC_TERMINATED)
     cec_msg_terminate_arc;
   bare_codec CEC_MSG_REQUEST_ARC_TERMINATION false (Some CEC_MSG_TERMINATE_ARC)
     cec_msg_request_arc_termination;
   addr_codec CEC_MSG_REQUEST_CURRENT_LATENCY true (Some CEC_MSG_REPORT_CURRENT_LATENCY)
     cec_msg_request_current_latency cec_ops_request_current_latency].

(** ** The contracts *)

Ltac cec_codecs := repeat (apply List.Forall_cons; [cec_codec|]); apply List.Forall_nil.

Lemma source_codecs_ok : Forall codec_ok source_codecs.
Proof. cec_codecs. Qed.

Lemma record_codecs_ok : Forall codec_ok record_codecs.
Proof. cec_codecs. Qed.

Lemma timer_codecs_ok : Forall codec_ok timer_codecs.
Proof. cec_codecs. Qed.

Lemma system_codecs_ok : Forall codec_ok system_codecs.
Proof. cec_codecs. Qed.

Lemma tuner_codecs_ok : Forall codec_ok tuner_codecs.
Proof. cec_codecs. Qed.

Lemma menu_codecs_ok : Forall codec_ok menu_codecs.
Proof. cec_codecs. Qed.

Lemma audio_codecs_ok : Forall codec_ok audio_codecs.
Proof. cec_codecs. Qed.
