(* ===== verification/CecServiceSpec.v ===== *)
(** * The codecs of digital services

    [service_bytes] are the seven bytes that describe a digital service.
    [cec_set_digital_service_id] writes them; [cec_get_digital_service_id] reads back
    [received d], which is [d] unless the service is a channel with a major number above
    255: the two high bits of the number come back in the wrong place. *)

From stdpp Require Import base list numbers.
From Stdlib Require Import ZArith Lia.
From S2P Require Import Prelude CecConst CecMsg CecRecord CecTimer CecTuner CecSpec.
From S2P Require Import CecPlainSpec.

#[local] Open Scope Z_scope.

Definition zero_service : cec_op_digital_service_id := DigitalServiceId 0 0 0 0 0.

Definition by_channel (d : cec_op_digital_service_id) : bool :=
  service_id_method d =? CEC_OP_SERVICE_ID_METHOD_BY_CHANNEL.

Definition service_bytes (d : cec_op_digital_service_id) : list Z :=
  packed (service_id_method d) 7 (dig_bcast_system d) ::
  if by_channel d then
    [packed (word0 d) 2 (word1 d / 256); word1 d mod 256] ++ be16 (word2 d) ++ [0; 0]
  else if is_atsc_system (dig_bcast_system d) then
    be16 (word0 d) ++ be16 (word1 d) ++ [0; 0]
  else be16 (word0 d) ++ be16 (word1 d) ++ be16 (word2 d).

(** The members of the union fit: a channel format of six bits and a major number of ten;
    the third word is not used by ATSC. *)
Definition fits_service (d : cec_op_digital_service_id) : Prop :=
  is_bits 1 (service_id_method d) ∧ is_bits 7 (dig_bcast_system d) ∧
  is_u16 (word0 d) ∧ is_u16 (word1 d) ∧ is_u16 (word2 d) ∧
  if by_channel d then is_bits 6 (word0 d) ∧ is_bits 10 (word1 d)
  else if is_atsc_system (dig_bcast_system d) then word2 d = 0 else True.

Definition received (d : cec_op_digital_service_id) : cec_op_digital_service_id :=
  if by_channel d then
    DigitalServiceId (service_id_method d) (dig_bcast_system d) (word0 d)
      (Z.lor (word1 d / 256 * 64) (word1 d mod 256)) (word2 d)
  else d.

(** The services that survive. *)
Definition valid_service (d : cec_op_digital_service_id) : Prop :=
  fits_service d ∧ (by_channel d = true → word1 d < 256).

Lemma received_valid d : valid_service d → received d = d.
Proof.
  intros [(_ & _ & _ & Hw & _) Hd]. unfold received. destruct (by_channel d); [|done].
  specialize (Hd eq_refl). destruct d as [? ? ? major ?]; simpl in *. unfold is_u16 in Hw.
  by rewrite Z.div_small, Z.mod_small by lia.
Qed.

(** ** Writing a service *)

(** The seven bytes as the code computes them. *)
Definition stored_service (d : cec_op_digital_service_id) : list Z :=
  u8 (Z.lor (service_id_method d ≪ 7) (dig_bcast_system d)) ::
  if by_channel d then
    [u8 (Z.lor (Z.land (word0 d) 255 ≪ 2) (word1 d ≫ 8)); u8 (Z.land (word1 d) 255);
     u8 (word2 d ≫ 8); u8 (Z.land (word2 d) 255); u8 0; u8 0]
  else if is_atsc_system (dig_bcast_system d) then
    [u8 (word0 d ≫ 8); u8 (Z.land (word0 d) 255); u8 (word1 d ≫ 8); u8 (Z.land (word1 d) 255);
     u8 0; u8 0]
  else
    [u8 (word0 d ≫ 8); u8 (Z.land (word0 d) 255); u8 (word1 d ≫ 8); u8 (Z.land (word1 d) 255);
     u8 (word2 d ≫ 8); u8 (Z.land (word2 d) 255)].

Lemma length_stored_service d : length (stored_service d) = 7%nat.
Proof.
  unfold stored_service. by destruct (by_channel d), (is_atsc_system (dig_bcast_system d)).
Qed.

Lemma length_service_bytes d : length (service_bytes d) = 7%nat.
Proof.
  unfold service_bytes. by destruct (by_channel d), (is_atsc_system (dig_bcast_system d)).
Qed.

Lemma stored_service_bytes d : Forall is_byte (stored_service d).
Proof.
  unfold stored_service.
  destruct (by_channel d), (is_atsc_system (dig_bcast_system d)); cec_bytes.
Qed.

Lemma stored_service_fits d : fits_service d → stored_service d = service_bytes d.
Proof.
  intros (Hm & Hs & H0 & H1 & H2 & Hd). unfold stored_service, service_bytes.
  f_equal; [cec_value|]. destruct (by_channel d).
  { destruct Hd. cbn. cec_list; cec_value. }
  destruct (is_atsc_system _); unfold be16; cbn; cec_list; cec_value.
Qed.

Lemma wp_set_in m n q pre l p k v (Q : unit → cec_msg → Prop) :
  p = Z.of_nat (length pre) → 0 ≤ k < Z.of_nat (length l) →
  Q tt (edit m n (pre ++ <[Z.to_nat k := u8 v]> l) q) →
  wp (set_msg (p + k) v) (edit m n (pre ++ l) q) Q.
Proof.
  intros -> Hk HQ. apply wp_set_msg; [rewrite length_app; lia|].
  rewrite Z2Nat.inj_add, Nat2Z.id, insert_app_r by lia. done.
Qed.

Ltac store_step :=
  lazymatch goal with
  | |- wp (_ ≫= _) _ _ => apply wp_seq
  | |- wp (set_msg _ _) _ _ => apply wp_set_in; [done|cbn; lia|cec_norm]
  end.

Lemma wp_set_service m n q pre l p d (Q : unit → cec_msg → Prop) :
  p = Z.of_nat (length pre) → (7 ≤ length l)%nat →
  Q tt (edit m n (pre ++ stored_service d ++ drop 7 l) q) →
  wp (cec_set_digital_service_id p d) (edit m n (pre ++ l) q) Q.
Proof.
  intros Hp Hl HQ. do 7 (destruct l as [|? l]; [cbn in Hl; lia|]). clear Hl.
  unfold cec_set_digital_service_id. fold (by_channel d).
  unfold stored_service in HQ. destruct (by_channel d).
  all: apply wp_bind; rewrite <- (Z.add_0_r p) at 1.
  all: store_step; [].
  - repeat store_step. exact HQ.
  - destruct (is_atsc_system (dig_bcast_system d)); repeat store_step; exact HQ.
Qed.

(** ** Reading a service *)

Lemma owp_msg_at_drop m p i l b (P : Z → Prop) :
  0 ≤ p → 0 ≤ i → drop (Z.to_nat p) (msg m) = l → l !! Z.to_nat i = Some b → P b →
  owp (msg_at m (p + i)) P.
Proof.
  intros Hp Hi E El HP. eapply owp_msg_at; [lia| |done].
  rewrite Z2Nat.inj_add, <- lookup_drop, E by lia. done.
Qed.

Lemma service_method d : fits_service d →
  u8 (packed (service_id_method d) 7 (dig_bcast_system d) ≫ 7) = service_id_method d ∧
  u8 (Z.land (packed (service_id_method d) 7 (dig_bcast_system d)) 127) = dig_bcast_system d.
Proof. intros (Hm & Hs & _). split; cec_value. Qed.

Lemma lor_major a b : is_bits 2 a → is_byte b →
  u16 (Z.lor (a ≪ 6) b) = Z.lor (a * 64) b.
Proof.
  intros Ha. revert b. unfold is_bits in Ha.
  assert (a = 0 ∨ a = 1 ∨ a = 2 ∨ a = 3) as [->|[->|[->| ->]]] by lia;
    apply (byte_cases _); by vm_compute.
Qed.

Ltac get_step :=
  match goal with
  | |- owp (_ ≫= _) _ => apply owp_seq
  | |- owp (mret _) _ => apply owp_done
  | |- owp (get_be16 _ _ _) _ => unfold get_be16
  | H : ∀ i b P, _ → _ → P b → owp (msg_at _ _) P |- owp (msg_at _ _) _ =>
      eapply H; [lia|reflexivity|]
  end.

Lemma owp_get_service m p d rest (P : cec_op_digital_service_id → Prop) :
  0 ≤ p → drop (Z.to_nat p) (msg m) = service_bytes d ++ rest → fits_service d →
  P (received d) → owp (cec_get_digital_service_id m p zero_service) P.
Proof.
  intros Hp E Hd HP. unfold cec_get_digital_service_id. destruct (service_method d Hd) as [E1 E2].
  assert (∀ i b (P : Z → Prop), 0 ≤ i → (service_bytes d ++ rest) !! Z.to_nat i = Some b →
    P b → owp (msg_at m (p + i)) P) as Hat by (intros; by eapply owp_msg_at_drop).
  apply owp_bind. rewrite <- (Z.add_0_r p) at 1. eapply Hat; [done|done|]. cbv zeta.
  rewrite E1, E2. unfold received in HP. fold (by_channel d).
  destruct Hd as (_ & _ & H0 & H1 & H2 & Hd).
  unfold service_bytes, by_channel in *. cbn [word0 word1 word2 zero_service].
  destruct (service_id_method d =? CEC_OP_SERVICE_ID_METHOD_BY_CHANNEL).
  - repeat get_step.
    match goal with |- P ?v => replace v with
      (DigitalServiceId (service_id_method d) (dig_bcast_system d) (word0 d)
         (Z.lor (word1 d / 256 * 64) (word1 d mod 256)) (word2 d)); [done|] end.
    destruct Hd as [Hf Hj]. unfold with_channel, set_low_byte. cbn.
    rewrite Z.land_0_l, Z.lor_0_l. f_equal; [cec_value| |cec_value].
    replace (Z.land (packed _ _ _) 3) with (word1 d / 256) by cec_value.
    symmetry. apply lor_major; cec_lia.
  - destruct d as [method system w0 w1 w2]. cbn in *.
    destruct (is_atsc_system system); cbn in *; repeat get_step; unfold with_dvb; cbn;
      match goal with |- P ?v => replace v with (DigitalServiceId method system w0 w1 w2) end;
      try done; f_equal; cec_value.
Qed.

(** ** Messages with a digital service *)

Definition select_digital_service_codec : codec := {|
  operand := cec_op_digital_service_id;
  build _ := cec_msg_select_digital_service;
  parse m := cec_ops_select_digital_service m zero_service;
  opcode := CEC_MSG_SELECT_DIGITAL_SERVICE; to_all := false; answer := None;
  payload := service_bytes;
  safe _ := True; valid := valid_service |}.

Definition digital_timer_codec (op ans : Z)
    (f : Z → Z → Z → Z → Z → Z → Z → Z → cec_op_digital_service_id → M cec_msg unit)
    (g : cec_msg → cec_op_digital_service_id →
         outcome (timer_time * cec_op_digital_service_id)) : codec := {|
  operand := timer_time * cec_op_digital_service_id;
  build r '(t, d) :=
    let '(day, month, sh, sm, dh, dm, seq) := t in f r day month sh sm dh dm seq d;
  parse m := g m zero_service;
  opcode := op; to_all := false; answer := Some ans;
  payload '(t, d) := time_bytes t ++ service_bytes d;
  safe _ := True;
  valid '(t, d) := valid_time t ∧ valid_service d |}.

(** What is recorded; the last case is a [type] that is none of the five of [cec.h]. *)
Inductive record_source : Type :=
  | Own
  | Digital (d : cec_op_digital_service_id)
  | Analog (a : analog_service)
  | Plug (plug : Z)
  | PhysAddr (addr : Z)
  | OtherSource (type : Z).

(** The structure a caller fills in for a source, and the source a structure describes. *)
Definition to_record_src (s : record_source) : cec_op_record_src :=
  match s with
  | Own => RecordSrc CEC_OP_RECORD_SRC_OWN zero_service
  | Digital d => RecordSrc CEC_OP_RECORD_SRC_DIGITAL d
  | Analog a => RecordSrc CEC_OP_RECORD_SRC_ANALOG (with_analog a zero_service)
  | Plug p => with_ext_plug p (RecordSrc CEC_OP_RECORD_SRC_EXT_PLUG zero_service)
  | PhysAddr a =>
      with_ext_phys_addr a (RecordSrc CEC_OP_RECORD_SRC_EXT_PHYS_ADDR zero_service)
  | OtherSource t => RecordSrc t zero_service
  end.
Definition of_record_src (r : cec_op_record_src) : record_source :=
  if rec_type r =? CEC_OP_RECORD_SRC_OWN then Own
  else if rec_type r =? CEC_OP_RECORD_SRC_DIGITAL then Digital (rec_digital r)
  else if rec_type r =? CEC_OP_RECORD_SRC_ANALOG then Analog (analog (rec_digital r))
  else if rec_type r =? CEC_OP_RECORD_SRC_EXT_PLUG then Plug (ext_plug r)
  else if rec_type r =? CEC_OP_RECORD_SRC_EXT_PHYS_ADDR then PhysAddr (ext_phys_addr r)
  else OtherSource (rec_type r).

Definition analog_bytes (a : analog_service) : list Z :=
  [ana_bcast_type a] ++ be16 (ana_freq a) ++ [bcast_system a].
Definition valid_analog (a : analog_service) : Prop :=
  is_byte (ana_bcast_type a) ∧ is_u16 (ana_freq a) ∧ is_byte (bcast_system a).

Definition record_on_codec : codec := {|
  operand := record_source;
  build r s := cec_msg_record_on r (to_record_src s);
  parse m :=
    s ← cec_ops_record_on m (RecordSrc 0 zero_service);
    mret (of_record_src s);
  opcode := CEC_MSG_RECORD_ON; to_all := false; answer := Some CEC_MSG_RECORD_STATUS;
  payload s :=
    match s with
    | Own => [CEC_OP_RECORD_SRC_OWN]
    | Digital d => CEC_OP_RECORD_SRC_DIGITAL :: service_bytes d
    | Analog a => CEC_OP_RECORD_SRC_ANALOG :: analog_bytes a
    | Plug p => [CEC_OP_RECORD_SRC_EXT_PLUG; p]
    | PhysAddr a => CEC_OP_RECORD_SRC_EXT_PHYS_ADDR :: be16 a
    | OtherSource t => [t]
    end;
  safe s := match s with OtherSource _ => False | _ => True end;
  valid s :=
    match s with
    | Own => True
    | Digital d => valid_service d
    | Analog a => valid_analog a
    | Plug p => is_byte p
    | PhysAddr a => is_u16 a
    | OtherSource _ => False
    end |}.

(** What a tuner shows: a digital or an analogue service. *)
Definition to_tuner_info (flag info : Z) (s : cec_op_digital_service_id + analog_service)
    : cec_op_tuner_device_info :=
  match s with
  | inl d => TunerDeviceInfo flag info 0 d
  | inr a => TunerDeviceInfo flag info 1 (with_analog a zero_service)
  end.
Definition of_tuner_info (t : cec_op_tuner_device_info)
    : Z * Z * (cec_op_digital_service_id + analog_service) :=
  (rec_flag t, tuner_display_info t,
   if is_analog t =? 0 then inl (tuner_digital t) else inr (analog (tuner_digital t))).

Definition tuner_device_status_codec : codec := {|
  operand := Z * Z * (cec_op_digital_service_id + analog_service);
  build _ '(flag, info, s) := cec_msg_tuner_device_status (to_tuner_info flag info s);
  parse m :=
    t ← cec_ops_tuner_device_status m (TunerDeviceInfo 0 0 0 zero_service);
    mret (of_tuner_info t);
  opcode := CEC_MSG_TUNER_DEVICE_STATUS; to_all := false; answer := None;
  payload '(flag, info, s) :=
    packed flag 7 info ::
    match s with inl d => service_bytes d | inr a => analog_bytes a end;
  safe _ := True;
  valid '(flag, info, s) :=
    is_bits 1 flag ∧ is_bits 7 info ∧
    match s with inl d => valid_service d | inr a => valid_analog a end |}.

Definition service_codecs : list codec :=
  [select_digital_service_codec;
   digital_timer_codec CEC_MSG_CLEAR_DIGITAL_TIMER CEC_MSG_TIMER_CLEARED_STATUS
     cec_msg_clear_digital_timer cec_ops_clear_digital_timer;
   digital_timer_codec CEC_MSG_SET_DIGITAL_TIMER CEC_MSG_TIMER_STATUS
     cec_msg_set_digital_timer cec_ops_set_digital_timer;
   record_on_codec;
   tuner_device_status_codec].


(** [l] is split at the literal offset [p] of the service. *)
Ltac cec_service :=
  lazymatch goal with
  | |- wp (cec_set_digital_service_id ?p _) (edit ?m ?n ?l ?q) _ =>
      let k := eval vm_compute in (Z.to_nat p) in
      let pre := eval cbn in (take k l) in let post := eval cbn in (drop k l) in
      change (edit m n l q) with (edit m n (pre ++ post) q);
      apply wp_set_service; [reflexivity|cbn; lia|cbn [app drop]]
  | |- owp (cec_get_digital_service_id _ _ _) _ =>
      eapply owp_get_service; [lia|reflexivity|assumption|]
  end.
Ltac cec_run_service := repeat first [cec_step | cec_service | cec_unfold].

Ltac cec_wrote_service :=
  eexists _, _, _; split; [reflexivity|]; split; [cbn; lia|];
  split; [rewrite ?length_cons, length_app, length_stored_service; reflexivity|];
  decompose_Forall_hyps; split; [|first [assumption | apply is_byte_u8]];
  repeat match goal with
         | |- Forall _ (_ :: _) => apply List.Forall_cons; [first [assumption|apply is_byte_u8]|]
         | |- Forall _ (_ ++ _) => apply Forall_app_2; [apply stored_service_bytes|]
         end; apply List.Forall_nil.
Ltac cec_carries_service :=
  rewrite stored_service_fits by assumption;
  split; [split|cec_value];
  [ cbn; rewrite ?length_app, length_service_bytes; reflexivity
  | eexists; cbn; repeat (apply f_equal2; [cec_value|]); reflexivity ].

#[local] Opaque stored_service service_bytes.

Lemma select_digital_service_ok : codec_ok select_digital_service_codec.
Proof.
  apply codec_intro; simpl; intros; cec_operands.
  - done.
  - cec_run_service. cec_wrote_service.
  - destruct H as [Hf _]. cec_run_service. cec_carries_service.
  - destruct H as [Hf Hv]. cec_run_service. by apply received_valid.
Qed.

(** Both digital timers, from the shape of their functions. *)
Ltac digital_timer :=
  apply codec_intro; simpl; intros; cec_operands;
  [ done
  | cec_run_service; cec_wrote_service
  | match goal with H : valid_service _ |- _ => destruct H end;
    cec_run_service; cec_carries_service
  | match goal with H : valid_service _ |- _ => pose proof (received_valid _ H); destruct H end;
    cec_run_service; repeat (apply f_equal2; [|done || cec_value]); cec_value ].

Lemma clear_digital_timer_ok :
  codec_ok (digital_timer_codec CEC_MSG_CLEAR_DIGITAL_TIMER CEC_MSG_TIMER_CLEARED_STATUS
              cec_msg_clear_digital_timer cec_ops_clear_digital_timer).
Proof. digital_timer. Qed.

Lemma set_digital_timer_ok :
  codec_ok (digital_timer_codec CEC_MSG_SET_DIGITAL_TIMER CEC_MSG_TIMER_STATUS
              cec_msg_set_digital_timer cec_ops_set_digital_timer).
Proof. digital_timer. Qed.

(** A byte stored in a zeroed union, and the address in its first two bytes. *)
Lemma low_byte_zero b : is_byte b → Z.land (set_low_byte 0 b) 255 = b.
Proof. revert b. apply (byte_cases _). by vm_compute. Qed.

Lemma phys_addr_bytes a : is_u16 a → Z.lor (Z.land a 255) ((a ≫ 8) ≪ 8) = a.
Proof. intros Ha. rewrite Z.lor_comm. cec_value. Qed.

Lemma be16_join x : is_u16 x → u16 (Z.lor ((x / 256) ≪ 8) (x mod 256)) = x.
Proof. intros. cec_value. Qed.

Ltac cec_union := rewrite ?be16_join, ?low_byte_zero, ?phys_addr_bytes by (assumption || cec_value).

Ltac cec_valid_service :=
  unfold valid_analog in *;
  repeat match goal with H : _ |- _ => progress cbn in H end; destruct_and?;
  try match goal with
      | H : valid_service ?d |- _ => pose proof (received_valid d H); destruct H as [? _]
      end.

Lemma record_on_ok : codec_ok record_on_codec.
Proof.
  apply codec_intro; simpl; intros.
  - by destruct x.
  - destruct x; try done; cec_run_service; first [cec_wrote_service | cec_wrote].
  - destruct x as [|d|[]| | |]; try done; cec_valid_service;
      cec_run_service; unfold ext_phys_addr; cbn; cec_union;
      first [cec_carries | cec_carries_service].
  - destruct x as [|d|[]| | |]; try done; cec_valid_service;
      cec_run_service; unfold of_record_src, ext_plug, ext_phys_addr, analog; cbn; cec_union; congruence.
Qed.

Lemma tuner_device_status_ok : codec_ok tuner_device_status_codec.
Proof.
  apply codec_intro; simpl; intros; cec_operands.
  - done.
  - destruct s; cec_run_service; first [cec_wrote_service | cec_wrote].
  - destruct s as [d|[]]; cec_valid_service;
      cec_run_service; cbn; cec_union; first [cec_carries | cec_carries_service].
  - destruct s as [d|[]]; cec_valid_service.
    + rewrite length_service_bytes. cec_run_service. unfold of_tuner_info. cbn.
      repeat apply f_equal2; [cec_value|cec_value|by rewrite H1].
    + change (2 + Z.of_nat _) with 7. cec_run_service. unfold of_tuner_info, analog. cbn.
      cec_union. repeat apply f_equal2; [cec_value|cec_value|done].
Qed.

Lemma service_codecs_ok : Forall codec_ok service_codecs.
Proof.
  repeat apply List.Forall_cons; [apply select_digital_service_ok|apply clear_digital_timer_ok|
    apply set_digital_timer_ok|apply record_on_ok|apply tuner_device_status_ok|done].
Qed.
