(* ===== verification/CecBlockSpec.v ===== *)
(** * The codecs of the messages with a block of bytes

    Strings, vendor commands, the menu language, the features of a device and the audio
    descriptors.  The lemmas on [strlen], [memcpy] and the loops come first. *)

From stdpp Require Import base list numbers.
From Stdlib Require Import ZArith Lia.
From S2P Require Import Prelude CecConst CecMsg CecTimer CecTuner.
From S2P Require Import CecAudio CecSpec CecServiceSpec.

#[local] Open Scope Z_scope.

(** ** Blocks *)

Lemma strlen_app s rest :
  Forall (λ c, c ≠ 0) s → strlen (s ++ 0 :: rest) = Ret (Z.of_nat (length s)).
Proof.
  induction 1 as [|c s Hc Hs IH]; [done|]. cbn [app strlen].
  rewrite (proj2 (Z.eqb_neq c 0)), IH by done. cbn [mbind outcome_bind length]. f_equal. lia.
Qed.

Lemma wp_memcpy_to_msg m n q src pre l i k (Q : unit → cec_msg → Prop) :
  i = Z.of_nat (length pre) → (k ≤ length src)%nat → (k ≤ length l)%nat →
  Q tt (edit m n (pre ++ map u8 (take k src) ++ drop k l) q) →
  wp (memcpy_to_msg i src k) (edit m n (pre ++ l) q) Q.
Proof.
  revert i pre src l. induction k as [|k IH]; intros i pre src l Hi Hs Hl HQ; [exact HQ|].
  destruct src as [|c src]; [simpl in Hs; lia|]. destruct l as [|b l]; [simpl in Hl; lia|].
  cbn [memcpy_to_msg]. apply wp_bind. rewrite <- (Z.add_0_r i) at 1.
  apply wp_set_in; [done|simpl; lia|]. cec_norm.
  replace (pre ++ u8 c :: l) with ((pre ++ [u8 c]) ++ l) by by rewrite <- app_assoc.
  apply IH; [rewrite length_app; simpl; lia|simpl in *; lia..|].
  by rewrite <- app_assoc.
Qed.

(** The bytes [src] of the message, which start at [i], replace those of the buffer. *)
Lemma owp_memcpy_from_msg m src rest pre dst k i (Q : list Z → Prop) :
  k = Z.of_nat (length pre) → 0 ≤ i → drop (Z.to_nat i) (msg m) = src ++ rest →
  (length src ≤ length dst)%nat → Q (pre ++ src ++ drop (length src) dst) →
  owp (memcpy_from_msg (pre ++ dst) k m i (length src)) Q.
Proof.
  revert i k pre dst. induction src as [|c src IH]; intros i k pre dst Hk Hi E Hd HQ; [exact HQ|].
  destruct dst as [|b dst]; [simpl in Hd; lia|]. cbn [length memcpy_from_msg].
  apply owp_bind. rewrite <- (Z.add_0_r i) at 1.
  eapply owp_msg_at_drop; [done|done|exact E|done|].
  apply owp_bind. rewrite arr_set_eval by (rewrite length_app; simpl; lia). cbn [owp].
  rewrite Hk, Nat2Z.id, <- (Nat.add_0_r (length pre)), insert_app_r. cbn [insert list_insert].
  replace (pre ++ c :: dst) with ((pre ++ [c]) ++ dst) by by rewrite <- app_assoc.
  apply IH.
  - rewrite length_app. simpl. lia.
  - lia.
  - rewrite Z2Nat.inj_add, <- drop_drop, E by lia. done.
  - simpl in Hd. lia.
  - by rewrite <- app_assoc.
Qed.

Lemma owp_arr_get {A} (l : list A) i v (P : A → Prop) :
  0 ≤ i → l !! Z.to_nat i = Some v → P v → owp (arr_get l i) P.
Proof. intros Hi E HP. by rewrite (arr_get_eval _ _ v). Qed.

Lemma for_up_S {St} (f : Z → M St unit) i n s :
  for_up f i (S n) s = ('(_, s) ← f i s; for_up f (i + 1) n s).
Proof. cbn. unfold mbind, M_bind, outcome_bind. by destruct (f i s) as [[[] s']| |]. Qed.

Lemma map_u8_bytes l : Forall is_byte l → map u8 l = l.
Proof. induction 1; simpl; [done|]. f_equal; [by apply u8_byte|done]. Qed.

Lemma map_u8_is_byte l : Forall is_byte (map u8 l).
Proof. induction l; constructor; [apply is_byte_u8|done]. Qed.

(** ** Strings *)

Definition is_char (c : Z) : Prop := is_byte c ∧ c ≠ 0.

(** The string in a buffer. *)
Definition c_string (buf : list Z) : outcome (list Z) :=
  n ← strlen buf; mret (take (Z.to_nat n) buf).

Lemma c_string_app s rest :
  Forall (λ c, c ≠ 0) s → c_string (s ++ 0 :: rest) = Ret s.
Proof.
  intros Hs. unfold c_string. rewrite strlen_app by done. cbn.
  by rewrite Nat2Z.id, take_app_length.
Qed.

Definition title_codec : codec := {|
  operand := list Z;
  build _ s := cec_msg_set_timer_program_title (s ++ [0]);
  parse m := buf ← cec_ops_set_timer_program_title m (replicate 15 0xff); c_string buf;
  opcode := CEC_MSG_SET_TIMER_PROGRAM_TITLE; to_all := false; answer := None;
  payload s := s;
  safe s := Forall (λ c, c ≠ 0) s;
  valid s := Forall is_char s ∧ (length s ≤ 14)%nat |}.

Definition osd_name_codec : codec := {|
  operand := list Z;
  build _ s := cec_msg_set_osd_name (s ++ [0]);
  parse m := buf ← cec_ops_set_osd_name m (replicate 15 0xff); c_string buf;
  opcode := CEC_MSG_SET_OSD_NAME; to_all := false; answer := None;
  payload s := s;
  safe s := Forall (λ c, c ≠ 0) s;
  valid s := Forall is_char s ∧ (length s ≤ 14)%nat |}.

Definition osd_string_codec : codec := {|
  operand := Z * list Z;
  build _ '(ctl, s) := cec_msg_set_osd_string ctl (s ++ [0]);
  parse m :=
    '(ctl, buf) ← cec_ops_set_osd_string m (replicate 14 0xff);
    s ← c_string buf; mret (ctl, s);
  opcode := CEC_MSG_SET_OSD_STRING; to_all := false; answer := None;
  payload '(ctl, s) := ctl :: s;
  safe '(_, s) := Forall (λ c, c ≠ 0) s;
  valid '(ctl, s) := is_byte ctl ∧ Forall is_char s ∧ (length s ≤ 13)%nat |}.

Lemma is_char_nonzero s : Forall is_char s → Forall (λ c, c ≠ 0) s ∧ Forall is_byte s.
Proof. intros H. split; eapply Forall_impl; try exact H; by intros ? []. Qed.

(** The length that is sent: that of the string, or the size of the field. *)
Lemma clip_length (cap : Z) (s : list Z) :
  0 ≤ cap → let n := u32 (Z.of_nat (length s)) in
  let k := if cap <? n then cap else n in
  0 ≤ k ≤ cap ∧ (Z.to_nat k ≤ length s)%nat.
Proof.
  intros Hc n k. pose proof (uwrap_range 32 (Z.of_nat (length s))).
  assert (n ≤ Z.of_nat (length s)) by (apply Z.mod_le; lia).
  unfold k. destruct (Z.ltb_spec cap n); lia.
Qed.

Lemma clip_fits (cap : Z) (s : list Z) :
  0 ≤ cap < 100 → Z.of_nat (length s) ≤ cap →
  (if cap <? u32 (Z.of_nat (length s)) then cap else u32 (Z.of_nat (length s))) =
  Z.of_nat (length s).
Proof.
  intros Hc Hs. rewrite uwrap_small by lia. by rewrite (proj2 (Z.ltb_ge _ _)).
Qed.

(** A block at the end of the message, after the bytes [pre]. *)
Ltac cec_block :=
  lazymatch goal with
  | |- wp (memcpy_to_msg ?i _ _) (edit ?m ?n ?l ?q) _ =>
      let k := eval vm_compute in (Z.to_nat i) in
      let pre := eval cbn in (take k l) in let post := eval cbn in (drop k l) in
      change (edit m n l q) with (edit m n (pre ++ post) q);
      apply wp_memcpy_to_msg; [reflexivity|..]
  end.

Lemma wrote_block m n pre src k post q :
  2 ≤ n ≤ 16 → (k ≤ length src)%nat → (k ≤ length post)%nat →
  (length pre + length post = 16)%nat → Forall is_byte pre → Forall is_byte post → is_byte q →
  wrote m (edit m n (pre ++ map u8 (take k src) ++ drop k post) q).
Proof.
  intros Hn Hs Hk Hl Hpre Hpost Hq. eexists _, _, _. split; [done|]. split_and!; [lia|lia| |..].
  - rewrite !length_app, length_map, length_take, length_drop. lia.
  - apply Forall_app_2; [done|]. apply Forall_app_2; [apply map_u8_is_byte|].
    by apply Forall_drop.
  - done.
Qed.

Ltac cec_wrote_block :=
  apply wrote_block;
  [lia|rewrite ?length_app; lia|simpl; lia|reflexivity
  |decompose_Forall_hyps; cec_bytes|decompose_Forall_hyps; cec_bytes
  |first [assumption | apply is_byte_u8]].

(** The codec of a string in a field of [cap] bytes. *)
Ltac string_total cap s :=
  apply wp_bind, wp_lift; rewrite strlen_app by done; cbn [owp];
  destruct (clip_length cap s) as [? ?]; [done|]; cbv zeta in *;
  set (k := if cap <? _ then _ else _) in *; clearbody k;
  repeat cec_step; cec_block; [rewrite length_app; lia|simpl; lia|cec_wrote_block].
Ltac string_builds s :=
  apply wp_bind, wp_lift; rewrite strlen_app by done; cbn [owp]; cbv zeta;
  rewrite clip_fits by lia; repeat cec_step; rewrite Nat2Z.id;
  cec_block; [rewrite length_app; lia|simpl; lia|];
  rewrite take_app_length, map_u8_bytes by done;
  split; [split|done]; [cbn; lia|eexists; cbn; cec_list; try done; cec_value].

(** The length that is read, and a string read into a buffer with room for it. *)
Lemma read_length off cap (s : list Z) :
  0 ≤ cap < 100 → Z.of_nat (length s) ≤ cap →
  let n := if off <? off + Z.of_nat (length s)
           then u32 (off + Z.of_nat (length s) - off) else 0 in
  (if cap <? n then cap else n) = Z.of_nat (length s).
Proof.
  intros Hc Hs n. assert (n = Z.of_nat (length s)) as ->.
  { unfold n. destruct (Z.ltb_spec off (off + Z.of_nat (length s))); [|lia].
    rewrite uwrap_small by lia. lia. }
  by rewrite (proj2 (Z.ltb_ge _ _)).
Qed.

Lemma owp_read_block m s rest buf i (Q : list Z → Prop) :
  0 ≤ i → drop (Z.to_nat i) (msg m) = s ++ rest → (length s ≤ length buf)%nat →
  Q (s ++ drop (length s) buf) → owp (memcpy_from_msg buf 0 m i (length s)) Q.
Proof. intros. change buf with ([] ++ buf) at 1. by eapply owp_memcpy_from_msg. Qed.

Lemma terminate_string (s buf : list Z) :
  (length s < length buf)%nat →
  arr_set (s ++ drop (length s) buf) (Z.of_nat (length s)) 0 =
  Ret (s ++ 0 :: drop (S (length s)) buf).
Proof.
  intros Hb. rewrite arr_set_eval by (rewrite length_app, length_drop; lia).
  rewrite Nat2Z.id, <- (Nat.add_0_r (length s)) at 1. rewrite insert_app_r.
  destruct (drop (length s) buf) as [|c tl] eqn:Ed.
  { apply (f_equal length) in Ed. rewrite length_drop in Ed. simpl in Ed. lia. }
  cbn. replace tl with (drop (S (length s)) buf); [done|].
  replace (S (length s)) with (length s + 1)%nat by lia. by rewrite <- drop_drop, Ed.
Qed.

Ltac string_parses :=
  repeat cec_step; eapply owp_read_block; [done|reflexivity|simpl; lia|];
  repeat cec_step; rewrite terminate_string by (simpl; lia); cbn [owp];
  repeat cec_step; rewrite c_string_app by done; done.

Lemma title_ok : codec_ok title_codec.
Proof.
  apply codec_intro; simpl; intros.
  - destruct H. by apply is_char_nonzero.
  - unfold cec_msg_set_timer_program_title. string_total 14 x.
  - destruct H as [[]%is_char_nonzero ?]. unfold cec_msg_set_timer_program_title.
    string_builds x.
  - destruct H as [[]%is_char_nonzero ?]. unfold cec_ops_set_timer_program_title.
    cbn [len edit with_len]. cbv zeta. rewrite read_length by lia. rewrite Nat2Z.id.
    string_parses.
Qed.

Lemma osd_name_ok : codec_ok osd_name_codec.
Proof.
  apply codec_intro; simpl; intros.
  - destruct H. by apply is_char_nonzero.
  - unfold cec_msg_set_osd_name. string_total 14 x.
  - destruct H as [[]%is_char_nonzero ?]. unfold cec_msg_set_osd_name. string_builds x.
  - destruct H as [[]%is_char_nonzero ?]. unfold cec_ops_set_osd_name.
    cbn [len edit with_len]. cbv zeta. rewrite read_length by lia. rewrite Nat2Z.id.
    string_parses.
Qed.

Lemma osd_string_ok : codec_ok osd_string_codec.
Proof.
  apply codec_intro; simpl; intros; cec_operands.
  - by apply is_char_nonzero.
  - unfold cec_msg_set_osd_string. string_total 13 l.
  - match goal with H : Forall is_char _ |- _ => apply is_char_nonzero in H as [] end.
    unfold cec_msg_set_osd_string. string_builds l.
  - match goal with H : Forall is_char _ |- _ => apply is_char_nonzero in H as [] end.
    unfold cec_ops_set_osd_string. cbn [len edit with_len]. cbv zeta.
    replace (2 + Z.of_nat (S (length l))) with (3 + Z.of_nat (length l)) by lia.
    repeat cec_step. rewrite read_length by lia. rewrite Nat2Z.id. string_parses.
Qed.

(** ** Vendor commands: a block and its size *)

(** The block that a parser found at an offset of the message. *)
Definition block_at (m : cec_msg) (size p : Z) : list Z :=
  take (Z.to_nat size) (drop (Z.to_nat p) (msg m)).

Definition vendor_command_codec : codec := {|
  operand := list Z;
  build _ s := cec_msg_vendor_command (Z.of_nat (length s)) s;
  parse m := '(size, p) ← cec_ops_vendor_command m; mret (block_at m size p);
  opcode := CEC_MSG_VENDOR_COMMAND; to_all := false; answer := None;
  payload s := s;
  safe _ := True; valid s := Forall is_byte s ∧ (length s ≤ 14)%nat |}.

Definition vendor_remote_button_down_codec : codec := {|
  operand := list Z;
  build _ s := cec_msg_vendor_remote_button_down (Z.of_nat (length s)) s;
  parse m := '(size, p) ← cec_ops_vendor_remote_button_down m; mret (block_at m size p);
  opcode := CEC_MSG_VENDOR_REMOTE_BUTTON_DOWN; to_all := false; answer := None;
  payload s := s;
  safe _ := True; valid s := Forall is_byte s ∧ (length s ≤ 14)%nat |}.

Definition vendor_command_with_id_codec : codec := {|
  operand := Z * list Z;
  build _ '(id, s) := cec_msg_vendor_command_with_id id (Z.of_nat (length s)) s;
  parse m := '(id, size, p) ← cec_ops_vendor_command_with_id m; mret (id, block_at m size p);
  opcode := CEC_MSG_VENDOR_COMMAND_WITH_ID; to_all := false; answer := None;
  payload '(id, s) := be24 id ++ s;
  safe _ := True;
  valid '(id, s) := is_bits 24 id ∧ Forall is_byte s ∧ (length s ≤ 11)%nat |}.

Lemma clip_size cap (s : list Z) :
  0 ≤ cap → let k := if cap <? Z.of_nat (length s) then cap else Z.of_nat (length s) in
  0 ≤ k ≤ cap ∧ (Z.to_nat k ≤ length s)%nat.
Proof. intros Hc. cbv zeta. destruct (Z.ltb_spec cap (Z.of_nat (length s))); lia. Qed.

Lemma read_size off cap (s : list Z) :
  0 ≤ cap < 100 → Z.of_nat (length s) ≤ cap →
  (if cap <? u8 (u32 (off + Z.of_nat (length s) - off)) then cap
   else u8 (u32 (off + Z.of_nat (length s) - off))) = Z.of_nat (length s).
Proof.
  intros Hc Hs. replace (off + Z.of_nat (length s) - off) with (Z.of_nat (length s)) by lia.
  rewrite (uwrap_small 32) by lia. rewrite uwrap_small by lia.
  by rewrite (proj2 (Z.ltb_ge _ _)).
Qed.

Ltac vendor_total cap s :=
  destruct (clip_size cap s) as [? ?]; [done|]; cbv zeta in *;
  set (k := if cap <? _ then _ else _) in *; clearbody k;
  repeat cec_step; cec_block; [lia|simpl; lia|cec_wrote_block].
Ltac vendor_builds s :=
  cbv zeta; rewrite (proj2 (Z.ltb_ge _ (Z.of_nat (length s)))) by lia;
  repeat cec_step; rewrite Nat2Z.id; cec_block; [lia|simpl; lia|];
  rewrite firstn_all, map_u8_bytes by done;
  split; [split|done]; [cbn; lia|eexists; cbn; cec_list; try done; cec_value].
Ltac vendor_parses :=
  unfold block_at; rewrite Nat2Z.id; cec_norm; simpl; by rewrite drop_0, take_app_length.

Lemma vendor_command_ok : codec_ok vendor_command_codec.
Proof.
  apply codec_intro; simpl; intros.
  - done.
  - unfold cec_msg_vendor_command. vendor_total 14 x.
  - destruct H. unfold cec_msg_vendor_command. vendor_builds x.
  - destruct H. unfold cec_ops_vendor_command. cbn [len edit with_len]. cbv zeta.
    rewrite read_size by lia. repeat cec_step. vendor_parses.
Qed.

Lemma vendor_remote_button_down_ok : codec_ok vendor_remote_button_down_codec.
Proof.
  apply codec_intro; simpl; intros.
  - done.
  - unfold cec_msg_vendor_remote_button_down. vendor_total 14 x.
  - destruct H. unfold cec_msg_vendor_remote_button_down. vendor_builds x.
  - destruct H. unfold cec_ops_vendor_remote_button_down. cbn [len edit with_len]. cbv zeta.
    rewrite read_size by lia. repeat cec_step. vendor_parses.
Qed.

Lemma vendor_command_with_id_ok : codec_ok vendor_command_with_id_codec.
Proof.
  apply codec_intro; simpl; intros; cec_operands.
  - done.
  - unfold cec_msg_vendor_command_with_id. vendor_total 11 l.
  - unfold cec_msg_vendor_command_with_id. vendor_builds l.
  - unfold cec_ops_vendor_command_with_id. cbn [len edit with_len]. cbv zeta.
    replace (2 + Z.of_nat _) with (5 + Z.of_nat (length l)) by lia.
    rewrite read_size by lia. repeat cec_step. f_equal; [cec_value|vendor_parses].
Qed.

(** ** The menu language *)

Definition set_menu_language_codec : codec := {|
  operand := list Z;
  build _ s := cec_msg_set_menu_language s;
  parse m := buf ← cec_ops_set_menu_language m (replicate 4 0xff); mret (take 3 buf);
  opcode := CEC_MSG_SET_MENU_LANGUAGE; to_all := true; answer := None;
  payload s := s;
  safe s := (3 ≤ length s)%nat; valid s := Forall is_byte s ∧ length s = 3%nat |}.

Lemma set_menu_language_ok : codec_ok set_menu_language_codec.
Proof.
  apply codec_intro; simpl; intros.
  - lia.
  - cec_unfold. repeat cec_step. cec_block; [done|simpl; lia|]. cec_wrote_block.
  - destruct H as [Hb Hl]. destruct x as [|c0 [|c1 [|c2 []]]]; try done.
    cec_unfold. repeat cec_step. cec_block; [simpl; lia|simpl; lia|].
    decompose_Forall_hyps. cec_carries.
  - destruct H as [Hb Hl]. by destruct x as [|c0 [|c1 [|c2 []]]].
Qed.

(** ** Features: one byte of RC profile, one of device features *)

Definition report_features_codec : codec := {|
  operand := Z * Z * Z * Z;
  build _ '(version, types, profile, features) :=
    cec_msg_report_features version types profile features;
  parse m :=
    '(version, types, p, f) ← cec_ops_report_features m;
    match p, f with
    | Some p, Some f =>
        profile ← msg_at m p; features ← msg_at m f; mret (version, types, profile, features)
    | _, _ => UB NullDeref
    end;
  opcode := CEC_MSG_REPORT_FEATURES; to_all := true; answer := None;
  payload '(version, types, profile, features) := [version; types; profile; features];
  safe _ := True;
  valid '(version, types, profile, features) :=
    is_byte version ∧ is_byte types ∧ is_bits 7 profile ∧ is_bits 7 features |}.

(** The extension bit. *)
Lemma feat_ext b : is_byte b → (Z.land b CEC_OP_FEAT_EXT =? 0) = (b <? 128).
Proof. revert b. apply (byte_cases _). by vm_compute. Qed.

(** The number of bytes with the bit set at the head of a list. *)
Fixpoint ext_count (l : list Z) : nat :=
  match l with b :: l => if b <? 128 then 0 else S (ext_count l) | [] => 0 end.

Lemma ext_count_at l k b :
  l !! k = Some b → (k ≤ ext_count l)%nat → (b <? 128) = (ext_count l <=? k)%nat.
Proof.
  revert k. induction l as [|c l IH]; intros k E Hk; [done|]. cbn [ext_count] in *.
  destruct (c <? 128) eqn:Ec.
  - assert (k = 0)%nat as -> by lia. by injection E as <-.
  - destruct k as [|k]; [by injection E as <-|]. apply IH; [done|lia].
Qed.

Lemma skip_extended_eval m limit : typed m → limit ≤ 16 → ∀ fuel p,
  0 ≤ p ≤ limit → limit - p < Z.of_nat fuel →
  skip_extended m limit p fuel =
  Ret (p + Z.min (limit - p) (Z.of_nat (ext_count (drop (Z.to_nat p) (msg m))))).
Proof.
  intros [Hl Hb _ _ _ _ _] Hlim fuel. induction fuel as [|fuel IH]; intros p Hp Hf; [lia|].
  cbn [skip_extended]. destruct (Z.ltb_spec p limit); [|cbn; f_equal; lia].
  destruct (lookup_lt_is_Some_2 (msg m) (Z.to_nat p)) as [b E]; [lia|].
  unfold msg_at. rewrite (arr_get_eval _ _ b), (drop_S _ b _ E) by (lia || done).
  cbn [mbind outcome_bind ext_count].
  rewrite feat_ext by (by eapply Forall_lookup_1). destruct (b <? 128).
  { cbn. by rewrite Z.min_r, Z.add_0_r by lia. }
  rewrite IH by lia. replace (Z.to_nat (p + 1)) with (S (Z.to_nat p)) by lia. f_equal. lia.
Qed.

(** [features_at m] is the index of the byte that ends the RC profile, if it is one of the
    eleven the parser looks at. *)
Definition profile_end (m : cec_msg) : option Z :=
  let e := ext_count (drop 4 (msg m)) in
  if (e <=? 10)%nat then Some (4 + Z.of_nat e) else None.

Lemma report_features_eval m b2 b3 :
  typed m → msg m !! 2%nat = Some b2 → msg m !! 3%nat = Some b3 →
  cec_ops_report_features m =
  Ret (match profile_end m with
       | Some p => (b2, b3, Some 4, Some (p + 1))
       | None => (b2, b3, None, None)
       end).
Proof.
  intros Hm E2 E3. unfold cec_ops_report_features, features_fuel, profile_end.
  assert (msg_at m 2 = Ret b2) as -> by by apply arr_get_eval.
  assert (msg_at m 3 = Ret b3) as -> by by apply arr_get_eval.
  cbn [mbind outcome_bind]. rewrite skip_extended_eval by (done || lia).
  change (Z.to_nat 4) with 4%nat. cbn [mbind outcome_bind].
  set (e := ext_count (drop 4 (msg m))).
  destruct Hm as [Hl Hb Hrest]. assert (length (drop 4 (msg m)) = 12)%nat as Hd
    by (rewrite length_drop; lia).
  set (k := (10 `min` e)%nat). replace (4 + (14 - 4) `min` Z.of_nat e) with (4 + Z.of_nat k) by lia.
  destruct (lookup_lt_is_Some_2 (drop 4 (msg m)) k) as [b E]; [lia|].
  assert (msg_at m (4 + Z.of_nat k) = Ret b) as Hat.
  { apply arr_get_eval; [lia|]. rewrite lookup_drop in E. rewrite <- E. f_equal. lia. }
  rewrite Hat. cbn [mbind outcome_bind].
  assert ((Z.land b CEC_OP_FEAT_EXT =? 0) = (e <=? 10)%nat) as Hext.
  { rewrite feat_ext by (rewrite lookup_drop in E; by apply (Forall_lookup_1 _ _ _ _ Hb E)).
    rewrite (ext_count_at _ _ _ E); [|unfold k, e; lia].
    apply eq_true_iff_eq. rewrite !Nat.leb_le. lia. }
  destruct (e <=? 10)%nat eqn:He; rewrite Hext.
  - apply Nat.leb_le in He. cbn [skip_extended].
    replace (4 + Z.of_nat k <? 15) with true by (symmetry; apply Z.ltb_lt; lia).
    rewrite Hat. cbn [mbind outcome_bind]. rewrite Hext.
    cbn [mbind outcome_bind mret outcome_ret]. rewrite Hat. cbn [mbind outcome_bind].
    rewrite Hext. by replace k with e by lia.
  - cbn [mbind outcome_bind mret outcome_ret]. rewrite Hat. cbn [mbind outcome_bind].
    by rewrite Hext.
Qed.

Lemma report_features_ok : codec_ok report_features_codec.
Proof.
  apply codec_intro; simpl; intros; cec_operands.
  - done.
  - cec_run. cec_wrote.
  - cec_run. cec_carries.
  - assert ((Z.land z0 CEC_OP_FEAT_EXT =? 0) = true) as Hext.
    { rewrite feat_ext by cec_lia. apply Z.ltb_lt. cec_lia. }
    unfold cec_ops_report_features, features_fuel. repeat cec_step.
    repeat (progress (cbn [skip_extended]; rewrite ?Hext; repeat cec_step)).
    done.
Qed.

(** ** Audio descriptors *)

Definition report_descriptors_codec : codec := {|
  operand := list Z;
  build _ l := cec_msg_report_short_audio_descriptor (Z.of_nat (length l)) l;
  parse m :=
    '(n, ds) ← cec_ops_report_short_audio_descriptor m (replicate 4 0);
    mret (take (Z.to_nat n) ds);
  opcode := CEC_MSG_REPORT_SHORT_AUDIO_DESCRIPTOR; to_all := false; answer := None;
  payload l := concat (map be24 l);
  safe _ := True; valid l := Forall (is_bits 24) l ∧ (length l ≤ 4)%nat |}.

Definition request_descriptors_codec : codec := {|
  operand := list (Z * Z);
  build r l := cec_msg_request_short_audio_descriptor r (Z.of_nat (length l))
                 (map fst l) (map snd l);
  parse m :=
    '(n, ids, codes) ←
      cec_ops_request_short_audio_descriptor m (replicate 4 0) (replicate 4 0);
    mret (zip (take (Z.to_nat n) ids) (take (Z.to_nat n) codes));
  opcode := CEC_MSG_REQUEST_SHORT_AUDIO_DESCRIPTOR; to_all := false;
  answer := Some CEC_MSG_REPORT_SHORT_AUDIO_DESCRIPTOR;
  payload l := map (λ '(id, code), packed id 6 code) l;
  safe _ := True;
  valid l := Forall (λ '(id, code), is_bits 2 id ∧ is_bits 6 code) l ∧ (length l ≤ 4)%nat |}.

(** A loop that is unrolled a known number of times. *)
Ltac cec_loop :=
  repeat first
    [ cec_step
    | match goal with
      | |- wp (for_up _ _ O) _ _ => cbn [for_up]
      | |- wp (for_up _ _ (S _)) _ _ => cbn [for_up]
      | |- owp (for_up _ _ O _) _ => cbn [for_up]; cbn [owp mret M_ret]
      | |- owp (for_up _ _ (S _) _) _ => rewrite for_up_S
      | |- owp (arr_get _ _) _ => eapply owp_arr_get; [lia|cec_norm; reflexivity|]
      | |- owp (arr_set _ _ _) _ =>
          rewrite arr_set_eval by (simpl; lia); cec_norm; cbn [owp replicate]
      end ].

(** At most four elements count. *)
Lemma four_elements {A} (l : list A) :
  (if 4 <? Z.of_nat (length l) then 4 else Z.of_nat (length l)) =
  Z.of_nat (4 `min` length l).
Proof. destruct (Z.ltb_spec 4 (Z.of_nat (length l))); lia. Qed.

Ltac cec_four l :=
  cbv zeta; rewrite (four_elements l), Nat2Z.id;
  destruct l as [|? [|? [|? [|? ?]]]]; cbn [length Nat.min].

Lemma report_descriptors_ok : codec_ok report_descriptors_codec.
Proof.
  apply codec_intro; simpl; intros.
  - done.
  - unfold cec_msg_report_short_audio_descriptor. cec_four x; cec_loop; cec_wrote.
  - destruct H as [Hx Hl]. unfold cec_msg_report_short_audio_descriptor.
    cec_four x; cec_loop; decompose_Forall_hyps.
    all: try (destruct l; [|simpl in Hl; lia]).
    all: cec_carries.
  - destruct H as [Hx Hl]. unfold cec_ops_report_short_audio_descriptor.
    destruct x as [|? [|? [|? [|? []]]]]; [..|simpl in Hl; lia]; decompose_Forall_hyps;
      cbn; repeat (apply f_equal2; [cec_value|]); done.
Qed.

Lemma request_descriptors_ok : codec_ok request_descriptors_codec.
Proof.
  apply codec_intro; simpl; intros.
  - done.
  - unfold cec_msg_request_short_audio_descriptor. cec_four x; cec_loop; cec_wrote.
  - destruct H as [Hx Hl]. unfold cec_msg_request_short_audio_descriptor.
    cec_four x; cec_loop; decompose_Forall_hyps; repeat case_match; destruct_and?.
    all: try (destruct l; [|simpl in Hl; lia]).
    all: cec_carries.
  - destruct H as [Hx Hl]. unfold cec_ops_request_short_audio_descriptor.
    destruct x as [|[] [|[] [|[] [|[] []]]]]; [..|simpl in Hl; lia]; decompose_Forall_hyps;
      destruct_and?; cbn; repeat (apply f_equal2; [apply f_equal2; cec_value|]); done.
Qed.

Definition block_codecs : list codec :=
  [title_codec; osd_name_codec; osd_string_codec; vendor_command_codec;
   vendor_remote_button_down_codec; vendor_command_with_id_codec; set_menu_language_codec;
   report_features_codec; report_descriptors_codec; request_descriptors_codec].

Lemma block_codecs_ok : Forall codec_ok block_codecs.
Proof.
  repeat apply List.Forall_cons;
    [apply title_ok|apply osd_name_ok|apply osd_string_ok|apply vendor_command_ok|
     apply vendor_remote_button_down_ok|apply vendor_command_with_id_ok|
     apply set_menu_language_ok|apply report_features_ok|apply report_descriptors_ok|
     apply request_descriptors_ok|done].
Qed.
