(* ===== verification/CecVariantSpec.v ===== *)
(** * The codecs of messages with variants

    The messages whose length depends on an operand (the timer status, a button of the remote
    control, the request for the system audio mode, the current latency), and those of
    capability discovery and control. *)

From stdpp Require Import base list numbers.
From Stdlib Require Import ZArith Lia.
From S2P Require Import Prelude CecConst CecMsg CecRecord CecTimer CecTuner.
From S2P Require Import CecAudio CecSpec CecServiceSpec.

#[local] Open Scope Z_scope.

(** ** Timer status *)

(** The low five bits: the programmed flag and the information, or the error. *)
Definition timer_info (prog_info prog_error : Z) : Z :=
  if prog_info =? 0 then prog_error else 16 + prog_info.

Definition timer_status_codec : codec := {|
  operand := Z * Z * Z * Z * Z * Z;
  build _ '(overlap, media, info, error, hr, min) :=
    cec_msg_timer_status overlap media info error hr min;
  parse := cec_ops_timer_status;
  opcode := CEC_MSG_TIMER_STATUS; to_all := false; answer := None;
  payload '(overlap, media, info, error, hr, min) :=
    packed overlap 7 (packed media 5 (timer_info info error)) ::
    (if timer_has_duration info error then [bcd hr; bcd min] else []);
  safe _ := True;
  valid '(overlap, media, info, error, hr, min) :=
    is_bits 1 overlap ∧ is_bits 2 media ∧ is_bits 4 info ∧ is_bits 4 error ∧
    (info = 0 ∨ error = 0) ∧
    (if timer_has_duration info error then is_bcd hr ∧ is_bcd min else hr = 0 ∧ min = 0) |}.

Lemma timer_byte overlap media info error :
  is_bits 1 overlap → is_bits 2 media → is_bits 4 info → is_bits 4 error →
  u8 (Z.lor (Z.lor (Z.lor (overlap ≪ 7) (media ≪ 5)) (ternary info 16 0))
       (ternary info info error)) =
  packed overlap 7 (packed media 5 (timer_info info error)).
Proof.
  intros Ho Hm Hi He. unfold ternary, timer_info. destruct (info =? 0).
  - rewrite Z.lor_0_r. cec_value.
  - change 16 with (1 ≪ 4) at 1. cec_value.
Qed.

(** The bits of the status byte. *)
Lemma timer_flag b : is_byte b → (Z.land b 16 =? 0) = (b / 16 mod 2 =? 0).
Proof. revert b. apply (byte_cases _). by vm_compute. Qed.

Lemma timer_fields overlap media info error :
  is_bits 1 overlap → is_bits 2 media → is_bits 4 info → is_bits 4 error →
  info = 0 ∨ error = 0 →
  let b := packed overlap 7 (packed media 5 (timer_info info error)) in
  u8 (b ≫ 7) = overlap ∧ u8 (Z.land (b ≫ 5) 3) = media ∧
  ternary (Z.land b 16) (u8 (Z.land b 15)) 0 = info ∧
  ternary (Z.land b 16) 0 (u8 (Z.land b 15)) = error.
Proof.
  intros Ho Hm Hi He Hor b. unfold b, timer_info, ternary.
  rewrite timer_flag by (destruct (Z.eqb_spec info 0); cec_lia).
  destruct (Z.eqb_spec info 0) as [->|Hne].
  - replace (_ =? 0) with true by (symmetry; apply Z.eqb_eq; cec_lia).
    split_and!; cec_value.
  - assert (error = 0) as -> by tauto.
    replace (_ =? 0) with false by (symmetry; apply Z.eqb_neq; cec_lia).
    split_and!; cec_value.
Qed.

Lemma timer_status_ok : codec_ok timer_status_codec.
Proof.
  apply codec_intro; simpl; intros; cec_operands.
  - done.
  - cec_run. destruct (timer_has_duration _ _); cec_run; cec_wrote.
  - cec_run. rewrite timer_byte by done.
    destruct (timer_has_duration _ _); destruct_and?; cec_run; cec_carries.
  - match goal with |- context [packed ?o 7 (packed ?m 5 (timer_info ?i ?e))] =>
      destruct (timer_fields o m i e) as (E1 & E2 & E3 & E4); [done..|] end.
    cec_run. rewrite E1, E2, E3, E4.
    destruct (timer_has_duration _ _); destruct_and?; subst; cec_run; cec_parsed.
Qed.

(** ** Buttons of the remote control *)

Inductive ui_request : Type :=
  | Press (cmd : Z)
  | PressWith (cmd arg : Z)
  | Tune (ch : cec_op_channel_data).

Definition to_ui_command (u : ui_request) : cec_op_ui_command :=
  match u with
  | Press cmd => UiCommand cmd 0 0 0 0
  | PressWith cmd arg => with_ui_play_mode arg (UiCommand cmd 1 0 0 0)
  | Tune ch => with_channel_identifier ch (UiCommand 0x67 1 0 0 0)
  end.
Definition of_ui_command (c : cec_op_ui_command) : ui_request :=
  if has_opt_arg c =? 0 then Press (ui_cmd c)
  else if ui_cmd c =? 0x67 then Tune (channel_identifier c)
  else PressWith (ui_cmd c) (ui_play_mode c).

Definition user_control_pressed_codec : codec := {|
  operand := ui_request;
  build _ u := cec_msg_user_control_pressed (to_ui_command u);
  parse m := c ← cec_ops_user_control_pressed m (UiCommand 0 0 0 0 0);
             mret (of_ui_command c);
  opcode := CEC_MSG_USER_CONTROL_PRESSED; to_all := false; answer := None;
  payload u :=
    match u with
    | Press cmd => [cmd]
    | PressWith cmd arg => [cmd; arg]
    | Tune ch => [0x67; packed (channel_number_fmt ch) 2 (major ch / 256); major ch mod 256]
                 ++ be16 (minor ch)
    end;
  safe _ := True;
  valid u :=
    match u with
    | Press cmd => is_byte cmd
    | PressWith cmd arg => has_byte_argument cmd = true ∧ is_byte arg
    | Tune ch => is_bits 6 (channel_number_fmt ch) ∧ is_byte (major ch) ∧ is_u16 (minor ch)
    end |}.

Lemma byte_argument_byte cmd :
  has_byte_argument cmd = true → is_byte cmd ∧ (cmd =? 0x67) = false.
Proof.
  unfold has_byte_argument. rewrite bool_decide_eq_true, !elem_of_cons.
  intros [->|[->|[->|[->|[->|[->|[]%not_elem_of_nil]]]]]]; done.
Qed.

Lemma user_control_pressed_ok : codec_ok user_control_pressed_codec.
Proof.
  apply codec_intro; simpl; intros.
  - done.
  - destruct x as [cmd|cmd arg|ch]; cec_run; [cec_wrote| |cec_wrote].
    cbn. destruct (has_byte_argument cmd); cec_run; [cec_wrote|].
    destruct (cmd =? 103); cec_run; cec_wrote.
  - destruct x as [cmd|cmd arg|[]]; cec_run; [cec_carries| |].
    + destruct H as [Ha Hb]. cbn [to_ui_command with_ui_play_mode ui_cmd]. rewrite Ha.
      cec_run. unfold ui_play_mode. cbn. rewrite low_byte_zero by done.
      pose proof (proj1 (byte_argument_byte cmd Ha)). cec_carries.
    + destruct H as (Hf & Hj & Hn). unfold channel_identifier. cbn in *.
      rewrite low_byte_zero by cec_lia. cec_carries.
  - destruct x as [cmd|cmd arg|[]]; [cec_run; done|..].
    + destruct H as [Ha Hb]. cec_run. rewrite Ha. cec_run. unfold of_ui_command. cbn.
      rewrite (proj2 (byte_argument_byte cmd Ha)). unfold ui_play_mode. cbn.
      by rewrite low_byte_zero.
    + destruct H as (Hf & Hj & Hn). cbn in Hf, Hj, Hn. cec_run.
      unfold of_ui_command, channel_identifier. cbn. do 2 f_equal.
      * rewrite low_byte_zero by apply is_byte_u8. cec_value.
      * replace (Z.land _ 3) with 0 by cec_value. rewrite Z.shiftl_0_l, Z.lor_0_l. cec_value.
      * by apply be16_join.
Qed.

(** ** The system audio mode and the latency *)

Definition system_audio_mode_request_codec : codec := {|
  operand := Z;
  build := cec_msg_system_audio_mode_request;
  parse := cec_ops_system_audio_mode_request;
  opcode := CEC_MSG_SYSTEM_AUDIO_MODE_REQUEST; to_all := false;
  answer := Some CEC_MSG_SET_SYSTEM_AUDIO_MODE;
  payload addr := if addr =? 0xffff then [] else be16 addr;
  safe _ := True; valid := is_u16 |}.

Lemma system_audio_mode_request_ok : codec_ok system_audio_mode_request_codec.
Proof.
  apply codec_intro; simpl; intros.
  - done.
  - unfold cec_msg_system_audio_mode_request. destruct (x =? 65535); cec_run; cec_wrote.
  - unfold cec_msg_system_audio_mode_request.
    destruct (Z.eqb_spec x 65535) as [->|]; cec_run; cec_carries.
  - unfold cec_ops_system_audio_mode_request.
    destruct (Z.eqb_spec x 65535) as [->|]; cec_run; cec_parsed.
Qed.

Definition report_current_latency_codec : codec := {|
  operand := Z * Z * Z * Z * Z;
  build _ '(addr, video, low, comp, delay) :=
    cec_msg_report_current_latency addr video low comp delay;
  parse := cec_ops_report_current_latency;
  opcode := CEC_MSG_REPORT_CURRENT_LATENCY; to_all := true; answer := None;
  payload '(addr, video, low, comp, delay) :=
    be16 addr ++ [video; packed low 2 comp] ++ (if comp =? 3 then [delay] else []);
  safe _ := True;
  valid '(addr, video, low, comp, delay) :=
    is_u16 addr ∧ is_byte video ∧ is_bits 1 low ∧ is_bits 2 comp ∧
    (if comp =? 3 then is_byte delay else delay = 0) |}.

Lemma report_current_latency_ok : codec_ok report_current_latency_codec.
Proof.
  apply codec_intro; simpl; intros; cec_operands.
  - done.
  - cec_run. destruct (_ =? 3); cec_run; cec_wrote.
  - cec_run. destruct (_ =? 3); cec_run; cec_carries.
  - cec_run. replace (u8 (Z.land (packed z1 2 z0) 3)) with z0 by cec_value.
    destruct (z0 =? 3); cec_run; cec_parsed.
Qed.

Definition variant_codecs : list codec :=
  [timer_status_codec; user_control_pressed_codec; system_audio_mode_request_codec;
   report_current_latency_codec].

Lemma variant_codecs_ok : Forall codec_ok variant_codecs.
Proof.
  repeat apply List.Forall_cons; [apply timer_status_ok|apply user_control_pressed_ok|
    apply system_audio_mode_request_ok|apply report_current_latency_ok|done].
Qed.

(** ** The codecs of capability discovery and control

    A CDC message has its opcode in byte 4 and the physical address of the sender in bytes
    2 and 3, which "are filled in by the CEC framework" and not by the functions here.  The
    framework is a parameter; the codecs put it after the builder. *)

(** The kernel's step between [cec_msg_cdc_x] and the bus. *)
Class CecFramework := fill_phys_addr : Z → M cec_msg unit.

(** It stores the address, high byte first, and touches nothing else. *)
Class CecFrameworkLaws `{CecFramework} : Prop :=
  fill_phys_addr_spec : ∀ pa m n l q, (4 ≤ length l)%nat →
    fill_phys_addr pa (edit m n l q) =
    Ret (tt, edit m n (<[2%nat := u8 (pa / 256)]> (<[3%nat := u8 (pa mod 256)]> l)) q).

Lemma wp_fill_phys_addr `{CecFrameworkLaws} pa m n l q (Q : unit → cec_msg → Prop) :
  (4 ≤ length l)%nat →
  Q tt (edit m n (<[2%nat := u8 (pa / 256)]> (<[3%nat := u8 (pa mod 256)]> l)) q) →
  wp (fill_phys_addr pa) (edit m n l q) Q.
Proof. intros Hl HQ. unfold wp. by rewrite fill_phys_addr_spec. Qed.

Ltac cdc_run :=
  repeat first
    [ cec_step
    | lazymatch goal with |- wp (fill_phys_addr _) _ _ =>
        apply wp_fill_phys_addr; [simpl; lia|cbn [insert list_insert]] end
    | cec_unfold ].
Ltac cdc_cases :=
  repeat match goal with |- context [?a =? CEC_PHYS_ADDR_INVALID] =>
    destruct (a =? CEC_PHYS_ADDR_INVALID) end.

Section cdc.
Context `{CecFrameworkLaws}.

Definition hec_inquire_state_codec : codec := {|
  operand := Z * Z * Z;
  build _ '(pa, a1, a2) := cec_msg_cdc_hec_inquire_state a1 a2;; fill_phys_addr pa;
  parse := cec_ops_cdc_hec_inquire_state;
  opcode := CEC_MSG_CDC_MESSAGE; to_all := true; answer := None;
  payload '(pa, a1, a2) := be16 pa ++ CEC_MSG_CDC_HEC_INQUIRE_STATE :: be16 a1 ++ be16 a2;
  safe _ := True;
  valid '(pa, a1, a2) := is_u16 pa ∧ is_u16 a1 ∧ is_u16 a2 |}.

(** The three states share a byte.  The parser reads the state of the host where that of the
    Ethernet channel is, so only messages in which the two agree are read back. *)
Definition hec_report_state_codec : codec := {|
  operand := Z * Z * Z * Z * Z * Z * Z * Z;
  build _ '(pa, target, hec, host, enc, err, has, field) :=
    cec_msg_cdc_hec_report_state target hec host enc err has field;; fill_phys_addr pa;
  parse := cec_ops_cdc_hec_report_state;
  opcode := CEC_MSG_CDC_MESSAGE; to_all := true; answer := None;
  payload '(pa, target, hec, host, enc, err, has, field) :=
    be16 pa ++ CEC_MSG_CDC_HEC_REPORT_STATE :: be16 target ++
    [packed hec 6 (packed host 4 (packed enc 2 err))] ++
    (if has =? 0 then [] else be16 field);
  safe _ := True;
  valid '(pa, target, hec, host, enc, err, has, field) :=
    is_u16 pa ∧ is_u16 target ∧ is_bits 2 hec ∧ is_bits 2 host ∧ enc = host ∧
    is_bits 2 err ∧ (has = 0 ∧ field = 0 ∨ has = 1 ∧ is_u16 field) |}.

(** <CDC><HEC Set State> with a given opcode. *)
Definition hec_set_state_with (op : Z) : codec := {|
  operand := Z * Z * Z * Z * Z * Z * Z;
  build _ '(pa, a1, a2, st, a3, a4, a5) :=
    cec_msg_cdc_hec_set_state a1 a2 st a3 a4 a5;; fill_phys_addr pa;
  parse := cec_ops_cdc_hec_set_state;
  opcode := CEC_MSG_CDC_MESSAGE; to_all := true; answer := None;
  payload '(pa, a1, a2, st, a3, a4, a5) :=
    be16 pa ++ op :: be16 a1 ++ be16 a2 ++ [st] ++
    (if a3 =? CEC_PHYS_ADDR_INVALID then []
     else be16 a3 ++ (if a4 =? CEC_PHYS_ADDR_INVALID then []
          else be16 a4 ++ (if a5 =? CEC_PHYS_ADDR_INVALID then [] else be16 a5)));
  safe _ := True;
  valid '(pa, a1, a2, st, a3, a4, a5) :=
    is_u16 pa ∧ is_u16 a1 ∧ is_u16 a2 ∧ is_byte st ∧ is_u16 a3 ∧ is_u16 a4 ∧ is_u16 a5 ∧
    (a3 = CEC_PHYS_ADDR_INVALID → a4 = CEC_PHYS_ADDR_INVALID) ∧
    (a4 = CEC_PHYS_ADDR_INVALID → a5 = CEC_PHYS_ADDR_INVALID) |}.

(** The message should carry its own opcode; what the builder writes is the opcode of the
    inquiry. *)
Definition hec_set_state_codec : codec := hec_set_state_with CEC_MSG_CDC_HEC_SET_STATE.
Definition hec_set_state_written : codec := hec_set_state_with CEC_MSG_CDC_HEC_INQUIRE_STATE.

Definition hec_set_state_adjacent_codec : codec := {|
  operand := Z * Z * Z;
  build _ '(pa, a1, st) := cec_msg_cdc_hec_set_state_adjacent a1 st;; fill_phys_addr pa;
  parse := cec_ops_cdc_hec_set_state_adjacent;
  opcode := CEC_MSG_CDC_MESSAGE; to_all := true; answer := None;
  payload '(pa, a1, st) := be16 pa ++ CEC_MSG_CDC_HEC_SET_STATE_ADJACENT :: be16 a1 ++ [st];
  safe _ := True;
  valid '(pa, a1, st) := is_u16 pa ∧ is_u16 a1 ∧ is_byte st |}.

Definition hec_request_deactivation_codec : codec := {|
  operand := Z * Z * Z * Z;
  build _ '(pa, a1, a2, a3) :=
    cec_msg_cdc_hec_request_deactivation a1 a2 a3;; fill_phys_addr pa;
  parse := cec_ops_cdc_hec_request_deactivation;
  opcode := CEC_MSG_CDC_MESSAGE; to_all := true; answer := None;
  payload '(pa, a1, a2, a3) :=
    be16 pa ++ CEC_MSG_CDC_HEC_REQUEST_DEACTIVATION :: be16 a1 ++ be16 a2 ++ be16 a3;
  safe _ := True;
  valid '(pa, a1, a2, a3) := is_u16 pa ∧ is_u16 a1 ∧ is_u16 a2 ∧ is_u16 a3 |}.

(** The messages without operands. *)
Definition cdc_bare_codec (op : Z) (f : M cec_msg unit) (g : cec_msg → outcome Z) : codec := {|
  operand := Z;
  build _ pa := f;; fill_phys_addr pa;
  parse := g;
  opcode := CEC_MSG_CDC_MESSAGE; to_all := true; answer := None;
  payload pa := be16 pa ++ [op];
  safe _ := True; valid := is_u16 |}.

(** Two operands of four bits. *)
Definition hpd_codec (op : Z) (f : Z → Z → M cec_msg unit)
    (g : cec_msg → outcome (Z * Z * Z)) : codec := {|
  operand := Z * Z * Z;
  build _ '(pa, a, b) := f a b;; fill_phys_addr pa;
  parse := g;
  opcode := CEC_MSG_CDC_MESSAGE; to_all := true; answer := None;
  payload '(pa, a, b) := be16 pa ++ [op; packed a 4 b];
  safe _ := True;
  valid '(pa, a, b) := is_u16 pa ∧ is_bits 4 a ∧ is_bits 4 b |}.

(** The messages whose builders write what the message is. *)
Definition cdc_framed_codecs : list codec :=
  [hec_inquire_state_codec; hec_report_state_codec; hec_set_state_adjacent_codec; hec_request_deactivation_codec;
   cdc_bare_codec CEC_MSG_CDC_HEC_NOTIFY_ALIVE cec_msg_cdc_hec_notify_alive
     cec_ops_cdc_hec_notify_alive;
   cdc_bare_codec CEC_MSG_CDC_HEC_DISCOVER cec_msg_cdc_hec_discover cec_ops_cdc_hec_discover;
   hpd_codec CEC_MSG_CDC_HPD_SET_STATE cec_msg_cdc_hpd_set_state cec_ops_cdc_hpd_set_state;
   hpd_codec CEC_MSG_CDC_HPD_REPORT_STATE cec_msg_cdc_hpd_report_state
     cec_ops_cdc_hpd_report_state].

Definition cdc_codecs : list codec := hec_set_state_codec :: cdc_framed_codecs.

(** ** The contracts *)

Ltac cdc_codec :=
  apply codec_intro; simpl; intros; cec_operands;
  [ tauto | cdc_run; cec_wrote | cdc_run; cec_carries | cdc_run; cec_parsed ].

Lemma hec_inquire_state_ok : codec_ok hec_inquire_state_codec.
Proof. cdc_codec. Qed.
Lemma hec_set_state_adjacent_ok : codec_ok hec_set_state_adjacent_codec.
Proof. cdc_codec. Qed.
Lemma hec_request_deactivation_ok : codec_ok hec_request_deactivation_codec.
Proof. cdc_codec. Qed.

Lemma hec_report_state_ok : codec_ok hec_report_state_codec.
Proof.
  apply codec_intro; simpl; intros; cec_operands.
  - done.
  - unfold cec_msg_cdc_hec_report_state, ternary. destruct (z0 =? 0); cdc_run; cec_wrote.
  - unfold cec_msg_cdc_hec_report_state, ternary. subst.
    match goal with H : _ ∨ _ |- _ => destruct H as [[-> ->]|[-> ?]] end;
      cbn [Z.eqb negb]; cdc_run; cec_carries.
  - subst. match goal with H : _ ∨ _ |- _ => destruct H as [[-> ->]|[-> ?]] end;
      cdc_run; cec_parsed.
Qed.

Lemma hec_set_state_written_ok : codec_ok hec_set_state_written.
Proof.
  apply codec_intro; simpl; intros; cec_operands.
  - done.
  - unfold cec_msg_cdc_hec_set_state, append_be16.
    cdc_cases; cdc_run; cec_wrote.
  - unfold cec_msg_cdc_hec_set_state, append_be16.
    cdc_cases; cdc_run; cec_carries.
  - unfold cec_ops_cdc_hec_set_state.
    destruct (Z.eqb_spec z1 CEC_PHYS_ADDR_INVALID) as [->|]; [|
    destruct (Z.eqb_spec z0 CEC_PHYS_ADDR_INVALID) as [->|]; [|
    destruct (Z.eqb_spec z CEC_PHYS_ADDR_INVALID) as [->|]]].
    all: repeat match goal with H : ?a = ?a → _ |- _ => specialize (H eq_refl); subst end.
    all: cdc_run; cec_parsed.
Qed.

Lemma cdc_framed_codecs_ok : Forall codec_ok cdc_framed_codecs.
Proof.
  repeat apply List.Forall_cons;
    [apply hec_inquire_state_ok|apply hec_report_state_ok|
     apply hec_set_state_adjacent_ok|apply hec_request_deactivation_ok|cdc_codec..|done].
Qed.

(** The parser does not look at the opcode, so the message arrives in spite of it. *)
Lemma hec_set_state_sound : codec_sound hec_set_state_codec.
Proof.
  destruct (codec_ok_sound _ hec_set_state_written_ok) as [Hs Ht Hb].
  by split; [exact Hs|exact Ht|exact Hb].
Qed.

Lemma cdc_codecs_sound : Forall codec_sound cdc_codecs.
Proof.
  apply List.Forall_cons; [apply hec_set_state_sound|].
  exact (List.Forall_impl _ codec_ok_sound cdc_framed_codecs_ok).
Qed.

End cdc.
