(* ===== verification/CecRobust.v ===== *)
(** * A received message cannot break a parser

    A parser of [cec-funcs.h] runs on whatever arrived: the length of the message and its
    bytes are arbitrary.  No parser reads or writes outside its arrays, given buffers of the
    sizes named here. *)

From stdpp Require Import base list numbers.
From Stdlib Require Import ZArith Lia.
From S2P Require Import Prelude CecConst CecMsg CecRecord CecTimer.
From S2P Require Import CecTuner CecAudio CecSpec CecPlainSpec.
From S2P Require Import CecServiceSpec CecVariantSpec CecBlockSpec.

#[local] Open Scope Z_scope.

(** The run ends and stays inside the arrays.  (The parsers of the codecs stop with another
    reason when the message describes nothing that the codec knows.) *)
Definition no_overrun {A} (o : outcome A) : Prop :=
  match o with UB OutOfBounds | OutOfFuel => False | _ => True end.

Definition codec_robust (c : codec) : Prop := ∀ m, typed m → no_overrun (parse c m).

Lemma owp_no_overrun {A} (o : outcome A) : owp o (λ _, True) → no_overrun o.
Proof. by destruct o. Qed.

Lemma robust_intro c :
  (∀ m n b0 b1 b2 b3 b4 b5 b6 b7 b8 b9 b10 b11 b12 b13 b14 b15 q,
    owp (parse c (edit m n [b0; b1; b2; b3; b4; b5; b6; b7; b8; b9; b10; b11; b12; b13; b14;
                            b15] q)) (λ _, True)) → codec_robust c.
Proof.
  intros H m Hm. apply owp_no_overrun. apply (typed_open (λ m, owp (parse c m) _) m Hm).
  intros. apply H.
Qed.

(** Both outcomes of every condition. *)
Ltac cec_both :=
  repeat first
    [ exact I
    | cec_step
    | match goal with |- owp (if ?b then _ else _) _ => destruct b end
    | cec_unfold ].
Ltac cec_robust := apply robust_intro; intros; simpl; cec_both.
Ltac cec_all_robust := repeat (apply List.Forall_cons; [cec_robust|]); apply List.Forall_nil.

Lemma plain_robust :
  Forall codec_robust (source_codecs ++ record_codecs ++ timer_codecs ++ system_codecs ++
                       tuner_codecs ++ menu_codecs ++ audio_codecs).
Proof. cec_all_robust. Qed.

Lemma variant_robust : Forall codec_robust variant_codecs.
Proof. cec_all_robust. Qed.

Lemma no_overrun_bind {A B} (o : outcome A) (f : A → outcome B) :
  owp o (λ a, no_overrun (f a)) → no_overrun (o ≫= f).
Proof. by destruct o. Qed.

Lemma owp_top {A} (o : outcome A) (P : A → Prop) :
  owp o (λ _, True) → (∀ a, P a) → owp o P.
Proof. intros H HP. by eapply owp_mono. Qed.

Lemma service_robust : Forall codec_robust service_codecs.
Proof.
  cec_all_robust.
Qed.

Lemma cdc_robust `{CecFrameworkLaws} : Forall codec_robust cdc_codecs.
Proof. cec_all_robust. Qed.

(** ** Strings *)

(** What was received up to the end of the field, or less. *)
Definition received_block (m : cec_msg) (i : Z) (k : nat) : list Z :=
  take k (drop (Z.to_nat i) (msg m)).

Lemma length_received_block m i k :
  typed m → 0 ≤ i → i + Z.of_nat k ≤ 16 → length (received_block m i k) = k.
Proof.
  intros [Hl _ _ _ _ _ _] Hi Hk. unfold received_block. rewrite length_take, length_drop. lia.
Qed.

(** A string is read into a buffer with one byte more than the field: at most [cap] bytes
    and a terminator, whatever the length of the message. *)
Lemma owp_read_any m i cap off buf (Q : list Z → Prop) :
  typed m → 0 ≤ i → 0 ≤ cap → i + cap ≤ 16 → cap < Z.of_nat (length buf) →
  let n := if off <? len m then u32 (len m - off) else 0 in
  let k := if cap <? n then cap else n in
  (∀ s, Z.of_nat (length s) ≤ cap → Q (s ++ 0 :: drop (S (length s)) buf)) →
  owp (memcpy_from_msg buf 0 m i (Z.to_nat k)) (λ b, owp (arr_set b k 0) Q).
Proof.
  intros Hm Hi Hc Hic Hb n k HQ.
  assert (0 ≤ k ≤ cap) as Hk.
  { unfold k. pose proof (uwrap_range 32 (len m - off)). assert (0 ≤ n) by (unfold n; case_match; lia).
    destruct (Z.ltb_spec cap n); lia. }
  set (s := received_block m i (Z.to_nat k)).
  assert (length s = Z.to_nat k) as Hs by (apply length_received_block; [done|lia..]).
  rewrite <- Hs. eapply owp_read_block with (rest := drop (Z.to_nat k) (drop (Z.to_nat i) (msg m))).
  - done.
  - symmetry. apply take_drop.
  - lia.
  - replace k with (Z.of_nat (length s)) by lia. rewrite terminate_string by lia.
    apply HQ. lia.
Qed.

Lemma strlen_stops s rest : ∃ n, strlen (s ++ 0 :: rest) = Ret n.
Proof.
  induction s as [|c s [n IH]]; [by exists 0|]. cbn [app strlen].
  destruct (c =? 0); [by exists 0|]. rewrite IH. by exists (n + 1).
Qed.

Lemma c_string_stops s rest : owp (c_string (s ++ 0 :: rest)) (λ _, True).
Proof. unfold c_string. by destruct (strlen_stops s rest) as [n ->]. Qed.

(** What the buffer holds afterwards. *)
Definition holds_string (cap : Z) (buf b : list Z) : Prop :=
  ∃ s, Z.of_nat (length s) ≤ cap ∧ b = s ++ 0 :: drop (S (length s)) buf.

Lemma set_timer_program_title_bounds m buf :
  typed m → (15 ≤ length buf)%nat →
  owp (cec_ops_set_timer_program_title m buf) (holds_string 14 buf).
Proof.
  intros Hm Hb. unfold cec_ops_set_timer_program_title. cbv zeta. apply owp_seq.
  eapply owp_mono; [apply (owp_read_any m 2 14 2 buf (holds_string 14 buf)); try done; try lia|].
  { intros s Hs. by exists s. }
  intros b Hs. apply owp_seq. eapply owp_mono; [exact Hs|]. done.
Qed.

Lemma set_osd_name_bounds m buf :
  typed m → (15 ≤ length buf)%nat → owp (cec_ops_set_osd_name m buf) (holds_string 14 buf).
Proof. apply set_timer_program_title_bounds. Qed.

Lemma set_osd_string_bounds m buf :
  typed m → (14 ≤ length buf)%nat →
  owp (cec_ops_set_osd_string m buf) (λ '(_, b), holds_string 13 buf b).
Proof.
  intros Hm Hb. unfold cec_ops_set_osd_string. cbv zeta. apply owp_seq.
  destruct (lookup_lt_is_Some_2 (msg m) 2) as [ctl E]; [rewrite (typed_length m Hm); lia|].
  eapply owp_msg_at; [done|exact E|]. apply owp_seq.
  eapply owp_mono; [apply (owp_read_any m 3 13 3 buf (holds_string 13 buf)); try done; try lia|].
  { intros s Hs. by exists s. }
  intros b Hs. apply owp_seq. eapply owp_mono; [exact Hs|]. done.
Qed.

Lemma string_robust : Forall codec_robust [title_codec; osd_name_codec; osd_string_codec].
Proof.
  repeat apply List.Forall_cons; [..|done]; intros m Hm; apply owp_no_overrun, owp_seq.
  - eapply owp_mono; [by apply set_timer_program_title_bounds|].
    intros ? (s & _ & ->). apply c_string_stops.
  - eapply owp_mono; [by apply set_osd_name_bounds|].
    intros ? (s & _ & ->). apply c_string_stops.
  - eapply owp_mono; [by apply set_osd_string_bounds|].
    intros [? ?] (s & _ & ->). apply owp_seq, owp_top; [apply c_string_stops|done].
Qed.

(** ** Blocks and descriptors *)

(** The block a vendor parser points to lies in the message. *)
Lemma vendor_command_bounds m :
  owp (cec_ops_vendor_command m) (λ '(size, p), p = 2 ∧ 0 ≤ size ∧ p + size ≤ 16).
Proof.
  unfold cec_ops_vendor_command. cbv zeta. apply owp_done.
  pose proof (uwrap_range 8 (u32 (len m - 2))). destruct (Z.ltb_spec 14 (u8 (u32 (len m - 2)))); lia.
Qed.

Lemma vendor_command_with_id_bounds m : typed m →
  owp (cec_ops_vendor_command_with_id m) (λ '(_, size, p), p = 5 ∧ 0 ≤ size ∧ p + size ≤ 16).
Proof.
  intros Hm. pose proof (uwrap_range 8 (u32 (len m - 5))) as Hr. revert Hr.
  apply (typed_open (λ m, _ → owp (cec_ops_vendor_command_with_id m) _) m Hm).
  intros * _ _ Hr. unfold cec_ops_vendor_command_with_id. cbv zeta. repeat cec_step.
  set (k := u8 _) in *. destruct (Z.ltb_spec 11 k); lia.
Qed.

Lemma clip_four n : 0 ≤ n → ∃ k, (if 4 <? n then 4 else n) = Z.of_nat k ∧ (k ≤ 4)%nat.
Proof.
  intros Hn. exists (Z.to_nat (if 4 <? n then 4 else n)).
  destruct (Z.ltb_spec 4 n); lia.
Qed.

Lemma report_descriptors_bounds m ds :
  typed m → (4 ≤ length ds)%nat →
  owp (cec_ops_report_short_audio_descriptor m ds)
    (λ '(n, ds'), 0 ≤ n ≤ 4 ∧ length ds' = length ds).
Proof.
  intros Hm Hds. unfold cec_ops_report_short_audio_descriptor. cbv zeta.
  destruct (clip_four (u8 (u32 (len m - 2) / 3))) as (k & -> & Hk);
    [by apply (uwrap_range 8)|]. rewrite Nat2Z.id.
  destruct ds as [|d0 [|d1 [|d2 [|d3 ds]]]]; try (simpl in Hds; lia).
  pattern m. apply (typed_open _ m Hm). intros.
  destruct k as [|[|[|[|[|]]]]]; try lia; cec_loop; simpl; lia.
Qed.

Lemma request_descriptors_bounds m ids codes :
  typed m → (4 ≤ length ids)%nat → (4 ≤ length codes)%nat →
  owp (cec_ops_request_short_audio_descriptor m ids codes)
    (λ '(n, ids', codes'), 0 ≤ n ≤ 4 ∧ length ids' = length ids ∧ length codes' = length codes).
Proof.
  intros Hm Hi Hc. unfold cec_ops_request_short_audio_descriptor. cbv zeta.
  destruct (clip_four (u8 (u32 (len m - 2)))) as (k & -> & Hk); [by apply (uwrap_range 8)|].
  rewrite Nat2Z.id.
  destruct ids as [|i0 [|i1 [|i2 [|i3 ids]]]]; try (simpl in Hi; lia).
  destruct codes as [|c0 [|c1 [|c2 [|c3 codes]]]]; try (simpl in Hc; lia).
  pattern m. apply (typed_open _ m Hm). intros.
  destruct k as [|[|[|[|[|]]]]]; try lia; cec_loop; simpl; lia.
Qed.

Lemma report_features_robust : codec_robust report_features_codec.
Proof.
  intros m Hm. simpl. 
  destruct (lookup_lt_is_Some_2 (msg m) 2) as [b2 E2]; [rewrite (typed_length m Hm); lia|].
  destruct (lookup_lt_is_Some_2 (msg m) 3) as [b3 E3]; [rewrite (typed_length m Hm); lia|].
  rewrite (report_features_eval m b2 b3) by done. cbn [mbind outcome_bind].
  unfold profile_end. destruct (Nat.leb_spec (ext_count (drop 4 (msg m))) 10); [|done].
  apply owp_no_overrun. generalize dependent (ext_count (drop 4 (msg m))). intros e He.
  pattern m. apply (typed_open _ m Hm). intros.
  do 11 (destruct e as [|e]; [repeat cec_step; done|]). lia.
Qed.

Lemma report_descriptors_robust : codec_robust report_descriptors_codec.
Proof.
  intros m Hm. apply owp_no_overrun, owp_seq. eapply owp_mono;
    [apply report_descriptors_bounds; [done|simpl; lia]|]. by intros [].
Qed.

Lemma request_descriptors_robust : codec_robust request_descriptors_codec.
Proof.
  intros m Hm. apply owp_no_overrun, owp_seq. eapply owp_mono;
    [apply request_descriptors_bounds; [done|simpl; lia..]|]. by intros [[]].
Qed.

Lemma block_robust : Forall codec_robust block_codecs.
Proof.
  change block_codecs with ([title_codec; osd_name_codec; osd_string_codec] ++
                            drop 3 block_codecs).
  apply Forall_app_2; [apply string_robust|].
  repeat apply List.Forall_cons; [cec_robust..|apply report_features_robust|
    apply report_descriptors_robust|apply request_descriptors_robust|done].
Qed.
