(* ===== verification/CecTheory.v ===== *)
(** * CEC messages: the theorems

    The codecs of all features together: every builder and every parser meets its contract
    ([framed_codecs_ok], [all_codecs_sound]) and no parser can be broken ([all_codecs_robust]).  The theorems on
    top of it are about what two devices see of each other. *)

From stdpp Require Import base list numbers.
From Stdlib Require Import ZArith Lia.
From S2P Require Import Prelude CecConst CecMsg CecRecord CecTimer.
From S2P Require Import CecTuner CecAudio CecSpec CecPlainSpec.
From S2P Require Import CecServiceSpec CecVariantSpec CecBlockSpec CecRobust.

#[local] Open Scope Z_scope.

(** The messages that are not CDC messages. *)
Definition basic_codecs : list codec :=
  source_codecs ++ record_codecs ++ timer_codecs ++ system_codecs ++ tuner_codecs ++
  menu_codecs ++ audio_codecs ++ service_codecs ++ variant_codecs ++ block_codecs.

Definition all_codecs `{CecFramework} : list codec := basic_codecs ++ cdc_codecs.

(** All but <CDC><HEC Set State>, whose builder writes another opcode than its own. *)
Definition framed_codecs `{CecFramework} : list codec := basic_codecs ++ cdc_framed_codecs.

Section theory.
Context `{CecFrameworkLaws}.

Lemma framed_codecs_ok : Forall codec_ok framed_codecs.
Proof.
  unfold framed_codecs, basic_codecs.
  repeat apply Forall_app_2; auto using source_codecs_ok, record_codecs_ok, timer_codecs_ok,
    system_codecs_ok, tuner_codecs_ok, menu_codecs_ok, audio_codecs_ok, service_codecs_ok,
    variant_codecs_ok, block_codecs_ok, cdc_framed_codecs_ok.
Qed.

Lemma all_codecs_sound c : c ∈ all_codecs → codec_sound c.
Proof.
  intros Hc%list_elem_of_In. revert c Hc. apply List.Forall_forall. unfold all_codecs.
  apply Forall_app_2; [|apply cdc_codecs_sound].
  pose proof framed_codecs_ok as Hf. apply Forall_app in Hf as [Hf _].
  exact (List.Forall_impl _ codec_ok_sound Hf).
Qed.

Lemma all_codecs_robust c : c ∈ all_codecs → codec_robust c.
Proof.
  intros Hc%list_elem_of_In. revert c Hc. apply List.Forall_forall.
  change all_codecs with
    ((source_codecs ++ record_codecs ++ timer_codecs ++ system_codecs ++ tuner_codecs ++
      menu_codecs ++ audio_codecs) ++ service_codecs ++ variant_codecs ++ block_codecs ++
     cdc_codecs).
  apply Forall_app_2; [apply plain_robust|].
  repeat apply Forall_app_2; auto using service_robust, variant_robust, block_robust, cdc_robust.
Qed.

(** ** What travels between two devices *)

(** C13: every message of CEC survives the bus.  Whatever the sender's structure held before,
    the function that builds a message leaves bytes from which the function that parses it
    reads the same operands in any receive buffer.  The operands fit their fields and have
    the form the parser gives them, which is [valid]: an optional part that the message
    leaves out is zero, and, because the parsers lose the rest, the major number of a digital
    channel is below 256 and the host and encoding states of <HEC Report State> agree. *)
Theorem cec_round_trip c r x m :
  c ∈ all_codecs → typed m → valid c x →
  wp (build c r x) m (λ _ m', ∀ rx, typed rx → same_bytes m' rx → parse c rx = Ret x).
Proof.
  intros Hc Hm Hx. eapply wp_mono; [by apply (sound_sends c (all_codecs_sound c Hc))|].
  by intros _ m' (_ & _ & Hp).
Qed.

(** C14: every builder keeps the invariant of [struct cec_msg], whether or not its operands fit
    their fields: it stores sixteen bytes and a length between 2 and 16, never outside the
    array, and changes no field but the length, the bytes and the awaited reply.  [safe]
    excludes a string with a null byte before its end, a language of fewer than three bytes,
    which the builder reads behind, and the type of a recording source that is none of those
    the header names ([record_on_unknown_source]). *)
Theorem cec_messages_typed c r x m :
  c ∈ all_codecs → typed m → safe c x →
  wp (build c r x) m (λ _ m', typed m' ∧ 2 ≤ len m' ≤ 16 ∧ envelope m' = envelope m).
Proof. intros Hc. apply sound_total. by apply all_codecs_sound. Qed.

(** C16: the bytes of every message but <CDC><HEC Set State> are its header, its opcode and its
    operands in the order and the arithmetic of the specification, for the operands of the
    round trip; the header names the same initiator and, in a broadcast, every device; the
    awaited reply is the one of the message, if one is asked for.  The excepted builder writes
    the opcode of another message ([hec_set_state_is_inquiry]). *)
Theorem cec_messages_framed c r x m :
  c ∈ framed_codecs → typed m → valid c x →
  wp (build c r x) m (λ _ m',
    carries m' (header c m :: opcode c :: payload c x) ∧ reply m' = reply_after c r m).
Proof.
  intros Hc%list_elem_of_In. apply codec_builds.
  exact (proj1 (List.Forall_forall _ _) framed_codecs_ok c Hc).
Qed.

(** C15: no parser reads or writes outside its arrays, whatever bytes and whatever length were
    received. *)
Theorem cec_parsers_never_overrun c m :
  c ∈ all_codecs → typed m → no_overrun (parse c m).
Proof. intros Hc. by apply all_codecs_robust. Qed.

(** ** A request and its answer *)

Lemma carries_opcode m h op l : carries m (h :: op :: l) → cec_msg_opcode m = Ret op.
Proof.
  intros [El [rest Er]]. unfold cec_msg_opcode. rewrite (proj2 (Z.ltb_lt 1 (len m))).
  - unfold msg_at. by rewrite Er, (arr_get_eval _ 1 op).
  - rewrite El. simpl. lia.
Qed.

Lemma header_fields m h l : msg m = h :: l →
  cec_msg_initiator m = Ret (u8 (h ≫ 4)) ∧ cec_msg_destination m = Ret (u8 (Z.land h 15)).
Proof.
  intros Em. unfold cec_msg_initiator, cec_msg_destination, msg_at.
  by rewrite Em, (arr_get_eval _ 0 h).
Qed.

Lemma carries_header m h l : carries m (h :: l) →
  cec_msg_initiator m = Ret (u8 (h ≫ 4)) ∧ cec_msg_destination m = Ret (u8 (Z.land h 15)).
Proof. intros [_ [rest Er]]. by apply (header_fields m h (l ++ rest)). Qed.

Lemma carries_byte m h l : typed m → carries m (h :: l) → is_byte h.
Proof.
  intros [_ Hb _ _ _ _ _] [_ [rest Er]]. rewrite Er in Hb. by apply Forall_inv in Hb.
Qed.

(** The header with the two addresses exchanged. *)
Definition swap_header (b : Z) : Z := b mod 16 * 16 + b / 16.

Lemma swap_header_byte b : is_byte b →
  u8 (Z.lor (u8 (Z.land b 15) ≪ 4) (u8 (b ≫ 4))) = swap_header b.
Proof. revert b. apply (byte_cases _). by vm_compute. Qed.

Lemma wp_set_reply_to req b rep (Q : unit → cec_msg → Prop) :
  typed req → msg req !! 0%nat = Some b → typed rep →
  Q tt (edit (with_timeout 0 rep) (len rep) (swap_header b :: tail (msg rep)) 0) →
  wp (cec_msg_set_reply_to req) rep Q.
Proof.
  intros Hreq Eb Hrep HQ.
  assert (is_byte b) as Hb by (exact (Forall_lookup_1 _ _ _ _ (typed_bytes req Hreq) Eb)).
  unfold cec_msg_set_reply_to. apply wp_seq, wp_lift.
  unfold cec_msg_destination, cec_msg_initiator, msg_at.
  rewrite (arr_get_eval _ 0 b) by done. cbn [mbind outcome_bind owp].
  apply wp_seq, wp_lift. cbn [owp]. apply wp_seq.
  rewrite (edit_id rep). apply wp_set_msg; [rewrite (typed_length rep Hrep); lia|].
  rewrite swap_header_byte by done. apply wp_seq, wp_modify.
  change (with_timeout 0 (edit ?m ?n ?l ?q)) with (edit (with_timeout 0 m) n l q).
  apply wp_set_reply. destruct rep as [? ? ? ? ? ? l ? ? ? ? ? ? ?].
  destruct l as [|b0 l]; [discriminate (typed_length _ Hrep)|]. exact HQ.
Qed.

Lemma typed_reply_to rep n b :
  typed rep → is_byte b → 0 ≤ n < 2 ^ 32 →
  typed (edit (with_timeout 0 rep) n (swap_header b :: tail (msg rep)) 0).
Proof.
  intros [Hl Hb Hn Hr Ht Hw Hs] Hbyte Hlen. split; try done.
  - cbn. destruct (msg rep); [done|]. exact Hl.
  - cbn. constructor; [unfold swap_header; cec_lia|]. destruct (msg rep); [done|].
    by apply List.Forall_inv_tail in Hb.
  - cbn. destruct Hw as (_ & ? & ?). split_and!; lia.
Qed.

(** C17: a device that answers a request as [cec_msg_set_reply_to] and the builder of the
    answer do sends the message the requester waits for, when the operands of both messages
    are those of the round trip: it has the awaited opcode, comes from the device the request
    went to, goes back to the initiator unless the answer is a broadcast, and its operands
    are the ones of the answer. *)
Theorem cec_dialogue c c' r x y m rep :
  c ∈ all_codecs → c' ∈ all_codecs → answer c = Some (opcode c') → r ≠ 0 →
  typed m → valid c x → typed rep → valid c' y →
  wp (build c r x) m (λ _ req,
    wp (cec_msg_set_reply_to req;; build c' 0 y) rep (λ _ ans,
      cec_msg_opcode ans = Ret (reply req) ∧
      cec_msg_initiator ans = cec_msg_destination req ∧
      (to_all c' = false → cec_msg_destination ans = cec_msg_initiator req) ∧
      parse c' ans = Ret y)).
Proof.
  intros Hc Hc' Ha Hr Hm Hx Hrep Hy.
  pose proof (all_codecs_sound c Hc) as Hok. pose proof (all_codecs_sound c' Hc') as Hok'.
  eapply wp_mono; [apply wp_and; [by apply (sound_total c Hok), sound_safe|
                                  by apply (sound_sends c Hok)]|].
  intros _ req [[Hreq [Hlen _]] ([l Hcar] & Hreply & _)]. apply wp_seq.
  pose proof (carries_byte _ _ _ Hreq Hcar) as Hb.
  set (b := header c m) in *.
  eapply (wp_set_reply_to req b); [done| |done|].
  { destruct Hcar as [_ [rest ->]]. done. }
  set (rep1 := edit _ _ _ _). assert (typed rep1) as Hrep1
    by (apply typed_reply_to; [done|done|apply (typed_len rep Hrep)]).
  eapply wp_mono; [apply wp_and; [by apply (sound_total c' Hok'), sound_safe|
                                  by apply (sound_sends c' Hok')]|].
  intros _ ans [[Hans _] ([l' Hcar'] & _ & Hparse)].
  destruct (carries_header _ _ _ Hcar) as [-> ->].
  destruct (carries_header _ _ _ Hcar') as [-> ->]. split_and!.
  - rewrite (carries_opcode _ _ _ _ Hcar'), Hreply. unfold reply_after. rewrite Ha.
    unfold ternary. by rewrite (proj2 (Z.eqb_neq r 0)).
  - f_equal. unfold header, rep1, swap_header. cbn. destruct (to_all c'); cec_value.
  - intros Hto. f_equal. unfold header, rep1, swap_header. rewrite Hto. cbn. cec_value.
  - by apply Hparse.
Qed.

(** ** The table of messages *)

(** The opcodes of [cec.h] and the messages of [cec-funcs.h] match one to one, and whatever
    a builder can wait for is the opcode of a message. *)
Definition answers (c : codec) : list Z := match answer c with Some a => [a] | None => [] end.

(** The opcodes in [cec.h] are distinct, each one but the CDC prefix is the opcode of one
    message of [cec-funcs.h], and every reply a builder can wait for is the opcode of such a
    message. *)
Theorem cec_opcodes_complete :
  NoDup cec_opcodes ∧ NoDup cdc_opcodes ∧
  CEC_MSG_CDC_MESSAGE :: map opcode basic_codecs ≡ₚ cec_opcodes ∧
  Forall (λ a, a ∈ map opcode basic_codecs) (concat (map answers basic_codecs)).
Proof.
  split_and!; apply (bool_decide_unpack _); by vm_compute.
Qed.
End theory.
