(* ===== verification/CecDevice.v ===== *)
(** * CEC messages: constants, devices and deviations

    What the headers say outside the layout of a message: the constants fit the bits they are
    shifted into, the classes of logical addresses partition them, the kinds of device
    exclude each other, the status of a message is what its flags say, and a request can be
    refused in place.  The last part states what a receiver reads where a builder and a
    parser disagree. *)

From stdpp Require Import base list numbers.
From Stdlib Require Import ZArith Lia.
From S2P Require Import Prelude CecConst CecMsg CecRecord CecTimer.
From S2P Require Import CecTuner CecAudio CecSpec CecPlainSpec.
From S2P Require Import CecServiceSpec CecVariantSpec CecBlockSpec CecRobust.
From S2P Require Import CecTheory.

#[local] Open Scope c_scope.
#[local] Open Scope Z_scope.

(** ** Constants *)

(** The constants of an operand that shares its byte fit the bits the message functions
    shift them into, so they do not reach the neighbouring operand, and two constants of the
    same enumeration differ there; the constants of the other operands fit a byte. *)
Theorem operand_constants_fit :
  Forall (λ '(ops, w), Forall (is_bits w) ops ∧ NoDup ops) operand_fields ∧
  Forall (Forall is_byte) operand_bytes.
Proof.
  split.
  - repeat (apply List.Forall_cons; [split; apply (bool_decide_unpack _); by vm_compute|]).
    apply List.Forall_nil.
  - repeat (apply List.Forall_cons; [apply (bool_decide_unpack _); by vm_compute|]).
    apply List.Forall_nil.
Qed.

(** ** Logical addresses *)

(** The classes of [cec_has_x], and the one of an unregistered device. *)
Definition address_classes (mask : Z) : list Z :=
  [cec_has_tv mask; cec_has_record mask; cec_has_tuner mask; cec_has_playback mask;
   cec_has_audiosystem mask; cec_has_backup mask; cec_has_specific mask;
   cec_is_unregistered mask].

Lemma sumZ_zero l : Forall (λ c, c = 0) l → sumZ l = 0.
Proof. induction 1; simpl; lia. Qed.

Lemma land_add x a b : a .& b = 0 → (x .& a) + (x .& b) = x .& (a .| b).
Proof.
  intros Hab. rewrite Z.land_lor_distr_r, <- Z.add_lor_land, <- Z.land_assoc, (Z.land_assoc a),
    (Z.land_comm a), <- (Z.land_assoc x), Hab, !Z.land_0_r. lia.
Qed.

(** The eight classes partition the mask of logical addresses: their parts add up to the
    mask, each of the sixteen addresses is in exactly one class, and a mask without any class
    is that of an unconfigured adapter. *)
Theorem address_classes_partition mask :
  is_u16 mask →
  sumZ (address_classes mask) = mask ∧
  (∀ a, is_bits 4 a → length (filter (λ c, c ≠ 0) (address_classes (2 ^ a))) = 1%nat) ∧
  (Forall (λ c, c = 0) (address_classes mask) ↔ cec_is_unconfigured mask = true).
Proof.
  intros Hm.
  assert (sumZ (address_classes mask) = mask) as Hsum.
  { cbn [sumZ address_classes]. unfold cec_has_tv, cec_has_record, cec_has_tuner,
      cec_has_playback, cec_has_audiosystem, cec_has_backup, cec_has_specific,
      cec_is_unregistered. rewrite Z.add_0_r.
    do 7 (rewrite land_add by reflexivity).
    rewrite (land_mask mask _ 16) by done. by apply Z.mod_small. }
  split_and!; [done|..].
  - intros a Ha. assert (a ∈ seqZ 0 16) as Hin%list_elem_of_In
      by (apply elem_of_seqZ; unfold is_bits in Ha; lia).
    clear Ha. revert a Hin. apply List.Forall_forall. apply (bool_decide_unpack _). by vm_compute.
  - unfold cec_is_unconfigured. rewrite Z.eqb_eq. split.
    + intros Hz. rewrite <- Hsum. by apply sumZ_zero.
    + intros ->. apply (bool_decide_unpack _). by vm_compute.
Qed.

(** ** Kinds of device *)

Definition kinds (las : cec_log_addrs) : list (outcome bool) :=
  [cec_is_2nd_tv las; cec_is_processor las; cec_is_switch las; cec_is_cdc_only las].

(** The kinds a device with first address [a], primary type [t] has. *)
Definition kind_table (n a t fl : Z) : list bool :=
  [bool_decide (n ≠ 0 ∧ 14 ≤ a ∧ t = CEC_OP_PRIM_DEVTYPE_TV);
   bool_decide (n ≠ 0 ∧ 12 ≤ a ∧ t = CEC_OP_PRIM_DEVTYPE_PROCESSOR);
   bool_decide (n = 1 ∧ a = 15 ∧ t = CEC_OP_PRIM_DEVTYPE_SWITCH ∧ Z.testbit fl 2 = false);
   bool_decide (n = 1 ∧ a = 15 ∧ t = CEC_OP_PRIM_DEVTYPE_SWITCH ∧ Z.testbit fl 2 = true)].

Lemma land_bit x k : 0 ≤ k → (x .& 2 ^ k =? 0) = negb (Z.testbit x k).
Proof.
  intros Hk. destruct (Z.testbit x k) eqn:E; simpl.
  - apply Z.eqb_neq. intros H0. assert (Z.testbit (x .& 2 ^ k) k = true) as Hb.
    { by rewrite Z.land_spec, E, Z.pow2_bits_true. }
    rewrite H0, Z.bits_0 in Hb. done.
  - apply Z.eqb_eq, Z.bits_inj'. intros n Hn. rewrite Z.land_spec, Z.bits_0, Z.pow2_bits_eqb by done.
    destruct (Z.eqb_spec k n) as [<-|]; [by rewrite E|by rewrite andb_false_r].
Qed.

(** On a structure with an address and a type the four questions about the kind of a
    device have the answers of the table, and at most one of them is yes. *)
Theorem device_kinds_exclusive las a t la ta :
  log_addr las = a :: la → primary_device_type las = t :: ta →
  kinds las = map Ret (kind_table (num_log_addrs las) a t (las_flags las)) ∧
  (length (filter (λ b, b = true) (kind_table (num_log_addrs las) a t (las_flags las))) ≤ 1)%nat.
Proof.
  intros Ea Et. unfold kinds, kind_table, cec_is_2nd_tv, cec_is_processor, cec_is_switch,
    cec_is_cdc_only. rewrite Ea, Et. change (arr_get (?x :: _) 0) with (Ret x).
  change CEC_LOG_ADDRS_FL_CDC_ONLY with (2 ^ 2). rewrite (land_bit _ 2) by done.
  unfold CEC_LOG_ADDR_SPECIFIC, CEC_LOG_ADDR_BACKUP_1, CEC_LOG_ADDR_UNREGISTERED.
  set (n := num_log_addrs las). set (fl := Z.testbit (las_flags las) 2). split.
  - cbn [map]. cbn [mbind outcome_bind].
    repeat apply f_equal2; try done.
    all: destruct (Z.eqb_spec n 0), (Z.eqb_spec n 1), (Z.ltb_spec a 14), (Z.ltb_spec a 12),
      (Z.eqb_spec a 15); cbn [negb]; unfold mret, outcome_ret; f_equal.
    all: case_bool_decide; destruct_and?; try lia.
    all: try destruct (Z.eqb_spec t CEC_OP_PRIM_DEVTYPE_SWITCH); destruct fl; cbn [negb andb].
    all: rewrite ?Z.eqb_eq, ?Z.eqb_neq; try naive_solver lia.
  - unfold CEC_OP_PRIM_DEVTYPE_TV, CEC_OP_PRIM_DEVTYPE_PROCESSOR, CEC_OP_PRIM_DEVTYPE_SWITCH.
    repeat case_bool_decide; destruct_and?; try lia; try congruence; vm_compute; lia.
Qed.

(** ** The status of a message *)

(** A message is fine when something was transmitted or received, whatever was
    transmitted was acknowledged, whatever was received arrived, and the answer was not a
    refusal. *)
Theorem message_status m :
  cec_msg_status_is_ok m = true ↔
  (tx_status m ≠ 0 ∨ rx_status m ≠ 0) ∧
  (tx_status m ≠ 0 → Z.testbit (tx_status m) 0 = true) ∧
  (rx_status m ≠ 0 → Z.testbit (rx_status m) 0 = true) ∧
  Z.testbit (rx_status m) 2 = false.
Proof.
  unfold cec_msg_status_is_ok.
  change CEC_TX_STATUS_OK with (2 ^ 0). change CEC_RX_STATUS_OK with (2 ^ 0).
  change CEC_RX_STATUS_FEATURE_ABORT with (2 ^ 2). rewrite !land_bit by done.
  destruct (Z.eqb_spec (tx_status m) 0), (Z.eqb_spec (rx_status m) 0),
    (Z.testbit (tx_status m) 0), (Z.testbit (rx_status m) 0), (Z.testbit (rx_status m) 2);
    simpl; intuition congruence.
Qed.

(** ** Refusing a request in place *)

(** [cec_msg_reply_feature_abort] turns a request of any length into the refusal of it:
    a message of four bytes from the device the request was for to its initiator, with the
    opcode of the request and the reason, that waits for no reply. *)
Theorem feature_abort_answers b0 op rest reason m :
  typed m → msg m = b0 :: op :: rest → is_byte reason →
  wp (cec_msg_reply_feature_abort reason) m (λ _ m',
    typed m' ∧ carries m' [swap_header b0; CEC_MSG_FEATURE_ABORT; op; reason] ∧
    reply m' = 0 ∧ timeout m' = 0 ∧
    cec_ops_feature_abort m' = Ret (op, reason) ∧
    cec_msg_initiator m' = cec_msg_destination m ∧
    cec_msg_destination m' = cec_msg_initiator m).
Proof.
  intros Hm Em Hreason.
  pose proof (typed_bytes m Hm) as Hb. rewrite Em in Hb. decompose_Forall_hyps.
  assert (typed (edit (with_timeout 0 m) (len m) (swap_header b0 :: tail (msg m)) 0)) as Hr
    by (apply typed_reply_to; [done|done|apply (typed_len m Hm)]).
  assert (Hl := typed_length m Hm). rewrite Em in Hl, Hr.
  destruct rest as [|b2 [|b3 rest]]; [discriminate Hl..|].
  unfold cec_msg_reply_feature_abort. apply wp_seq, wp_get, wp_seq.
  apply (wp_set_reply_to m b0); [done|by rewrite Em|done|]. rewrite Em. cbn [tail].
  apply wp_seq, wp_set_len; [done|]. apply wp_seq, wp_get. repeat cec_step.
  decompose_Forall_hyps.
  rewrite !u8_byte by done. destruct (header_fields m b0 _ Em) as [-> ->].
  edestruct (header_fields (edit (with_timeout 0 m) 4
    (swap_header b0 :: CEC_MSG_FEATURE_ABORT :: op :: reason :: rest) 0)) as [-> ->]; [done|].
  split_and!; try done.
  - apply (typed_edit _ 4 _ 0 Hr); [done|simpl in *; lia| |done].
    pose proof (typed_bytes _ Hr) as Hs. cbn in Hs. apply Forall_inv in Hs.
    by repeat (apply List.Forall_cons; [done|]).
  - split; [done|by exists rest].
  - f_equal. unfold swap_header. cec_value.
  - f_equal. unfold swap_header. cec_value.
Qed.

(** ** Where a builder and a parser disagree *)

Lemma lor_quarter a b : is_bits 2 a → is_byte b → is_byte (a * 64 .| b).
Proof.
  intros Ha. revert b. unfold is_bits in Ha.
  assert (a = 0 ∨ a = 1 ∨ a = 2 ∨ a = 3) as [->|[->|[->| ->]]] by lia;
    apply (byte_cases _); by vm_compute.
Qed.

Lemma received_id d : fits_service d → by_channel d = true →
  received d = d ↔ major (channel d) < 256.
Proof.
  intros Hd Hby. cbn [major channel]. split.
  - intros Ed. unfold received in Ed. rewrite Hby in Ed.
    destruct Hd as (_ & _ & _ & _ & _ & Hd). rewrite Hby in Hd. destruct Hd as [_ Hw].
    apply (f_equal word1) in Ed. cbn [word1] in Ed. rewrite <- Ed.
    apply lor_quarter; cec_lia.
  - intros Hw. apply received_valid. by split.
Qed.

(** The major number of a digital channel has ten bits, but the parser puts the two upper
    ones at bit 6: a channel is read back exactly when its major number is below 256, and
    otherwise as the disjunction of its low byte with a quarter of the rest. *)
Theorem channel_major_folded d m :
  typed m → fits_service d → service_id_method d = CEC_OP_SERVICE_ID_METHOD_BY_CHANNEL →
  wp (cec_msg_select_digital_service d) m (λ _ m',
    cec_ops_select_digital_service m' zero_service = Ret (received d) ∧
    major (channel (received d)) =
      major (channel d) / 256 * 64 .| major (channel d) mod 256 ∧
    (received d = d ↔ major (channel d) < 256)).
Proof.
  intros Hm Hd Eby. assert (by_channel d = true) as Hby by (unfold by_channel; by rewrite Eby).
  apply (typed_open (λ m, wp (cec_msg_select_digital_service d) m _) m Hm).
  intros. unfold cec_msg_select_digital_service. repeat cec_step.
  apply (wp_set_service _ _ _ [_; _]); [done|simpl; lia|].
  rewrite stored_service_fits by done. split; [|split].
  - apply ret_owp. unfold cec_ops_select_digital_service. apply owp_seq.
    eapply (owp_get_service _ 2); [done|reflexivity|done|done].
  - unfold received. by rewrite Hby.
  - by apply received_id.
Qed.

(** The types of a recording source that [cec.h] names. *)
Definition record_source_types : list Z :=
  [CEC_OP_RECORD_SRC_OWN; CEC_OP_RECORD_SRC_DIGITAL; CEC_OP_RECORD_SRC_ANALOG;
   CEC_OP_RECORD_SRC_EXT_PLUG; CEC_OP_RECORD_SRC_EXT_PHYS_ADDR].

(** For any other type the [switch] of [cec_msg_record_on] has no branch: the length, the
    opcode and every other byte stay what they were, and only the awaited reply is set. *)
Theorem record_on_unknown_source r src m :
  rec_type src ∉ record_source_types →
  cec_msg_record_on r src m = set_reply (ternary r CEC_MSG_RECORD_STATUS 0) m.
Proof.
  unfold record_source_types. rewrite !not_elem_of_cons. intros Ht. destruct_and?.
  unfold cec_msg_record_on. rewrite !(proj2 (Z.eqb_neq _ _)) by done.
  by erewrite bind_eval by reflexivity.
Qed.

Section cdc_deviations.
Context `{CecFrameworkLaws}.

(** Three states share a byte of <CDC><HEC Report State>, but the parser takes the state
    of the Ethernet channel from the bits of the host: whatever is reported, a receiver
    reads that the two are equal, and everything else as it was sent. *)
Theorem hec_report_state_conflates pa target hec host enc err field m :
  typed m → is_u16 pa → is_u16 target → is_bits 2 hec → is_bits 2 host → is_bits 2 enc →
  is_bits 2 err → is_u16 field →
  wp (cec_msg_cdc_hec_report_state target hec host enc err 1 field;; fill_phys_addr pa) m
    (λ _ m', cec_ops_cdc_hec_report_state m' =
             Ret (pa, target, hec, host, host, err, 1, field)).
Proof.
  intros Hm. intros. pattern m. apply (typed_open _ m Hm). intros.
  unfold cec_msg_cdc_hec_report_state, ternary. cbn [Z.eqb negb]. cdc_run.
  apply ret_owp. cdc_run. cec_parsed.
Qed.

(** <CDC><HEC Set State> is sent with the opcode of the inquiry: a receiver that looks at
    the opcode reads an inquiry about the same two addresses, and no message says what state
    to set. *)
Theorem hec_set_state_is_inquiry pa a1 a2 st a3 a4 a5 m :
  typed m → is_u16 pa → is_u16 a1 → is_u16 a2 →
  wp (cec_msg_cdc_hec_set_state a1 a2 st a3 a4 a5;; fill_phys_addr pa) m (λ _ m',
    msg_at m' 4 = Ret CEC_MSG_CDC_HEC_INQUIRE_STATE ∧
    cec_ops_cdc_hec_inquire_state m' = Ret (pa, a1, a2)).
Proof.
  intros Hm. intros. pattern m. apply (typed_open _ m Hm). intros.
  unfold cec_msg_cdc_hec_set_state, append_be16. cdc_cases; cdc_run.
  all: split; [done|apply ret_owp; cdc_run; cec_parsed].
Qed.

End cdc_deviations.

(** ** Received in full *)

(** The parser of the features finds the end of the RC profile among the eleven bytes it
    looks at and says that the features of the device follow; it refuses both when none of
    them ends the profile.  That the features end inside the message is not checked: the
    second scan starts on a byte that stops it. *)
Theorem report_features_scan m b2 b3 :
  typed m → msg m !! 2%nat = Some b2 → msg m !! 3%nat = Some b3 →
  cec_ops_report_features m =
  Ret (match profile_end m with
       | Some p => (b2, b3, Some 4, Some (p + 1))
       | None => (b2, b3, None, None)
       end).
Proof. apply report_features_eval. Qed.

(** The name of a device fits the field of [struct cec_log_addrs] it is meant for:
    whatever was received, [cec_ops_set_osd_name] leaves a terminated string of at most
    fourteen bytes in a buffer of fifteen, and the rest of the buffer as it was. *)
Theorem osd_name_fits m las :
  typed m → length (osd_name las) = 15%nat →
  owp (cec_ops_set_osd_name m (osd_name las)) (λ b,
    length b = 15%nat ∧ holds_string 14 (osd_name las) b).
Proof.
  intros Hm Hl. eapply owp_mono; [apply set_osd_name_bounds; [done|lia]|].
  intros b Hb. split; [|done]. destruct Hb as (s & Hs & ->).
  rewrite length_app. simpl. rewrite length_drop. lia.
Qed.

Lemma broadcast_header b : is_byte b → Ret ((u8 (b .| 15) .& 15) =? 15) = Ret true.
Proof. intros Hb. f_equal. revert b Hb. apply (byte_cases _). by vm_compute. Qed.

(** Three messages are broadcast and can wait for a reply, which [cec.h] says
    [CEC_TRANSMIT] refuses: <Request Active Source>, <Routing Change> and
    <Request Current Latency>.  No other message does both. *)
Theorem broadcasts_awaiting_reply pa1 pa2 r m :
  typed m → r ≠ 0 → is_u16 pa1 → is_u16 pa2 →
  Forall (λ f, wp f m (λ _ m', cec_msg_is_broadcast m' = Ret true ∧ reply m' ≠ 0))
    [cec_msg_request_active_source r; cec_msg_routing_change r pa1 pa2;
     cec_msg_request_current_latency r pa1] ∧
  map opcode (filter (λ c, to_all c = true ∧ answer c ≠ None) basic_codecs) =
    [CEC_MSG_REQUEST_ACTIVE_SOURCE; CEC_MSG_ROUTING_CHANGE; CEC_MSG_REQUEST_CURRENT_LATENCY].
Proof.
  intros Hm Hr H1 H2. split; [|by vm_compute].
  assert (∀ a, ternary r a 0 = a) as Ht by (intros; unfold ternary;
    by rewrite (proj2 (Z.eqb_neq r 0))).
  pattern m. apply (typed_open _ m Hm). intros * Hb Hq. apply Forall_inv in Hb.
  repeat apply List.Forall_cons; [..|done].
  all: cec_run; rewrite Ht; split; [|done].
  all: unfold cec_msg_is_broadcast, msg_at; cbn; by apply broadcast_header.
Qed.
