(* ===== verification/CecDemo.v ===== *)
(** * CEC messages on concrete inputs

    A framework that stores the physical address, messages between a television and a
    recorder, and every theorem with hypotheses applied to them. *)

From stdpp Require Import base list numbers.
From Stdlib Require Import ZArith Lia.
From S2P Require Import Prelude CecConst CecMsg CecRecord CecTimer.
From S2P Require Import CecTuner CecAudio CecSpec CecPlainSpec.
From S2P Require Import CecServiceSpec CecVariantSpec CecBlockSpec CecRobust.
From S2P Require Import CecTheory CecDevice.

#[local] Open Scope c_scope.
#[local] Open Scope Z_scope.

#[export] Instance demo_framework : CecFramework := put_be16 2 3.

#[export] Instance demo_framework_laws : CecFrameworkLaws.
Proof.
  intros pa m n l q Hl. unfold fill_phys_addr, demo_framework, put_be16.
  erewrite bind_eval; [|apply set_msg_eval; lia].
  rewrite set_msg_eval by (rewrite length_insert; lia).
  rewrite Z.shiftr_div_pow2, (land_mask pa 255 8) by done.
  change (Z.to_nat 2) with 2%nat. change (Z.to_nat 3) with 3%nat.
  by rewrite list_insert_insert_ne by done.
Qed.

(** A message of the recorder (1) to the television (0), and a buffer full of rubbish. *)
Definition to_tv : cec_msg := with_len 1 (with_msg (0x10 :: replicate 15 0) cec_msg_zero).
Definition rubbish : cec_msg := with_len 5 (with_msg (replicate 16 0xff) cec_msg_zero).

Lemma to_tv_init : cec_msg_init 1 0 rubbish = Ret (tt, to_tv).
Proof. reflexivity. Qed.

Lemma to_tv_typed : typed to_tv.
Proof. split; cbn; try apply (bool_decide_unpack _); try (by vm_compute); unfold is_byte; lia. Qed.

Lemma rubbish_typed : typed rubbish.
Proof. split; cbn; try apply (bool_decide_unpack _); try (by vm_compute); unfold is_byte; lia. Qed.

(** Membership in the table of codecs. *)
Ltac in_codecs := apply list_elem_of_In; simpl; tauto.

(** A timer for a digital channel on the third of May at 20:15, for an hour and a half. *)
Definition channel_7_2 : cec_op_digital_service_id :=
  DigitalServiceId 1 CEC_OP_DIG_SERVICE_BCAST_SYSTEM_DVB_T CEC_OP_CHANNEL_NUMBER_FMT_2_PART 7 2.
Definition channel_300_2 : cec_op_digital_service_id :=
  DigitalServiceId 1 CEC_OP_DIG_SERVICE_BCAST_SYSTEM_DVB_T CEC_OP_CHANNEL_NUMBER_FMT_2_PART 300 2.

(** ** Round trip, framing, robustness *)

Lemma cec_round_trip_witness :
  wp (cec_msg_record_on 1 (to_record_src (Digital channel_7_2))) to_tv (λ _ m',
    ∀ rx, typed rx → same_bytes m' rx → parse record_on_codec rx = Ret (Digital channel_7_2)).
Proof.
  apply (cec_round_trip record_on_codec 1 (Digital channel_7_2) to_tv).
  - in_codecs.
  - apply to_tv_typed.
  - split; [by vm_compute|by intros _].
Defined.

Lemma cec_messages_typed_witness :
  wp (cec_msg_routing_change 1 0x12345 0xffff) rubbish (λ _ m',
    typed m' ∧ 2 ≤ len m' ≤ 16 ∧ envelope m' = envelope rubbish).
Proof.
  apply (cec_messages_typed routing_change_codec 1 (0x12345, 0xffff) rubbish).
  - in_codecs.
  - apply rubbish_typed.
  - exact I.
Defined.

Lemma cec_messages_framed_witness :
  wp (cec_msg_routing_change 1 0x1000 0x2100) to_tv (λ _ m',
    carries m' [0x1f; CEC_MSG_ROUTING_CHANGE; 0x10; 0x00; 0x21; 0x00] ∧
    reply m' = CEC_MSG_ROUTING_INFORMATION).
Proof.
  apply (cec_messages_framed routing_change_codec 1 (0x1000, 0x2100) to_tv).
  - in_codecs.
  - apply to_tv_typed.
  - by vm_compute.
Defined.

Lemma cec_parsers_never_overrun_witness :
  no_overrun (parse record_on_codec rubbish) ∧ no_overrun (parse report_features_codec rubbish).
Proof.
  split.
  - apply (cec_parsers_never_overrun record_on_codec); [in_codecs|apply rubbish_typed].
  - apply (cec_parsers_never_overrun report_features_codec); [in_codecs|apply rubbish_typed].
Defined.

(** ** A dialogue, and a refusal *)

Definition give_deck_status_codec : codec :=
  byte_codec CEC_MSG_GIVE_DECK_STATUS false (Some CEC_MSG_DECK_STATUS)
    cec_msg_give_deck_status cec_ops_give_deck_status.
Definition deck_status_codec : codec :=
  byte_codec CEC_MSG_DECK_STATUS false None (λ _, cec_msg_deck_status) cec_ops_deck_status.

Lemma cec_dialogue_witness :
  wp (cec_msg_give_deck_status 1 CEC_OP_STATUS_REQ_ONCE) to_tv (λ _ req,
    wp (cec_msg_set_reply_to req;; cec_msg_deck_status CEC_OP_DECK_INFO_STOP) rubbish (λ _ ans,
      cec_msg_opcode ans = Ret (reply req) ∧
      cec_msg_initiator ans = cec_msg_destination req ∧
      (false = false → cec_msg_destination ans = cec_msg_initiator req) ∧
      cec_ops_deck_status ans = Ret CEC_OP_DECK_INFO_STOP)).
Proof.
  apply (cec_dialogue give_deck_status_codec deck_status_codec 1 CEC_OP_STATUS_REQ_ONCE
           CEC_OP_DECK_INFO_STOP to_tv rubbish).
  - in_codecs.
  - in_codecs.
  - reflexivity.
  - discriminate.
  - apply to_tv_typed.
  - by vm_compute.
  - apply rubbish_typed.
  - by vm_compute.
Defined.

Lemma feature_abort_answers_witness :
  wp (cec_msg_reply_feature_abort CEC_OP_ABORT_REFUSED) to_tv (λ _ m',
    typed m' ∧ carries m' [0x01; CEC_MSG_FEATURE_ABORT; 0; CEC_OP_ABORT_REFUSED] ∧
    reply m' = 0 ∧ timeout m' = 0 ∧
    cec_ops_feature_abort m' = Ret (0, CEC_OP_ABORT_REFUSED) ∧
    cec_msg_initiator m' = cec_msg_destination to_tv ∧
    cec_msg_destination m' = cec_msg_initiator to_tv).
Proof.
  apply (feature_abort_answers 0x10 0 (replicate 14 0)).
  - apply to_tv_typed.
  - reflexivity.
  - by vm_compute.
Defined.

(** ** Devices *)

Lemma address_classes_partition_witness :
  sumZ (address_classes 0x8412) = 0x8412 ∧
  (∀ a, is_bits 4 a → length (filter (λ c, c ≠ 0) (address_classes (2 ^ a))) = 1%nat) ∧
  (Forall (λ c, c = 0) (address_classes 0x8412) ↔ cec_is_unconfigured 0x8412 = true).
Proof. apply (address_classes_partition 0x8412). by vm_compute. Defined.

(** A switch without CDC. *)
Definition a_switch : cec_log_addrs :=
  CecLogAddrs [CEC_LOG_ADDR_UNREGISTERED; 0xff; 0xff; 0xff] 0x8000 5 1 0 0 (replicate 15 0)
    [CEC_OP_PRIM_DEVTYPE_SWITCH; 0; 0; 0] [CEC_LOG_ADDR_TYPE_UNREGISTERED; 0; 0; 0]
    (replicate 4 0) (replicate 4 (replicate 12 0)).

Lemma device_kinds_exclusive_witness :
  kinds a_switch = [Ret false; Ret false; Ret true; Ret false] ∧
  (length (filter (λ b, b = true)
     (kind_table 1 CEC_LOG_ADDR_UNREGISTERED CEC_OP_PRIM_DEVTYPE_SWITCH 0)) ≤ 1)%nat.
Proof.
  exact (device_kinds_exclusive a_switch CEC_LOG_ADDR_UNREGISTERED CEC_OP_PRIM_DEVTYPE_SWITCH
           [0xff; 0xff; 0xff] [0; 0; 0] eq_refl eq_refl).
Defined.

(** ** Deviations *)

Lemma channel_major_folded_witness :
  wp (cec_msg_select_digital_service channel_300_2) to_tv (λ _ m',
    cec_ops_select_digital_service m' zero_service = Ret (received channel_300_2) ∧
    major (channel (received channel_300_2)) = 108 ∧
    (received channel_300_2 = channel_300_2 ↔ 300 < 256)).
Proof.
  apply (channel_major_folded channel_300_2 to_tv).
  - apply to_tv_typed.
  - by vm_compute.
  - reflexivity.
Defined.

(** The channel below 256 arrives. *)
Example channel_7_2_arrives : received channel_7_2 = channel_7_2.
Proof. reflexivity. Qed.

(** A length of 1 stays a length of 1: the message has no opcode. *)
Lemma record_on_unknown_source_witness :
  cec_msg_record_on 1 (RecordSrc 0 zero_service) to_tv = Ret (tt, with_reply CEC_MSG_RECORD_STATUS to_tv).
Proof.
  apply (record_on_unknown_source 1 (RecordSrc 0 zero_service) to_tv).
  apply (bool_decide_unpack _). by vm_compute.
Defined.

Lemma hec_report_state_conflates_witness :
  wp (cec_msg_cdc_hec_report_state 0x1100 1 2 3 0 1 0x00ff;; fill_phys_addr 0x1000) to_tv
    (λ _ m', cec_ops_cdc_hec_report_state m' = Ret (0x1000, 0x1100, 1, 2, 2, 0, 1, 0x00ff)).
Proof.
  apply (hec_report_state_conflates 0x1000 0x1100 1 2 3 0 0x00ff to_tv to_tv_typed);
    by vm_compute.
Defined.

Lemma hec_set_state_is_inquiry_witness :
  wp (cec_msg_cdc_hec_set_state 0x1100 0x1200 1 0x1300 0xffff 0xffff;; fill_phys_addr 0x1000)
    to_tv (λ _ m',
      msg_at m' 4 = Ret CEC_MSG_CDC_HEC_INQUIRE_STATE ∧
      cec_ops_cdc_hec_inquire_state m' = Ret (0x1000, 0x1100, 0x1200)).
Proof.
  apply (hec_set_state_is_inquiry 0x1000 0x1100 0x1200 1 0x1300 0xffff 0xffff to_tv
           to_tv_typed); by vm_compute.
Defined.

Lemma report_features_scan_witness :
  cec_ops_report_features rubbish = Ret (0xff, 0xff, None, None).
Proof.
  exact (report_features_scan rubbish 0xff 0xff rubbish_typed eq_refl eq_refl).
Defined.

Lemma osd_name_fits_witness :
  owp (cec_ops_set_osd_name rubbish (osd_name a_switch)) (λ b,
    length b = 15%nat ∧ holds_string 14 (osd_name a_switch) b).
Proof. apply (osd_name_fits rubbish a_switch); [apply rubbish_typed|reflexivity]. Defined.

Lemma broadcasts_awaiting_reply_witness :
  Forall (λ f, wp f to_tv (λ _ m', cec_msg_is_broadcast m' = Ret true ∧ reply m' ≠ 0))
    [cec_msg_request_active_source 1; cec_msg_routing_change 1 0x1000 0x2100;
     cec_msg_request_current_latency 1 0x1000] ∧
  map opcode (filter (λ c, to_all c = true ∧ answer c ≠ None) basic_codecs) =
    [CEC_MSG_REQUEST_ACTIVE_SOURCE; CEC_MSG_ROUTING_CHANGE; CEC_MSG_REQUEST_CURRENT_LATENCY].
Proof.
  apply (broadcasts_awaiting_reply 0x1000 0x2100 1 to_tv);
    [apply to_tv_typed|discriminate|by vm_compute..].
Defined.
