(* ===== verification/BsdQueue.v ===== *)
(** * The lists of [sys/queue.h]

    The macros of [sys/queue.h]: lists, singly-linked lists, singly-linked tail queues,
    simple queues, tail queues and circular queues.  A head and the entry of an element are
    structs of at most two pointers, so memory maps an object (a head, or an element) and
    one of its two words to a pointer.  A pointer is null, points to an object, or points to
    the first word of an object: [&(elm)->field.tqe_next] and [&(head)->tqh_first].  A tail
    queue reads such a pointer back as a pointer to a head, which works because the two
    structs have the same layout.

    A macro is used with pointers to distinct live objects as arguments; the argument that
    names the field is left out.  An access through a null pointer, through a pointer of the
    other kind, or to an object that is not in memory is undefined. *)

From stdpp Require Import base gmap list.
From S2P Require Import Prelude.

(** ** Memory *)

Abbreviation obj := positive.

(** The first and the second member of a head or of an entry. *)
Inductive word : Type := First | Second.

#[export] Instance word_eq_decision : EqDecision word.
Proof. solve_decision. Defined.
#[export] Program Instance word_countable : Countable word := {|
  encode w := match w with First => 1 | Second => 2 end%positive;
  decode p := Some (if decide (p = 1%positive) then First else Second) |}.
Next Obligation. by intros []. Qed.

Inductive pointer : Type := Null | Obj (o : obj) | Slot (o : obj).

#[export] Instance pointer_eq_decision : EqDecision pointer.
Proof. solve_decision. Defined.

Abbreviation mem := (gmap (obj * word) pointer).

Definition load (o : obj) (w : word) : M mem pointer :=
  m ← mget; moption Dangling (m !! (o, w)).
Definition store (o : obj) (w : word) (p : pointer) : M mem unit :=
  load o w;; mmodify (insert (o, w) p).

(** The object behind [p->], and the word behind [*p]. *)
Definition object (p : pointer) : M mem obj :=
  match p with Obj o => mret o | Null => mub NullDeref | Slot _ => mub WrongObject end.
Definition slot (p : pointer) : M mem obj :=
  match p with Slot o => mret o | Null => mub NullDeref | Obj _ => mub WrongObject end.

Definition is_null (p : pointer) : bool := bool_decide (p = Null).

(** [for (var = v; var != stop; var = next(var)) body]: the elements in the order in which
    the body saw them. *)
Fixpoint for_each (fuel : nat) (next : obj → M mem pointer) (body : obj → M mem unit)
    (stop v : pointer) : M mem (list obj) :=
  match fuel with
  | O => λ _, OutOfFuel
  | S fuel =>
    if decide (v = stop) then mret []
    else
      x ← object v;
      body x;;
      v ← next x;
      l ← for_each fuel next body stop v;
      mret (x :: l)
  end.

(** [while (curelm->next != elm) curelm = curelm->next;] *)
Fixpoint find_before (fuel : nat) (next : obj → M mem pointer) (elm : obj) (curelm : pointer)
    : M mem obj :=
  match fuel with
  | O => λ _, OutOfFuel
  | S fuel =>
    c ← object curelm;
    n ← next c;
    if decide (n = Obj elm) then mret c else find_before fuel next elm n
  end.

(** A loop visits an element once: twice the words in memory are steps enough. *)
Definition steps (m : mem) : nat := S (size m).

(** ** Lists *)

Definition LIST_INIT (head : obj) : M mem unit := store head First Null.

Definition LIST_INSERT_AFTER (listelm elm : obj) : M mem unit :=
  n ← load listelm First;
  store elm First n;;
  (if negb (is_null n) then
     n ← load listelm First; o ← object n; store o Second (Slot elm)
   else mret tt);;
  store listelm First (Obj elm);;
  store elm Second (Slot listelm).

Definition LIST_INSERT_BEFORE (listelm elm : obj) : M mem unit :=
  p ← load listelm Second;
  store elm Second p;;
  store elm First (Obj listelm);;
  p ← load listelm Second; o ← slot p; store o First (Obj elm);;
  store listelm Second (Slot elm).

Definition LIST_INSERT_HEAD (head elm : obj) : M mem unit :=
  n ← load head First;
  store elm First n;;
  (if negb (is_null n) then
     n ← load head First; o ← object n; store o Second (Slot elm)
   else mret tt);;
  store head First (Obj elm);;
  store elm Second (Slot head).

Definition LIST_REMOVE (elm : obj) : M mem unit :=
  n ← load elm First;
  (if negb (is_null n) then
     n ← load elm First; o ← object n; p ← load elm Second; store o Second p
   else mret tt);;
  p ← load elm Second; o ← slot p; n ← load elm First; store o First n.

Definition LIST_EMPTY (head : obj) : M mem bool := p ← load head First; mret (is_null p).
Definition LIST_FIRST (head : obj) : M mem pointer := load head First.
Definition LIST_NEXT (elm : obj) : M mem pointer := load elm First.

Definition LIST_FOREACH (head : obj) (body : obj → M mem unit) : M mem (list obj) :=
  m ← mget; v ← LIST_FIRST head; for_each (steps m) LIST_NEXT body Null v.

(** ** Singly-linked lists *)

Definition SLIST_INIT (head : obj) : M mem unit := store head First Null.

Definition SLIST_INSERT_AFTER (slistelm elm : obj) : M mem unit :=
  n ← load slistelm First;
  store elm First n;;
  store slistelm First (Obj elm).

Definition SLIST_INSERT_HEAD (head elm : obj) : M mem unit :=
  n ← load head First;
  store elm First n;;
  store head First (Obj elm).

Definition SLIST_REMOVE_HEAD (head : obj) : M mem unit :=
  f ← load head First; o ← object f; n ← load o First; store head First n.

Definition SLIST_EMPTY (head : obj) : M mem bool := p ← load head First; mret (is_null p).
Definition SLIST_FIRST (head : obj) : M mem pointer := load head First.
Definition SLIST_NEXT (elm : obj) : M mem pointer := load elm First.

Definition SLIST_REMOVE (head elm : obj) : M mem unit :=
  f ← load head First;
  if decide (f = Obj elm) then SLIST_REMOVE_HEAD head
  else
    m ← mget;
    curelm ← find_before (steps m) SLIST_NEXT elm f;
    n ← load curelm First; o ← object n; n ← load o First; store curelm First n.

Definition SLIST_FOREACH (head : obj) (body : obj → M mem unit) : M mem (list obj) :=
  m ← mget; v ← SLIST_FIRST head; for_each (steps m) SLIST_NEXT body Null v.

(** ** Singly-linked tail queues *)

Definition STAILQ_INIT (head : obj) : M mem unit :=
  store head First Null;;
  store head Second (Slot head).

Definition STAILQ_INSERT_HEAD (head elm : obj) : M mem unit :=
  f ← load head First;
  store elm First f;;
  (if is_null f then store head Second (Slot elm) else mret tt);;
  store head First (Obj elm).

Definition STAILQ_INSERT_TAIL (head elm : obj) : M mem unit :=
  store elm First Null;;
  p ← load head Second; o ← slot p; store o First (Obj elm);;
  store head Second (Slot elm).

Definition STAILQ_INSERT_AFTER (head listelm elm : obj) : M mem unit :=
  n ← load listelm First;
  store elm First n;;
  (if is_null n then store head Second (Slot elm) else mret tt);;
  store listelm First (Obj elm).

Definition STAILQ_REMOVE_HEAD (head : obj) : M mem unit :=
  f ← load head First; o ← object f; n ← load o First;
  store head First n;;
  if is_null n then store head Second (Slot head) else mret tt.

Definition STAILQ_EMPTY (head : obj) : M mem bool := p ← load head First; mret (is_null p).
Definition STAILQ_FIRST (head : obj) : M mem pointer := load head First.
Definition STAILQ_NEXT (elm : obj) : M mem pointer := load elm First.

Definition STAILQ_REMOVE (head elm : obj) : M mem unit :=
  f ← load head First;
  if decide (f = Obj elm) then STAILQ_REMOVE_HEAD head
  else
    m ← mget;
    curelm ← find_before (steps m) STAILQ_NEXT elm f;
    n ← load curelm First; o ← object n; n ← load o First;
    store curelm First n;;
    if is_null n then store head Second (Slot curelm) else mret tt.

Definition STAILQ_FOREACH (head : obj) (body : obj → M mem unit) : M mem (list obj) :=
  m ← mget; v ← STAILQ_FIRST head; for_each (steps m) STAILQ_NEXT body Null v.

Definition STAILQ_CONCAT (head1 head2 : obj) : M mem unit :=
  e ← STAILQ_EMPTY head2;
  if negb e then
    p ← load head1 Second; o ← slot p; f ← load head2 First; store o First f;;
    p ← load head2 Second; store head1 Second p;;
    STAILQ_INIT head2
  else mret tt.

(** ** Simple queues *)

Definition SIMPLEQ_INIT (head : obj) : M mem unit :=
  store head First Null;;
  store head Second (Slot head).

Definition SIMPLEQ_INSERT_HEAD (head elm : obj) : M mem unit :=
  f ← load head First;
  store elm First f;;
  (if is_null f then store head Second (Slot elm) else mret tt);;
  store head First (Obj elm).

Definition SIMPLEQ_INSERT_TAIL (head elm : obj) : M mem unit :=
  store elm First Null;;
  p ← load head Second; o ← slot p; store o First (Obj elm);;
  store head Second (Slot elm).

Definition SIMPLEQ_INSERT_AFTER (head listelm elm : obj) : M mem unit :=
  n ← load listelm First;
  store elm First n;;
  (if is_null n then store head Second (Slot elm) else mret tt);;
  store listelm First (Obj elm).

Definition SIMPLEQ_REMOVE_HEAD (head : obj) : M mem unit :=
  f ← load head First; o ← object f; n ← load o First;
  store head First n;;
  if is_null n then store head Second (Slot head) else mret tt.

Definition SIMPLEQ_EMPTY (head : obj) : M mem bool := p ← load head First; mret (is_null p).
Definition SIMPLEQ_FIRST (head : obj) : M mem pointer := load head First.
Definition SIMPLEQ_NEXT (elm : obj) : M mem pointer := load elm First.

Definition SIMPLEQ_REMOVE (head elm : obj) : M mem unit :=
  f ← load head First;
  if decide (f = Obj elm) then SIMPLEQ_REMOVE_HEAD head
  else
    m ← mget;
    curelm ← find_before (steps m) SIMPLEQ_NEXT elm f;
    n ← load curelm First; o ← object n; n ← load o First;
    store curelm First n;;
    if is_null n then store head Second (Slot curelm) else mret tt.

Definition SIMPLEQ_FOREACH (head : obj) (body : obj → M mem unit) : M mem (list obj) :=
  m ← mget; v ← SIMPLEQ_FIRST head; for_each (steps m) SIMPLEQ_NEXT body Null v.

(** ** Tail queues *)

Definition TAILQ_INIT (head : obj) : M mem unit :=
  store head First Null;;
  store head Second (Slot head).

Definition TAILQ_INSERT_HEAD (head elm : obj) : M mem unit :=
  f ← load head First;
  store elm First f;;
  (if negb (is_null f) then
     f ← load head First; o ← object f; store o Second (Slot elm)
   else store head Second (Slot elm));;
  store head First (Obj elm);;
  store elm Second (Slot head).

Definition TAILQ_INSERT_TAIL (head elm : obj) : M mem unit :=
  store elm First Null;;
  p ← load head Second; store elm Second p;;
  p ← load head Second; o ← slot p; store o First (Obj elm);;
  store head Second (Slot elm).

Definition TAILQ_INSERT_AFTER (head listelm elm : obj) : M mem unit :=
  n ← load listelm First;
  store elm First n;;
  (if negb (is_null n) then
     n ← load elm First; o ← object n; store o Second (Slot elm)
   else store head Second (Slot elm));;
  store listelm First (Obj elm);;
  store elm Second (Slot listelm).

Definition TAILQ_INSERT_BEFORE (listelm elm : obj) : M mem unit :=
  p ← load listelm Second;
  store elm Second p;;
  store elm First (Obj listelm);;
  p ← load listelm Second; o ← slot p; store o First (Obj elm);;
  store listelm Second (Slot elm).

Definition TAILQ_REMOVE (head elm : obj) : M mem unit :=
  n ← load elm First;
  (if negb (is_null n) then
     n ← load elm First; o ← object n; p ← load elm Second; store o Second p
   else p ← load elm Second; store head Second p);;
  p ← load elm Second; o ← slot p; n ← load elm First; store o First n.

Definition TAILQ_EMPTY (head : obj) : M mem bool := p ← load head First; mret (is_null p).
Definition TAILQ_FIRST (head : obj) : M mem pointer := load head First.
Definition TAILQ_NEXT (elm : obj) : M mem pointer := load elm First.

(** [*(((struct headname * )p)->tqh_last)]: the second word of the object whose first word
    [p] points to, and what that points to. *)
Definition last_of (p : pointer) : M mem pointer :=
  o ← slot p; q ← load o Second; o ← slot q; load o First.

Definition TAILQ_LAST (head : obj) : M mem pointer := p ← load head Second; last_of p.
Definition TAILQ_PREV (elm : obj) : M mem pointer := p ← load elm Second; last_of p.

Definition TAILQ_FOREACH (head : obj) (body : obj → M mem unit) : M mem (list obj) :=
  m ← mget; v ← TAILQ_FIRST head; for_each (steps m) TAILQ_NEXT body Null v.
Definition TAILQ_FOREACH_REVERSE (head : obj) (body : obj → M mem unit) : M mem (list obj) :=
  m ← mget; v ← TAILQ_LAST head; for_each (steps m) TAILQ_PREV body Null v.

Definition TAILQ_CONCAT (head1 head2 : obj) : M mem unit :=
  e ← TAILQ_EMPTY head2;
  if negb e then
    p ← load head1 Second; o ← slot p; f ← load head2 First; store o First f;;
    f ← load head2 First; o ← object f; p ← load head1 Second; store o Second p;;
    p ← load head2 Second; store head1 Second p;;
    TAILQ_INIT head2
  else mret tt.

(** ** Circular queues *)

(** The head itself, as a [void *], ends the queue in both directions. *)
Definition CIRCLEQ_INIT (head : obj) : M mem unit :=
  store head First (Obj head);;
  store head Second (Obj head).

Definition CIRCLEQ_INSERT_AFTER (head listelm elm : obj) : M mem unit :=
  n ← load listelm First; store elm First n;;
  store elm Second (Obj listelm);;
  n ← load listelm First;
  (if decide (n = Obj head) then store head Second (Obj elm)
   else o ← object n; store o Second (Obj elm));;
  store listelm First (Obj elm).

Definition CIRCLEQ_INSERT_BEFORE (head listelm elm : obj) : M mem unit :=
  store elm First (Obj listelm);;
  p ← load listelm Second; store elm Second p;;
  p ← load listelm Second;
  (if decide (p = Obj head) then store head First (Obj elm)
   else o ← object p; store o First (Obj elm));;
  store listelm Second (Obj elm).

Definition CIRCLEQ_INSERT_HEAD (head elm : obj) : M mem unit :=
  f ← load head First; store elm First f;;
  store elm Second (Obj head);;
  l ← load head Second;
  (if decide (l = Obj head) then store head Second (Obj elm)
   else f ← load head First; o ← object f; store o Second (Obj elm));;
  store head First (Obj elm).

Definition CIRCLEQ_INSERT_TAIL (head elm : obj) : M mem unit :=
  store elm First (Obj head);;
  l ← load head Second; store elm Second l;;
  f ← load head First;
  (if decide (f = Obj head) then store head First (Obj elm)
   else l ← load head Second; o ← object l; store o First (Obj elm));;
  store head Second (Obj elm).

Definition CIRCLEQ_REMOVE (head elm : obj) : M mem unit :=
  n ← load elm First;
  (if decide (n = Obj head) then p ← load elm Second; store head Second p
   else n ← load elm First; o ← object n; p ← load elm Second; store o Second p);;
  p ← load elm Second;
  (if decide (p = Obj head) then n ← load elm First; store head First n
   else p ← load elm Second; o ← object p; n ← load elm First; store o First n).

Definition CIRCLEQ_EMPTY (head : obj) : M mem bool :=
  p ← load head First; mret (bool_decide (p = Obj head)).
Definition CIRCLEQ_FIRST (head : obj) : M mem pointer := load head First.
Definition CIRCLEQ_LAST (head : obj) : M mem pointer := load head Second.
Definition CIRCLEQ_NEXT (elm : obj) : M mem pointer := load elm First.
Definition CIRCLEQ_PREV (elm : obj) : M mem pointer := load elm Second.

Definition CIRCLEQ_LOOP_NEXT (head elm : obj) : M mem pointer :=
  n ← load elm First;
  if decide (n = Obj head) then load head First else load elm First.
Definition CIRCLEQ_LOOP_PREV (head elm : obj) : M mem pointer :=
  p ← load elm Second;
  if decide (p = Obj head) then load head Second else load elm Second.

Definition CIRCLEQ_FOREACH (head : obj) (body : obj → M mem unit) : M mem (list obj) :=
  m ← mget; v ← CIRCLEQ_FIRST head; for_each (steps m) CIRCLEQ_NEXT body (Obj head) v.
Definition CIRCLEQ_FOREACH_REVERSE (head : obj) (body : obj → M mem unit)
    : M mem (list obj) :=
  m ← mget; v ← CIRCLEQ_LAST head; for_each (steps m) CIRCLEQ_PREV body (Obj head) v.
