(* ===== verification/BsdQueueCells.v ===== *)
(** * The memory of a list

    A list in memory is a list of cells, an address with the pointer it holds: the forward
    pointers [nexts], the backward pointers [prevs], and what the head remembers of the
    end.  The lemmas say how the cells of a list fall apart at an element and which stores
    leave them alone; the rules execute loads and stores. *)

From stdpp Require Import base gmap list sets.
From Stdlib Require Import Lia.
From S2P Require Import Prelude BsdQueue.

(** ** Cells *)

Abbreviation cell := ((obj * word) * pointer)%type.

Definition holds (m : mem) (cs : list cell) : Prop := Forall (λ c, m !! c.1 = Some c.2) cs.

(** The forward pointers of [a] and the elements after it up to the last one... *)
Fixpoint ninit (a : obj) (l : list obj) : list cell :=
  match l with [] => [] | b :: l => ((a, First), Obj b) :: ninit b l end.
(** ...the last one... *)
Fixpoint last_obj (a : obj) (l : list obj) : obj :=
  match l with [] => a | b :: l => last_obj b l end.
(** ...and where it points to. *)
Definition nexts (a : obj) (l : list obj) (z : pointer) : list cell :=
  ninit a l ++ [((last_obj a l, First), z)].

(** The backward pointers of the elements after [a]. *)
Fixpoint prevs (f : obj → pointer) (a : obj) (l : list obj) : list cell :=
  match l with [] => [] | b :: l => ((b, Second), f a) :: prevs f b l end.

Lemma holds_app m cs ds : holds m (cs ++ ds) ↔ holds m cs ∧ holds m ds.
Proof. unfold holds. by rewrite Forall_app. Qed.

Lemma holds_cons m a p cs : holds m ((a, p) :: cs) ↔ m !! a = Some p ∧ holds m cs.
Proof. unfold holds. by rewrite Forall_cons. Qed.

Lemma holds_one m a p : holds m [(a, p)] ↔ m !! a = Some p.
Proof. rewrite holds_cons. unfold holds. rewrite Forall_nil. tauto. Qed.

Lemma holds_nil m : holds m [].
Proof. by apply Forall_nil. Qed.

Lemma holds_ext m m' cs :
  (∀ a, a ∈ cs.*1 → m' !! a = m !! a) → holds m cs → holds m' cs.
Proof.
  unfold holds. induction cs as [|[a p] cs IH]; intros He H; [done|].
  apply Forall_cons in H as [H1 H2]. apply Forall_cons. split.
  - simpl. rewrite He; [done|left].
  - apply IH; [|done]. intros b Hb. apply He. by right.
Qed.

(** A store elsewhere. *)
Lemma holds_insert m a p cs : a ∉ cs.*1 → holds m cs → holds (<[a := p]> m) cs.
Proof.
  intros Ha. apply holds_ext. intros b Hb. rewrite lookup_insert_ne; [done|].
  by intros ->.
Qed.

(** ** Where the cells are *)

(** [a :: l] without its last element. *)
Fixpoint but_last_of (a : obj) (l : list obj) : list obj :=
  match l with [] => [] | b :: l => a :: but_last_of b l end.

Lemma ninit_fst a l o w : (o, w) ∈ (ninit a l).*1 ↔ w = First ∧ o ∈ but_last_of a l.
Proof.
  revert a. induction l as [|b l IH]; intros a; simpl; [by rewrite !elem_of_nil; tauto|].
  rewrite !elem_of_cons, IH. naive_solver.
Qed.

Lemma last_obj_in a l : last_obj a l ∈ a :: l.
Proof. revert a. induction l; simpl; intros; set_solver. Qed.

Lemma all_but_last a l o : o ∈ a :: l ↔ o ∈ but_last_of a l ∨ o = last_obj a l.
Proof.
  revert a. induction l as [|b l IH]; intros a; simpl; [set_solver|].
  rewrite !(elem_of_cons _ o a), IH. tauto.
Qed.

Lemma last_obj_out a l : NoDup (a :: l) → last_obj a l ∉ but_last_of a l.
Proof.
  revert a. induction l as [|b l IH]; intros a Hn; simpl; [set_solver|].
  apply NoDup_cons in Hn as [Ha Hn]. pose proof (last_obj_in b l).
  specialize (IH b Hn). set_solver.
Qed.

Lemma nexts_fst a l z o w : (o, w) ∈ (nexts a l z).*1 ↔ w = First ∧ o ∈ a :: l.
Proof.
  unfold nexts. rewrite fmap_app, elem_of_app, ninit_fst, all_but_last. simpl.
  rewrite list_elem_of_singleton. naive_solver.
Qed.

Lemma prevs_fst f a l o w : (o, w) ∈ (prevs f a l).*1 ↔ w = Second ∧ o ∈ l.
Proof.
  revert a. induction l as [|b l IH]; intros a; simpl; [set_solver|].
  rewrite !elem_of_cons, IH. naive_solver.
Qed.

(** A store that leaves cells alone. *)
Lemma out_nexts a l z o w : w ≠ First ∨ (o ≠ a ∧ o ∉ l) → (o, w) ∉ (nexts a l z).*1.
Proof. rewrite nexts_fst, elem_of_cons. tauto. Qed.

Lemma out_prevs f a l o w : w ≠ Second ∨ o ∉ l → (o, w) ∉ (prevs f a l).*1.
Proof. rewrite prevs_fst. tauto. Qed.

Lemma holds_present m cs a : holds m cs → a ∈ cs.*1 → is_Some (m !! a).
Proof.
  intros H (c & -> & Hc)%list_elem_of_fmap. unfold holds in H. rewrite Forall_forall in H.
  eexists. by apply H.
Qed.

(** Memory that agrees on the objects of a list. *)
Definition agree (os : list obj) (m m' : mem) : Prop :=
  ∀ o w, o ∈ os → m' !! (o, w) = m !! (o, w).

Lemma nexts_frame m m' a l z :
  agree (a :: l) m m' → holds m (nexts a l z) → holds m' (nexts a l z).
Proof. intros He. apply holds_ext. intros [o w] [_ Ho]%nexts_fst. by apply He. Qed.

Lemma prevs_frame f m m' a l :
  agree (a :: l) m m' → holds m (prevs f a l) → holds m' (prevs f a l).
Proof. intros He. apply holds_ext. intros [o w] [_ Ho]%prevs_fst. apply He. by right. Qed.

(** ** How they fall apart *)

Lemma last_obj_app a l1 b l2 : last_obj a (l1 ++ b :: l2) = last_obj b l2.
Proof. revert a. induction l1 as [|c l1 IH]; intros a; simpl; [done|apply IH]. Qed.

Lemma nexts_app a l1 b l2 z : nexts a (l1 ++ b :: l2) z = nexts a l1 (Obj b) ++ nexts b l2 z.
Proof.
  unfold nexts. rewrite last_obj_app, app_assoc. f_equal.
  revert a. induction l1 as [|c l1 IH]; intros a; simpl; [done|]. by rewrite IH.
Qed.

Lemma nexts_nil a z : nexts a [] z = [((a, First), z)].
Proof. done. Qed.

Lemma nexts_cons a b l z : nexts a (b :: l) z = ((a, First), Obj b) :: nexts b l z.
Proof. done. Qed.

Lemma prevs_app f a l1 b l2 :
  prevs f a (l1 ++ b :: l2) = prevs f a l1 ++ ((b, Second), f (last_obj a l1)) :: prevs f b l2.
Proof. revert a. induction l1 as [|c l1 IH]; intros a; simpl; [done|]. by rewrite IH. Qed.

(** The last pointer can be redirected. *)
Lemma holds_redirect m a l z z' :
  NoDup (a :: l) → holds m (nexts a l z) →
  holds (<[(last_obj a l, First) := z']> m) (nexts a l z').
Proof.
  intros Hn H. apply holds_app in H as [H _]. apply holds_app. split.
  - apply holds_insert; [|done]. rewrite ninit_fst. intros [_ Hin].
    by apply (last_obj_out a l).
  - apply holds_one, lookup_insert_eq.
Qed.

Lemma holds_last m a l z : holds m (nexts a l z) → m !! (last_obj a l, First) = Some z.
Proof. intros H. apply holds_app in H as [_ H]. by apply holds_one in H. Qed.

(** ** Distinct objects *)

Implicit Types (h x e : obj) (l : list obj).

Lemma nodup_insert h l1 l2 e :
  NoDup (h :: l1 ++ l2) → e ∉ h :: l1 ++ l2 → NoDup (h :: l1 ++ e :: l2).
Proof.
  intros Hn He.
  change (h :: l1 ++ e :: l2) with ((h :: l1) ++ e :: l2).
  rewrite <- Permutation_middle. by apply NoDup_cons.
Qed.

Lemma nodup_after h l1 x l2 e :
  NoDup (h :: l1 ++ x :: l2) → e ∉ h :: l1 ++ x :: l2 → NoDup (h :: l1 ++ x :: e :: l2).
Proof.
  intros Hn He. pose proof (nodup_insert h (l1 ++ [x]) l2 e) as H.
  rewrite <- !app_assoc in H. by apply H.
Qed.

Lemma nodup_tail h l e : NoDup (h :: l) → e ∉ h :: l → NoDup (h :: l ++ [e]).
Proof. intros Hn He. apply nodup_insert; by rewrite app_nil_r. Qed.

Lemma nodup_remove h l1 x l2 : NoDup (h :: l1 ++ x :: l2) → NoDup (h :: l1 ++ l2).
Proof.
  change (h :: l1 ++ x :: l2) with ((h :: l1) ++ x :: l2). rewrite <- Permutation_middle.
  by intros [_ H]%NoDup_cons.
Qed.

Lemma nodup_front h l1 l2 : NoDup (h :: l1 ++ l2) → NoDup (h :: l1).
Proof. rewrite app_comm_cons. by intros [H _]%NoDup_app. Qed.

Lemma disjoint_cons l1 x l2 :
  (∀ y, y ∈ l1 → y ∉ x :: l2) → (x ∉ l1) ∧ (∀ y, y ∈ l1 → y ∉ l2).
Proof.
  intros H. split.
  - intros Hx. apply (H x Hx). by left.
  - intros y Hy Hy2. apply (H y Hy). by right.
Qed.

(** The last object before the list is cut. *)
Lemma last_obj_distinct h l1 x l2 :
  NoDup (h :: l1 ++ x :: l2) →
  (last_obj h l1 = h ∨ last_obj h l1 ∈ l1) ∧ last_obj h l1 ≠ x ∧ last_obj h l1 ∉ l2.
Proof.
  intros Hn. pose proof (last_obj_in h l1) as Hin. apply elem_of_cons in Hin.
  change (h :: l1 ++ x :: l2) with ((h :: l1) ++ x :: l2) in Hn.
  apply NoDup_app in Hn as (_ & Hd & _).
  assert (last_obj h l1 ∈ h :: l1) as Hc by (by apply elem_of_cons).
  specialize (Hd _ Hc). apply not_elem_of_cons in Hd. tauto.
Qed.
Lemma last_obj_tail h l e : e ∉ h :: l → last_obj h l ≠ e ∧ (last_obj h l = h ∨ last_obj h l ∈ l).
Proof.
  intros He. pose proof (last_obj_in h l) as Hin. split; [by intros <-|by apply elem_of_cons].
Qed.
Lemma last_obj_head h l : NoDup (h :: l) → last_obj h l = h → l = [].
Proof.
  intros Hnd E. destruct l as [|b l]; [done|]. apply NoDup_cons in Hnd as [Hout _].
  pose proof (last_obj_in b l). cbn [last_obj] in E. by rewrite E in *.
Qed.
Lemma last_obj_rest h b l : NoDup (h :: b :: l) → last_obj b l ≠ h ∧ (last_obj b l = b ∨ last_obj b l ∈ l).
Proof.
  intros [Hout _]%NoDup_cons. pose proof (last_obj_in b l) as Hin.
  split; [by intros E; rewrite E in Hin|by apply elem_of_cons].
Qed.
Lemma last_obj_new h l1 x l2 e : e ∉ h :: l1 ++ x :: l2 → last_obj h l1 ≠ e.
Proof. intros He <-. apply He. pose proof (last_obj_in h l1). set_solver. Qed.

(** ** Frames *)

(** Only the objects of [os] changed, and no word appeared or disappeared. *)
Record changed (os : list obj) (m m' : mem) : Prop := {
  changed_dom : dom m' = dom m;
  changed_others o w : o ∉ os → m' !! (o, w) = m !! (o, w) }.

Lemma changed_refl os m : changed os m m.
Proof. by split. Qed.

Lemma changed_insert os m m' o w p :
  changed os m m' → o ∈ os → is_Some (m' !! (o, w)) → changed os m (<[(o, w) := p]> m').
Proof.
  intros [Hd Ho] Hin Hs. split.
  - rewrite dom_insert_lookup_L; done.
  - intros o' w' Hn. rewrite lookup_insert_ne; [by apply Ho|]. intros [=]. by subst.
Qed.

Lemma changed_is_Some os m m' a : changed os m m' → is_Some (m !! a) → is_Some (m' !! a).
Proof. intros [Hd _]. rewrite <- !elem_of_dom, Hd. done. Qed.

Lemma changed_mono os os' m m' : changed os m m' → os ⊆ os' → changed os' m m'.
Proof. intros [Hd Ho] Hs. split; [done|]. intros o w Hn. apply Ho. set_solver. Qed.

Lemma changed_trans os m m' m'' : changed os m m' → changed os m' m'' → changed os m m''.
Proof.
  intros [Hd Ho] [Hd' Ho']. split; [congruence|]. intros o w Hn. by rewrite Ho', Ho.
Qed.

(** ** Rules *)

Lemma wp_load (o : obj) (w : word) (p : pointer) (m : mem) (Q : pointer → mem → Prop) :
  m !! (o, w) = Some p → Q p m → wp (load o w) m Q.
Proof. intros E HQ. apply wp_bind, wp_get. by eapply wp_option. Qed.

Lemma wp_store (o : obj) (w : word) (p : pointer) (m : mem) (Q : unit → mem → Prop) :
  is_Some (m !! (o, w)) → Q tt (<[(o, w) := p]> m) → wp (store o w p) m Q.
Proof. intros [q E] HQ. apply wp_bind. by eapply wp_load. Qed.

(** ** Loops *)

(** What the element before [l] points to. *)
Definition target (l : list obj) (z : pointer) : pointer :=
  match l with [] => z | b :: _ => Obj b end.

Lemma nexts_target m a l z : holds m (nexts a l z) → m !! (a, First) = Some (target l z).
Proof. destruct l as [|b l]; [by rewrite nexts_nil, holds_one|by rewrite nexts_cons, holds_cons; intros []]. Qed.

Lemma nexts_at m a l1 x l2 z :
  holds m (nexts a (l1 ++ x :: l2) z) → m !! (x, First) = Some (target l2 z).
Proof. rewrite nexts_app, holds_app. intros [_ H]. by apply nexts_target in H. Qed.

(** A loop with an invariant over the elements it has seen and those it has not. *)
Lemma wp_for_each (next : obj → M mem pointer) (body : obj → M mem unit) (z : pointer)
    (I : list obj → list obj → mem → Prop) :
  (∀ x, Obj x = z → ∀ seen rest m, ¬ I seen (x :: rest) m) →
  (∀ seen x rest m, I seen (x :: rest) m →
    wp (body x) m (λ _ m1, wp (next x) m1 (λ p m2, p = target rest z ∧ I (seen ++ [x]) rest m2))) →
  ∀ rest seen m fuel, I seen rest m → (length rest < fuel)%nat →
  wp (for_each fuel next body z (target rest z)) m
    (λ vs m', vs = rest ∧ I (seen ++ rest) [] m').
Proof.
  intros Hz Hstep rest. induction rest as [|x rest IH]; intros seen m fuel HI Hf;
    (destruct fuel as [|fuel]; [simpl in Hf; lia|]); cbn [for_each target].
  - rewrite decide_True by done. apply wp_ret. by rewrite app_nil_r.
  - rewrite decide_False by (intros E; by eapply Hz).
    apply wp_bind, wp_ret, wp_bind. eapply wp_mono; [by apply Hstep|].
    intros ? m1 H1. apply wp_bind. eapply wp_mono; [exact H1|].
    intros p m2 [-> HI2]. apply wp_bind. eapply wp_mono; [apply IH; [exact HI2|simpl in Hf; lia]|].
    intros vs m' [-> HI']. apply wp_ret. by rewrite <- app_assoc in HI'.
Qed.

(** The fuel of the loops. *)
Lemma nexts_steps m h l z :
  NoDup (h :: l) → holds m (nexts h l z) → (length l < steps m)%nat.
Proof.
  intros Hn Hh. apply NoDup_cons in Hn as [_ Hn].
  unfold steps. apply Nat.lt_succ_r. rewrite <- size_dom.
  assert (length l = size (list_to_set ((λ o, (o, First)) <$> l) : gset (obj * word))) as ->.
  { rewrite size_list_to_set, length_fmap; [done|].
    apply NoDup_fmap_2; [|done]. by intros ?? [=]. }
  apply subseteq_size. intros a Ha. apply elem_of_list_to_set, list_elem_of_fmap in Ha as (x & -> & Hx).
  apply list_elem_of_split in Hx as (l1 & l2 & ->). apply elem_of_dom. eexists.
  by apply (nexts_at _ _ _ _ _ _ Hh).
Qed.

(** Forward over a list whose body keeps [rep] and moves [I] on. *)
Lemma wp_forward (body : obj → M mem unit) (rep : mem → Prop) (I : list obj → mem → Prop)
    (h : obj) (l : list obj) (z : pointer) (m : mem) :
  (∀ m, rep m → NoDup (h :: l) ∧ holds m (nexts h l z)) → z = Null ∨ z = Obj h →
  rep m → I [] m →
  (∀ seen x rest m, l = seen ++ x :: rest → rep m → I seen m →
    wp (body x) m (λ _ m', rep m' ∧ I (seen ++ [x]) m')) →
  wp (m ← mget; v ← load h First; for_each (steps m) (λ e, load e First) body z v) m
    (λ vs m', vs = l ∧ rep m' ∧ I l m').
Proof.
  intros Hrep Hz Hm HI Hbody. destruct (Hrep m Hm) as [Hnd Hn].
  apply wp_bind, wp_get, wp_bind. eapply wp_load; [by apply (nexts_target _ _ _ _ Hn)|].
  eapply wp_mono; [eapply (wp_for_each _ _ z (λ seen rest m, l = seen ++ rest ∧ rep m ∧ I seen m))
    with (seen := [])|].
  - intros x <- seen rest m' (-> & _). destruct Hz as [[=]|[= ->]].
    apply NoDup_cons in Hnd as [Hout _]. set_solver.
  - intros seen x rest m1 (-> & Hm1 & HI1). eapply wp_mono; [by eapply Hbody|].
    intros ? m2 [Hm2 HI2]. eapply wp_load; [eapply (nexts_at _ _ seen), (Hrep m2 Hm2)|].
    split; [done|]. by rewrite <- app_assoc.
  - done.
  - by eapply nexts_steps.
  - intros vs m' (-> & _ & Hm' & HI'). by rewrite app_nil_l in HI'.
Qed.

(** The element before another. *)
Lemma wp_find_before (c : obj) (l1 : list obj) (x : obj) (l2 : list obj) (z : pointer) (m : mem)
    (fuel : nat) :
  NoDup (c :: l1 ++ x :: l2) → holds m (nexts c (l1 ++ x :: l2) z) → (length l1 < fuel)%nat →
  wp (find_before fuel (λ e, load e First) x (Obj c)) m
    (λ r m', r = last_obj c l1 ∧ m' = m).
Proof.
  revert c fuel. induction l1 as [|b l1 IH]; intros c fuel Hnd Hh Hf;
    (destruct fuel as [|fuel]; [simpl in Hf; lia|]); cbn [find_before];
    apply wp_bind, wp_ret, wp_bind; (eapply wp_load; [by apply (nexts_target _ _ _ _ Hh)|]);
    cbn [target app].
  - rewrite decide_True by done. by apply wp_ret.
  - rewrite decide_False.
    + cbn [app] in Hh. rewrite nexts_cons, holds_cons in Hh. destruct Hh as [_ Hh].
      apply IH; [by apply NoDup_cons in Hnd as [_ Hnd]|done|simpl in Hf; lia].
    + intros [= ->]. rewrite <- app_comm_cons, !NoDup_cons in Hnd. set_solver.
Qed.

Lemma wp_find_steps (h c : obj) (l1 : list obj) (x : obj) (l2 : list obj) (z : pointer)
    (m : mem) :
  NoDup (h :: c :: l1 ++ x :: l2) → holds m (nexts h (c :: l1 ++ x :: l2) z) →
  wp (find_before (steps m) (λ e, load e First) x (Obj c)) m
    (λ r m', r = last_obj c l1 ∧ m' = m).
Proof.
  intros Hnd Hn. pose proof (nexts_steps _ _ _ _ Hnd Hn) as Hs.
  rewrite nexts_cons, holds_cons in Hn. apply NoDup_cons in Hnd as [_ Hnd].
  eapply (wp_find_before c l1 x l2); [done|apply Hn|].
  cbn [length] in Hs. rewrite length_app in Hs. lia.
Qed.

(** Backward over a list. *)
Lemma wp_backward (prev : obj → M mem pointer) (body : obj → M mem unit) (rep : mem → Prop)
    (I : list obj → mem → Prop) (h : obj) (l : list obj) (z : pointer) (m : mem) (fuel : nat) :
  NoDup (h :: l) → z = Null ∨ z = Obj h →
  (∀ m l1 x l2, rep m → l = l1 ++ x :: l2 →
    wp (prev x) m (λ p m', p = target (reverse l1) z ∧ m' = m)) →
  rep m → I [] m → (length l < fuel)%nat →
  (∀ seen x rest m, reverse l = seen ++ x :: rest → rep m → I seen m →
    wp (body x) m (λ _ m', rep m' ∧ I (seen ++ [x]) m')) →
  wp (for_each fuel prev body z (target (reverse l) z)) m
    (λ vs m', vs = reverse l ∧ rep m' ∧ I (reverse l) m').
Proof.
  intros Hnd Hz Hprev Hm HI Hf Hbody.
  eapply wp_mono; [eapply (wp_for_each _ _ z
    (λ seen rest m, reverse l = seen ++ rest ∧ rep m ∧ I seen m)) with (seen := [])|].
  - intros x <- seen rest m' (Hl & _). destruct Hz as [[=]|[= ->]].
    apply NoDup_cons in Hnd as [Hout _]. apply Hout. rewrite <- elem_of_reverse, Hl. set_solver.
  - intros seen x rest m1 (Hl & Hm1 & HI1). eapply wp_mono; [by eapply Hbody|].
    intros ? m2 [Hm2 HI2].
    eapply wp_mono; [apply (Hprev m2 (reverse rest) x (reverse seen) Hm2)|].
    + by rewrite <- (reverse_involutive l), Hl, reverse_app, reverse_cons, <- app_assoc.
    + intros p m' [-> ->]. rewrite reverse_involutive, <- app_assoc. done.
  - done.
  - by rewrite length_reverse.
  - intros vs m' (-> & _ & Hm' & HI'). by rewrite app_nil_l in HI'.
Qed.

Lemma last_target (h : obj) (l : list obj) : target (reverse l) (Obj h) = Obj (last_obj h l).
Proof.
  induction l as [|y l _] using rev_ind; [done|]. by rewrite reverse_snoc, last_obj_app.
Qed.
