(* ===== verification/BsdQueueSpec.v ===== *)
(** * The lists of [sys/queue.h] as sequences

    [Queue] is what the six families have in common, with the predicate that relates memory
    to the sequence it holds; [QueueLaws] is what their users rely on: every operation is
    the one on sequences, keeps the words of memory, and touches nothing but the objects of
    its list.  Each family is an instance. *)

From stdpp Require Import base gmap list sets.
From S2P Require Import Prelude BsdQueue BsdQueueCells.

(** ** The interface *)

Class Queue : Type := {
  q_words : list word;    (** the words of an entry *)
  q_head : list word;     (** the words of a head *)
  q_rep : mem → obj → list obj → Prop;
  q_init : obj → M mem unit;
  q_insert_head : obj → obj → M mem unit;
  q_insert_tail : option (obj → obj → M mem unit);
  q_insert_after : obj → obj → obj → M mem unit;
  q_insert_before : option (obj → obj → obj → M mem unit);
  q_remove : obj → obj → M mem unit;
  q_empty : obj → M mem bool;
  q_foreach : obj → (obj → M mem unit) → M mem (list obj) }.

(** The words an object needs are in memory. *)
Definition has_words (ws : list word) (m : mem) (o : obj) : Prop :=
  ∀ w, w ∈ ws → is_Some (m !! (o, w)).

(** After an operation: the list [l], and nothing changed but the objects [os]. *)
Definition now_holds `{Queue} (h : obj) (l os : list obj) (m m' : mem) : Prop :=
  q_rep m' h l ∧ changed os m m'.

Class QueueLaws (Q : Queue) : Prop := {
  q_nodup m h l : q_rep m h l → NoDup (h :: l);
  q_present m h l e : q_rep m h l → e ∈ l → has_words q_words m e;
  q_frame m m' h l :
    q_rep m h l → agree (h :: l) m m' → q_rep m' h l;
  q_init_ok m h :
    has_words q_head m h → wp (q_init h) m (λ _ m', now_holds h [] [h] m m');
  q_insert_head_ok m h l e :
    q_rep m h l → e ∉ h :: l → has_words q_words m e →
    wp (q_insert_head h e) m (λ _ m', now_holds h (e :: l) (e :: h :: l) m m');
  q_insert_tail_ok m h l e f :
    q_insert_tail = Some f → q_rep m h l → e ∉ h :: l → has_words q_words m e →
    wp (f h e) m (λ _ m', now_holds h (l ++ [e]) (e :: h :: l) m m');
  q_insert_after_ok m h l1 x l2 e :
    q_rep m h (l1 ++ x :: l2) → e ∉ h :: l1 ++ x :: l2 → has_words q_words m e →
    wp (q_insert_after h x e) m
      (λ _ m', now_holds h (l1 ++ x :: e :: l2) (e :: h :: l1 ++ x :: l2) m m');
  q_insert_before_ok m h l1 x l2 e f :
    q_insert_before = Some f →
    q_rep m h (l1 ++ x :: l2) → e ∉ h :: l1 ++ x :: l2 → has_words q_words m e →
    wp (f h x e) m
      (λ _ m', now_holds h (l1 ++ e :: x :: l2) (e :: h :: l1 ++ x :: l2) m m');
  q_remove_ok m h l1 x l2 :
    q_rep m h (l1 ++ x :: l2) →
    wp (q_remove h x) m (λ _ m', now_holds h (l1 ++ l2) (h :: l1 ++ x :: l2) m m');
  q_empty_ok m h l :
    q_rep m h l → wp (q_empty h) m (λ b m', b = bool_decide (l = []) ∧ m' = m);
  q_foreach_ok m h l body (I : list obj → mem → Prop) :
    q_rep m h l → I [] m →
    (∀ seen x rest m, l = seen ++ x :: rest → q_rep m h l → I seen m →
      wp (body x) m (λ _ m', q_rep m' h l ∧ I (seen ++ [x]) m')) →
    wp (q_foreach h body) m (λ vs m', vs = l ∧ q_rep m' h l ∧ I l m') }.

(** ** Tactics *)

(** A fact the tactics below do not take apart. *)
Definition kept (P : Prop) : Prop := P.
Ltac q_keep t := let H := fresh in pose proof t as H; let P := type of H in
  change (kept P) in H.

(** The objects of a list are distinct: the facts one by one. *)
Ltac q_flat H :=
  repeat first
    [ rewrite not_elem_of_cons in H | rewrite not_elem_of_app in H | rewrite NoDup_cons in H
    | rewrite NoDup_app in H ].
Ltac q_distinct :=
  repeat match goal with
  | H : NoDup (_ :: _) |- _ => progress q_flat H
  | H : NoDup (_ ++ _) |- _ => progress q_flat H
  | H : _ ∉ _ :: _ |- _ => progress q_flat H
  | H : _ ∉ _ ++ _ |- _ => progress q_flat H
  | H : ∀ y, y ∈ _ → y ∉ _ :: _ |- _ => apply disjoint_cons in H
  | H : _ ∧ _ |- _ => destruct H
  end.

(** A word of memory after some stores. *)
Ltac q_look :=
  repeat first [ rewrite lookup_insert_eq | rewrite lookup_insert_ne by congruence ];
  first [ reflexivity | eassumption | by eauto ].
Ltac q_step :=
  match goal with
  | |- wp (_ ≫= _) _ _ => apply wp_bind
  | |- wp (mret _) _ _ => apply wp_ret
  | |- wp (load _ _) _ _ => eapply wp_load; [q_look|]
  | |- wp (store _ _ _) _ _ => apply wp_store; [q_look|]
  | |- wp (object (Obj _)) _ _ => apply wp_ret
  | |- wp (slot (Slot _)) _ _ => apply wp_ret
  | |- wp (if decide (?p = ?p) then _ else _) _ _ => rewrite (decide_True (P := p = p)) by reflexivity
  | |- wp (if decide _ then _ else _) _ _ => rewrite decide_False by congruence
  | |- wp (if ?c then _ else _) _ _ =>
      let b := eval vm_compute in c in change c with b; cbv iota
  end.

(** The cells of a list after some stores. *)
Ltac q_out :=
  first [ apply out_nexts | apply out_prevs ];
  first [ left; discriminate | right; split_and?; first [ assumption | congruence ] ].
Ltac q_holds :=
  repeat first
    [ rewrite nexts_app | rewrite nexts_cons | rewrite nexts_nil | rewrite prevs_app
    | rewrite last_obj_app | progress cbn [prevs last_obj]
    | rewrite holds_app | rewrite holds_cons | rewrite holds_one ];
  repeat split;
  first [ apply holds_nil
        | q_look
        | repeat first
            [ apply holds_insert; [q_out|]
            | eapply holds_redirect; [apply NoDup_cons; by split|] ];
          eassumption
        | idtac ].
(** The cells of a hypothesis, one by one. *)
Ltac q_cells H :=
  repeat first
    [ rewrite nexts_app in H | rewrite nexts_cons in H | rewrite nexts_nil in H
    | rewrite prevs_app in H | rewrite last_obj_app in H | progress cbn [prevs last_obj] in H
    | rewrite holds_app in H | rewrite holds_cons in H | rewrite holds_one in H ].
Ltac q_unpack :=
  repeat match goal with
  | H : holds _ [] |- _ => clear H
  | H : holds _ _ |- _ => progress q_cells H
  | H : _ !! _ = Some _ |- _ => first [ rewrite last_obj_app in H | progress cbn [last_obj app] in H ]
  | H : _ ∧ _ |- _ => destruct H
  end.

(** Where the last pointer of a part is, and that it is not in the rest. *)
Ltac q_last Hnd h l1 x l2 :=
  let H := fresh in
  pose proof (last_obj_distinct h l1 x l2 Hnd) as H; destruct H as (? & ? & H);
  match goal with H : holds _ (nexts h l1 _) |- _ => pose proof (holds_last _ _ _ _ H) end.

(** The words of an element. *)
Ltac q_there H :=
  eapply holds_present; [exact H|];
  first [ apply nexts_fst | apply prevs_fst ]; split; [reflexivity|set_solver].

(** The words of a new element. *)
Lemma word_present ws m e w : has_words ws m e → w ∈ ws → ∃ p, m !! (e, w) = Some p.
Proof. intros H Hw. apply (H w Hw). Qed.
Ltac q_words He :=
  try (destruct (word_present _ _ _ First He) as [? ?]; [set_solver|]);
  try (destruct (word_present _ _ _ Second He) as [? ?]; [set_solver|]);
  clear He.

Ltac q_in :=
  repeat first [ rewrite elem_of_cons | rewrite elem_of_app ]; tauto.
Ltac q_changed :=
  repeat first [ apply changed_refl | apply changed_insert; [|q_in|q_look] ].
Ltac q_kept := match goal with H : kept ?P |- ?P => exact H end.
Ltac q_done := split; [split; [q_kept|q_holds]|q_changed].

(** The operations of an instance. *)
Ltac q_ops Q :=
  cbn [q_rep q_words q_head q_init q_insert_head q_insert_tail q_insert_after
    q_insert_before q_remove q_empty q_foreach Q].
