(* ===== verification/BsdListSpec.v ===== *)
(** * Lists, singly-linked lists and tail queues

    [LIST] is doubly linked: an entry holds the next element and the address of the pointer
    to itself.  [SLIST] only has the next element, so that a removal searches.  Both are
    instances of the interface of [BsdQueueSpec], and so are the singly-linked tail queues
    and the simple queues of the second half. *)

From stdpp Require Import base gmap list sets.
From Stdlib Require Import Lia.
From S2P Require Import Prelude BsdQueue BsdQueueCells BsdQueueSpec.

(** ** Lists *)

Definition list_rep (m : mem) (h : obj) (l : list obj) : Prop :=
  NoDup (h :: l) ∧ holds m (nexts h l Null) ∧ holds m (prevs Slot h l).

Definition LIST : Queue := {|
  q_words := [First; Second]; q_head := [First];
  q_rep := list_rep;
  q_init := LIST_INIT;
  q_insert_head := LIST_INSERT_HEAD;
  q_insert_tail := None;
  q_insert_after _ := LIST_INSERT_AFTER;
  q_insert_before := Some (λ _, LIST_INSERT_BEFORE);
  q_remove _ := LIST_REMOVE;
  q_empty := LIST_EMPTY;
  q_foreach := LIST_FOREACH |}.

Lemma list_insert_head_ok m h l e :
  list_rep m h l → e ∉ h :: l → has_words [First; Second] m e →
  wp (LIST_INSERT_HEAD h e) m (λ _ m', list_rep m' h (e :: l) ∧ changed (e :: h :: l) m m').
Proof.
  intros (Hnd & Hn & Hp) He Hw. q_keep (nodup_insert h [] l e Hnd He). q_words Hw.
  unfold LIST_INSERT_HEAD. destruct l as [|b l]; q_distinct; q_unpack; repeat q_step; q_done.
Qed.

Lemma list_insert_after_ok m h l1 x l2 e :
  list_rep m h (l1 ++ x :: l2) → e ∉ h :: l1 ++ x :: l2 → has_words [First; Second] m e →
  wp (LIST_INSERT_AFTER x e) m (λ _ m',
    list_rep m' h (l1 ++ x :: e :: l2) ∧ changed (e :: h :: l1 ++ x :: l2) m m').
Proof.
  intros (Hnd & Hn & Hp) He Hw. q_keep (nodup_after h l1 x l2 e Hnd He). q_words Hw.
  unfold LIST_INSERT_AFTER. destruct l2 as [|b l2]; q_distinct; q_unpack; repeat q_step; q_done.
Qed.

Lemma list_insert_before_ok m h l1 x l2 e :
  list_rep m h (l1 ++ x :: l2) → e ∉ h :: l1 ++ x :: l2 → has_words [First; Second] m e →
  wp (LIST_INSERT_BEFORE x e) m (λ _ m',
    list_rep m' h (l1 ++ e :: x :: l2) ∧ changed (e :: h :: l1 ++ x :: l2) m m').
Proof.
  intros (Hnd & Hn & Hp) He Hw. q_keep (nodup_insert h l1 (x :: l2) e Hnd He). q_words Hw.
  pose proof (last_obj_new h l1 x l2 e He).
  unfold LIST_INSERT_BEFORE. q_unpack. q_last Hnd h l1 x l2. q_distinct. repeat q_step; q_done.
Qed.
Lemma list_remove_ok m h l1 x l2 :
  list_rep m h (l1 ++ x :: l2) →
  wp (LIST_REMOVE x) m (λ _ m',
    list_rep m' h (l1 ++ l2) ∧ changed (h :: l1 ++ x :: l2) m m').
Proof.
  intros (Hnd & Hn & Hp). q_keep (nodup_remove h l1 x l2 Hnd).
  unfold LIST_REMOVE. destruct l2 as [|b l2]; q_unpack.
  - q_last Hnd h l1 x (@nil obj). q_distinct. repeat q_step. rewrite app_nil_r in *. q_done.
  - q_last Hnd h l1 x (b :: l2). q_distinct. repeat q_step. q_done.
Qed.

Lemma list_init_ok m h :
  has_words [First] m h → wp (LIST_INIT h) m (λ _ m', list_rep m' h [] ∧ changed [h] m m').
Proof. intros Hw. q_words Hw. unfold LIST_INIT. q_keep (NoDup_singleton h). repeat q_step. q_done. Qed.

Lemma list_empty_ok m h l :
  list_rep m h l → wp (LIST_EMPTY h) m (λ b m', b = bool_decide (l = []) ∧ m' = m).
Proof.
  intros (Hnd & Hn & Hp). unfold LIST_EMPTY. destruct l; q_unpack; repeat q_step; done.
Qed.

#[export] Instance list_laws : QueueLaws LIST.
Proof.
  split; q_ops LIST.
  - by intros m h l [Hnd _].
  - intros m h l e (Hnd & Hn & Hp) He [] _; [q_there Hn|q_there Hp].
  - intros m m' h l (Hnd & Hn & Hp) Ha. split_and!; [done|by eapply nexts_frame|by eapply prevs_frame].
  - apply list_init_ok.
  - apply list_insert_head_ok.
  - done.
  - intros. by apply list_insert_after_ok.
  - intros m h l1 x l2 e f [= <-]. apply list_insert_before_ok.
  - intros. by apply list_remove_ok.
  - apply list_empty_ok.
  - intros m h l body I Hm HI Hb. apply (wp_forward body (λ m, list_rep m h l) I h l Null); auto.
    by intros m' (Hnd & Hn & _).
Qed.

(** ** Singly-linked lists *)

Definition slist_rep (m : mem) (h : obj) (l : list obj) : Prop :=
  NoDup (h :: l) ∧ holds m (nexts h l Null).

Definition SLIST : Queue := {|
  q_words := [First]; q_head := [First];
  q_rep := slist_rep;
  q_init := SLIST_INIT;
  q_insert_head := SLIST_INSERT_HEAD;
  q_insert_tail := None;
  q_insert_after _ := SLIST_INSERT_AFTER;
  q_insert_before := None;
  q_remove := SLIST_REMOVE;
  q_empty := SLIST_EMPTY;
  q_foreach := SLIST_FOREACH |}.

Lemma slist_init_ok m h :
  has_words [First] m h → wp (SLIST_INIT h) m (λ _ m', slist_rep m' h [] ∧ changed [h] m m').
Proof.
  intros Hw. q_words Hw. unfold SLIST_INIT. q_keep (NoDup_singleton h). repeat q_step. q_done.
Qed.

Lemma slist_insert_head_ok m h l e :
  slist_rep m h l → e ∉ h :: l → has_words [First] m e →
  wp (SLIST_INSERT_HEAD h e) m (λ _ m', slist_rep m' h (e :: l) ∧ changed (e :: h :: l) m m').
Proof.
  intros (Hnd & Hn) He Hw. q_keep (nodup_insert h [] l e Hnd He). q_words Hw.
  unfold SLIST_INSERT_HEAD. destruct l as [|b l]; q_distinct; q_unpack; repeat q_step; q_done.
Qed.

Lemma slist_insert_after_ok m h l1 x l2 e :
  slist_rep m h (l1 ++ x :: l2) → e ∉ h :: l1 ++ x :: l2 → has_words [First] m e →
  wp (SLIST_INSERT_AFTER x e) m (λ _ m',
    slist_rep m' h (l1 ++ x :: e :: l2) ∧ changed (e :: h :: l1 ++ x :: l2) m m').
Proof.
  intros (Hnd & Hn) He Hw. q_keep (nodup_after h l1 x l2 e Hnd He). q_words Hw.
  unfold SLIST_INSERT_AFTER. destruct l2 as [|b l2]; q_distinct; q_unpack; repeat q_step; q_done.
Qed.

Lemma slist_remove_head_ok m h x l2 :
  slist_rep m h (x :: l2) →
  wp (SLIST_REMOVE_HEAD h) m (λ _ m', slist_rep m' h l2 ∧ changed (h :: x :: l2) m m').
Proof.
  intros (Hnd & Hn). q_keep (nodup_remove h [] x l2 Hnd).
  unfold SLIST_REMOVE_HEAD. destruct l2 as [|b l2]; q_distinct; q_unpack; repeat q_step; q_done.
Qed.

Lemma slist_remove_ok m h l1 x l2 :
  slist_rep m h (l1 ++ x :: l2) →
  wp (SLIST_REMOVE h x) m (λ _ m',
    slist_rep m' h (l1 ++ l2) ∧ changed (h :: l1 ++ x :: l2) m m').
Proof.
  intros Hrep. unfold SLIST_REMOVE. destruct Hrep as (Hnd & Hn).
  q_step. eapply wp_load; [by apply (nexts_target _ _ _ _ Hn)|].
  destruct l1 as [|c l1]; cbn [target app].
  - rewrite decide_True by done. by apply slist_remove_head_ok.
  - rewrite decide_False by (intros [= ->]; q_distinct; set_solver).
    apply wp_bind, wp_get, wp_bind.
    eapply wp_mono; [by eapply (wp_find_steps h c l1 x l2)|].
    intros r m' [-> ->]. q_keep (nodup_remove h (c :: l1) x l2 Hnd).
    pose proof (proj2 (proj1 (NoDup_cons _ _) Hnd)) as Hnd1. destruct l2 as [|b l2]; q_unpack.
    + q_last Hnd1 c l1 x (@nil obj). q_distinct. repeat q_step. rewrite app_nil_r in *. q_done.
    + q_last Hnd1 c l1 x (b :: l2). q_distinct. repeat q_step. q_done.
Qed.

Lemma slist_empty_ok m h l :
  slist_rep m h l → wp (SLIST_EMPTY h) m (λ b m', b = bool_decide (l = []) ∧ m' = m).
Proof.
  intros (Hnd & Hn). unfold SLIST_EMPTY. destruct l; q_unpack; repeat q_step; done.
Qed.

#[export] Instance slist_laws : QueueLaws SLIST.
Proof.
  split; q_ops SLIST.
  - by intros m h l [Hnd _].
  - intros m h l e (Hnd & Hn) He w ->%list_elem_of_singleton. q_there Hn.
  - intros m m' h l (Hnd & Hn) Ha. split; [done|by eapply nexts_frame].
  - apply slist_init_ok.
  - apply slist_insert_head_ok.
  - done.
  - intros. by apply slist_insert_after_ok.
  - done.
  - apply slist_remove_ok.
  - apply slist_empty_ok.
  - intros m h l body I Hm HI Hb. apply (wp_forward body (λ m, slist_rep m h l) I h l Null); auto.
Qed.

(** ** Singly-linked tail queues and simple queues

    The head also holds the address of the last pointer of the list, which is the head's own
    first word when the list is empty.  [SIMPLEQ] has the operations of [STAILQ] under other
    names, apart from the concatenation.  Both are instances of the interface of
    [BsdQueueSpec]. *)

Definition stailq_rep (m : mem) (h : obj) (l : list obj) : Prop :=
  NoDup (h :: l) ∧ holds m (nexts h l Null) ∧ m !! (h, Second) = Some (Slot (last_obj h l)).

Definition STAILQ : Queue := {|
  q_words := [First]; q_head := [First; Second];
  q_rep := stailq_rep;
  q_init := STAILQ_INIT;
  q_insert_head := STAILQ_INSERT_HEAD;
  q_insert_tail := Some STAILQ_INSERT_TAIL;
  q_insert_after := STAILQ_INSERT_AFTER;
  q_insert_before := None;
  q_remove := STAILQ_REMOVE;
  q_empty := STAILQ_EMPTY;
  q_foreach := STAILQ_FOREACH |}.

Lemma stailq_init_ok m h :
  has_words [First; Second] m h →
  wp (STAILQ_INIT h) m (λ _ m', stailq_rep m' h [] ∧ changed [h] m m').
Proof.
  intros Hw. q_words Hw. unfold STAILQ_INIT. q_keep (NoDup_singleton h). repeat q_step. q_done.
Qed.

Lemma stailq_insert_head_ok m h l e :
  stailq_rep m h l → e ∉ h :: l → has_words [First] m e →
  wp (STAILQ_INSERT_HEAD h e) m (λ _ m',
    stailq_rep m' h (e :: l) ∧ changed (e :: h :: l) m m').
Proof.
  intros (Hnd & Hn & Ht) He Hw. q_keep (nodup_insert h [] l e Hnd He). q_words Hw.
  unfold STAILQ_INSERT_HEAD. destruct l as [|b l]; q_distinct; q_unpack; repeat q_step; q_done.
Qed.

Lemma stailq_insert_tail_ok m h l e :
  stailq_rep m h l → e ∉ h :: l → has_words [First] m e →
  wp (STAILQ_INSERT_TAIL h e) m (λ _ m',
    stailq_rep m' h (l ++ [e]) ∧ changed (e :: h :: l) m m').
Proof.
  intros (Hnd & Hn & Ht) He Hw. q_keep (nodup_tail h l e Hnd He). q_words Hw.
  pose proof (last_obj_tail h l e He). pose proof (holds_last _ _ _ _ Hn).
  unfold STAILQ_INSERT_TAIL. q_distinct. repeat q_step. q_done.
Qed.

Lemma stailq_insert_after_ok m h l1 x l2 e :
  stailq_rep m h (l1 ++ x :: l2) → e ∉ h :: l1 ++ x :: l2 → has_words [First] m e →
  wp (STAILQ_INSERT_AFTER h x e) m (λ _ m',
    stailq_rep m' h (l1 ++ x :: e :: l2) ∧ changed (e :: h :: l1 ++ x :: l2) m m').
Proof.
  intros (Hnd & Hn & Ht) He Hw. q_keep (nodup_after h l1 x l2 e Hnd He). q_words Hw.
  unfold STAILQ_INSERT_AFTER. destruct l2 as [|b l2]; q_distinct; q_unpack; repeat q_step; q_done.
Qed.

Lemma stailq_remove_head_ok m h x l2 :
  stailq_rep m h (x :: l2) →
  wp (STAILQ_REMOVE_HEAD h) m (λ _ m', stailq_rep m' h l2 ∧ changed (h :: x :: l2) m m').
Proof.
  intros (Hnd & Hn & Ht). q_keep (nodup_remove h [] x l2 Hnd).
  unfold STAILQ_REMOVE_HEAD. destruct l2 as [|b l2]; q_distinct; q_unpack; repeat q_step; q_done.
Qed.

Lemma stailq_remove_ok m h l1 x l2 :
  stailq_rep m h (l1 ++ x :: l2) →
  wp (STAILQ_REMOVE h x) m (λ _ m',
    stailq_rep m' h (l1 ++ l2) ∧ changed (h :: l1 ++ x :: l2) m m').
Proof.
  intros Hrep. unfold STAILQ_REMOVE. destruct Hrep as (Hnd & Hn & Ht).
  q_step. eapply wp_load; [by apply (nexts_target _ _ _ _ Hn)|].
  destruct l1 as [|c l1]; cbn [target app].
  - rewrite decide_True by done. by apply stailq_remove_head_ok.
  - rewrite decide_False by (intros [= ->]; q_distinct; set_solver).
    apply wp_bind, wp_get, wp_bind.
    eapply wp_mono; [by eapply (wp_find_steps h c l1 x l2)|].
    intros r m' [-> ->]. q_keep (nodup_remove h (c :: l1) x l2 Hnd).
    pose proof (proj2 (proj1 (NoDup_cons _ _) Hnd)) as Hnd1. destruct l2 as [|b l2]; q_unpack.
    + q_last Hnd1 c l1 x (@nil obj). q_distinct. repeat q_step. rewrite app_nil_r in *. q_done.
    + q_last Hnd1 c l1 x (b :: l2). q_distinct. repeat q_step. q_done.
Qed.

Lemma stailq_empty_ok m h l :
  stailq_rep m h l → wp (STAILQ_EMPTY h) m (λ b m', b = bool_decide (l = []) ∧ m' = m).
Proof.
  intros (Hnd & Hn & Ht). unfold STAILQ_EMPTY. destruct l; q_unpack; repeat q_step; done.
Qed.

Lemma stailq_foreach_ok (m : mem) (h : obj) (l : list obj) (body : obj → M mem unit) (I : list obj → mem → Prop) :
  stailq_rep m h l → I [] m →
  (∀ seen x rest m, l = seen ++ x :: rest → stailq_rep m h l → I seen m →
    wp (body x) m (λ _ m', stailq_rep m' h l ∧ I (seen ++ [x]) m')) →
  wp (STAILQ_FOREACH h body) m (λ vs m', vs = l ∧ stailq_rep m' h l ∧ I l m').
Proof.
  intros Hm HI Hb. apply (wp_forward body (λ m, stailq_rep m h l) I h l Null); auto.
  by intros m' (Hnd & Hn & _).
Qed.

#[export] Instance stailq_laws : QueueLaws STAILQ.
Proof.
  split; q_ops STAILQ.
  - by intros m h l [Hnd _].
  - intros m h l e (Hnd & Hn & _) He w ->%list_elem_of_singleton. q_there Hn.
  - intros m m' h l (Hnd & Hn & Ht) Ha. split_and!; [done|by eapply nexts_frame|].
    rewrite Ha; [done|by left].
  - apply stailq_init_ok.
  - apply stailq_insert_head_ok.
  - intros m h l e f [= <-]. apply stailq_insert_tail_ok.
  - apply stailq_insert_after_ok.
  - done.
  - apply stailq_remove_ok.
  - apply stailq_empty_ok.
  - intros. by apply stailq_foreach_ok.
Qed.

(** The second list moves to the end of the first. *)
Lemma stailq_concat_ok m h1 l1 h2 l2 :
  stailq_rep m h1 l1 → stailq_rep m h2 l2 → NoDup (h1 :: l1 ++ h2 :: l2) →
  wp (STAILQ_CONCAT h1 h2) m (λ _ m',
    stailq_rep m' h1 (l1 ++ l2) ∧ stailq_rep m' h2 [] ∧ changed (h1 :: l1 ++ h2 :: l2) m m').
Proof.
  intros (Hnd1 & Hn1 & Ht1) Hrep2 Hnd. unfold STAILQ_CONCAT.
  apply wp_bind. eapply wp_mono; [by apply stailq_empty_ok|]. intros b m' [-> ->].
  destruct Hrep2 as (Hnd2 & Hn2 & Ht2). q_keep (nodup_remove h1 l1 h2 l2 Hnd).
  q_keep (NoDup_singleton h2). destruct l2 as [|c l2].
  - cbn. apply wp_ret. rewrite app_nil_r. repeat split; try done.
  - rewrite bool_decide_false by done. cbn [negb].
    q_last Hnd h1 l1 h2 (c :: l2). unfold STAILQ_INIT. q_distinct. q_unpack. repeat q_step.
    split; [|split; [|q_changed]]; (split; [q_kept|q_holds]).
Qed.

(** ** Simple queues *)

Definition SIMPLEQ : Queue := {|
  q_words := [First]; q_head := [First; Second];
  q_rep := stailq_rep;
  q_init := SIMPLEQ_INIT;
  q_insert_head := SIMPLEQ_INSERT_HEAD;
  q_insert_tail := Some SIMPLEQ_INSERT_TAIL;
  q_insert_after := SIMPLEQ_INSERT_AFTER;
  q_insert_before := None;
  q_remove := SIMPLEQ_REMOVE;
  q_empty := SIMPLEQ_EMPTY;
  q_foreach := SIMPLEQ_FOREACH |}.

(** The operations of the two families are the same programs. *)
#[export] Instance simpleq_laws : QueueLaws SIMPLEQ.
Proof. exact stailq_laws. Qed.
