(* ===== verification/BsdTailqSpec.v ===== *)
(** * Tail queues and circular queues

    A tail queue is doubly linked and its head holds the address of the last pointer.  The
    last element and the predecessor of an element are found by reading the entry that such
    an address belongs to as a head.  The file shows that [TAILQ] is an instance of the
    interface of [BsdQueueSpec], and what the operations in the other direction and the
    concatenation do. *)

From stdpp Require Import base gmap list sets.
From Stdlib Require Import Lia.
From S2P Require Import Prelude BsdQueue BsdQueueCells BsdQueueSpec.

Definition tailq_rep (m : mem) (h : obj) (l : list obj) : Prop :=
  NoDup (h :: l) ∧ holds m (nexts h l Null) ∧ holds m (prevs Slot h l) ∧
  m !! (h, Second) = Some (Slot (last_obj h l)).

Definition TAILQ : Queue := {|
  q_words := [First; Second]; q_head := [First; Second];
  q_rep := tailq_rep;
  q_init := TAILQ_INIT;
  q_insert_head := TAILQ_INSERT_HEAD;
  q_insert_tail := Some TAILQ_INSERT_TAIL;
  q_insert_after := TAILQ_INSERT_AFTER;
  q_insert_before := Some (λ _, TAILQ_INSERT_BEFORE);
  q_remove := TAILQ_REMOVE;
  q_empty := TAILQ_EMPTY;
  q_foreach := TAILQ_FOREACH |}.

Lemma tailq_init_ok m h :
  has_words [First; Second] m h →
  wp (TAILQ_INIT h) m (λ _ m', tailq_rep m' h [] ∧ changed [h] m m').
Proof.
  intros Hw. q_words Hw. unfold TAILQ_INIT. q_keep (NoDup_singleton h). repeat q_step. q_done.
Qed.

Lemma tailq_insert_head_ok m h l e :
  tailq_rep m h l → e ∉ h :: l → has_words [First; Second] m e →
  wp (TAILQ_INSERT_HEAD h e) m (λ _ m',
    tailq_rep m' h (e :: l) ∧ changed (e :: h :: l) m m').
Proof.
  intros (Hnd & Hn & Hp & Ht) He Hw. q_keep (nodup_insert h [] l e Hnd He). q_words Hw.
  unfold TAILQ_INSERT_HEAD. destruct l as [|b l]; q_distinct; q_unpack; repeat q_step; q_done.
Qed.

Lemma tailq_insert_tail_ok m h l e :
  tailq_rep m h l → e ∉ h :: l → has_words [First; Second] m e →
  wp (TAILQ_INSERT_TAIL h e) m (λ _ m',
    tailq_rep m' h (l ++ [e]) ∧ changed (e :: h :: l) m m').
Proof.
  intros (Hnd & Hn & Hp & Ht) He Hw. q_keep (nodup_tail h l e Hnd He). q_words Hw.
  pose proof (last_obj_tail h l e He). pose proof (holds_last _ _ _ _ Hn).
  unfold TAILQ_INSERT_TAIL. q_distinct. repeat q_step. q_done.
Qed.

Lemma tailq_insert_after_ok m h l1 x l2 e :
  tailq_rep m h (l1 ++ x :: l2) → e ∉ h :: l1 ++ x :: l2 → has_words [First; Second] m e →
  wp (TAILQ_INSERT_AFTER h x e) m (λ _ m',
    tailq_rep m' h (l1 ++ x :: e :: l2) ∧ changed (e :: h :: l1 ++ x :: l2) m m').
Proof.
  intros (Hnd & Hn & Hp & Ht) He Hw. q_keep (nodup_after h l1 x l2 e Hnd He). q_words Hw.
  unfold TAILQ_INSERT_AFTER. destruct l2 as [|b l2]; q_distinct; q_unpack; repeat q_step; q_done.
Qed.

Lemma tailq_insert_before_ok m h l1 x l2 e :
  tailq_rep m h (l1 ++ x :: l2) → e ∉ h :: l1 ++ x :: l2 → has_words [First; Second] m e →
  wp (TAILQ_INSERT_BEFORE x e) m (λ _ m',
    tailq_rep m' h (l1 ++ e :: x :: l2) ∧ changed (e :: h :: l1 ++ x :: l2) m m').
Proof.
  intros (Hnd & Hn & Hp & Ht) He Hw. q_keep (nodup_insert h l1 (x :: l2) e Hnd He). q_words Hw.
  pose proof (last_obj_new h l1 x l2 e He).
  unfold TAILQ_INSERT_BEFORE. q_unpack. q_last Hnd h l1 x l2. q_distinct. repeat q_step; q_done.
Qed.

Lemma tailq_remove_ok m h l1 x l2 :
  tailq_rep m h (l1 ++ x :: l2) →
  wp (TAILQ_REMOVE h x) m (λ _ m',
    tailq_rep m' h (l1 ++ l2) ∧ changed (h :: l1 ++ x :: l2) m m').
Proof.
  intros (Hnd & Hn & Hp & Ht). q_keep (nodup_remove h l1 x l2 Hnd).
  unfold TAILQ_REMOVE. destruct l2 as [|b l2]; q_unpack.
  - q_last Hnd h l1 x (@nil obj). q_distinct. repeat q_step. rewrite app_nil_r in *. q_done.
  - q_last Hnd h l1 x (b :: l2). q_distinct. repeat q_step. q_done.
Qed.

Lemma tailq_empty_ok m h l :
  tailq_rep m h l → wp (TAILQ_EMPTY h) m (λ b m', b = bool_decide (l = []) ∧ m' = m).
Proof.
  intros (Hnd & Hn & Ht). unfold TAILQ_EMPTY. destruct l; q_unpack; repeat q_step; done.
Qed.

#[export] Instance tailq_laws : QueueLaws TAILQ.
Proof.
  split; q_ops TAILQ.
  - by intros m h l [Hnd _].
  - intros m h l e (Hnd & Hn & Hp & Ht) He [] _; [q_there Hn|q_there Hp].
  - intros m m' h l (Hnd & Hn & Hp & Ht) Ha.
    split_and!; [done|by eapply nexts_frame|by eapply prevs_frame|rewrite Ha; [done|by left]].
  - apply tailq_init_ok.
  - apply tailq_insert_head_ok.
  - intros m h l e f [= <-]. apply tailq_insert_tail_ok.
  - apply tailq_insert_after_ok.
  - intros m h l1 x l2 e f [= <-]. apply tailq_insert_before_ok.
  - apply tailq_remove_ok.
  - apply tailq_empty_ok.
  - intros m h l body I Hm HI Hb. apply (wp_forward body (λ m, tailq_rep m h l) I h l Null); auto.
    by intros m' (Hnd & Hn & _).
Qed.

(** ** The other direction *)

Lemma last_of_ok m h l1 l2 :
  tailq_rep m h (l1 ++ l2) →
  wp (last_of (Slot (last_obj h l1))) m (λ p m', p = target (reverse l1) Null ∧ m' = m).
Proof.
  intros (Hnd & Hn & Hp & Ht). unfold last_of.
  induction l1 as [|y l1 _] using rev_ind.
  - cbn [last_obj]. pose proof (holds_last _ _ _ _ Hn). repeat q_step. done.
  - rewrite reverse_snoc, last_obj_app. cbn [target last_obj].
    rewrite <- app_assoc in *. cbn [app] in *. q_unpack.
    q_last Hnd h l1 y l2. repeat q_step. done.
Qed.

(** The last element, or null. *)
Lemma tailq_last_ok m h l :
  tailq_rep m h l → wp (TAILQ_LAST h) m (λ p m', p = target (reverse l) Null ∧ m' = m).
Proof.
  intros Hrep. pose proof Hrep as (_ & _ & _ & Ht). unfold TAILQ_LAST. q_step. q_step.
  apply (last_of_ok m h l []). by rewrite app_nil_r.
Qed.

(** The element before, or null. *)
Lemma tailq_prev_ok m h l1 x l2 :
  tailq_rep m h (l1 ++ x :: l2) →
  wp (TAILQ_PREV x) m (λ p m', p = target (reverse l1) Null ∧ m' = m).
Proof.
  intros Hrep. pose proof Hrep as (_ & _ & Hp & _). unfold TAILQ_PREV. q_unpack. q_step. q_step.
  by apply (last_of_ok m h l1 (x :: l2)).
Qed.

Lemma tailq_foreach_reverse_ok (m : mem) (h : obj) (l : list obj) (body : obj → M mem unit)
    (I : list obj → mem → Prop) :
  tailq_rep m h l → I [] m →
  (∀ seen x rest m, reverse l = seen ++ x :: rest → tailq_rep m h l → I seen m →
    wp (body x) m (λ _ m', tailq_rep m' h l ∧ I (seen ++ [x]) m')) →
  wp (TAILQ_FOREACH_REVERSE h body) m
    (λ vs m', vs = reverse l ∧ tailq_rep m' h l ∧ I (reverse l) m').
Proof.
  intros Hm HI Hb. unfold TAILQ_FOREACH_REVERSE. apply wp_bind, wp_get, wp_bind.
  eapply wp_mono; [by apply tailq_last_ok|]. intros p m' [-> ->].
  apply (wp_backward _ _ (λ m, tailq_rep m h l) I h l Null); auto.
  - apply Hm.
  - intros m' l1 x l2 Hm' ->. by eapply tailq_prev_ok.
  - destruct Hm as (? & ? & _). by eapply nexts_steps.
Qed.

(** ** Concatenation *)

Lemma tailq_concat_ok m h1 l1 h2 l2 :
  tailq_rep m h1 l1 → tailq_rep m h2 l2 → NoDup (h1 :: l1 ++ h2 :: l2) →
  wp (TAILQ_CONCAT h1 h2) m (λ _ m',
    tailq_rep m' h1 (l1 ++ l2) ∧ tailq_rep m' h2 [] ∧ changed (h1 :: l1 ++ h2 :: l2) m m').
Proof.
  intros (Hnd1 & Hn1 & Hp1 & Ht1) Hrep2 Hnd. unfold TAILQ_CONCAT.
  apply wp_bind. eapply wp_mono; [by apply tailq_empty_ok|]. intros b m' [-> ->].
  destruct Hrep2 as (Hnd2 & Hn2 & Hp2 & Ht2). q_keep (nodup_remove h1 l1 h2 l2 Hnd).
  q_keep (NoDup_singleton h2). destruct l2 as [|c l2].
  - cbn. apply wp_ret. rewrite app_nil_r. repeat split; try done.
  - rewrite bool_decide_false by done. cbn [negb].
    q_last Hnd h1 l1 h2 (c :: l2). unfold TAILQ_INIT. q_distinct. q_unpack. repeat q_step.
    split; [|split; [|q_changed]]; (split; [q_kept|q_holds]).
Qed.

(** ** Emptying a queue from inside its loop *)

(** A removal leaves the removed element's own pointer to the next one as it was... *)
Lemma tailq_remove_next m h l1 x l2 :
  tailq_rep m h (l1 ++ x :: l2) →
  wp (TAILQ_REMOVE h x) m (λ _ m', m' !! (x, First) = Some (target l2 Null)).
Proof.
  intros (Hnd & Hn & Hp & Ht). unfold TAILQ_REMOVE. destruct l2 as [|b l2]; q_unpack.
  - q_last Hnd h l1 x (@nil obj). q_distinct. repeat q_step. q_look.
  - q_last Hnd h l1 x (b :: l2). q_distinct. repeat q_step. q_look.
Qed.

(** ...so that the loop goes on after its body has removed the current element. *)
Lemma tailq_drain m h l :
  tailq_rep m h l →
  wp (TAILQ_FOREACH h (TAILQ_REMOVE h)) m (λ vs m', vs = l ∧ tailq_rep m' h []).
Proof.
  intros Hm. pose proof Hm as (Hnd & Hn & _). unfold TAILQ_FOREACH, TAILQ_FIRST.
  apply wp_bind, wp_get, wp_bind. eapply wp_load; [by apply (nexts_target _ _ _ _ Hn)|].
  apply (wp_for_each _ _ Null (λ _ rest m, tailq_rep m h rest)) with (seen := []);
    [done| |done|by eapply nexts_steps].
  intros _ x rest m1 Hm1. eapply wp_mono.
  - apply wp_and; [by apply (tailq_remove_ok m1 h [] x rest)|by apply (tailq_remove_next m1 h [])].
  - intros ? m2 [[Hm2 _] Hx]. by eapply wp_load.
Qed.

(** ** Circular queues

    A circular queue is doubly linked in a ring that goes through the head.  The file shows
    that [CIRCLEQ] is an instance of the interface of [BsdQueueSpec], and what the
    operations in the other direction, at the other end and around the ring do. *)

Definition circleq_rep (m : mem) (h : obj) (l : list obj) : Prop :=
  NoDup (h :: l) ∧ holds m (nexts h l (Obj h)) ∧ holds m (prevs Obj h l) ∧
  m !! (h, Second) = Some (Obj (last_obj h l)).

Definition CIRCLEQ : Queue := {|
  q_words := [First; Second]; q_head := [First; Second];
  q_rep := circleq_rep;
  q_init := CIRCLEQ_INIT;
  q_insert_head := CIRCLEQ_INSERT_HEAD;
  q_insert_tail := Some CIRCLEQ_INSERT_TAIL;
  q_insert_after := CIRCLEQ_INSERT_AFTER;
  q_insert_before := Some CIRCLEQ_INSERT_BEFORE;
  q_remove := CIRCLEQ_REMOVE;
  q_empty := CIRCLEQ_EMPTY;
  q_foreach := CIRCLEQ_FOREACH |}.

Lemma circleq_init_ok m h :
  has_words [First; Second] m h →
  wp (CIRCLEQ_INIT h) m (λ _ m', circleq_rep m' h [] ∧ changed [h] m m').
Proof.
  intros Hw. q_words Hw. unfold CIRCLEQ_INIT. q_keep (NoDup_singleton h). repeat q_step. q_done.
Qed.

Lemma circleq_insert_head_ok m h l e :
  circleq_rep m h l → e ∉ h :: l → has_words [First; Second] m e →
  wp (CIRCLEQ_INSERT_HEAD h e) m (λ _ m',
    circleq_rep m' h (e :: l) ∧ changed (e :: h :: l) m m').
Proof.
  intros (Hnd & Hn & Hp & Ht) He Hw. q_keep (nodup_insert h [] l e Hnd He). q_words Hw.
  unfold CIRCLEQ_INSERT_HEAD. destruct l as [|b l]; [|pose proof (last_obj_rest h b l Hnd)];
    q_distinct; q_unpack; repeat q_step; q_done.
Qed.

Lemma circleq_insert_tail_ok m h l e :
  circleq_rep m h l → e ∉ h :: l → has_words [First; Second] m e →
  wp (CIRCLEQ_INSERT_TAIL h e) m (λ _ m',
    circleq_rep m' h (l ++ [e]) ∧ changed (e :: h :: l) m m').
Proof.
  intros (Hnd & Hn & Hp & Ht) He Hw. q_keep (nodup_tail h l e Hnd He). q_words Hw.
  unfold CIRCLEQ_INSERT_TAIL. destruct l as [|b l].
  - q_distinct. q_unpack. repeat q_step. q_done.
  - pose proof (last_obj_tail b l e (proj2 (proj1 (not_elem_of_cons _ _ _) He))).
    pose proof (last_obj_rest h b l Hnd). rewrite nexts_cons, holds_cons in Hn.
    destruct Hn as [? Hn]. pose proof (holds_last _ _ _ _ Hn). cbn [prevs last_obj] in *.
    rewrite holds_cons in Hp. q_distinct. repeat q_step. q_done.
Qed.

Lemma circleq_insert_after_ok m h l1 x l2 e :
  circleq_rep m h (l1 ++ x :: l2) → e ∉ h :: l1 ++ x :: l2 → has_words [First; Second] m e →
  wp (CIRCLEQ_INSERT_AFTER h x e) m (λ _ m',
    circleq_rep m' h (l1 ++ x :: e :: l2) ∧ changed (e :: h :: l1 ++ x :: l2) m m').
Proof.
  intros (Hnd & Hn & Hp & Ht) He Hw. q_keep (nodup_after h l1 x l2 e Hnd He). q_words Hw.
  unfold CIRCLEQ_INSERT_AFTER. destruct l2 as [|b l2]; q_distinct; q_unpack; repeat q_step; q_done.
Qed.

Lemma circleq_insert_before_ok m h l1 x l2 e :
  circleq_rep m h (l1 ++ x :: l2) → e ∉ h :: l1 ++ x :: l2 → has_words [First; Second] m e →
  wp (CIRCLEQ_INSERT_BEFORE h x e) m (λ _ m',
    circleq_rep m' h (l1 ++ e :: x :: l2) ∧ changed (e :: h :: l1 ++ x :: l2) m m').
Proof.
  intros (Hnd & Hn & Hp & Ht) He Hw. q_keep (nodup_insert h l1 (x :: l2) e Hnd He). q_words Hw.
  unfold CIRCLEQ_INSERT_BEFORE. destruct (decide (last_obj h l1 = h)) as [E|E].
  - apply last_obj_head in E as ->; [|by eapply nodup_front]. q_distinct. q_unpack. repeat q_step; q_done.
  - pose proof (last_obj_new h l1 x l2 e He).
    q_unpack. q_last Hnd h l1 x l2. q_distinct. repeat q_step; q_done.
Qed.

Lemma circleq_remove_ok m h l1 x l2 :
  circleq_rep m h (l1 ++ x :: l2) →
  wp (CIRCLEQ_REMOVE h x) m (λ _ m',
    circleq_rep m' h (l1 ++ l2) ∧ changed (h :: l1 ++ x :: l2) m m').
Proof.
  intros (Hnd & Hn & Hp & Ht). q_keep (nodup_remove h l1 x l2 Hnd).
  unfold CIRCLEQ_REMOVE. destruct (decide (last_obj h l1 = h)) as [E|E].
  - apply last_obj_head in E as ->; [|by eapply nodup_front].
    destruct l2 as [|b l2]; q_distinct; q_unpack; repeat q_step; q_done.
  - destruct l2 as [|b l2]; q_unpack.
    + q_last Hnd h l1 x (@nil obj). q_distinct. repeat q_step. rewrite app_nil_r in *. q_done.
    + q_last Hnd h l1 x (b :: l2). q_distinct. repeat q_step. q_done.
Qed.

Lemma circleq_empty_ok m h l :
  circleq_rep m h l → wp (CIRCLEQ_EMPTY h) m (λ b m', b = bool_decide (l = []) ∧ m' = m).
Proof.
  intros (Hnd & Hn & Hp & Ht). unfold CIRCLEQ_EMPTY.
  destruct l as [|b l]; q_distinct; q_unpack; repeat q_step; (split; [|done]).
  - by rewrite bool_decide_true.
  - rewrite !bool_decide_false; congruence.
Qed.

#[export] Instance circleq_laws : QueueLaws CIRCLEQ.
Proof.
  split; q_ops CIRCLEQ.
  - by intros m h l [Hnd _].
  - intros m h l e (Hnd & Hn & Hp & Ht) He [] _; [q_there Hn|q_there Hp].
  - intros m m' h l (Hnd & Hn & Hp & Ht) Ha.
    split_and!; [done|by eapply nexts_frame|by eapply prevs_frame|rewrite Ha; [done|by left]].
  - apply circleq_init_ok.
  - apply circleq_insert_head_ok.
  - intros m h l e f [= <-]. apply circleq_insert_tail_ok.
  - apply circleq_insert_after_ok.
  - intros m h l1 x l2 e f [= <-]. apply circleq_insert_before_ok.
  - apply circleq_remove_ok.
  - apply circleq_empty_ok.
  - intros m h l body I Hm HI Hb.
    apply (wp_forward body (λ m, circleq_rep m h l) I h l (Obj h)); auto.
    by intros m' (Hnd & Hn & _).
Qed.

(** ** The other direction *)

(** The last element, or the head. *)
Lemma circleq_last_ok m h l :
  circleq_rep m h l →
  wp (CIRCLEQ_LAST h) m (λ p m', p = target (reverse l) (Obj h) ∧ m' = m).
Proof.
  intros (Hnd & Hn & Hp & Ht). unfold CIRCLEQ_LAST. rewrite last_target. by q_step.
Qed.

(** The element before, or the head. *)
Lemma circleq_prev_ok m h l1 x l2 :
  circleq_rep m h (l1 ++ x :: l2) →
  wp (CIRCLEQ_PREV x) m (λ p m', p = target (reverse l1) (Obj h) ∧ m' = m).
Proof.
  intros (Hnd & Hn & Hp & Ht). unfold CIRCLEQ_PREV. rewrite last_target. q_unpack. by q_step.
Qed.

Lemma circleq_foreach_reverse_ok (m : mem) (h : obj) (l : list obj) (body : obj → M mem unit)
    (I : list obj → mem → Prop) :
  circleq_rep m h l → I [] m →
  (∀ seen x rest m, reverse l = seen ++ x :: rest → circleq_rep m h l → I seen m →
    wp (body x) m (λ _ m', circleq_rep m' h l ∧ I (seen ++ [x]) m')) →
  wp (CIRCLEQ_FOREACH_REVERSE h body) m
    (λ vs m', vs = reverse l ∧ circleq_rep m' h l ∧ I (reverse l) m').
Proof.
  intros Hm HI Hb. unfold CIRCLEQ_FOREACH_REVERSE. apply wp_bind, wp_get, wp_bind.
  eapply wp_mono; [by apply circleq_last_ok|]. intros p m' [-> ->].
  apply (wp_backward _ _ (λ m, circleq_rep m h l) I h l (Obj h)); auto.
  - apply Hm.
  - intros m' l1 x l2 Hm' ->. by eapply circleq_prev_ok.
  - destruct Hm as (? & ? & _). by eapply nexts_steps.
Qed.

(** ** Around the ring *)

Lemma circleq_loop_next_ok m h l1 x l2 :
  circleq_rep m h (l1 ++ x :: l2) →
  wp (CIRCLEQ_LOOP_NEXT h x) m (λ p m', p = target (l2 ++ l1 ++ [x]) Null ∧ m' = m).
Proof.
  intros (Hnd & Hn & Hp & Ht). pose proof (nexts_target _ _ _ _ Hn) as Hf.
  unfold CIRCLEQ_LOOP_NEXT. pose proof (nexts_at _ _ _ _ _ _ Hn) as Hx.
  destruct l2 as [|b l2]; cbn [target app] in *; q_distinct; repeat q_step; [|done].
  by destruct l1.
Qed.

Lemma circleq_loop_prev_ok m h l1 x l2 :
  circleq_rep m h (l1 ++ x :: l2) →
  wp (CIRCLEQ_LOOP_PREV h x) m
    (λ p m', p = target (reverse l1 ++ reverse l2 ++ [x]) Null ∧ m' = m).
Proof.
  intros (Hnd & Hn & Hp & Ht). unfold CIRCLEQ_LOOP_PREV.
  induction l1 as [|y l1 _] using rev_ind.
  - q_distinct. q_unpack. repeat q_step. split; [|done].
    rewrite reverse_nil. cbn [app]. rewrite <- (last_target x l2).
    by destruct (reverse l2).
  - rewrite reverse_snoc. rewrite <- app_assoc in *. cbn [app target] in *.
    q_unpack. q_distinct. repeat q_step. done.
Qed.
