(* ===== verification/BsdPool.v ===== *)
(** * Queues over a pool of elements

    A program that keeps any number of queues over one pool of elements, written against the
    interface of [BsdQueueSpec].  [exec] is what it should do, on sequences and a set of free
    elements; [perform] is the program with the macros.  The theorem says that [perform]
    refines [exec], for every family and every sequence of commands. *)

From stdpp Require Import base gmap list sets.
From S2P Require Import Prelude BsdQueue BsdQueueCells BsdQueueSpec.

(** ** The specification *)

Inductive command : Type :=
  | InsertHead (h e : obj)
  | InsertTail (h e : obj)
  | InsertAfter (h x e : obj)
  | InsertBefore (h x e : obj)
  | Remove (h x : obj)
  | Empty (h : obj)
  | Foreach (h : obj).

Inductive reply : Type := Done | IsEmpty (b : bool) | Visited (l : list obj).

Record pool : Type := Pool { p_lists : gmap obj (list obj); p_free : gset obj }.

(** [x] becomes [f x] in a list without duplicates. *)
Fixpoint splice (x : obj) (f : list obj) (l : list obj) : list obj :=
  match l with
  | [] => []
  | y :: l => if decide (y = x) then f ++ l else y :: splice x f l
  end.

Section pool.
Context {Q : Queue}.

Definition supported {A} (o : option A) : bool := if o is Some _ then true else false.

(** A new list for [h], made with the free element [e]. *)
Definition put (p : pool) (h e : obj) (l : list obj) : option (pool * reply) :=
  guard (e ∈ p_free p);; Some (Pool (<[h := l]> (p_lists p)) (p_free p ∖ {[e]}), Done).

Definition exec (c : command) (p : pool) : option (pool * reply) :=
  match c with
  | InsertHead h e => l ← p_lists p !! h; put p h e (e :: l)
  | InsertTail h e =>
      guard (supported q_insert_tail = true);; l ← p_lists p !! h; put p h e (l ++ [e])
  | InsertAfter h x e =>
      l ← p_lists p !! h; guard (x ∈ l);; put p h e (splice x [x; e] l)
  | InsertBefore h x e =>
      guard (supported q_insert_before = true);;
      l ← p_lists p !! h; guard (x ∈ l);; put p h e (splice x [e; x] l)
  | Remove h x =>
      l ← p_lists p !! h; guard (x ∈ l);;
      Some (Pool (<[h := splice x [] l]> (p_lists p)) ({[x]} ∪ p_free p), Done)
  | Empty h => l ← p_lists p !! h; Some (p, IsEmpty (bool_decide (l = [])))
  | Foreach h => l ← p_lists p !! h; Some (p, Visited l)
  end.

Fixpoint exec_all (cs : list command) (p : pool) : option (pool * list reply) :=
  match cs with
  | [] => Some (p, [])
  | c :: cs => '(p, r) ← exec c p; '(p, rs) ← exec_all cs p; Some (p, r :: rs)
  end.

(** ** The program *)

Definition perform (c : command) : M mem reply :=
  match c with
  | InsertHead h e => q_insert_head h e;; mret Done
  | InsertTail h e =>
      match q_insert_tail with Some f => f h e;; mret Done | None => mret Done end
  | InsertAfter h x e => q_insert_after h x e;; mret Done
  | InsertBefore h x e =>
      match q_insert_before with Some f => f h x e;; mret Done | None => mret Done end
  | Remove h x => q_remove h x;; mret Done
  | Empty h => b ← q_empty h; mret (IsEmpty b)
  | Foreach h => l ← q_foreach h (λ _, mret tt); mret (Visited l)
  end.

Fixpoint perform_all (cs : list command) : M mem (list reply) :=
  match cs with
  | [] => mret []
  | c :: cs => r ← perform c; rs ← perform_all cs; mret (r :: rs)
  end.

(** ** Memory holds a pool *)

Record pool_rep (m : mem) (p : pool) : Prop := {
  pr_rep h l : p_lists p !! h = Some l → q_rep m h l;
  pr_free h l e : p_lists p !! h = Some l → e ∈ p_free p → e ∉ h :: l;
  pr_words e : e ∈ p_free p → has_words q_words m e;
  pr_apart h1 l1 h2 l2 o :
    p_lists p !! h1 = Some l1 → p_lists p !! h2 = Some l2 → h1 ≠ h2 →
    o ∈ h1 :: l1 → o ∉ h2 :: l2 }.

Context {L : QueueLaws Q}.

(** A list of a pool changes, within its elements and the free ones. *)
Lemma pool_rep_update (m m' : mem) (p : pool) (h : obj) (l l' os : list obj) (free' : gset obj) :
  pool_rep m p → p_lists p !! h = Some l →
  now_holds h l' os m m' →
  (∀ o, o ∈ os → o ∈ h :: l ∨ o ∈ p_free p) →
  (∀ o, o ∈ l' → o ∈ l ∨ o ∈ p_free p) →
  (∀ e, e ∈ free' → (e ∉ l') ∧ (e ∈ l ∨ e ∈ p_free p)) →
  pool_rep m' (Pool (<[h := l']> (p_lists p)) free').
Proof.
  intros [Hrep Hfree Hwords Hapart] Hl [Hl' Hch] Hos Hin Hf.
  pose proof (q_nodup _ _ _ (Hrep h l Hl)) as [Hhl _]%NoDup_cons.
  assert (∀ h2 l2, p_lists p !! h2 = Some l2 → h ≠ h2 → ∀ o, o ∈ h2 :: l2 → o ∉ os) as Hother.
  { intros h2 l2 H2 Hne o Ho Hoos. destruct (Hos o Hoos) as [H|H].
    - by apply (Hapart h l h2 l2 o).
    - by apply (Hfree h2 l2 o). }
  split; cbn [p_lists p_free].
  - intros h2 l2 [[<- <-]|[Hne H2]]%lookup_insert_Some; [done|].
    eapply q_frame; [by apply Hrep|]. intros o w Ho. apply Hch. by eapply Hother.
  - intros h2 l2 e [[<- <-]|[Hne H2]]%lookup_insert_Some He; destruct (Hf e He) as [Hel' Hfrom].
    + apply not_elem_of_cons. split; [|done]. intros ->.
      destruct Hfrom as [?|Hff]; [done|]. apply (Hfree h l h Hl Hff). by left.
    + destruct Hfrom as [Hel|Hef]; [|by eapply Hfree].
      apply (Hapart h l h2 l2); [done|done|done|by right].
  - intros e He w Hw. apply (changed_is_Some _ _ _ _ Hch).
    destruct (proj2 (Hf e He)) as [Hel|Hef]; [|by apply Hwords].
    by apply (q_present m h l e (Hrep h l Hl) Hel).
  - assert (∀ h2 l2 o, p_lists p !! h2 = Some l2 → h ≠ h2 → o ∈ h :: l' → o ∉ h2 :: l2) as Hnew.
    { intros h2 l2 o H2 Hne Ho. apply elem_of_cons in Ho as [->|Ho].
      - apply (Hapart h l h2 l2); [done|done|done|by left].
      - destruct (Hin o Ho) as [Hol|Hof]; [|by eapply Hfree].
        apply (Hapart h l h2 l2); [done|done|done|by right]. }
    intros h1 l1 h2 l2 o [[<- <-]|[Hne1 H1]]%lookup_insert_Some
      [[<- <-]|[Hne2 H2]]%lookup_insert_Some Hne Ho; [done|by apply (Hnew h2 l2 o)| |by apply (Hapart h1 l1 h2 l2)].
    intros Ho2. by apply (Hnew h1 l1 o H1 Hne1).
Qed.

(** ** Refinement *)

Lemma splice_ok x f l1 l2 : x ∉ l1 → splice x f (l1 ++ x :: l2) = l1 ++ f ++ l2.
Proof.
  induction l1 as [|y l1 IH]; intros Hx; cbn [splice app]; [by rewrite decide_True|].
  apply not_elem_of_cons in Hx as [Hy Hx]. rewrite decide_False by congruence. by rewrite IH.
Qed.

(** An operation that takes a free element into the list of [h]. *)
Lemma put_ok (m : mem) (p p' : pool) (h e : obj) (l l' : list obj) (r : reply)
    (op : M mem unit) :
  pool_rep m p → p_lists p !! h = Some l → put p h e l' = Some (p', r) →
  (e ∉ h :: l → has_words q_words m e → wp op m (λ _ m', now_holds h l' (e :: h :: l) m m')) →
  (∀ o, o ∈ l' ↔ o = e ∨ o ∈ l) →
  wp (op;; mret Done) m (λ r' m', r' = r ∧ pool_rep m' p').
Proof.
  intros Hm Hl Hput Hop Hin. unfold put in Hput. case_guard as He; [|done]. injection Hput as <- <-.
  pose proof (pr_free m p Hm h l e Hl He) as Hout.
  apply wp_bind. eapply wp_mono; [apply Hop; [done|by apply (pr_words m p Hm)]|].
  intros [] m' Hl'. apply wp_ret. split; [done|].
  apply (pool_rep_update _ _ _ _ _ _ _ _ Hm Hl Hl').
  - intros o Ho. set_solver.
  - intros o Ho%Hin. set_solver.
  - intros o [Ho Hne]%elem_of_difference. pose proof (pr_free m p Hm h l o Hl Ho). set_solver.
Qed.

(** The list of [h], and its parts around [x]. *)
Ltac p_list Hexec Hl :=
  match type of Hexec with context [?ls !! ?h] =>
    destruct (ls !! h) as [?l|] eqn:Hl; [|done]; cbn [mbind option_bind] in Hexec end.
Ltac p_split Hexec :=
  let Hx := fresh in
  case_guard as Hx; [|done]; cbn in Hexec;
  apply list_elem_of_split_l in Hx as (l1 & l2 & -> & Hx);
  rewrite splice_ok in Hexec by exact Hx; cbn [app] in Hexec.

Lemma perform_ok (c : command) (m : mem) (p p' : pool) (r : reply) :
  pool_rep m p → exec c p = Some (p', r) →
  wp (perform c) m (λ r' m', r' = r ∧ pool_rep m' p').
Proof.
  intros Hm Hexec. destruct c as [h e|h e|h x e|h x e|h x|h|h]; cbn [exec perform] in *.
  - p_list Hexec Hl. eapply put_ok; [exact Hm|exact Hl|exact Hexec| |set_solver].
    intros. by apply q_insert_head_ok; [apply Hm|..].
  - destruct q_insert_tail as [f|] eqn:Hf; [|done]. p_list Hexec Hl.
    eapply put_ok; [exact Hm|exact Hl|exact Hexec| |set_solver].
    intros. by eapply q_insert_tail_ok; [exact Hf|apply Hm|..].
  - p_list Hexec Hl. p_split Hexec.
    eapply put_ok; [exact Hm|exact Hl|exact Hexec| |set_solver].
    intros. by apply q_insert_after_ok; [apply Hm|..].
  - destruct q_insert_before as [f|] eqn:Hf; [|done]. p_list Hexec Hl. p_split Hexec.
    eapply put_ok; [exact Hm|exact Hl|exact Hexec| |set_solver].
    intros. by eapply q_insert_before_ok; [exact Hf|apply Hm|..].
  - p_list Hexec Hl. p_split Hexec. injection Hexec as <- <-.
    pose proof (pr_rep m p Hm h _ Hl) as Hh. apply wp_bind.
    eapply wp_mono; [by apply q_remove_ok|]. intros [] m' Hl'. apply wp_ret. split; [done|].
    apply (pool_rep_update _ _ _ _ _ _ _ _ Hm Hl Hl'); [set_solver..|].
    intros o Ho. apply q_nodup in Hh. apply NoDup_cons in Hh as [_ Hnd].
    apply NoDup_app in Hnd as (_ & Hd & [Hx2 _]%NoDup_cons).
    apply elem_of_union in Ho as [->%elem_of_singleton|Ho]; [set_solver|].
    pose proof (pr_free m p Hm h _ o Hl Ho). set_solver.
  - p_list Hexec Hl. injection Hexec as <- <-. apply wp_bind.
    eapply wp_mono; [apply q_empty_ok, Hm, Hl|]. intros b m' [-> ->]. by apply wp_ret.
  - p_list Hexec Hl. injection Hexec as <- <-. apply wp_bind.
    eapply wp_mono; [apply (q_foreach_ok m h l (λ _, mret tt) (λ _ m', m' = m)); [apply Hm, Hl|done|]|].
    + intros seen x rest m' _ Hrep ->. by apply wp_ret.
    + intros vs m' (-> & _ & ->). by apply wp_ret.
Qed.

Lemma perform_all_ok (cs : list command) (m : mem) (p p' : pool) (rs : list reply) :
  pool_rep m p → exec_all cs p = Some (p', rs) →
  wp (perform_all cs) m (λ rs' m', rs' = rs ∧ pool_rep m' p').
Proof.
  revert m p p' rs. induction cs as [|c cs IH]; intros m p p' rs Hm Hexec; cbn [exec_all perform_all] in *.
  - injection Hexec as <- <-. by apply wp_ret.
  - destruct (exec c p) as [[p1 r]|] eqn:E1; [|done]. cbn in Hexec.
    destruct (exec_all cs p1) as [[p2 rs']|] eqn:E2; [|done]. injection Hexec as <- <-.
    apply wp_bind. eapply wp_mono; [by eapply perform_ok|]. intros r' m1 [-> Hm1].
    apply wp_bind. eapply wp_mono; [by eapply IH|]. intros ? m2 [-> Hm2]. by apply wp_ret.
Qed.

(** ** The start *)

Fixpoint start (hs : list obj) : M mem unit :=
  match hs with [] => mret tt | h :: hs => q_init h;; start hs end.

(** Empty lists at the heads [hs]. *)
Definition empty_lists (hs : list obj) (ls : gmap obj (list obj)) : gmap obj (list obj) :=
  foldl (λ ls h, <[h := []]> ls) ls hs.

Lemma pool_rep_head (m m' : mem) (ls : gmap obj (list obj)) (free : gset obj) (h : obj) :
  pool_rep m (Pool ls free) → (∀ h2 l2, ls !! h2 = Some l2 → h ∉ h2 :: l2) → h ∉ free →
  now_holds h [] [h] m m' → pool_rep m' (Pool (<[h := []]> ls) free).
Proof.
  intros [Hrep Hfree Hwords Hapart] Hout Hf [Hh Hch]. cbn [p_lists p_free] in *.
  split; cbn [p_lists p_free].
  - intros h2 l2 [[<- <-]|[Hne H2]]%lookup_insert_Some; [done|].
    eapply q_frame; [by apply Hrep|]. intros o w Ho. apply Hch. intros ->%list_elem_of_singleton.
    by apply (Hout h2 l2).
  - intros h2 l2 e [[<- <-]|[Hne H2]]%lookup_insert_Some He; [set_solver|by eapply Hfree].
  - intros e He w Hw. apply (changed_is_Some _ _ _ _ Hch). by apply Hwords.
  - intros h1 l1 h2 l2 o [[<- <-]|[Hne1 H1]]%lookup_insert_Some
      [[<- <-]|[Hne2 H2]]%lookup_insert_Some Hne Ho; [done| | |by apply (Hapart h1 l1 h2 l2)].
    + apply list_elem_of_singleton in Ho as ->. by apply Hout.
    + intros ->%list_elem_of_singleton. by apply (Hout h1 l1).
Qed.

Lemma start_ok (hs : list obj) (m : mem) (ls : gmap obj (list obj)) (free : gset obj) :
  pool_rep m (Pool ls free) → NoDup hs →
  (∀ h, h ∈ hs → has_words q_head m h ∧ h ∉ free) →
  (∀ h l, ls !! h = Some l → l = [] ∧ h ∉ hs) →
  wp (start hs) m (λ _ m', pool_rep m' (Pool (empty_lists hs ls) free)).
Proof.
  revert m ls. induction hs as [|h hs IH]; intros m ls Hm Hnd Hw Hls; cbn [start]; [by apply wp_ret|].
  apply NoDup_cons in Hnd as [Hh Hnd]. destruct (Hw h) as [Hwh Hfh]; [by left|].
  apply wp_bind. eapply wp_mono; [by apply q_init_ok|]. intros [] m' Hm'.
  apply IH; [|done| |].
  - eapply pool_rep_head; [exact Hm| |done|exact Hm'].
    intros h2 l2 [-> Hn]%Hls. set_solver.
  - intros h2 H2. destruct (Hw h2) as [Hw2 Hf2]; [by right|]. split; [|done].
    intros w Hin. apply (changed_is_Some _ _ _ _ (proj2 Hm')). by apply Hw2.
  - intros h2 l2 [[<- <-]|[Hne H2]]%lookup_insert_Some; [done|]. apply Hls in H2 as [-> H2].
    split; [done|set_solver].
Qed.

(** From distinct heads and elements in memory, any commands that make sense on sequences. *)
Lemma run_ok (hs : list obj) (free : gset obj) (cs : list command) (m : mem) (p : pool)
    (rs : list reply) :
  NoDup hs → (∀ h, h ∈ hs → has_words q_head m h ∧ h ∉ free) →
  (∀ e, e ∈ free → has_words q_words m e) →
  exec_all cs (Pool (empty_lists hs ∅) free) = Some (p, rs) →
  wp (start hs;; perform_all cs) m (λ rs' m', rs' = rs ∧ pool_rep m' p).
Proof.
  intros Hnd Hh He Hexec. apply wp_bind. eapply wp_mono.
  - apply (start_ok hs m ∅ free); [|done|done|by intros ???%lookup_empty_Some].
    split; cbn [p_lists p_free]; [..|done|]; intros *; by intros ?%lookup_empty_Some.
  - intros [] m' Hm'. by eapply perform_all_ok.
Qed.
End pool.
