(* ===== verification/BsdDemo.v ===== *)
(** * The families of [sys/queue.h] together

    The instances of [BsdListSpec] and [BsdTailqSpec] under the
    refinement theorem of [BsdPool], and runs of the macros on concrete memories. *)

From stdpp Require Import base gmap list sets.
From Stdlib Require Import Lia.
From S2P Require Import Prelude BsdQueue BsdQueueCells BsdQueueSpec BsdListSpec.
From S2P Require Import BsdListSpec BsdTailqSpec BsdPool.

Inductive family : Type := List | Slist | Stailq | Simpleq | Tailq | Circleq.

Definition queue_of (f : family) : Queue :=
  match f with
  | List => LIST | Slist => SLIST | Stailq => STAILQ | Simpleq => SIMPLEQ | Tailq => TAILQ
  | Circleq => CIRCLEQ
  end.

#[export] Instance queue_of_laws (f : family) : QueueLaws (queue_of f).
Proof. destruct f; apply _. Qed.

(** C10: every family of [sys/queue.h] implements sequences: from distinct heads and elements
    in memory, [INIT] and then any commands (insertions at either end, after and before an
    element, removals, emptiness tests, loops) on any of the heads, as long as they make
    sense on sequences, run without undefined behaviour, reply what they reply on sequences,
    and leave every head with its sequence; a command on one head leaves the others alone. *)
Theorem queues_refine_sequences (f : family) (hs : list obj) (free : gset obj)
    (cs : list command) (m : mem) (p : pool) (rs : list reply) :
  let _ := queue_of f in
  NoDup hs → (∀ h, h ∈ hs → has_words [First; Second] m h ∧ h ∉ free) →
  (∀ e, e ∈ free → has_words [First; Second] m e) →
  exec_all cs (Pool (empty_lists hs ∅) free) = Some (p, rs) →
  wp (start hs;; perform_all cs) m (λ rs' m', rs' = rs ∧
    ∀ h l, p_lists p !! h = Some l → q_rep m' h l).
Proof.
  intros ? Hnd Hh He Hexec.
  eapply wp_mono; [apply (run_ok hs free cs m p rs); [done|..|exact Hexec]|].
  - intros h [Hw Hf]%Hh. split; [|done]. intros w Hin. apply Hw. destruct w; set_solver.
  - intros e Hw%He w Hin. apply Hw. destruct w; set_solver.
  - intros rs' m' [-> Hm']. split; [done|]. apply Hm'.
Qed.

(** ** A run on two heads and three elements *)

Definition demo_mem : mem :=
  list_to_map (o ← [1; 2; 10; 11; 12]%positive; [((o, First), Null); ((o, Second), Null)]).

Definition demo_commands : list command :=
  [InsertHead 1 10; InsertTail 1 11; InsertBefore 1 11 12; Foreach 1; Remove 1 12;
   InsertHead 2 12; InsertAfter 1 10 13; Remove 1 10; Foreach 1; Foreach 2]%positive.

Definition demo_mem' : mem :=
  <[(13%positive, Second) := Null]> (<[(13%positive, First) := Null]> demo_mem).

Definition demo_replies : list reply :=
  [Done; Done; Done; Visited [10; 12; 11]; Done; Done; Done; Done; Visited [13; 11];
   Visited [12]]%positive.

Definition demo_pool : pool :=
  {| p_lists := {[ 1%positive := [13; 11]%positive; 2%positive := [12%positive] ]};
     p_free := {[ 10%positive ]} |}.

Ltac demo_words :=
  repeat match goal with
  | H : _ ∈ _ :: _ |- _ => apply elem_of_cons in H as [->|H]
  | H : _ ∈ [] |- _ => by apply elem_of_nil in H
  end; intros [] _; eexists; vm_compute; reflexivity.

Lemma queues_refine_sequences_witness :
  let _ := queue_of Tailq in
  wp (start [1; 2]%positive;; perform_all demo_commands) demo_mem' (λ rs m',
    rs = demo_replies ∧ ∀ h l, p_lists demo_pool !! h = Some l → q_rep m' h l).
Proof.
  apply (queues_refine_sequences Tailq [1; 2]%positive
    (list_to_set [10; 11; 12; 13]%positive) demo_commands demo_mem' demo_pool demo_replies).
  - apply (bool_decide_unpack _). vm_compute. exact I.
  - intros h Hh. split; [demo_words|].
    intros He%elem_of_list_to_set. revert Hh He. by rewrite !elem_of_cons, !elem_of_nil; naive_solver.
  - intros e He%elem_of_list_to_set. demo_words.
  - vm_compute. reflexivity.
Defined.

(** The same commands on a circular queue, computed. *)
Example circleq_run :
  let _ := queue_of Circleq in
  match (start [1; 2]%positive;; perform_all demo_commands) demo_mem' with
  | Ret (rs, _) => rs = demo_replies
  | _ => False
  end.
Proof. vm_compute. reflexivity. Qed.
