(* ===== verification/Bits.v ===== *)
(** * Bit fields

    A field of [w] bits at bit [i] in arithmetic, how masks, shifts and [|] act on fields,
    and the bytes of an integer.  Shared by the components that pack values into words. *)

From stdpp Require Import base list numbers.
From Stdlib Require Import ZArith Lia.
From S2P Require Import Prelude.

#[local] Open Scope c_scope.
#[local] Open Scope Z_scope.

(** ** Fields *)

Definition field (i w x : Z) : Z := (x / 2 ^ i) mod 2 ^ w.

Lemma pow2_pos k : 0 ≤ k → 0 < 2 ^ k.
Proof. intros. by apply Z.pow_pos_nonneg. Qed.

Lemma field_range i w x : 0 ≤ w → 0 ≤ field i w x < 2 ^ w.
Proof. intros. apply Z.mod_pos_bound. by apply pow2_pos. Qed.

Lemma testbit_field i w x n :
  0 ≤ i → 0 ≤ w → 0 ≤ n → Z.testbit (field i w x) n = (n <? w) && Z.testbit x (i + n).
Proof.
  intros Hi Hw Hn. unfold field. rewrite <- Z.shiftr_div_pow2 by done.
  destruct (Z.ltb_spec n w) as [Hlt|Hge]; cbn [andb].
  - rewrite Z.mod_pow2_bits_low, Z.shiftr_spec by lia. f_equal. lia.
  - by rewrite Z.mod_pow2_bits_high by lia.
Qed.

(** A mask of ones in place. *)
Lemma land_field i w x :
  0 ≤ i → 0 ≤ w → x .& ((2 ^ w - 1) * 2 ^ i) = field i w x * 2 ^ i.
Proof.
  intros Hi Hw. apply Z.bits_inj'. intros n Hn.
  rewrite <- !Z.shiftl_mul_pow2, Z.land_spec by done.
  replace (2 ^ w - 1) with (Z.ones w) by (rewrite Z.ones_equiv; lia).
  destruct (Z.ltb_spec n i) as [Hlt|Hge].
  - rewrite !Z.shiftl_spec_low by done. apply andb_false_r.
  - rewrite !Z.shiftl_spec, testbit_field, Z.testbit_ones by lia.
    replace (i + (n - i)) with n by lia.
    replace (0 <=? n - i) with true by (symmetry; apply Z.leb_le; lia).
    apply andb_comm.
Qed.

Lemma land_ones_field w x : 0 ≤ w → x .& (2 ^ w - 1) = field 0 w x.
Proof.
  intros. pose proof (land_field 0 w x) as H1. rewrite Z.pow_0_r, !Z.mul_1_r in H1.
  by apply H1.
Qed.

Lemma shiftr_land_field i w x : 0 ≤ i → 0 ≤ w → (x ≫ i) .& (2 ^ w - 1) = field i w x.
Proof.
  intros. rewrite land_ones_field, Z.shiftr_div_pow2 by done. unfold field. by rewrite Z.div_1_r.
Qed.

(** A field of a field. *)
Lemma field_field i w j v x :
  0 ≤ i → 0 ≤ j → 0 ≤ v → j + v ≤ w → field j v (field i w x) = field (i + j) v x.
Proof.
  intros. apply Z.bits_inj'. intros n Hn. rewrite !testbit_field by lia.
  destruct (Z.ltb_spec n v), (Z.ltb_spec (j + n) w); try lia; cbn [andb];
    first [ done | f_equal; lia ].
Qed.

Lemma uwrap_field w x : uwrap w x = field 0 w x.
Proof. unfold uwrap, field. by rewrite Z.div_1_r. Qed.

(** A field in two parts. *)
Lemma field_split i w v x :
  0 ≤ i → 0 ≤ w → 0 ≤ v → field i (w + v) x = field i w x + 2 ^ w * field (i + w) v x.
Proof.
  intros. pose proof (pow2_pos i). pose proof (pow2_pos w). pose proof (pow2_pos v).
  unfold field. rewrite Z.pow_add_r, Z.rem_mul_r, Z.div_div, <- Z.pow_add_r by lia. done.
Qed.

(** [|] of values whose bits do not meet is addition. *)
Lemma lor_add a c k : 0 ≤ k → 0 ≤ c < 2 ^ k → (a * 2 ^ k) .| c = a * 2 ^ k + c.
Proof.
  intros Hk Hc. rewrite <- (Z.mod_small c (2 ^ k)) by done.
  assert ((a * 2 ^ k) .& (c mod 2 ^ k) = 0) as H0.
  { apply Z.bits_inj'. intros n Hn. rewrite Z.land_spec, Z.bits_0. destruct (Z.ltb_spec n k).
    - by rewrite Z.mul_pow2_bits_low.
    - rewrite Z.mod_pow2_bits_high by lia. apply andb_false_r. }
  by rewrite <- Z.lxor_lor, Z.add_nocarry_lxor.
Qed.

(** ** Alignment *)

(** [x & ~(2 ^ k - 1)] of [w] bits. *)
Lemma land_lnot_low k w x :
  0 ≤ k ≤ w → 0 ≤ x < 2 ^ w → x .& uwrap w (Z.lnot (2 ^ k - 1)) = x / 2 ^ k * 2 ^ k.
Proof.
  intros Hk Hx. replace (2 ^ k - 1) with (Z.ones k) by (rewrite Z.ones_equiv; lia).
  rewrite <- Z.shiftr_div_pow2, <- Z.shiftl_mul_pow2 by lia.
  apply Z.bits_inj'. intros n Hn. rewrite Z.land_spec, uwrap_field, testbit_field by lia.
  rewrite Z.add_0_l, Z.lnot_spec, Z.shiftl_spec, Z.testbit_ones by lia.
  destruct (Z.ltb_spec n w) as [Hw|Hw].
  - destruct (Z.ltb_spec n k) as [Hlt|Hge].
    + replace (0 <=? n) with true by (symmetry; apply Z.leb_le; lia). cbn [andb negb].
      by rewrite andb_false_r, Z.testbit_neg_r by lia.
    + rewrite Z.shiftr_spec by lia. replace (n - k + k) with n by lia.
      rewrite !andb_false_r. by rewrite andb_true_r.
  - rewrite andb_false_r. symmetry. destruct (Z.ltb_spec n k); [lia|].
    rewrite Z.shiftr_spec by lia. replace (n - k + k) with n by lia.
    rewrite <- (Z.mod_small x (2 ^ w)) by done. apply Z.mod_pow2_bits_high. lia.
Qed.

(** The next multiple of [a]. *)
Definition align_up (a x : Z) : Z := (x + a - 1) / a * a.

Lemma align_up_spec a x :
  0 < a → align_up a x mod a = 0 ∧ x ≤ align_up a x < x + a.
Proof.
  intros Ha. unfold align_up. split; [apply Z.mod_mul; lia|].
  pose proof (Z.div_mod (x + a - 1) a). pose proof (Z.mod_pos_bound (x + a - 1) a). lia.
Qed.

Lemma align_up_add a x y : 0 < a → x mod a = 0 → align_up a (x + y) = x + align_up a y.
Proof.
  intros Ha Hx. unfold align_up. pose proof (Z.div_mod x a) as E. rewrite Hx in E.
  replace (x + y + a - 1) with (x / a * a + (y + a - 1)) by lia.
  rewrite Z.div_add_l by lia. lia.
Qed.

(** ** Bytes *)

Definition byte_of (i x : Z) : Z := field (8 * i) 8 x.

Lemma byte_of_range i x : 0 ≤ byte_of i x < 256.
Proof. by apply (field_range _ 8). Qed.

(** The bytes of an integer, the lowest first. *)
Fixpoint le_bytes (n : nat) (x : Z) : list Z :=
  match n with O => [] | S n => u8 x :: le_bytes n (x / 256) end.
Definition of_le_bytes (l : list Z) : Z := foldr (λ b x, b + 256 * x) 0 l.

Lemma length_le_bytes n x : length (le_bytes n x) = n.
Proof. revert x. induction n; intros x; simpl; auto. Qed.

Lemma le_bytes_cons n b x : 0 ≤ b < 256 → le_bytes (S n) (b + 256 * x) = b :: le_bytes n x.
Proof.
  intros Hb. cbn [le_bytes]. unfold uwrap. f_equal.
  - rewrite Z.mul_comm, Z_mod_plus_full. by apply Z.mod_small.
  - f_equal. rewrite Z.mul_comm, Z.div_add by done. rewrite Z.div_small by done. done.
Qed.

Lemma le_of_le_bytes l :
  Forall (λ b, 0 ≤ b < 256) l → le_bytes (length l) (of_le_bytes l) = l.
Proof.
  induction 1 as [|b l Hb _ IH]; [done|]. cbn [length of_le_bytes foldr].
  rewrite le_bytes_cons by done. f_equal. exact IH.
Qed.

Lemma of_le_le_bytes n x : of_le_bytes (le_bytes n x) = x mod 2 ^ (8 * Z.of_nat n).
Proof.
  revert x. induction n as [|n IH]; intros x; [by rewrite Z.mod_1_r|].
  cbn [le_bytes of_le_bytes foldr]. unfold of_le_bytes in IH. rewrite IH.
  replace (8 * Z.of_nat (S n)) with (8 + 8 * Z.of_nat n) by lia.
  rewrite Z.pow_add_r by lia. change (2 ^ 8) with 256.
  rewrite Z.rem_mul_r by (try apply Z.pow_nonzero; lia). done.
Qed.

Lemma le_bytes_range n x : Forall (λ b, 0 ≤ b < 256) (le_bytes n x).
Proof.
  revert x. induction n as [|n IH]; intros x; constructor; [by apply (uwrap_range 8)|apply IH].
Qed.

(** Byte [i] of the list. *)
Lemma le_bytes_eq n x : le_bytes n x = (λ i, byte_of (Z.of_nat i) x) <$> seq 0 n.
Proof.
  revert x. induction n as [|n IH]; intros x; [done|]. cbn [le_bytes seq fmap list_fmap]. f_equal.
  - unfold byte_of, field. by rewrite Z.div_1_r.
  - rewrite IH, <- fmap_S_seq, <- list_fmap_compose. apply list_fmap_ext. intros i j _.
    unfold compose, byte_of, field. rewrite Z.div_div by (done || (apply pow2_pos; lia)).
    change 256 with (2 ^ 8) at 1. rewrite <- Z.pow_add_r by lia. do 3 f_equal. lia.
Qed.

Lemma le_bytes_app n k x :
  le_bytes (n + k) x = le_bytes n x ++ le_bytes k (x / 2 ^ (8 * Z.of_nat n)).
Proof.
  revert x. induction n as [|n IH]; intros x; [by rewrite Z.div_1_r|].
  cbn [Nat.add le_bytes app]. f_equal. rewrite IH. do 2 f_equal.
  replace (8 * Z.of_nat (S n)) with (8 + 8 * Z.of_nat n) by lia.
  rewrite Z.pow_add_r by lia. rewrite <- Z.div_div by (done || (apply pow2_pos; lia)). done.
Qed.

Lemma of_le_bytes_app l k :
  of_le_bytes (l ++ k) = of_le_bytes l + 2 ^ (8 * Z.of_nat (length l)) * of_le_bytes k.
Proof.
  induction l as [|b l IH].
  - change (2 ^ (8 * Z.of_nat (length []))) with 1. change (of_le_bytes []) with 0.
    rewrite app_nil_l. lia.
  - change (of_le_bytes ((b :: l) ++ k)) with (b + 256 * of_le_bytes (l ++ k)).
    change (of_le_bytes (b :: l)) with (b + 256 * of_le_bytes l). rewrite IH. cbn [length].
    replace (8 * Z.of_nat (S (length l))) with (8 + 8 * Z.of_nat (length l)) by lia.
    rewrite Z.pow_add_r by lia. change (2 ^ 8) with 256. ring.
Qed.

Lemma of_le_bytes_range l :
  Forall (λ b, 0 ≤ b < 256) l → 0 ≤ of_le_bytes l < 2 ^ (8 * Z.of_nat (length l)).
Proof.
  intros H. rewrite <- (le_of_le_bytes l H), of_le_le_bytes, length_le_bytes.
  apply Z.mod_pos_bound, pow2_pos. lia.
Qed.
