(* ===== verification/ByteOrder.v ===== *)
(** * Byte order ([linux/swab.h], [linux/byteorder/], [bits/byteswap.h], [endian.h])

    The headers that convert integers between the order of the host and a fixed one.
    [linux/byteorder/] has a header for each kind of host, with the same names: they are the
    modules [LittleEndian] and [BigEndian] here.  [endian.h] chooses between the swap and the
    identity of [bits/]; [GlibcLittle] and [GlibcBig] are the two choices, with those of
    [netinet/in.h].  An integer argument of a macro is any integer, cast to its width; memory
    is bytes at addresses, read and written in the order of the host. *)

From stdpp Require Import base list gmap numbers.
From Stdlib Require Import ZArith Lia.
From S2P Require Import Prelude Bits.

#[local] Open Scope c_scope.
#[local] Open Scope Z_scope.

(** ** Integers in memory *)

Inductive order : Type := Little | Big.

#[export] Instance order_eq_decision : EqDecision order.
Proof. solve_decision. Defined.

(** The [n] bytes of an integer in the order of their addresses, and back. *)
Definition bytes_in (o : order) (n : nat) (x : Z) : list Z :=
  match o with Little => le_bytes n x | Big => reverse (le_bytes n x) end.
Definition of_bytes_in (o : order) (l : list Z) : Z :=
  match o with Little => of_le_bytes l | Big => of_le_bytes (reverse l) end.

Abbreviation bmem := (gmap Z Z).

Fixpoint read_bytes (n : nat) (p : Z) : M bmem (list Z) :=
  match n with
  | O => mret []
  | S n => m ← mget; b ← moption OutOfBounds (m !! p); l ← read_bytes n (p + 1); mret (b :: l)
  end.
Fixpoint write_bytes (p : Z) (l : list Z) : M bmem unit :=
  match l with
  | [] => mret tt
  | b :: l =>
      m ← mget; _ ← moption OutOfBounds (m !! p);
      mmodify (insert p b);; write_bytes (p + 1) l
  end.

(** [*p] and [*p = v] for an integer of [n] bytes. *)
Definition load_int (o : order) (n : nat) (p : Z) : M bmem Z :=
  l ← read_bytes n p; mret (of_bytes_in o l).
Definition store_int (o : order) (n : nat) (p v : Z) : M bmem unit :=
  write_bytes p (bytes_in o n v).

(** [__builtin_constant_p]: whether the compiler knows the argument. *)
Class Compiler : Type := builtin_constant_p : Z → bool.

(** [__builtin_bswap16] and so on: the compiler's own reversal of the bytes. *)
Definition builtin_bswap (n : nat) (x : Z) : Z := of_le_bytes (reverse (le_bytes n x)).

(** ** [linux/swab.h] *)

Definition ___constant_swab16 (x : Z) : Z :=
  u16 ((u16 x .& 0x00ff) ≪ 8 .|
       (u16 x .& 0xff00) ≫ 8).

Definition ___constant_swab32 (x : Z) : Z :=
  u32 ((u32 x .& 0x000000ff) ≪ 24 .|
       (u32 x .& 0x0000ff00) ≪ 8 .|
       (u32 x .& 0x00ff0000) ≫ 8 .|
       (u32 x .& 0xff000000) ≫ 24).

Definition ___constant_swab64 (x : Z) : Z :=
  u64 ((u64 x .& 0x00000000000000ff) ≪ 56 .|
       (u64 x .& 0x000000000000ff00) ≪ 40 .|
       (u64 x .& 0x0000000000ff0000) ≪ 24 .|
       (u64 x .& 0x00000000ff000000) ≪ 8 .|
       (u64 x .& 0x000000ff00000000) ≫ 8 .|
       (u64 x .& 0x0000ff0000000000) ≫ 24 .|
       (u64 x .& 0x00ff000000000000) ≫ 40 .|
       (u64 x .& 0xff00000000000000) ≫ 56).

Definition ___constant_swahw32 (x : Z) : Z :=
  u32 ((u32 x .& 0x0000ffff) ≪ 16 .|
       (u32 x .& 0xffff0000) ≫ 16).

Definition ___constant_swahb32 (x : Z) : Z :=
  u32 ((u32 x .& 0x00ff00ff) ≪ 8 .|
       (u32 x .& 0xff00ff00) ≫ 8).

(** No architecture has its own routines: [asm/swab.h] of this one is the generic one,
    which asks for the detour through 32 bits on machines with narrower words only. *)
Definition __SWAB_64_THRU_32__ (bits_per_long : Z) : bool := bits_per_long =? 32.

Definition __fswab16 (val : Z) : Z := ___constant_swab16 val.
Definition __fswab32 (val : Z) : Z := ___constant_swab32 val.
Definition __fswab64 (bits_per_long val : Z) : Z :=
  if __SWAB_64_THRU_32__ bits_per_long then
    let h := u32 (val ≫ 32) in
    let l := u32 (val .& (1 ≪ 32 - 1)) in
    u64 (__fswab32 l) ≪ 32 .| u64 (__fswab32 h)
  else ___constant_swab64 val.
Definition __fswahw32 (val : Z) : Z := ___constant_swahw32 val.
Definition __fswahb32 (val : Z) : Z := ___constant_swahb32 val.

Section swab.
Context {cc : Compiler} (bits_per_long : Z) (host : order).

Definition __swab16 (x : Z) : Z :=
  if builtin_constant_p (u16 x) then ___constant_swab16 x else __fswab16 (u16 x).
Definition __swab32 (x : Z) : Z :=
  if builtin_constant_p (u32 x) then ___constant_swab32 x else __fswab32 (u32 x).
Definition __swab64 (x : Z) : Z :=
  if builtin_constant_p (u64 x) then ___constant_swab64 x else __fswab64 bits_per_long (u64 x).
Definition __swahw32 (x : Z) : Z :=
  if builtin_constant_p (u32 x) then ___constant_swahw32 x else __fswahw32 (u32 x).
Definition __swahb32 (x : Z) : Z :=
  if builtin_constant_p (u32 x) then ___constant_swahb32 x else __fswahb32 (u32 x).

Definition __swab16p (p : Z) : M bmem Z := v ← load_int host 2 p; mret (__swab16 v).
Definition __swab32p (p : Z) : M bmem Z := v ← load_int host 4 p; mret (__swab32 v).
Definition __swab64p (p : Z) : M bmem Z := v ← load_int host 8 p; mret (__swab64 v).
Definition __swahw32p (p : Z) : M bmem Z := v ← load_int host 4 p; mret (__swahw32 v).
Definition __swahb32p (p : Z) : M bmem Z := v ← load_int host 4 p; mret (__swahb32 v).

Definition __swab16s (p : Z) : M bmem unit := v ← __swab16p p; store_int host 2 p v.
Definition __swab32s (p : Z) : M bmem unit := v ← __swab32p p; store_int host 4 p v.
Definition __swab64s (p : Z) : M bmem unit := v ← __swab64p p; store_int host 8 p v.
Definition __swahw32s (p : Z) : M bmem unit := v ← __swahw32p p; store_int host 4 p v.
Definition __swahb32s (p : Z) : M bmem unit := v ← __swahb32p p; store_int host 4 p v.
End swab.

(** ** [linux/byteorder/little_endian.h] *)

Module LittleEndian.
Section little_endian.
Context {cc : Compiler} (bits_per_long : Z).

Definition __constant_htonl (x : Z) : Z := ___constant_swab32 x.
Definition __constant_ntohl (x : Z) : Z := ___constant_swab32 (u32 x).
Definition __constant_htons (x : Z) : Z := ___constant_swab16 x.
Definition __constant_ntohs (x : Z) : Z := ___constant_swab16 (u16 x).
Definition __constant_cpu_to_le64 (x : Z) : Z := u64 x.
Definition __constant_le64_to_cpu (x : Z) : Z := u64 x.
Definition __constant_cpu_to_le32 (x : Z) : Z := u32 x.
Definition __constant_le32_to_cpu (x : Z) : Z := u32 x.
Definition __constant_cpu_to_le16 (x : Z) : Z := u16 x.
Definition __constant_le16_to_cpu (x : Z) : Z := u16 x.
Definition __constant_cpu_to_be64 (x : Z) : Z := ___constant_swab64 x.
Definition __constant_be64_to_cpu (x : Z) : Z := ___constant_swab64 (u64 x).
Definition __constant_cpu_to_be32 (x : Z) : Z := ___constant_swab32 x.
Definition __constant_be32_to_cpu (x : Z) : Z := ___constant_swab32 (u32 x).
Definition __constant_cpu_to_be16 (x : Z) : Z := ___constant_swab16 x.
Definition __constant_be16_to_cpu (x : Z) : Z := ___constant_swab16 (u16 x).

Definition __cpu_to_le64 (x : Z) : Z := u64 x.
Definition __le64_to_cpu (x : Z) : Z := u64 x.
Definition __cpu_to_le32 (x : Z) : Z := u32 x.
Definition __le32_to_cpu (x : Z) : Z := u32 x.
Definition __cpu_to_le16 (x : Z) : Z := u16 x.
Definition __le16_to_cpu (x : Z) : Z := u16 x.
Definition __cpu_to_be64 (x : Z) : Z := __swab64 bits_per_long x.
Definition __be64_to_cpu (x : Z) : Z := __swab64 bits_per_long (u64 x).
Definition __cpu_to_be32 (x : Z) : Z := __swab32 x.
Definition __be32_to_cpu (x : Z) : Z := __swab32 (u32 x).
Definition __cpu_to_be16 (x : Z) : Z := __swab16 x.
Definition __be16_to_cpu (x : Z) : Z := __swab16 (u16 x).

Definition __cpu_to_le64p (p : Z) : M bmem Z := load_int Little 8 p.
Definition __le64_to_cpup (p : Z) : M bmem Z := load_int Little 8 p.
Definition __cpu_to_le32p (p : Z) : M bmem Z := load_int Little 4 p.
Definition __le32_to_cpup (p : Z) : M bmem Z := load_int Little 4 p.
Definition __cpu_to_le16p (p : Z) : M bmem Z := load_int Little 2 p.
Definition __le16_to_cpup (p : Z) : M bmem Z := load_int Little 2 p.
Definition __cpu_to_be64p (p : Z) : M bmem Z := __swab64p bits_per_long Little p.
Definition __be64_to_cpup (p : Z) : M bmem Z := __swab64p bits_per_long Little p.
Definition __cpu_to_be32p (p : Z) : M bmem Z := __swab32p Little p.
Definition __be32_to_cpup (p : Z) : M bmem Z := __swab32p Little p.
Definition __cpu_to_be16p (p : Z) : M bmem Z := __swab16p Little p.
Definition __be16_to_cpup (p : Z) : M bmem Z := __swab16p Little p.

Definition __cpu_to_le64s (x : Z) : M bmem unit := mret tt.
Definition __le64_to_cpus (x : Z) : M bmem unit := mret tt.
Definition __cpu_to_le32s (x : Z) : M bmem unit := mret tt.
Definition __le32_to_cpus (x : Z) : M bmem unit := mret tt.
Definition __cpu_to_le16s (x : Z) : M bmem unit := mret tt.
Definition __le16_to_cpus (x : Z) : M bmem unit := mret tt.
Definition __cpu_to_be64s (x : Z) : M bmem unit := __swab64s bits_per_long Little x.
Definition __be64_to_cpus (x : Z) : M bmem unit := __swab64s bits_per_long Little x.
Definition __cpu_to_be32s (x : Z) : M bmem unit := __swab32s Little x.
Definition __be32_to_cpus (x : Z) : M bmem unit := __swab32s Little x.
Definition __cpu_to_be16s (x : Z) : M bmem unit := __swab16s Little x.
Definition __be16_to_cpus (x : Z) : M bmem unit := __swab16s Little x.
End little_endian.
End LittleEndian.

(** ** [linux/byteorder/big_endian.h] *)

Module BigEndian.
Section big_endian.
Context {cc : Compiler} (bits_per_long : Z).

Definition __constant_htonl (x : Z) : Z := u32 x.
Definition __constant_ntohl (x : Z) : Z := u32 x.
Definition __constant_htons (x : Z) : Z := u16 x.
Definition __constant_ntohs (x : Z) : Z := u16 x.
Definition __constant_cpu_to_le64 (x : Z) : Z := ___constant_swab64 x.
Definition __constant_le64_to_cpu (x : Z) : Z := ___constant_swab64 (u64 x).
Definition __constant_cpu_to_le32 (x : Z) : Z := ___constant_swab32 x.
Definition __constant_le32_to_cpu (x : Z) : Z := ___constant_swab32 (u32 x).
Definition __constant_cpu_to_le16 (x : Z) : Z := ___constant_swab16 x.
Definition __constant_le16_to_cpu (x : Z) : Z := ___constant_swab16 (u16 x).
Definition __constant_cpu_to_be64 (x : Z) : Z := u64 x.
Definition __constant_be64_to_cpu (x : Z) : Z := u64 x.
Definition __constant_cpu_to_be32 (x : Z) : Z := u32 x.
Definition __constant_be32_to_cpu (x : Z) : Z := u32 x.
Definition __constant_cpu_to_be16 (x : Z) : Z := u16 x.
Definition __constant_be16_to_cpu (x : Z) : Z := u16 x.

Definition __cpu_to_le64 (x : Z) : Z := __swab64 bits_per_long x.
Definition __le64_to_cpu (x : Z) : Z := __swab64 bits_per_long (u64 x).
Definition __cpu_to_le32 (x : Z) : Z := __swab32 x.
Definition __le32_to_cpu (x : Z) : Z := __swab32 (u32 x).
Definition __cpu_to_le16 (x : Z) : Z := __swab16 x.
Definition __le16_to_cpu (x : Z) : Z := __swab16 (u16 x).
Definition __cpu_to_be64 (x : Z) : Z := u64 x.
Definition __be64_to_cpu (x : Z) : Z := u64 x.
Definition __cpu_to_be32 (x : Z) : Z := u32 x.
Definition __be32_to_cpu (x : Z) : Z := u32 x.
Definition __cpu_to_be16 (x : Z) : Z := u16 x.
Definition __be16_to_cpu (x : Z) : Z := u16 x.

Definition __cpu_to_le64p (p : Z) : M bmem Z := __swab64p bits_per_long Big p.
Definition __le64_to_cpup (p : Z) : M bmem Z := __swab64p bits_per_long Big p.
Definition __cpu_to_le32p (p : Z) : M bmem Z := __swab32p Big p.
Definition __le32_to_cpup (p : Z) : M bmem Z := __swab32p Big p.
Definition __cpu_to_le16p (p : Z) : M bmem Z := __swab16p Big p.
Definition __le16_to_cpup (p : Z) : M bmem Z := __swab16p Big p.
Definition __cpu_to_be64p (p : Z) : M bmem Z := load_int Big 8 p.
Definition __be64_to_cpup (p : Z) : M bmem Z := load_int Big 8 p.
Definition __cpu_to_be32p (p : Z) : M bmem Z := load_int Big 4 p.
Definition __be32_to_cpup (p : Z) : M bmem Z := load_int Big 4 p.
Definition __cpu_to_be16p (p : Z) : M bmem Z := load_int Big 2 p.
Definition __be16_to_cpup (p : Z) : M bmem Z := load_int Big 2 p.

Definition __cpu_to_le64s (x : Z) : M bmem unit := __swab64s bits_per_long Big x.
Definition __le64_to_cpus (x : Z) : M bmem unit := __swab64s bits_per_long Big x.
Definition __cpu_to_le32s (x : Z) : M bmem unit := __swab32s Big x.
Definition __le32_to_cpus (x : Z) : M bmem unit := __swab32s Big x.
Definition __cpu_to_le16s (x : Z) : M bmem unit := __swab16s Big x.
Definition __le16_to_cpus (x : Z) : M bmem unit := __swab16s Big x.
Definition __cpu_to_be64s (x : Z) : M bmem unit := mret tt.
Definition __be64_to_cpus (x : Z) : M bmem unit := mret tt.
Definition __cpu_to_be32s (x : Z) : M bmem unit := mret tt.
Definition __be32_to_cpus (x : Z) : M bmem unit := mret tt.
Definition __cpu_to_be16s (x : Z) : M bmem unit := mret tt.
Definition __be16_to_cpus (x : Z) : M bmem unit := mret tt.
End big_endian.
End BigEndian.

(** ** [bits/byteswap.h] *)

Definition __bswap_constant_16 (x : Z) : Z :=
  u16 ((x ≫ 8 .& 0xff) .| (x .& 0xff) ≪ 8).

Definition __bswap_constant_32 (x : Z) : Z :=
  (u32 x .& 0xff000000) ≫ 24 .| (u32 x .& 0x00ff0000) ≫ 8
  .| (u32 x .& 0x0000ff00) ≪ 8 .| (u32 x .& 0x000000ff) ≪ 24.

Definition __bswap_constant_64 (x : Z) : Z :=
  (u64 x .& 0xff00000000000000) ≫ 56
  .| (u64 x .& 0x00ff000000000000) ≫ 40
  .| (u64 x .& 0x0000ff0000000000) ≫ 24
  .| (u64 x .& 0x000000ff00000000) ≫ 8
  .| (u64 x .& 0x00000000ff000000) ≪ 8
  .| (u64 x .& 0x0000000000ff0000) ≪ 24
  .| (u64 x .& 0x000000000000ff00) ≪ 40
  .| (u64 x .& 0x00000000000000ff) ≪ 56.

(** [gnuc] is whether the compiler is recent enough to have the builtin. *)
Definition __bswap_16 (gnuc : bool) (x : Z) : Z :=
  if gnuc then builtin_bswap 2 (u16 x) else __bswap_constant_16 (u16 x).
Definition __bswap_32 (gnuc : bool) (x : Z) : Z :=
  if gnuc then builtin_bswap 4 (u32 x) else __bswap_constant_32 (u32 x).
Definition __bswap_64 (gnuc : bool) (x : Z) : Z :=
  if gnuc then builtin_bswap 8 (u64 x) else __bswap_constant_64 (u64 x).

(** ** [bits/uintn-identity.h] *)

Definition __uint16_identity (x : Z) : Z := u16 x.
Definition __uint32_identity (x : Z) : Z := u32 x.
Definition __uint64_identity (x : Z) : Z := u64 x.

(** ** [endian.h] and [netinet/in.h] on a little-endian host *)

Module GlibcLittle.
Section endian.
Context (gnuc : bool).

Definition htobe16 (x : Z) : Z := __bswap_16 gnuc x.
Definition htole16 (x : Z) : Z := __uint16_identity x.
Definition be16toh (x : Z) : Z := __bswap_16 gnuc x.
Definition le16toh (x : Z) : Z := __uint16_identity x.
Definition htobe32 (x : Z) : Z := __bswap_32 gnuc x.
Definition htole32 (x : Z) : Z := __uint32_identity x.
Definition be32toh (x : Z) : Z := __bswap_32 gnuc x.
Definition le32toh (x : Z) : Z := __uint32_identity x.
Definition htobe64 (x : Z) : Z := __bswap_64 gnuc x.
Definition htole64 (x : Z) : Z := __uint64_identity x.
Definition be64toh (x : Z) : Z := __bswap_64 gnuc x.
Definition le64toh (x : Z) : Z := __uint64_identity x.

Definition ntohl (x : Z) : Z := __bswap_32 gnuc x.
Definition ntohs (x : Z) : Z := __bswap_16 gnuc x.
Definition htonl (x : Z) : Z := __bswap_32 gnuc x.
Definition htons (x : Z) : Z := __bswap_16 gnuc x.
End endian.
End GlibcLittle.

(** ** [endian.h] and [netinet/in.h] on a big-endian host *)

Module GlibcBig.
Section endian.
Context (gnuc : bool).

Definition htobe16 (x : Z) : Z := __uint16_identity x.
Definition htole16 (x : Z) : Z := __bswap_16 gnuc x.
Definition be16toh (x : Z) : Z := __uint16_identity x.
Definition le16toh (x : Z) : Z := __bswap_16 gnuc x.
Definition htobe32 (x : Z) : Z := __uint32_identity x.
Definition htole32 (x : Z) : Z := __bswap_32 gnuc x.
Definition be32toh (x : Z) : Z := __uint32_identity x.
Definition le32toh (x : Z) : Z := __bswap_32 gnuc x.
Definition htobe64 (x : Z) : Z := __uint64_identity x.
Definition htole64 (x : Z) : Z := __bswap_64 gnuc x.
Definition be64toh (x : Z) : Z := __uint64_identity x.
Definition le64toh (x : Z) : Z := __bswap_64 gnuc x.

Definition ntohl (x : Z) : Z := __uint32_identity x.
Definition ntohs (x : Z) : Z := __uint16_identity x.
Definition htonl (x : Z) : Z := __uint32_identity x.
Definition htons (x : Z) : Z := __uint16_identity x.
End endian.
End GlibcBig.
