(* ===== verification/ByteOrderSpec.v ===== *)
(** * What the byte order headers do

    Every swap is the reversal of the bytes.  [Conversions] is what a header of conversions
    promises: what [to] stores in the memory of its host are the bytes of the argument in the
    target order, and [from] reads them back; the four headers are instances. *)

From stdpp Require Import base list gmap numbers.
From Stdlib Require Import ZArith Lia Btauto.
From S2P Require Import Prelude Bits ByteOrder.

#[local] Open Scope c_scope.
#[local] Open Scope Z_scope.

(** ** The swaps *)

Lemma mask_up i w j x :
  0 ≤ i → 0 ≤ w → 0 ≤ j → (x .& ((2 ^ w - 1) * 2 ^ i)) ≪ j = field i w x * 2 ^ (i + j).
Proof.
  intros. rewrite land_field, Z.shiftl_mul_pow2, Z.pow_add_r by done. lia.
Qed.

Lemma mask_down i w j x :
  0 ≤ w → 0 ≤ j ≤ i → (x .& ((2 ^ w - 1) * 2 ^ i)) ≫ j = field i w x * 2 ^ (i - j).
Proof.
  intros. rewrite land_field, Z.shiftr_div_pow2 by lia.
  replace (2 ^ i) with (2 ^ (i - j) * 2 ^ j) by (rewrite <- Z.pow_add_r by lia; f_equal; lia).
  rewrite Z.mul_assoc, Z.div_mul; [done|]. pose proof (pow2_pos j). lia.
Qed.

Lemma lor_add_up a c k : 0 ≤ k → a mod 2 ^ k = 0 → 0 ≤ c < 2 ^ k → a .| c = a + c.
Proof.
  intros Hk Ha Hc. pose proof (pow2_pos k Hk). pose proof (Z.div_mod a (2 ^ k)) as E.
  rewrite Ha, Z.add_0_r in E. rewrite E by lia. rewrite Z.mul_comm. by apply lor_add.
Qed.

Lemma lor_add_down a c k : 0 ≤ k → 0 ≤ a < 2 ^ k → c mod 2 ^ k = 0 → a .| c = a + c.
Proof. intros. rewrite Z.lor_comm, Z.add_comm. by eapply lor_add_up. Qed.

(** Masks and shifts of whole bytes. *)
Ltac bo_up i j := rewrite (mask_up i 8 j) by lia.
Ltac bo_down i j := rewrite (mask_down i 8 j) by lia.
Ltac bo_bytes n x :=
  rewrite (le_bytes_eq n x); cbn [seq fmap list_fmap reverse rev_append of_le_bytes foldr];
  repeat match goal with |- context [byte_of (Z.of_nat ?i) x] =>
    let k := eval vm_compute in (Z.of_nat i) in change (byte_of (Z.of_nat i) x) with (byte_of k x) end;
  repeat match goal with |- context [byte_of ?i x] =>
    let H := fresh in let b := fresh "b" in
    pose proof (byte_of_range i x) as H; set (b := byte_of i x) in *; clearbody b end.

(** Powers of two as numbers, and a chain of [|] as a sum. *)
Ltac bo_num :=
  repeat match goal with |- context [2 ^ ?e] =>
    let v := eval vm_compute in (2 ^ e) in change (2 ^ e) with v end.
Ltac bo_lia := Z.div_mod_to_equations; lia.
Ltac bo_or lem k :=
  match goal with |- context [?a .| ?c] =>
    lazymatch a with
    | context [Z.lor _ _] => fail
    | _ => rewrite (lem a c k) by (try (bo_num; bo_lia); done)
    end
  end.

Lemma le_bytes_mod n w x : 8 * Z.of_nat n = w → le_bytes n (uwrap w x) = le_bytes n x.
Proof.
  intros <-. unfold uwrap. rewrite <- (of_le_le_bytes n x).
  pose proof (le_of_le_bytes (le_bytes n x) (le_bytes_range n x)) as H.
  by rewrite length_le_bytes in H.
Qed.

(** The masks of the bytes, and a field of eight bits as a byte. *)
Ltac bo_masks :=
  repeat match goal with
  | |- context [Z.land ?x (Z.pos ?m)] =>
      let i := eval vm_compute in (Z.log2 (Z.pos m) - 7) in
      change (Z.land x (Z.pos m)) with (Z.land x ((2 ^ 8 - 1) * 2 ^ i))
  end.
Ltac bo_shifts :=
  repeat match goal with
  | |- context [Z.shiftl (Z.land _ (_ * 2 ^ ?i)) ?j] => bo_up i j
  | |- context [Z.shiftr (Z.land _ (_ * 2 ^ ?i)) ?j] => bo_down i j
  end;
  repeat match goal with |- context [field ?i 8 ?x] =>
    let k := eval vm_compute in (i / 8) in change (field i 8 x) with (byte_of k x) end.
Ltac bo_start n w x :=
  rewrite <- (le_bytes_mod n w x) by done; generalize (uwrap w x); clear x; intros x;
  bo_masks; bo_shifts; bo_bytes n x; bo_num.

Lemma swab16_eq x : ___constant_swab16 x = builtin_bswap 2 x.
Proof.
  unfold ___constant_swab16, builtin_bswap. bo_start 2%nat 16 x.
  bo_or lor_add_up 8. rewrite uwrap_small by (bo_num; lia). lia.
Qed.

Lemma swab32_eq x : ___constant_swab32 x = builtin_bswap 4 x.
Proof.
  unfold ___constant_swab32, builtin_bswap. bo_start 4%nat 32 x.
  bo_or lor_add_up 24. bo_or lor_add_up 16. bo_or lor_add_up 8.
  rewrite uwrap_small by (bo_num; lia). lia.
Qed.

Lemma swab64_eq x : ___constant_swab64 x = builtin_bswap 8 x.
Proof.
  unfold ___constant_swab64, builtin_bswap. bo_start 8%nat 64 x.
  bo_or lor_add_up 56. bo_or lor_add_up 48. bo_or lor_add_up 40. bo_or lor_add_up 32.
  bo_or lor_add_up 24. bo_or lor_add_up 16. bo_or lor_add_up 8.
  rewrite uwrap_small by (bo_num; lia). lia.
Qed.

Lemma bswap_16_eq x : __bswap_constant_16 (u16 x) = builtin_bswap 2 x.
Proof.
  unfold __bswap_constant_16, builtin_bswap. rewrite <- (le_bytes_mod 2 16 x) by done.
  generalize (u16 x). clear x. intros x. change 0xff with (2 ^ 8 - 1) at 1.
  rewrite shiftr_land_field by lia. bo_masks. bo_shifts. bo_bytes 2%nat x. bo_num.
  bo_or lor_add_down 8. rewrite uwrap_small by (bo_num; lia). lia.
Qed.

Lemma bswap_32_eq x : __bswap_constant_32 x = builtin_bswap 4 x.
Proof.
  unfold __bswap_constant_32, builtin_bswap. bo_start 4%nat 32 x.
  bo_or lor_add_down 8. bo_or lor_add_down 16. bo_or lor_add_down 24. lia.
Qed.

Lemma bswap_64_eq x : __bswap_constant_64 x = builtin_bswap 8 x.
Proof.
  unfold __bswap_constant_64, builtin_bswap. bo_start 8%nat 64 x.
  bo_or lor_add_down 8. bo_or lor_add_down 16. bo_or lor_add_down 24. bo_or lor_add_down 32.
  bo_or lor_add_down 40. bo_or lor_add_down 48. bo_or lor_add_down 56. lia.
Qed.

Lemma byte_of_u32 i x : 0 ≤ i < 4 → byte_of i (u32 x) = byte_of i x.
Proof. intros. unfold byte_of. rewrite uwrap_field, field_field by lia. f_equal. Qed.

Lemma field_16 i x : 0 ≤ i → field (8 * i) 16 x = byte_of i x + 256 * byte_of (i + 1) x.
Proof.
  intros. rewrite (field_split _ 8 8) by lia. unfold byte_of. do 3 f_equal. lia.
Qed.

Ltac bo_abstract x :=
  repeat match goal with |- context [byte_of ?i x] =>
    let H := fresh in let b := fresh "b" in
    pose proof (byte_of_range i x) as H; set (b := byte_of i x) in *; clearbody b end.

(** The halves of a word, and the bytes of each half. *)
Lemma swahw32_eq x :
  ___constant_swahw32 x = of_le_bytes [byte_of 2 x; byte_of 3 x; byte_of 0 x; byte_of 1 x].
Proof.
  unfold ___constant_swahw32.
  change 0x0000ffff with ((2 ^ 16 - 1) * 2 ^ (8 * 0)).
  change 0xffff0000 with ((2 ^ 16 - 1) * 2 ^ (8 * 2)).
  rewrite (mask_up (8 * 0) 16 16), (mask_down (8 * 2) 16 16), !field_16, !byte_of_u32 by lia.
  cbn [of_le_bytes foldr]. change (0 + 1) with 1. change (2 + 1) with 3. bo_abstract x. bo_num.
  bo_or lor_add_up 16. rewrite uwrap_small by (bo_num; lia). lia.
Qed.

Lemma swahb32_eq x :
  ___constant_swahb32 x = of_le_bytes [byte_of 1 x; byte_of 0 x; byte_of 3 x; byte_of 2 x].
Proof.
  unfold ___constant_swahb32.
  change 0x00ff00ff with (0xff0000 .| 0xff). change 0xff00ff00 with (0xff000000 .| 0xff00).
  rewrite !Z.land_lor_distr_r, Z.shiftl_lor, Z.shiftr_lor. bo_masks. bo_shifts.
  rewrite !byte_of_u32 by lia. cbn [of_le_bytes foldr]. bo_abstract x. bo_num.
  match goal with |- u32 ((?p .| ?q) .| (?r .| ?t)) = _ =>
    replace ((p .| q) .| (r .| t)) with (p .| r .| q .| t)
      by (apply Z.bits_inj'; intros; rewrite !Z.lor_spec; btauto) end.
  bo_or lor_add_up 24. bo_or lor_add_up 16. bo_or lor_add_up 8.
  rewrite uwrap_small by (bo_num; lia). lia.
Qed.

#[local] Opaque ___constant_swab16 ___constant_swab32 ___constant_swab64.

(** ** Reversal *)

Lemma le_builtin_bswap n x : le_bytes n (builtin_bswap n x) = reverse (le_bytes n x).
Proof.
  unfold builtin_bswap.
  rewrite <- (length_le_bytes n x) at 1. rewrite <- length_reverse. apply le_of_le_bytes.
  rewrite Forall_reverse. apply le_bytes_range.
Qed.

Lemma builtin_bswap_range n x : 0 ≤ builtin_bswap n x < 2 ^ (8 * Z.of_nat n).
Proof.
  unfold builtin_bswap.
  pose proof (of_le_bytes_range (reverse (le_bytes n x))) as H.
  rewrite length_reverse, length_le_bytes in H. apply H.
  rewrite Forall_reverse. apply le_bytes_range.
Qed.

Lemma builtin_bswap_twice n x :
  builtin_bswap n (builtin_bswap n x) = x mod 2 ^ (8 * Z.of_nat n).
Proof.
  unfold builtin_bswap at 1. by rewrite le_builtin_bswap, reverse_involutive, of_le_le_bytes.
Qed.

Lemma builtin_bswap_uwrap n w x :
  8 * Z.of_nat n = w → builtin_bswap n (uwrap w x) = builtin_bswap n x.
Proof. intros. unfold builtin_bswap. by rewrite le_bytes_mod. Qed.

(** The detour of [__fswab64] through two swaps of 32 bits. *)
Lemma swab64_thru_32 (val : Z) :
  0 ≤ val < 2 ^ 64 →
  u64 (__fswab32 (u32 (val .& (1 ≪ 32 - 1)))) ≪ 32 .| u64 (__fswab32 (u32 (val ≫ 32))) =
  builtin_bswap 8 val.
Proof.
  intros Hv. unfold __fswab32. rewrite !swab32_eq.
  change (1 ≪ 32 - 1) with (2 ^ 32 - 1). rewrite land_ones_field, <- uwrap_field by done.
  rewrite !(builtin_bswap_uwrap 4 32) by done. rewrite Z.shiftr_div_pow2 by done.
  pose proof (builtin_bswap_range 4 val) as H1.
  pose proof (builtin_bswap_range 4 (val / 2 ^ 32)) as H2.
  change (8 * Z.of_nat 4) with 32 in *.
  rewrite !uwrap_small by lia. rewrite Z.shiftl_mul_pow2, lor_add by (done || lia).
  unfold builtin_bswap. rewrite (le_bytes_app 4 4), reverse_app, of_le_bytes_app.
  rewrite length_reverse, length_le_bytes. change (8 * Z.of_nat 4) with 32. lia.
Qed.

(** ** The interface *)

(** What a header of conversions has: the target order and the bytes of the type. *)
Class Conversions : Type := {
  cv_host : order;
  cv_to : order → nat → Z → Z;
  cv_from : order → nat → Z → Z }.

Definition width (n : nat) : Prop := n = 2%nat ∨ n = 4%nat ∨ n = 8%nat.

Class ConversionsLaws (C : Conversions) : Prop := {
  (** The bytes in memory are those of the argument, in the target order... *)
  cv_to_bytes t n x : width n → bytes_in cv_host n (cv_to t n x) = bytes_in t n x;
  (** ...and an integer with the bytes of [x] in that order is read as [x]. *)
  cv_from_bytes t n y :
    width n → cv_from t n y = of_bytes_in t (bytes_in cv_host n y);
  cv_to_range t n x : width n → 0 ≤ cv_to t n x < 2 ^ (8 * Z.of_nat n) }.

(** Every instance is the identity or the swap. *)
Definition convert (host t : order) (n : nat) (x : Z) : Z :=
  if decide (host = t) then x mod 2 ^ (8 * Z.of_nat n) else builtin_bswap n x.

Lemma convert_laws (C : Conversions) :
  (∀ t n x, width n → cv_to t n x = convert cv_host t n x) →
  (∀ t n x, width n → cv_from t n x = convert cv_host t n x) → ConversionsLaws C.
Proof.
  intros Hto Hfrom.
  assert (∀ t n x, bytes_in cv_host n (convert cv_host t n x) = bytes_in t n x) as Hbytes.
  { intros t n x. unfold convert. destruct (decide (cv_host = t)) as [<-|Hne].
    - unfold bytes_in. change (x mod 2 ^ (8 * Z.of_nat n)) with (uwrap (8 * Z.of_nat n) x).
      by destruct cv_host; rewrite le_bytes_mod.
    - destruct cv_host, t; try done; cbn [bytes_in]; rewrite le_builtin_bswap;
        by rewrite ?reverse_involutive. }
  split.
  - intros t n x Hn. by rewrite Hto.
  - intros t n y Hn. rewrite Hfrom by done. unfold convert. destruct (decide (cv_host = t)) as [<-|Hne].
    + destruct cv_host; cbn [bytes_in of_bytes_in]; by rewrite ?reverse_involutive, of_le_le_bytes.
    + destruct cv_host, t; try done.
  - intros t n x Hn. rewrite Hto by done. unfold convert. destruct (decide (cv_host = t)).
    + apply Z.mod_pos_bound, pow2_pos. lia.
    + apply builtin_bswap_range.
Qed.

(** A conversion there and back. *)
Lemma cv_from_to {C : Conversions} {L : ConversionsLaws C} t n x :
  width n → cv_from t n (cv_to t n x) = x mod 2 ^ (8 * Z.of_nat n).
Proof.
  intros Hn. rewrite cv_from_bytes, cv_to_bytes by done.
  destruct t; cbn [bytes_in of_bytes_in]; by rewrite ?reverse_involutive, of_le_le_bytes.
Qed.

(** ** The headers *)

(** A header is a table of six functions. *)
Definition by_width (f16 f32 f64 : Z → Z) (n : nat) : Z → Z :=
  match n with 2%nat => f16 | 4%nat => f32 | _ => f64 end.
Definition by_order (f g : nat → Z → Z) (t : order) : nat → Z → Z :=
  match t with Little => f | Big => g end.

Section headers.
Context {cc : Compiler} (bits_per_long : Z) (gnuc : bool).

Definition linux_little : Conversions := {|
  cv_host := Little;
  cv_to := by_order
    (by_width LittleEndian.__cpu_to_le16 LittleEndian.__cpu_to_le32 LittleEndian.__cpu_to_le64)
    (by_width LittleEndian.__cpu_to_be16 LittleEndian.__cpu_to_be32
       (LittleEndian.__cpu_to_be64 bits_per_long));
  cv_from := by_order
    (by_width LittleEndian.__le16_to_cpu LittleEndian.__le32_to_cpu LittleEndian.__le64_to_cpu)
    (by_width LittleEndian.__be16_to_cpu LittleEndian.__be32_to_cpu
       (LittleEndian.__be64_to_cpu bits_per_long)) |}.

Definition linux_little_constant : Conversions := {|
  cv_host := Little;
  cv_to := by_order
    (by_width LittleEndian.__constant_cpu_to_le16 LittleEndian.__constant_cpu_to_le32
       LittleEndian.__constant_cpu_to_le64)
    (by_width LittleEndian.__constant_cpu_to_be16 LittleEndian.__constant_cpu_to_be32
       LittleEndian.__constant_cpu_to_be64);
  cv_from := by_order
    (by_width LittleEndian.__constant_le16_to_cpu LittleEndian.__constant_le32_to_cpu
       LittleEndian.__constant_le64_to_cpu)
    (by_width LittleEndian.__constant_be16_to_cpu LittleEndian.__constant_be32_to_cpu
       LittleEndian.__constant_be64_to_cpu) |}.

Definition linux_big : Conversions := {|
  cv_host := Big;
  cv_to := by_order
    (by_width BigEndian.__cpu_to_le16 BigEndian.__cpu_to_le32
       (BigEndian.__cpu_to_le64 bits_per_long))
    (by_width BigEndian.__cpu_to_be16 BigEndian.__cpu_to_be32 BigEndian.__cpu_to_be64);
  cv_from := by_order
    (by_width BigEndian.__le16_to_cpu BigEndian.__le32_to_cpu
       (BigEndian.__le64_to_cpu bits_per_long))
    (by_width BigEndian.__be16_to_cpu BigEndian.__be32_to_cpu BigEndian.__be64_to_cpu) |}.

Definition linux_big_constant : Conversions := {|
  cv_host := Big;
  cv_to := by_order
    (by_width BigEndian.__constant_cpu_to_le16 BigEndian.__constant_cpu_to_le32
       BigEndian.__constant_cpu_to_le64)
    (by_width BigEndian.__constant_cpu_to_be16 BigEndian.__constant_cpu_to_be32
       BigEndian.__constant_cpu_to_be64);
  cv_from := by_order
    (by_width BigEndian.__constant_le16_to_cpu BigEndian.__constant_le32_to_cpu
       BigEndian.__constant_le64_to_cpu)
    (by_width BigEndian.__constant_be16_to_cpu BigEndian.__constant_be32_to_cpu
       BigEndian.__constant_be64_to_cpu) |}.

Definition glibc_little : Conversions := {|
  cv_host := Little;
  cv_to := by_order
    (by_width (GlibcLittle.htole16) (GlibcLittle.htole32) (GlibcLittle.htole64))
    (by_width (GlibcLittle.htobe16 gnuc) (GlibcLittle.htobe32 gnuc) (GlibcLittle.htobe64 gnuc));
  cv_from := by_order
    (by_width (GlibcLittle.le16toh) (GlibcLittle.le32toh) (GlibcLittle.le64toh))
    (by_width (GlibcLittle.be16toh gnuc) (GlibcLittle.be32toh gnuc) (GlibcLittle.be64toh gnuc)) |}.

Definition glibc_big : Conversions := {|
  cv_host := Big;
  cv_to := by_order
    (by_width (GlibcBig.htole16 gnuc) (GlibcBig.htole32 gnuc) (GlibcBig.htole64 gnuc))
    (by_width (GlibcBig.htobe16) (GlibcBig.htobe32) (GlibcBig.htobe64));
  cv_from := by_order
    (by_width (GlibcBig.le16toh gnuc) (GlibcBig.le32toh gnuc) (GlibcBig.le64toh gnuc))
    (by_width (GlibcBig.be16toh) (GlibcBig.be32toh) (GlibcBig.be64toh)) |}.

End headers.

(** The swaps under all their names, whatever the compiler knows. *)
Lemma swab16_constant x :
  ___constant_swab16 x = builtin_bswap 2 x ∧ ___constant_swab16 (u16 x) = builtin_bswap 2 x.
Proof. rewrite !swab16_eq. by rewrite (builtin_bswap_uwrap 2 16). Qed.
Lemma bswap16_builtin gnuc x : __bswap_16 gnuc x = builtin_bswap 2 x.
Proof.
  unfold __bswap_16. rewrite bswap_16_eq. destruct gnuc; by rewrite ?(builtin_bswap_uwrap 2 16).
Qed.
Lemma swab32_constant x :
  ___constant_swab32 x = builtin_bswap 4 x ∧ ___constant_swab32 (u32 x) = builtin_bswap 4 x.
Proof. rewrite !swab32_eq. by rewrite (builtin_bswap_uwrap 4 32). Qed.
Lemma bswap32_builtin gnuc x : __bswap_32 gnuc x = builtin_bswap 4 x.
Proof.
  unfold __bswap_32. rewrite bswap_32_eq. destruct gnuc; by rewrite ?(builtin_bswap_uwrap 4 32).
Qed.
Lemma swab64_constant x :
  ___constant_swab64 x = builtin_bswap 8 x ∧ ___constant_swab64 (u64 x) = builtin_bswap 8 x.
Proof. rewrite !swab64_eq. by rewrite (builtin_bswap_uwrap 8 64). Qed.
Lemma bswap64_builtin gnuc x : __bswap_64 gnuc x = builtin_bswap 8 x.
Proof.
  unfold __bswap_64. rewrite bswap_64_eq. destruct gnuc; by rewrite ?(builtin_bswap_uwrap 8 64).
Qed.

Section linux.
Context {cc : Compiler} (bits_per_long : Z).

Lemma swab16_builtin x : __swab16 x = builtin_bswap 2 x.
Proof.
  unfold __swab16, __fswab16. destruct (builtin_constant_p _); [apply swab16_constant|].
  apply swab16_constant.
Qed.
Lemma swab32_builtin x : __swab32 x = builtin_bswap 4 x.
Proof.
  unfold __swab32, __fswab32. destruct (builtin_constant_p _); [apply swab32_constant|].
  apply swab32_constant.
Qed.
Lemma swab64_builtin x : __swab64 bits_per_long x = builtin_bswap 8 x.
Proof.
  unfold __swab64, __fswab64. destruct (builtin_constant_p _); [apply swab64_constant|].
  destruct (__SWAB_64_THRU_32__ _); [|apply swab64_constant].
  rewrite <- (builtin_bswap_uwrap 8 64 x) by done. by apply swab64_thru_32, (uwrap_range 64).
Qed.
Lemma swab16_both x :
  __swab16 x = builtin_bswap 2 x ∧ __swab16 (u16 x) = builtin_bswap 2 x.
Proof. rewrite !swab16_builtin. by rewrite (builtin_bswap_uwrap 2 16). Qed.
Lemma swab32_both x :
  __swab32 x = builtin_bswap 4 x ∧ __swab32 (u32 x) = builtin_bswap 4 x.
Proof. rewrite !swab32_builtin. by rewrite (builtin_bswap_uwrap 4 32). Qed.
Lemma swab64_both x :
  __swab64 bits_per_long x = builtin_bswap 8 x ∧ __swab64 bits_per_long (u64 x) = builtin_bswap 8 x.
Proof. rewrite !swab64_builtin. by rewrite (builtin_bswap_uwrap 8 64). Qed.
End linux.

Ltac header_case constant glibc linux :=
  first [ rewrite decide_True by done; reflexivity
        | rewrite decide_False by done; first [ apply constant | apply glibc | apply linux ] ].
Ltac header_laws :=
  apply convert_laws; intros t n x [->|[->| ->]]; destruct t; cbv [convert cv_to cv_from cv_host
      linux_little linux_little_constant linux_big linux_big_constant glibc_little glibc_big
      by_order by_width];
  match goal with
  | |- context [builtin_bswap 2] => header_case swab16_constant bswap16_builtin @swab16_both
  | |- context [builtin_bswap 4] => header_case swab32_constant bswap32_builtin @swab32_both
  | |- context [builtin_bswap 8] => header_case swab64_constant bswap64_builtin @swab64_both
  end.

#[export] Instance linux_little_laws {cc : Compiler} (bits_per_long : Z) :
  ConversionsLaws (linux_little bits_per_long).
Proof. header_laws. Qed.
#[export] Instance linux_little_constant_laws : ConversionsLaws linux_little_constant.
Proof. header_laws. Qed.
#[export] Instance linux_big_laws {cc : Compiler} (bits_per_long : Z) :
  ConversionsLaws (linux_big bits_per_long).
Proof. header_laws. Qed.
#[export] Instance linux_big_constant_laws : ConversionsLaws linux_big_constant.
Proof. header_laws. Qed.
#[export] Instance glibc_little_laws (gnuc : bool) : ConversionsLaws (glibc_little gnuc).
Proof. header_laws. Qed.
#[export] Instance glibc_big_laws (gnuc : bool) : ConversionsLaws (glibc_big gnuc).
Proof. header_laws. Qed.
