(* ===== verification/ByteOrderMem.v ===== *)
(** * Byte order conversions in memory

    The conversions of [linux/byteorder/] through a pointer ([__cpu_to_le16p]) and in place
    ([__cpu_to_le16s]), the theorems about all headers, and concrete runs. *)

From stdpp Require Import base list gmap numbers.
From Stdlib Require Import ZArith Lia.
From S2P Require Import Prelude Bits ByteOrder ByteOrderSpec.

#[local] Open Scope Z_scope.

(** ** Bytes at an address *)

Fixpoint bytes_at (m : bmem) (p : Z) (l : list Z) : Prop :=
  match l with [] => True | b :: l => m !! p = Some b ∧ bytes_at m (p + 1) l end.

(** Nothing but the [n] bytes at [p] changed. *)
Definition only_bytes (p n : Z) (m m' : bmem) : Prop :=
  ∀ a, a < p ∨ p + n ≤ a → m' !! a = m !! a.

Lemma bytes_at_insert m p l a b : a < p → bytes_at m p l → bytes_at (<[a := b]> m) p l.
Proof.
  revert p. induction l as [|c l IH]; intros p Ha H; [done|]. destruct H as [H1 H2]. split.
  - rewrite lookup_insert_ne by lia. done.
  - apply IH; [lia|done].
Qed.

Lemma wp_read_bytes m p l :
  bytes_at m p l → wp (read_bytes (length l) p) m (λ l' m', l' = l ∧ m' = m).
Proof.
  revert p. induction l as [|b l IH]; intros p H; cbn [length read_bytes]; [by apply wp_ret|].
  destruct H as [H1 H2]. apply wp_bind, wp_get, wp_bind. eapply wp_option; [exact H1|].
  apply wp_bind. eapply wp_mono; [by apply IH|]. intros l' m' [-> ->]. by apply wp_ret.
Qed.

Lemma wp_write_bytes m p l0 l :
  bytes_at m p l0 → length l = length l0 →
  wp (write_bytes p l) m (λ _ m', bytes_at m' p l ∧ only_bytes p (Z.of_nat (length l)) m m').
Proof.
  revert m p l0. induction l as [|b l IH]; intros m p [|b0 l0] H Hl; try done; cbn [write_bytes].
  destruct H as [H1 H2]. apply wp_bind, wp_get, wp_bind. eapply wp_option; [exact H1|].
  apply wp_bind, wp_modify. eapply wp_mono.
  - apply (IH _ _ l0); [apply bytes_at_insert; [lia|exact H2]|by injection Hl].
  - intros [] m' [H3 Hout]. split.
    + split; [|done]. rewrite Hout by lia. apply lookup_insert_eq.
    + intros a Ha. cbn [length] in Ha. rewrite Hout by lia. rewrite lookup_insert_ne; [done|lia].
Qed.

Lemma length_bytes_in o n x : length (bytes_in o n x) = n.
Proof. destruct o; cbn [bytes_in]; by rewrite ?length_reverse, length_le_bytes. Qed.

Lemma of_bytes_in_bytes o n x : of_bytes_in o (bytes_in o n x) = x mod 2 ^ (8 * Z.of_nat n).
Proof.
  destruct o; cbn [bytes_in of_bytes_in]; by rewrite ?reverse_involutive, of_le_le_bytes.
Qed.

Lemma bytes_in_range o n x : Forall (λ b, 0 ≤ b < 256) (bytes_in o n x).
Proof. destruct o; cbn [bytes_in]; rewrite ?Forall_reverse; apply le_bytes_range. Qed.

Lemma bytes_in_of_bytes o n l :
  Forall (λ b, 0 ≤ b < 256) l → length l = n → bytes_in o n (of_bytes_in o l) = l.
Proof.
  intros Hl <-. destruct o; cbn [bytes_in of_bytes_in]; [by apply le_of_le_bytes|].
  rewrite <- length_reverse, le_of_le_bytes by (by rewrite Forall_reverse).
  apply reverse_involutive.
Qed.

Lemma of_bytes_in_range o n l :
  Forall (λ b, 0 ≤ b < 256) l → length l = n → 0 ≤ of_bytes_in o l < 2 ^ (8 * Z.of_nat n).
Proof.
  intros Hl <-. destruct o; cbn [of_bytes_in]; [by apply of_le_bytes_range|].
  rewrite <- length_reverse. apply of_le_bytes_range. by rewrite Forall_reverse.
Qed.

Lemma bytes_in_bswap o n x : bytes_in o n (builtin_bswap n x) = reverse (bytes_in o n x).
Proof. destruct o; cbn [bytes_in]; by rewrite le_builtin_bswap. Qed.

Lemma bytes_in_other o1 o2 n x : o1 ≠ o2 → reverse (bytes_in o1 n x) = bytes_in o2 n x.
Proof. destruct o1, o2; try done; intros _; cbn [bytes_in]; by rewrite ?reverse_involutive. Qed.

(** A load, a swap and a store through a pointer. *)
Section pointer.
Context (n : nat) (o1 : order) (x p : Z) (m : bmem) (Hm : bytes_at m p (bytes_in o1 n x)).

Lemma wp_load_int o :
  wp (load_int o n p) m (λ v m', v = of_bytes_in o (bytes_in o1 n x) ∧ m' = m).
Proof.
  unfold load_int. apply wp_bind.
  pose proof (wp_read_bytes _ _ _ Hm) as Hr. rewrite length_bytes_in in Hr.
  eapply wp_mono; [exact Hr|]. intros l m' [-> ->]. by apply wp_ret.
Qed.

Lemma wp_store_int o v :
  wp (store_int o n p v) m (λ _ m', bytes_at m' p (bytes_in o n v) ∧
    only_bytes p (Z.of_nat n) m m').
Proof.
  unfold store_int. eapply wp_mono; [eapply wp_write_bytes; [exact Hm|]|].
  - by rewrite !length_bytes_in.
  - intros [] m' [H1 H2]. by rewrite length_bytes_in in H2.
Qed.

Context (f : Z → Z) (Hf : ∀ y, f y = builtin_bswap n y) (o2 : order) (Ho : o1 ≠ o2).

Lemma wp_swap_through o :
  wp (v ← load_int o n p; mret (f v)) m
    (λ v m', bytes_in o n v = bytes_in o2 n x ∧ 0 ≤ v < 2 ^ (8 * Z.of_nat n) ∧ m' = m).
Proof.
  apply wp_bind. eapply wp_mono; [apply wp_load_int|]. intros v m' [-> ->].
  apply (wp_ret (f _) m). rewrite Hf. split; [|split; [apply builtin_bswap_range|done]].
  rewrite bytes_in_bswap, bytes_in_of_bytes; [by apply bytes_in_other|apply bytes_in_range|].
  apply length_bytes_in.
Qed.

Lemma wp_swap_in_place o :
  wp (v ← (v ← load_int o n p; mret (f v)); store_int o n p v) m
    (λ _ m', bytes_at m' p (bytes_in o2 n x) ∧ only_bytes p (Z.of_nat n) m m').
Proof.
  apply wp_bind. eapply wp_mono; [apply wp_swap_through|]. intros v m' (Hv & _ & ->).
  rewrite <- Hv. apply wp_store_int.
Qed.
End pointer.

(** ** The headers *)

Definition by_width_m {A} (f16 f32 f64 : A) (n : nat) : A :=
  match n with 2%nat => f16 | 4%nat => f32 | _ => f64 end.
Definition by_order_m {A} (f g : A) (t : order) : A := match t with Little => f | Big => g end.

(** The functions of a header on memory: through a pointer, and in place. *)
Record on_memory : Type := OnMemory {
  om_host : order;
  om_top : order → nat → Z → M bmem Z;
  om_fromp : order → nat → Z → M bmem Z;
  om_tos : order → nat → Z → M bmem unit;
  om_froms : order → nat → Z → M bmem unit }.

Section headers.
Context {cc : Compiler} (bits_per_long : Z).

Definition little_on_memory : on_memory := {|
  om_host := Little;
  om_top := by_order_m
    (by_width_m LittleEndian.__cpu_to_le16p LittleEndian.__cpu_to_le32p LittleEndian.__cpu_to_le64p)
    (by_width_m LittleEndian.__cpu_to_be16p LittleEndian.__cpu_to_be32p
       (LittleEndian.__cpu_to_be64p bits_per_long));
  om_fromp := by_order_m
    (by_width_m LittleEndian.__le16_to_cpup LittleEndian.__le32_to_cpup LittleEndian.__le64_to_cpup)
    (by_width_m LittleEndian.__be16_to_cpup LittleEndian.__be32_to_cpup
       (LittleEndian.__be64_to_cpup bits_per_long));
  om_tos := by_order_m
    (by_width_m LittleEndian.__cpu_to_le16s LittleEndian.__cpu_to_le32s LittleEndian.__cpu_to_le64s)
    (by_width_m LittleEndian.__cpu_to_be16s LittleEndian.__cpu_to_be32s
       (LittleEndian.__cpu_to_be64s bits_per_long));
  om_froms := by_order_m
    (by_width_m LittleEndian.__le16_to_cpus LittleEndian.__le32_to_cpus LittleEndian.__le64_to_cpus)
    (by_width_m LittleEndian.__be16_to_cpus LittleEndian.__be32_to_cpus
       (LittleEndian.__be64_to_cpus bits_per_long)) |}.

Definition big_on_memory : on_memory := {|
  om_host := Big;
  om_top := by_order_m
    (by_width_m BigEndian.__cpu_to_le16p BigEndian.__cpu_to_le32p
       (BigEndian.__cpu_to_le64p bits_per_long))
    (by_width_m BigEndian.__cpu_to_be16p BigEndian.__cpu_to_be32p BigEndian.__cpu_to_be64p);
  om_fromp := by_order_m
    (by_width_m BigEndian.__le16_to_cpup BigEndian.__le32_to_cpup
       (BigEndian.__le64_to_cpup bits_per_long))
    (by_width_m BigEndian.__be16_to_cpup BigEndian.__be32_to_cpup BigEndian.__be64_to_cpup);
  om_tos := by_order_m
    (by_width_m BigEndian.__cpu_to_le16s BigEndian.__cpu_to_le32s
       (BigEndian.__cpu_to_le64s bits_per_long))
    (by_width_m BigEndian.__cpu_to_be16s BigEndian.__cpu_to_be32s BigEndian.__cpu_to_be64s);
  om_froms := by_order_m
    (by_width_m BigEndian.__le16_to_cpus BigEndian.__le32_to_cpus
       (BigEndian.__le64_to_cpus bits_per_long))
    (by_width_m BigEndian.__be16_to_cpus BigEndian.__be32_to_cpus BigEndian.__be64_to_cpus) |}.

Definition header_of (host : order) : on_memory :=
  match host with Little => little_on_memory | Big => big_on_memory end.

(** [op] takes bytes in order [o1] to bytes in order [o2]; [get] reads them in this order. *)
Definition reorders (host : order) (n : nat) (o1 o2 : order) (op : Z → M bmem unit)
    (get : Z → M bmem Z) : Prop :=
  ∀ p x m, 0 ≤ x < 2 ^ (8 * Z.of_nat n) → bytes_at m p (bytes_in o1 n x) →
    wp (op p) m (λ _ m', bytes_at m' p (bytes_in o2 n x) ∧ only_bytes p (Z.of_nat n) m m') ∧
    wp (get p) m (λ v m', bytes_in host n v = bytes_in o2 n x ∧
      0 ≤ v < 2 ^ (8 * Z.of_nat n) ∧ m' = m).

Lemma reorders_same host o n : reorders host n o o (λ _, mret tt) (load_int host n).
Proof.
  intros p x m Hx Hm. split; [by apply (wp_ret tt m)|].
  eapply wp_mono; [by apply wp_load_int|]. intros v m' [-> ->].
  rewrite bytes_in_of_bytes by (apply bytes_in_range || apply length_bytes_in).
  split; [done|split; [|done]].
  apply of_bytes_in_range; [apply bytes_in_range|apply length_bytes_in].
Qed.

Lemma reorders_swap host o1 o2 n f :
  (∀ y, f y = builtin_bswap n y) → o1 ≠ o2 →
  reorders host n o1 o2 (λ p, v ← (v ← load_int host n p; mret (f v)); store_int host n p v)
    (λ p, v ← load_int host n p; mret (f v)).
Proof.
  intros Hf Ho p x m Hx Hm. split; [by eapply wp_swap_in_place|by eapply wp_swap_through].
Qed.

Lemma header_reorders (host t : order) (n : nat) :
  width n →
  reorders host n host t (om_tos (header_of host) t n) (om_top (header_of host) t n) ∧
  reorders host n t host (om_froms (header_of host) t n) (om_fromp (header_of host) t n).
Proof.
  intros [->|[->| ->]]; destruct host, t; split;
    first [ apply reorders_same
          | apply reorders_swap; [|done]; intros y;
            first [ apply swab16_builtin | apply swab32_builtin | apply swab64_builtin ] ].
Qed.
End headers.

(** ** The properties *)

(** C25: storing the result of a conversion to an order puts the bytes of the argument into
    memory in that order, whatever the order of the host, and the conversion back returns
    the argument; so for the macros of [linux/byteorder/] on both kinds of host, with and
    without a constant argument, and for those of [endian.h]. *)
Theorem conversions_fix_order {cc : Compiler} (bits_per_long : Z) (gnuc : bool)
    (C : Conversions) (t : order) (n : nat) (x : Z) :
  C ∈ [linux_little bits_per_long; linux_little_constant; linux_big bits_per_long;
       linux_big_constant; glibc_little gnuc; glibc_big gnuc] → width n →
  bytes_in cv_host n (cv_to t n x) = bytes_in t n x ∧
  cv_from t n (cv_to t n x) = x mod 2 ^ (8 * Z.of_nat n).
Proof.
  intros HC Hn. assert (ConversionsLaws C) as HL.
  { repeat (apply elem_of_cons in HC as [->|HC]; [apply _|]). by apply elem_of_nil in HC. }
  split; [by apply cv_to_bytes|by apply cv_from_to].
Qed.

(** A conversion in place turns the bytes of a value in the order of the host into its
    bytes in the target order, and back, and changes nothing else; a conversion through a
    pointer returns the value that has those bytes and changes nothing. *)
Theorem conversions_in_place {cc : Compiler} (bits_per_long : Z) (host t : order) (n : nat)
    (p x : Z) (m : bmem) :
  width n → 0 ≤ x < 2 ^ (8 * Z.of_nat n) → bytes_at m p (bytes_in host n x) →
  wp (om_tos (header_of bits_per_long host) t n p) m (λ _ m1,
    bytes_at m1 p (bytes_in t n x) ∧ only_bytes p (Z.of_nat n) m m1 ∧
    wp (om_froms (header_of bits_per_long host) t n p) m1 (λ _ m2,
      bytes_at m2 p (bytes_in host n x) ∧ only_bytes p (Z.of_nat n) m1 m2)) ∧
  wp (om_top (header_of bits_per_long host) t n p) m
    (λ v m', bytes_in host n v = bytes_in t n x ∧ m' = m).
Proof.
  intros Hn Hx Hm. destruct (header_reorders bits_per_long host t n Hn) as [Hto Hfrom].
  destruct (Hto p x m Hx Hm) as [H1 H2]. split.
  - eapply wp_mono; [exact H1|]. intros [] m1 [H3 H4]. split; [done|split; [done|]].
    by apply Hfrom.
  - eapply wp_mono; [exact H2|]. by intros v m' (H3 & _ & ->).
Qed.

(** ** Concrete runs *)

#[local] Instance no_constants : Compiler := λ _, false.

Lemma conversions_fix_order_witness :
  bytes_in Big 4 (BigEndian.__cpu_to_le32 0x12345678) = [0x78; 0x56; 0x34; 0x12] ∧
  GlibcLittle.be64toh true (GlibcLittle.htobe64 true 0x0102030405060708) = 0x0102030405060708.
Proof.
  split.
  - apply (conversions_fix_order 64 true (linux_big 64) Little 4 0x12345678);
      [right; right; left|right; left]; reflexivity.
  - apply (conversions_fix_order 64 true (glibc_little true) Big 8 0x0102030405060708);
      [right; right; right; right; left|right; right]; reflexivity.
Defined.

Definition demo_word : bmem := list_to_map (zip [100; 101; 102; 103; 104] [0x78; 0x56; 0x34; 0x12; 0xff]).

Lemma conversions_in_place_witness :
  wp (LittleEndian.__cpu_to_be32s 100) demo_word (λ _ m1,
    bytes_at m1 100 [0x12; 0x34; 0x56; 0x78] ∧ only_bytes 100 4 demo_word m1 ∧
    wp (LittleEndian.__be32_to_cpus 100) m1 (λ _ m2,
      bytes_at m2 100 [0x78; 0x56; 0x34; 0x12] ∧ only_bytes 100 4 m1 m2)) ∧
  wp (LittleEndian.__cpu_to_be32p 100) demo_word
    (λ v m', bytes_in Little 4 v = [0x12; 0x34; 0x56; 0x78] ∧ m' = demo_word).
Proof.
  apply (conversions_in_place 64 Little Big 4 100 0x12345678 demo_word).
  - right. left. reflexivity.
  - split; [discriminate|reflexivity].
  - repeat split.
Defined.

(** ** Regions of memory

    Byte memory as the components that share a buffer see it: regions that are there
    whatever they hold, what is left alone by a write somewhere else, and [memcpy]. *)

(** [memcpy] of the C library: it reads its source before it writes, which is the same for
    regions that do not overlap. *)
Definition memcpy (dst src n : Z) : M bmem unit :=
  l ← read_bytes (Z.to_nat n) src; write_bytes dst l.

(** ** Regions *)

(** [n] bytes at [p], whatever they are. *)
Definition region (m : bmem) (p : Z) (n : nat) : Prop := ∃ l, length l = n ∧ bytes_at m p l.

Lemma bytes_at_app m p l1 l2 :
  bytes_at m p (l1 ++ l2) ↔ bytes_at m p l1 ∧ bytes_at m (p + Z.of_nat (length l1)) l2.
Proof.
  revert p. induction l1 as [|b l1 IH]; intros p; cbn [app length bytes_at].
  - rewrite Z.add_0_r. tauto.
  - rewrite IH. replace (p + Z.of_nat (S (length l1))) with (p + 1 + Z.of_nat (length l1)) by lia. tauto.
Qed.

Lemma bytes_at_only m m' p n q l :
  only_bytes p n m m' → q + Z.of_nat (length l) ≤ p ∨ p + n ≤ q →
  bytes_at m q l → bytes_at m' q l.
Proof.
  intros Ho. revert q. induction l as [|b l IH]; intros q Hd H; [done|].
  cbn [length] in Hd. destruct H as [H1 H2]. split; [rewrite Ho; [done|lia]|].
  apply IH; [lia|done].
Qed.

Lemma only_bytes_trans p n m m' m'' :
  only_bytes p n m m' → only_bytes p n m' m'' → only_bytes p n m m''.
Proof. intros H1 H2 a Ha. rewrite H2, H1; done. Qed.
Lemma only_bytes_mono p n p' n' m m' :
  p' ≤ p → p + n ≤ p' + n' → only_bytes p n m m' → only_bytes p' n' m m'.
Proof. intros H1 H2 H a Ha. apply H. lia. Qed.

Lemma region_only m m' p n q k :
  only_bytes p n m m' → q + Z.of_nat k ≤ p ∨ p + n ≤ q → region m q k → region m' q k.
Proof. intros Ho Hd (l & <- & H). exists l. split; [done|]. by eapply bytes_at_only. Qed.

Lemma region_split m p n k : region m p (n + k) ↔ region m p n ∧ region m (p + Z.of_nat n) k.
Proof.
  split.
  - intros (l & Hl & H). rewrite <- (take_drop n l), bytes_at_app in H.
    rewrite length_take, Nat.min_l in H by lia. destruct H as [H1 H2].
    split; eexists; (split; [|eassumption]); [rewrite length_take|rewrite length_drop]; lia.
  - intros [(l1 & H1 & Hl1) (l2 & H2 & Hl2)]. exists (l1 ++ l2). rewrite length_app.
    split; [lia|]. rewrite bytes_at_app, H1. done.
Qed.

Lemma region_is_Some m p n a : region m p n → p ≤ a < p + Z.of_nat n → is_Some (m !! a).
Proof.
  intros (l & <- & H). revert p H. induction l as [|b l IH]; intros p H Ha; cbn [length] in Ha; [lia|].
  destruct H as [H1 H2]. destruct (decide (a = p)) as [->|Hne]; [by eexists|].
  apply (IH (p + 1)); [done|lia].
Qed.

(** No memory is lost. *)
Definition grows (m m' : bmem) : Prop := ∀ a, is_Some (m !! a) → is_Some (m' !! a).

Lemma region_of m p n : (∀ a, p ≤ a < p + Z.of_nat n → is_Some (m !! a)) → region m p n.
Proof.
  revert p. induction n as [|n IH]; intros p H; [by exists []|].
  destruct (H p ltac:(lia)) as [b Hb]. destruct (IH (p + 1)) as (l & <- & Hl).
  { intros a Ha. apply H. lia. }
  exists (b :: l). by split.
Qed.

Lemma region_grows m m' p n : grows m m' → region m p n → region m' p n.
Proof. intros Hg Hr. apply region_of. intros a Ha. apply Hg. by eapply region_is_Some. Qed.

Lemma written_grows m m' p l :
  bytes_at m' p l → only_bytes p (Z.of_nat (length l)) m m' → grows m m'.
Proof.
  intros Hl Ho a Ha. destruct (decide (p ≤ a < p + Z.of_nat (length l))) as [Hin|Hout].
  - apply (region_is_Some m' p (length l)); [by exists l|done].
  - by rewrite Ho by lia.
Qed.

(** Memory determines the bytes. *)
Lemma bytes_at_inj m p l l' :
  bytes_at m p l → bytes_at m p l' → length l = length l' → l = l'.
Proof.
  revert p l'. induction l as [|b l IH]; intros p [|b' l']; try done. intros [H1 H2] [H3 H4] E.
  injection E as E. rewrite H1 in H3. injection H3 as ->. f_equal. by apply (IH (p + 1)).
Qed.

(** A region whose first bytes are written is still one. *)
Lemma region_written m m' p n l :
  region m p n → (length l ≤ n)%nat → bytes_at m' p l →
  only_bytes p (Z.of_nat (length l)) m m' → region m' p n.
Proof.
  intros Hr Hl H Ho. replace n with (length l + (n - length l))%nat in * by lia.
  apply region_split in Hr as [_ Hr]. apply region_split. split; [by exists l|].
  eapply region_only; [exact Ho|lia|exact Hr].
Qed.

Lemma wp_write_region m p l :
  region m p (length l) →
  wp (write_bytes p l) m (λ _ m', bytes_at m' p l ∧ only_bytes p (Z.of_nat (length l)) m m').
Proof. intros (l0 & Hl & H). by eapply wp_write_bytes. Qed.

Lemma wp_store_region o n p v m :
  region m p n →
  wp (store_int o n p v) m (λ _ m', bytes_at m' p (bytes_in o n v) ∧
    only_bytes p (Z.of_nat n) m m').
Proof.
  intros Hr. unfold store_int. eapply wp_mono; [apply wp_write_region; by rewrite length_bytes_in|].
  intros [] m' [H1 H2]. by rewrite length_bytes_in in H2.
Qed.

Lemma wp_memcpy m dst src l :
  bytes_at m src l → region m dst (length l) →
  wp (memcpy dst src (Z.of_nat (length l))) m (λ _ m', bytes_at m' dst l ∧
    only_bytes dst (Z.of_nat (length l)) m m').
Proof.
  intros Hs Hd. unfold memcpy. rewrite Nat2Z.id. apply wp_bind.
  eapply wp_mono; [by apply wp_read_bytes|]. intros ? m' [-> ->]. by apply wp_write_region.
Qed.
