(* ===== verification/CpuSet.v ===== *)
(** * CPU sets ([bits/cpu-set.h], [sched.h])

    A CPU set is an array of 64 bit words, and the macros take pointers to sets: memory maps
    a pointer to the words of its set, so that the destination of an operation can be one of
    its sources.  An argument [cpu] is any integer, converted to [size_t].  The two versions
    of clearing and comparing, the compiler's and the loop, are both here; [gnuc] chooses.
    Counting and allocation call the C library and are left out. *)

From stdpp Require Import base list gmap numbers sets.
From Stdlib Require Import ZArith Lia.
From S2P Require Import Prelude Bits.

#[local] Open Scope c_scope.
#[local] Open Scope Z_scope.

(** ** Memory *)

Abbreviation cpu_mask := Z (only parsing).
Abbreviation cpu_set_t := (list cpu_mask).
Abbreviation cpu_mem := (gmap Z cpu_set_t).

Definition get_set (p : Z) : M cpu_mem cpu_set_t := m ← mget; moption Dangling (m !! p).

(** [p->__bits[i]] and [p->__bits[i] = w]. *)
Definition get_bits (p i : Z) : M cpu_mem Z :=
  s ← get_set p; moption OutOfBounds (s !! Z.to_nat i).
Definition set_bits (p i w : Z) : M cpu_mem unit :=
  s ← get_set p; _ ← moption OutOfBounds (s !! Z.to_nat i);
  mmodify (insert p (<[Z.to_nat i := w]> s)).

(** ** Basic access *)

Definition __CPU_SETSIZE : Z := 1024.
Definition sizeof_cpu_mask : Z := 8.
Definition __NCPUBITS : Z := 8 * sizeof_cpu_mask.
Definition sizeof_cpu_set_t : Z := sizeof_cpu_mask * (__CPU_SETSIZE / __NCPUBITS).

Definition __CPUELT (cpu : Z) : Z := cpu / __NCPUBITS.
Definition __CPUMASK (cpu : Z) : Z := u64 (1 ≪ (cpu mod __NCPUBITS)).

(** [~x] of 64 bits. *)
Definition not64 (x : Z) : Z := u64 (Z.lnot x).

Definition __CPU_SET_S (cpu setsize p : Z) : M cpu_mem Z :=
  let __cpu := u64 cpu in
  if __cpu / 8 <? setsize then
    w ← get_bits p (__CPUELT __cpu);
    set_bits p (__CPUELT __cpu) (w .| __CPUMASK __cpu);;
    mret (w .| __CPUMASK __cpu)
  else mret 0.

Definition __CPU_CLR_S (cpu setsize p : Z) : M cpu_mem Z :=
  let __cpu := u64 cpu in
  if __cpu / 8 <? setsize then
    w ← get_bits p (__CPUELT __cpu);
    set_bits p (__CPUELT __cpu) (w .& not64 (__CPUMASK __cpu));;
    mret (w .& not64 (__CPUMASK __cpu))
  else mret 0.

Definition __CPU_ISSET_S (cpu setsize p : Z) : M cpu_mem bool :=
  let __cpu := u64 cpu in
  if __cpu / 8 <? setsize then
    w ← get_bits p (__CPUELT __cpu); mret (negb ((w .& __CPUMASK __cpu) =? 0))
  else mret false.

(** ** Whole sets *)

(** [memset] to zero and [memcmp] of [n] bytes of words, lowest byte first. *)
Fixpoint memset0 (n : Z) (s : cpu_set_t) : outcome cpu_set_t :=
  if n <=? 0 then Ret s
  else match s with
       | [] => UB OutOfBounds
       | w :: s =>
           if n <? 8 then Ret ((w ≫ (8 * n)) ≪ (8 * n) :: s)
           else s ← memset0 (n - 8) s; Ret (0 :: s)
       end.
Fixpoint memcmp_eq (n : Z) (s t : cpu_set_t) : outcome bool :=
  if n <=? 0 then Ret true
  else match s, t with
       | v :: s, w :: t =>
           if n <? 8 then Ret (v mod 2 ^ (8 * n) =? w mod 2 ^ (8 * n))
           else if v =? w then memcmp_eq (n - 8) s t else Ret false
       | _, _ => UB OutOfBounds
       end.

(** [for (__i = i; __i < __imax; ++__i) body(__i)], with [__imax - i] steps. *)
Fixpoint for_words (steps : nat) (i : Z) (body : Z → M cpu_mem unit) : M cpu_mem unit :=
  match steps with O => mret tt | S n => body i;; for_words n (i + 1) body end.

Definition __CPU_ZERO_S (gnuc : bool) (setsize p : Z) : M cpu_mem unit :=
  if gnuc then s ← get_set p; s ← mlift (memset0 setsize s); mmodify (insert p s)
  else
    let __imax := setsize / sizeof_cpu_mask in
    for_words (Z.to_nat __imax) 0 (λ __i, set_bits p __i 0).

(** [for (__i = i; __i < __imax; ++__i) if (__arr1[__i] != __arr2[__i]) break;] and then
    [__i == __imax]. *)
Fixpoint equal_loop (steps : nat) (i p1 p2 : Z) : M cpu_mem bool :=
  match steps with
  | O => mret true
  | S n => v ← get_bits p1 i; w ← get_bits p2 i;
           if negb (v =? w) then mret false else equal_loop n (i + 1) p1 p2
  end.

Definition __CPU_EQUAL_S (gnuc : bool) (setsize p1 p2 : Z) : M cpu_mem bool :=
  if gnuc then s ← get_set p1; t ← get_set p2; mlift (memcmp_eq setsize s t)
  else
    let __imax := setsize / sizeof_cpu_mask in
    equal_loop (Z.to_nat __imax) 0 p1 p2.

Definition __CPU_OP_S (setsize dest src1 src2 : Z) (op : Z → Z → Z) : M cpu_mem Z :=
  let __imax := setsize / sizeof_cpu_mask in
  for_words (Z.to_nat __imax) 0 (λ __i,
    v ← get_bits src1 __i; w ← get_bits src2 __i; set_bits dest __i (op v w));;
  mret dest.

Definition __CPU_ALLOC_SIZE (count : Z) : Z :=
  u64 (u64 (u64 (count + __NCPUBITS) - 1) / __NCPUBITS * sizeof_cpu_mask).

(** ** [sched.h] *)

Definition CPU_SET (cpu p : Z) : M cpu_mem Z := __CPU_SET_S cpu sizeof_cpu_set_t p.
Definition CPU_CLR (cpu p : Z) : M cpu_mem Z := __CPU_CLR_S cpu sizeof_cpu_set_t p.
Definition CPU_ISSET (cpu p : Z) : M cpu_mem bool := __CPU_ISSET_S cpu sizeof_cpu_set_t p.
Definition CPU_ZERO (gnuc : bool) (p : Z) : M cpu_mem unit := __CPU_ZERO_S gnuc sizeof_cpu_set_t p.
Definition CPU_EQUAL (gnuc : bool) (p1 p2 : Z) : M cpu_mem bool :=
  __CPU_EQUAL_S gnuc sizeof_cpu_set_t p1 p2.
Definition CPU_AND (dest src1 src2 : Z) : M cpu_mem Z :=
  __CPU_OP_S sizeof_cpu_set_t dest src1 src2 Z.land.
Definition CPU_OR (dest src1 src2 : Z) : M cpu_mem Z :=
  __CPU_OP_S sizeof_cpu_set_t dest src1 src2 Z.lor.
Definition CPU_XOR (dest src1 src2 : Z) : M cpu_mem Z :=
  __CPU_OP_S sizeof_cpu_set_t dest src1 src2 Z.lxor.

Definition CPU_SET_S (cpu setsize p : Z) : M cpu_mem Z := __CPU_SET_S cpu setsize p.
Definition CPU_CLR_S (cpu setsize p : Z) : M cpu_mem Z := __CPU_CLR_S cpu setsize p.
Definition CPU_ISSET_S (cpu setsize p : Z) : M cpu_mem bool := __CPU_ISSET_S cpu setsize p.
Definition CPU_ZERO_S (gnuc : bool) (setsize p : Z) : M cpu_mem unit := __CPU_ZERO_S gnuc setsize p.
Definition CPU_EQUAL_S (gnuc : bool) (setsize p1 p2 : Z) : M cpu_mem bool :=
  __CPU_EQUAL_S gnuc setsize p1 p2.
Definition CPU_AND_S (setsize dest src1 src2 : Z) : M cpu_mem Z :=
  __CPU_OP_S setsize dest src1 src2 Z.land.
Definition CPU_OR_S (setsize dest src1 src2 : Z) : M cpu_mem Z :=
  __CPU_OP_S setsize dest src1 src2 Z.lor.
Definition CPU_XOR_S (setsize dest src1 src2 : Z) : M cpu_mem Z :=
  __CPU_OP_S setsize dest src1 src2 Z.lxor.
Definition CPU_ALLOC_SIZE (count : Z) : Z := __CPU_ALLOC_SIZE count.

(** ** CPU sets as sets

    An array of [n] words represents a set of numbers below [64 * n]; every macro is the
    operation on sets, for any sets in memory and any aliasing between the arguments. *)

(** ** Membership *)

Definition cpu_in (s : cpu_set_t) (c : Z) : bool :=
  Z.testbit (default 0 (s !! Z.to_nat (c / 64))) (c mod 64).

Definition word_ok (w : Z) : Prop := 0 ≤ w < 2 ^ 64.

Record cpu_rep (n : nat) (s : cpu_set_t) (X : gset Z) : Prop := {
  cr_length : length s = n;
  cr_words : Forall word_ok s;
  cr_in c : c ∈ X ↔ 0 ≤ c < 64 * Z.of_nat n ∧ cpu_in s c = true }.

Lemma cpu_index c n : 0 ≤ c < 64 * Z.of_nat n → (Z.to_nat (c / 64) < n)%nat.
Proof. intros. assert (0 ≤ c / 64 < Z.of_nat n) by (Z.div_mod_to_equations; lia). lia. Qed.

Lemma mod64 c : 0 ≤ c mod 64 < 64.
Proof. by apply Z.mod_pos_bound. Qed.

(** The word of [c], and the bit of [c'] after a word has changed. *)
Lemma cpu_in_insert s c c' w :
  (Z.to_nat (c / 64) < length s)%nat → 0 ≤ c → 0 ≤ c' →
  cpu_in (<[Z.to_nat (c / 64) := w]> s) c' =
    if decide (c' / 64 = c / 64) then Z.testbit w (c' mod 64) else cpu_in s c'.
Proof.
  intros Hl Hc Hc'. unfold cpu_in. destruct (decide (c' / 64 = c / 64)) as [->|Hne].
  - by rewrite list_lookup_insert_eq.
  - rewrite list_lookup_insert_ne; [done|]. intros E. apply Hne.
    apply Z2Nat.inj in E; [done|..]; apply Z.div_pos; lia.
Qed.

Lemma mask_bit c n : 0 ≤ n < 64 → Z.testbit (__CPUMASK c) n = bool_decide (n = c mod 64).
Proof.
  intros Hn. pose proof (mod64 c). unfold __CPUMASK. change __NCPUBITS with 64.
  rewrite uwrap_field, testbit_field by lia. rewrite Z.shiftl_1_l.
  replace (n <? 64) with true by (symmetry; apply Z.ltb_lt; lia).
  rewrite Z.pow2_bits_eqb by lia. cbn [andb]. case_bool_decide as E; [apply Z.eqb_eq; lia|apply Z.eqb_neq; lia].
Qed.

Lemma not64_bit w n : 0 ≤ n < 64 → Z.testbit (not64 w) n = negb (Z.testbit w n).
Proof.
  intros Hn. unfold not64. rewrite uwrap_field, testbit_field by lia.
  replace (n <? 64) with true by (symmetry; apply Z.ltb_lt; lia). cbn [andb].
  apply Z.lnot_spec. lia.
Qed.

Lemma same_cpu c c' : c' / 64 = c / 64 → c' mod 64 = c mod 64 → c' = c.
Proof. intros. rewrite (Z.div_mod c 64), (Z.div_mod c' 64) by done. congruence. Qed.

Lemma word_ok_bits w : word_ok w ↔ 0 ≤ w ∧ ∀ n, 64 ≤ n → Z.testbit w n = false.
Proof.
  split.
  - intros [H1 H2]. split; [done|]. intros n Hn. rewrite <- (Z.mod_small w (2 ^ 64)) by done.
    apply Z.mod_pow2_bits_high. lia.
  - intros [H1 H2]. rewrite <- (Z.mod_small w (2 ^ 64)) at 1; [by apply Z.mod_pos_bound|].
    assert (w = w mod 2 ^ 64) as ->; [|by apply Z.mod_pos_bound].
    apply Z.bits_inj'. intros n Hn. destruct (Z.ltb_spec n 64).
    + by rewrite Z.mod_pow2_bits_low.
    + rewrite H2, Z.mod_pow2_bits_high; [done|lia|done].
Qed.

Lemma word_ok_op op f v w :
  (∀ x y n, Z.testbit (op x y) n = f (Z.testbit x n) (Z.testbit y n)) →
  (∀ x y, 0 ≤ x → 0 ≤ y → 0 ≤ op x y) → f false false = false →
  word_ok v → word_ok w → word_ok (op v w).
Proof.
  intros Hop Hpos Hf [H1 H2]%word_ok_bits [H3 H4]%word_ok_bits. apply word_ok_bits.
  split; [by apply Hpos|]. intros n Hn. by rewrite Hop, H2, H4.
Qed.

(** ** One element *)

Lemma wp_get_bits m p s i w :
  m !! p = Some s → s !! Z.to_nat i = Some w → ∀ Q, Q w m → wp (get_bits p i) m Q.
Proof.
  intros Hp Hi Q HQ. apply wp_bind, wp_bind, wp_get. eapply wp_option; [exact Hp|].
  by eapply wp_option.
Qed.

Lemma wp_set_bits m p s i v w :
  m !! p = Some s → s !! Z.to_nat i = Some v →
  ∀ Q, Q tt (<[p := <[Z.to_nat i := w]> s]> m) → wp (set_bits p i w) m Q.
Proof.
  intros Hp Hi Q HQ. apply wp_bind, wp_bind, wp_get. eapply wp_option; [exact Hp|].
  apply wp_bind. by eapply wp_option.
Qed.

(** [cpu] is in range when its bit is in the [setsize] bytes of the set. *)
Lemma in_range cpu n : (u64 cpu / 8 <? 8 * Z.of_nat n) = bool_decide (u64 cpu < 64 * Z.of_nat n).
Proof.
  case_bool_decide as H.
  - apply Z.ltb_lt. Z.div_mod_to_equations; lia.
  - apply Z.ltb_ge. Z.div_mod_to_equations; lia.
Qed.

Section one.
Context (n : nat) (m : cpu_mem) (p : Z) (s : cpu_set_t) (X : gset Z).
Context (Hp : m !! p = Some s) (Hr : cpu_rep n s X).

(** Words of [s]. *)
Lemma rep_word c : 0 ≤ c < 64 * Z.of_nat n → ∃ w, s !! Z.to_nat (c / 64) = Some w ∧ word_ok w.
Proof.
  intros Hc. pose proof (cpu_index c n Hc) as Hi. rewrite <- (cr_length _ _ _ Hr) in Hi.
  apply lookup_lt_is_Some in Hi as [w Hw]. exists w. split; [done|].
  by apply (Forall_lookup_1 _ _ _ _ (cr_words _ _ _ Hr) Hw).
Qed.

(** A new word for [c] whose bits away from [c] are the old ones. *)
Lemma rep_insert c w w' (b : bool) :
  0 ≤ c < 64 * Z.of_nat n → s !! Z.to_nat (c / 64) = Some w → word_ok w' →
  (∀ k, 0 ≤ k < 64 → Z.testbit w' k = if decide (k = c mod 64) then b else Z.testbit w k) →
  cpu_rep n (<[Z.to_nat (c / 64) := w']> s) (if b then {[c]} ∪ X else X ∖ {[c]}).
Proof.
  intros Hc Hw Hw' Hbits. destruct Hr as [Hl Hws Hin]. pose proof (cpu_index c n Hc) as Hi. split.
  - by rewrite length_insert.
  - by apply Forall_insert.
  - intros c'. assert (c' ∈ (if b then {[c]} ∪ X else X ∖ {[c]}) ↔
      if decide (c' = c) then b = true else c' ∈ X) as ->.
    { destruct b, (decide (c' = c)); set_solver. }
    destruct (decide (0 ≤ c' < 64 * Z.of_nat n)) as [Hc'|Hc'].
    + rewrite cpu_in_insert by lia.
      destruct (decide (c' = c)) as [->|Hne].
      * rewrite decide_True, Hbits, decide_True by (done || apply mod64). tauto.
      * rewrite Hin. case_decide as E; [|done].
        rewrite Hbits by apply mod64. rewrite decide_False by (intros E'; by apply Hne, same_cpu).
        unfold cpu_in. rewrite E, Hw. done.
    + destruct (decide (c' = c)) as [->|Hne]; [lia|]. rewrite Hin. tauto.
Qed.

Definition set_spec (cpu : Z) : gset Z :=
  if decide (u64 cpu < 64 * Z.of_nat n) then {[u64 cpu]} ∪ X else X.
Definition clr_spec (cpu : Z) : gset Z :=
  if decide (u64 cpu < 64 * Z.of_nat n) then X ∖ {[u64 cpu]} else X.

Lemma insert_same : <[p := s]> m = m.
Proof. by apply insert_id. Qed.

Lemma cpu_set_ok cpu :
  wp (__CPU_SET_S cpu (8 * Z.of_nat n) p) m
    (λ _ m', ∃ s', m' = <[p := s']> m ∧ cpu_rep n s' (set_spec cpu)).
Proof.
  unfold __CPU_SET_S, set_spec. pose proof (uwrap_range 64 cpu) as Hu. rewrite in_range.
  case_bool_decide as Hc; [rewrite decide_True by done|rewrite decide_False by done].
  - assert (0 ≤ u64 cpu < 64 * Z.of_nat n) as Hc' by lia.
    destruct (rep_word _ Hc') as (w & Hw & Hok). apply wp_bind.
    eapply wp_get_bits; [done|done|]. apply wp_bind. eapply wp_set_bits; [done|done|].
    apply wp_ret. eexists. split; [reflexivity|].
    apply (rep_insert _ w _ true); [done|done| |].
    + eapply (word_ok_op Z.lor orb); [apply Z.lor_spec|by intros; apply Z.lor_nonneg|done|done|].
      apply (uwrap_range 64). done.
    + intros k Hk. rewrite Z.lor_spec, mask_bit by done. case_bool_decide; destruct (decide (k = u64 cpu mod 64));
        try done; (apply orb_true_r || apply orb_false_r).
  - apply wp_ret. exists s. by rewrite insert_same.
Qed.

Lemma cpu_clr_ok cpu :
  wp (__CPU_CLR_S cpu (8 * Z.of_nat n) p) m
    (λ _ m', ∃ s', m' = <[p := s']> m ∧ cpu_rep n s' (clr_spec cpu)).
Proof.
  unfold __CPU_CLR_S, clr_spec. pose proof (uwrap_range 64 cpu) as Hu. rewrite in_range.
  case_bool_decide as Hc; [rewrite decide_True by done|rewrite decide_False by done].
  - assert (0 ≤ u64 cpu < 64 * Z.of_nat n) as Hc' by lia.
    destruct (rep_word _ Hc') as (w & Hw & Hok). apply wp_bind.
    eapply wp_get_bits; [done|done|]. apply wp_bind. eapply wp_set_bits; [done|done|].
    apply wp_ret. eexists. split; [reflexivity|].
    apply (rep_insert _ w _ false); [done|done| |].
    + eapply (word_ok_op Z.land andb); [apply Z.land_spec|intros; apply Z.land_nonneg; tauto|done|done|].
      apply (uwrap_range 64). done.
    + intros k Hk. rewrite Z.land_spec, not64_bit, mask_bit by done.
      case_bool_decide; destruct (decide (k = u64 cpu mod 64)); try done; (apply andb_false_r || apply andb_true_r).
  - apply wp_ret. exists s. by rewrite insert_same.
Qed.

Lemma cpu_isset_ok cpu :
  wp (__CPU_ISSET_S cpu (8 * Z.of_nat n) p) m (λ b m', b = bool_decide (u64 cpu ∈ X) ∧ m' = m).
Proof.
  unfold __CPU_ISSET_S. pose proof (uwrap_range 64 cpu) as Hu. rewrite in_range.
  case_bool_decide as Hc.
  - assert (0 ≤ u64 cpu < 64 * Z.of_nat n) as Hc' by lia.
    destruct (rep_word _ Hc') as (w & Hw & Hok). apply wp_bind.
    eapply wp_get_bits; [done|done|]. apply wp_ret. split; [|done].
    pose proof (cr_in _ _ _ Hr (u64 cpu)) as Hin. unfold cpu_in in Hin. rewrite Hw in Hin. simpl in Hin.
    pose proof (mod64 (u64 cpu)).
    destruct (Z.testbit w (u64 cpu mod 64)) eqn:E.
    + rewrite bool_decide_true by tauto. apply negb_true_iff, Z.eqb_neq. intros E0.
      apply (f_equal (λ z, Z.testbit z (u64 cpu mod 64))) in E0.
      rewrite Z.land_spec, E, mask_bit, bool_decide_true, Z.bits_0 in E0; done.
    + rewrite bool_decide_false by (intros [_ ?]%Hin; done). apply negb_false_iff, Z.eqb_eq.
      apply Z.bits_inj'. intros k Hk. rewrite Z.land_spec, Z.bits_0.
      destruct (Z.ltb_spec k 64) as [Hk'|Hk'].
      * rewrite mask_bit by done. case_bool_decide as Ek; [|apply andb_false_r]. by rewrite Ek, E.
      * by rewrite (proj2 (proj1 (word_ok_bits w) Hok)).
  - apply wp_ret. split; [|done]. rewrite bool_decide_false; [done|].
    intros [Hx _]%(cr_in _ _ _ Hr). lia.
Qed.
End one.

(** ** Whole sets *)

Lemma wp_for_words (body : Z → M cpu_mem unit) (I : Z → cpu_mem → Prop) k i m :
  (∀ j m, i ≤ j < i + Z.of_nat k → I j m → wp (body j) m (λ _ m', I (j + 1) m')) →
  I i m → wp (for_words k i body) m (λ _ m', I (i + Z.of_nat k) m').
Proof.
  revert i m. induction k as [|k IH]; intros i m Hstep HI; cbn [for_words].
  - apply wp_ret. by rewrite Z.add_0_r.
  - apply wp_bind. eapply wp_mono; [apply Hstep; [lia|done]|]. intros [] m' HI'.
    replace (i + Z.of_nat (S k)) with (i + 1 + Z.of_nat k) by lia.
    apply IH; [|done]. intros j m2 Hj. apply Hstep. lia.
Qed.

(** A loop that stores the words of [r] one after the other. *)
Lemma wp_store_words (body : Z → M cpu_mem unit) (p : Z) (d r : cpu_set_t) (m : cpu_mem) :
  length r = length d →
  (∀ j w, r !! j = Some w → ∀ Q, let m' := <[p := take j r ++ drop j d]> m in
    wp (set_bits p (Z.of_nat j) w) m' Q → wp (body (Z.of_nat j)) m' Q) →
  m !! p = Some d →
  wp (for_words (length d) 0 body) m (λ _ m', m' = <[p := r]> m).
Proof.
  intros Hl Hbody Hp. eapply wp_mono.
  - apply (wp_for_words body (λ j m', m' = <[p := take (Z.to_nat j) r ++ drop (Z.to_nat j) d]> m)).
    + intros j m' Hj ->. rewrite <- (Z2Nat.id j) at 1 by lia.
      assert (Z.to_nat j < length r)%nat as Hlt by lia.
      pose proof Hlt as Hlt2. rewrite Hl in Hlt2.
      apply lookup_lt_is_Some in Hlt as [w Hw]. apply lookup_lt_is_Some in Hlt2 as [v Hv].
      assert (length (take (Z.to_nat j) r) = Z.to_nat j) as Ht.
      { rewrite length_take. apply lookup_lt_Some in Hw. lia. }
      eapply Hbody; [exact Hw|]. eapply wp_set_bits; [apply lookup_insert_eq| |].
      * rewrite Nat2Z.id, lookup_app_r, Ht, Nat.sub_diag by lia.
        by rewrite lookup_drop, Nat.add_0_r.
      * rewrite insert_insert_eq, Nat2Z.id. f_equal.
        rewrite insert_app_r_alt, Ht, Nat.sub_diag by lia.
        rewrite (drop_S _ _ _ Hv). cbn [insert list_insert].
        replace (Z.to_nat (j + 1)) with (S (Z.to_nat j)) by lia.
        rewrite (take_S_r _ _ _ Hw). by rewrite <- app_assoc.
    + change (Z.to_nat 0) with 0%nat. rewrite take_0, drop_0. by rewrite insert_id.
  - intros [] m' ->. rewrite Z.add_0_l, Nat2Z.id, drop_all, app_nil_r, firstn_all2 by lia. done.
Qed.

Lemma rep_zero n : cpu_rep n (replicate n 0) ∅.
Proof.
  split; [apply length_replicate|by apply Forall_replicate|].
  intros c. split; [set_solver|]. intros [Hc Hin]. exfalso. unfold cpu_in in Hin.
  rewrite lookup_replicate_2 in Hin by by apply cpu_index. simpl in Hin. by rewrite Z.bits_0 in Hin.
Qed.

Lemma memset0_all s : memset0 (8 * Z.of_nat (length s)) s = Ret (replicate (length s) 0).
Proof.
  induction s as [|w s IH]; [done|]. cbn [memset0 length replicate].
  destruct (Z.leb_spec (8 * Z.of_nat (S (length s))) 0); [lia|].
  destruct (Z.ltb_spec (8 * Z.of_nat (S (length s))) 8); [lia|].
  replace (8 * Z.of_nat (S (length s)) - 8) with (8 * Z.of_nat (length s)) by lia. by rewrite IH.
Qed.

Lemma cpu_zero_ok gnuc n m p s :
  m !! p = Some s → length s = n →
  wp (__CPU_ZERO_S gnuc (8 * Z.of_nat n) p) m (λ _ m', m' = <[p := replicate n 0]> m).
Proof.
  intros Hp <-. unfold __CPU_ZERO_S. destruct gnuc.
  - apply wp_bind, wp_bind, wp_get. eapply wp_option; [exact Hp|].
    apply wp_bind, wp_lift. rewrite memset0_all. by apply (wp_modify _ m).
  - unfold sizeof_cpu_mask. rewrite Z.mul_comm, Z.div_mul, Nat2Z.id by done.
    apply wp_store_words; [by rewrite length_replicate| |done].
    intros j w [-> _]%lookup_replicate Q m' H. exact H.
Qed.

Lemma rep_inj n s t X Y : cpu_rep n s X → cpu_rep n t Y → s = t ↔ X = Y.
Proof.
  intros [Hls Hws HX] [Hlt Hwt HY]. split.
  - intros ->. apply set_eq. intros c. by rewrite HX, HY.
  - intros ->. apply list_eq. intros i. destruct (decide (i < n)%nat) as [Hi|Hi].
    + assert (i < length s)%nat as [v Hv]%lookup_lt_is_Some by lia.
      assert (i < length t)%nat as [w Hw]%lookup_lt_is_Some by lia.
      rewrite Hv, Hw. f_equal.
      pose proof (Forall_lookup_1 _ _ _ _ Hws Hv) as [Hv0 Hvb]%word_ok_bits.
      pose proof (Forall_lookup_1 _ _ _ _ Hwt Hw) as [Hw0 Hwb]%word_ok_bits.
      apply Z.bits_inj'. intros k Hk. destruct (Z.ltb_spec k 64) as [Hk'|Hk']; [|by rewrite Hvb, Hwb].
      specialize (HX (64 * Z.of_nat i + k)). specialize (HY (64 * Z.of_nat i + k)).
      rewrite HX in HY. unfold cpu_in in HY.
      assert ((64 * Z.of_nat i + k) / 64 = Z.of_nat i) as E1 by (Z.div_mod_to_equations; lia).
      assert ((64 * Z.of_nat i + k) mod 64 = k) as E2 by (Z.div_mod_to_equations; lia).
      rewrite E1, E2, Nat2Z.id, Hv, Hw in HY. simpl in HY.
      assert (0 ≤ 64 * Z.of_nat i + k < 64 * Z.of_nat n) by lia.
      apply eq_true_iff_eq. tauto.
    + by rewrite !lookup_ge_None_2 by lia.
Qed.

Lemma memcmp_eq_all s t :
  length s = length t → memcmp_eq (8 * Z.of_nat (length s)) s t = Ret (bool_decide (s = t)).
Proof.
  revert t. induction s as [|v s IH]; intros [|w t] Hl; try done. cbn [memcmp_eq length].
  destruct (Z.leb_spec (8 * Z.of_nat (S (length s))) 0); [lia|].
  destruct (Z.ltb_spec (8 * Z.of_nat (S (length s))) 8); [lia|].
  replace (8 * Z.of_nat (S (length s)) - 8) with (8 * Z.of_nat (length s)) by lia.
  destruct (Z.eqb_spec v w) as [->|Hne].
  - rewrite IH by by injection Hl. f_equal. apply bool_decide_ext. naive_solver.
  - f_equal. symmetry. apply bool_decide_eq_false. congruence.
Qed.

Lemma equal_loop_ok m p1 p2 s t k i :
  m !! p1 = Some s → m !! p2 = Some t → (i + k = length s)%nat → length s = length t →
  wp (equal_loop k (Z.of_nat i) p1 p2) m
    (λ b m', b = bool_decide (drop i s = drop i t) ∧ m' = m).
Proof.
  intros Hp1 Hp2. revert i. induction k as [|k IH]; intros i Hi Hl; cbn [equal_loop].
  - apply (wp_ret true m). split; [|done]. rewrite !drop_ge by lia. done.
  - assert (i < length s)%nat as [v Hv]%lookup_lt_is_Some by lia.
    assert (i < length t)%nat as [w Hw]%lookup_lt_is_Some by lia.
    apply wp_bind. eapply wp_get_bits; [exact Hp1|by rewrite Nat2Z.id|].
    apply wp_bind. eapply wp_get_bits; [exact Hp2|by rewrite Nat2Z.id|].
    rewrite (drop_S _ _ _ Hv), (drop_S _ _ _ Hw).
    destruct (Z.eqb_spec v w) as [->|Hne]; cbn [negb].
    + replace (Z.of_nat i + 1) with (Z.of_nat (S i)) by lia.
      eapply wp_mono; [apply IH; lia|]. intros b m' [-> ->]. split; [|done].
      apply bool_decide_ext. split; [by intros ->|by intros [=]].
    + apply wp_ret. split; [|done]. symmetry. apply bool_decide_eq_false. congruence.
Qed.

Lemma cpu_equal_ok gnuc n m p1 p2 s t X Y :
  m !! p1 = Some s → m !! p2 = Some t → cpu_rep n s X → cpu_rep n t Y →
  wp (__CPU_EQUAL_S gnuc (8 * Z.of_nat n) p1 p2) m
    (λ b m', b = bool_decide (X = Y) ∧ m' = m).
Proof.
  intros Hp1 Hp2 Hs Ht. pose proof (rep_inj _ _ _ _ _ Hs Ht) as Hinj.
  destruct Hs as [Hls _ _], Ht as [Hlt _ _]. unfold __CPU_EQUAL_S.
  assert (bool_decide (X = Y) = bool_decide (s = t)) as -> by (by apply bool_decide_ext).
  destruct gnuc.
  - apply wp_bind, wp_bind, wp_get. eapply wp_option; [exact Hp1|].
    apply wp_bind, wp_bind, wp_get. eapply wp_option; [exact Hp2|].
    apply wp_lift. rewrite <- Hls. rewrite memcmp_eq_all by congruence. done.
  - unfold sizeof_cpu_mask. rewrite Z.mul_comm, Z.div_mul, Nat2Z.id by done.
    change 0 with (Z.of_nat 0). eapply wp_mono; [eapply equal_loop_ok; [done|done|lia|congruence]|].
    by rewrite !drop_0.
Qed.

(** A bitwise operator as an operation on sets. *)
Record set_operator (op : Z → Z → Z) (f : bool → bool → bool) : Prop := {
  so_bits x y k : Z.testbit (op x y) k = f (Z.testbit x k) (Z.testbit y k);
  so_nonneg x y : 0 ≤ x → 0 ≤ y → 0 ≤ op x y;
  so_zero : f false false = false }.

Lemma land_operator : set_operator Z.land andb.
Proof. split; [apply Z.land_spec|intros; apply Z.land_nonneg; tauto|done]. Qed.
Lemma lor_operator : set_operator Z.lor orb.
Proof. split; [apply Z.lor_spec|by intros; apply Z.lor_nonneg|done]. Qed.
Lemma lxor_operator : set_operator Z.lxor xorb.
Proof. split; [intros; apply Z.lxor_spec|intros; apply Z.lxor_nonneg; tauto|done]. Qed.

Lemma rep_op n s t X Y (Z' : gset Z) op f :
  set_operator op f → cpu_rep n s X → cpu_rep n t Y →
  (∀ c, bool_decide (c ∈ Z') = f (bool_decide (c ∈ X)) (bool_decide (c ∈ Y))) →
  cpu_rep n (zip_with op s t) Z'.
Proof.
  intros [Hop Hpos Hf] [Hls Hws HX] [Hlt Hwt HY] HZ. split.
  - rewrite length_zip_with. lia.
  - apply Forall_lookup_2. intros i w (v1 & v2 & -> & H1 & H2)%lookup_zip_with_Some.
    apply (word_ok_op op f); [done..| |].
    + by apply (Forall_lookup_1 _ _ _ _ Hws H1).
    + by apply (Forall_lookup_1 _ _ _ _ Hwt H2).
  - intros c. specialize (HZ c). specialize (HX c). specialize (HY c).
    destruct (decide (0 ≤ c < 64 * Z.of_nat n)) as [Hc|Hc].
    + pose proof (cpu_index c n Hc) as Hi.
      assert (Z.to_nat (c / 64) < length s)%nat as [v Hv]%lookup_lt_is_Some by lia.
      assert (Z.to_nat (c / 64) < length t)%nat as [w Hw]%lookup_lt_is_Some by lia.
      unfold cpu_in in *. rewrite lookup_zip_with, Hv, Hw. rewrite Hv in HX. rewrite Hw in HY.
      simpl in *. rewrite Hop.
      assert (Z.testbit v (c mod 64) = bool_decide (c ∈ X)) as -> by (apply eq_true_iff_eq; rewrite bool_decide_eq_true; tauto).
      assert (Z.testbit w (c mod 64) = bool_decide (c ∈ Y)) as -> by (apply eq_true_iff_eq; rewrite bool_decide_eq_true; tauto).
      rewrite <- HZ, bool_decide_eq_true. tauto.
    + rewrite (bool_decide_false (c ∈ X)), (bool_decide_false (c ∈ Y)), Hf in HZ by tauto.
      apply bool_decide_eq_false in HZ. tauto.
Qed.

(** The destination may be one of the sources, or both. *)
Lemma cpu_op_ok n m dest src1 src2 d s t op :
  m !! dest = Some d → m !! src1 = Some s → m !! src2 = Some t →
  length d = n → length s = n → length t = n →
  wp (__CPU_OP_S (8 * Z.of_nat n) dest src1 src2 op) m
    (λ r m', r = dest ∧ m' = <[dest := zip_with op s t]> m).
Proof.
  intros Hd Hs Ht <- Hls Hlt. unfold __CPU_OP_S, sizeof_cpu_mask.
  rewrite Z.mul_comm, Z.div_mul, Nat2Z.id by done. apply wp_bind. eapply wp_mono.
  - apply (wp_store_words _ dest d (zip_with op s t)); [rewrite length_zip_with; lia| |done].
    intros j w Hw Q m' HQ. pose proof (lookup_lt_Some _ _ _ Hw) as Hj.
    rewrite length_zip_with in Hj.
    apply lookup_zip_with_Some in Hw as (v1 & v2 & -> & H1 & H2).
    assert (∀ q u v, m !! q = Some u → u !! j = Some v →
      ∃ u', m' !! q = Some u' ∧ u' !! j = Some v) as Hsrc.
    { intros q u v Hq Hv. destruct (decide (q = dest)) as [->|Hne].
      - rewrite Hq in Hd. injection Hd as ->. eexists. split; [apply lookup_insert_eq|].
        assert (length (take j (zip_with op s t)) = j) as Hlen.
        { rewrite length_take, length_zip_with. lia. }
        rewrite lookup_app_r, Hlen, Nat.sub_diag by lia. by rewrite lookup_drop, Nat.add_0_r.
      - exists u. split; [|done]. unfold m'. by rewrite lookup_insert_ne. }
    destruct (Hsrc _ _ _ Hs H1) as (u1 & E1 & E2). destruct (Hsrc _ _ _ Ht H2) as (u2 & E3 & E4).
    apply wp_bind. eapply wp_get_bits; [exact E1|by rewrite Nat2Z.id|].
    apply wp_bind. eapply wp_get_bits; [exact E3|by rewrite Nat2Z.id|]. exact HQ.
  - intros [] m' ->. by apply wp_ret.
Qed.

(** Enough bytes for [count] cpus, in whole words. *)
Lemma alloc_size_enough count :
  0 ≤ count < 2 ^ 63 →
  __CPU_ALLOC_SIZE count mod 8 = 0 ∧ count ≤ 8 * __CPU_ALLOC_SIZE count < count + 64.
Proof.
  intros H. unfold __CPU_ALLOC_SIZE, sizeof_cpu_mask. change __NCPUBITS with 64.
  rewrite (uwrap_small 64 (count + 64)) by lia. rewrite (uwrap_small 64 (count + 64 - 1)) by lia.
  rewrite uwrap_small by (Z.div_mod_to_equations; lia).
  split; [by apply Z.mod_mul|]. Z.div_mod_to_equations; lia.
Qed.

Lemma bool_decide_xor (c : Z) (X Y : gset Z) :
  bool_decide (c ∈ X ∖ Y ∪ Y ∖ X) = xorb (bool_decide (c ∈ X)) (bool_decide (c ∈ Y)).
Proof.
  destruct (decide (c ∈ X)) as [H1|H1], (decide (c ∈ Y)) as [H2|H2];
    rewrite ?(bool_decide_true (c ∈ X)), ?(bool_decide_true (c ∈ Y)),
      ?(bool_decide_false (c ∈ X)), ?(bool_decide_false (c ∈ Y)) by done; cbn [xorb];
    (apply bool_decide_eq_true || apply bool_decide_eq_false); set_solver.
Qed.

(** ** Programs that use sets *)

Inductive cpu_command : Type :=
  | CpuSet (p cpu : Z) | CpuClr (p cpu : Z) | CpuIsset (p cpu : Z)
  | CpuZero (p : Z) | CpuEqual (p q : Z)
  | CpuAnd (d p q : Z) | CpuOr (d p q : Z) | CpuXor (d p q : Z).

Section programs.
Context (gnuc : bool) (n : nat).
#[local] Abbreviation bytes := (8 * Z.of_nat n).

(** A program calls the macros that are given a size, or the ones for [cpu_set_t]. *)
Definition cpu_perform (sized : bool) (c : cpu_command) : M cpu_mem bool :=
  match c with
  | CpuSet p cpu => (if sized then CPU_SET_S cpu bytes p else CPU_SET cpu p);; mret true
  | CpuClr p cpu => (if sized then CPU_CLR_S cpu bytes p else CPU_CLR cpu p);; mret true
  | CpuIsset p cpu => if sized then CPU_ISSET_S cpu bytes p else CPU_ISSET cpu p
  | CpuZero p => (if sized then CPU_ZERO_S gnuc bytes p else CPU_ZERO gnuc p);; mret true
  | CpuEqual p q => if sized then CPU_EQUAL_S gnuc bytes p q else CPU_EQUAL gnuc p q
  | CpuAnd d p q => (if sized then CPU_AND_S bytes d p q else CPU_AND d p q);; mret true
  | CpuOr d p q => (if sized then CPU_OR_S bytes d p q else CPU_OR d p q);; mret true
  | CpuXor d p q => (if sized then CPU_XOR_S bytes d p q else CPU_XOR d p q);; mret true
  end.

Fixpoint cpu_perform_all (sized : bool) (cs : list cpu_command) : M cpu_mem (list bool) :=
  match cs with
  | [] => mret []
  | c :: cs => b ← cpu_perform sized c; bs ← cpu_perform_all sized cs; mret (b :: bs)
  end.

(** The same on sets of cpus; a cpu that no set has room for is left alone. *)
Definition cpu_exec (c : cpu_command) (σ : gmap Z (gset Z)) : option (gmap Z (gset Z) * bool) :=
  match c with
  | CpuSet p cpu => X ← σ !! p; Some (<[p := set_spec n X cpu]> σ, true)
  | CpuClr p cpu => X ← σ !! p; Some (<[p := clr_spec n X cpu]> σ, true)
  | CpuIsset p cpu => X ← σ !! p; Some (σ, bool_decide (u64 cpu ∈ X))
  | CpuZero p => X ← σ !! p; Some (<[p := ∅]> σ, true)
  | CpuEqual p q => X ← σ !! p; Y ← σ !! q; Some (σ, bool_decide (X = Y))
  | CpuAnd d p q => _ ← σ !! d; X ← σ !! p; Y ← σ !! q; Some (<[d := X ∩ Y]> σ, true)
  | CpuOr d p q => _ ← σ !! d; X ← σ !! p; Y ← σ !! q; Some (<[d := X ∪ Y]> σ, true)
  | CpuXor d p q =>
      _ ← σ !! d; X ← σ !! p; Y ← σ !! q; Some (<[d := X ∖ Y ∪ Y ∖ X]> σ, true)
  end.

Fixpoint cpu_exec_all (cs : list cpu_command) (σ : gmap Z (gset Z))
    : option (gmap Z (gset Z) * list bool) :=
  match cs with
  | [] => Some (σ, [])
  | c :: cs => '(σ, b) ← cpu_exec c σ; '(σ, bs) ← cpu_exec_all cs σ; Some (σ, b :: bs)
  end.

(** Memory holds the sets of [σ]. *)
Definition cpu_sets (m : cpu_mem) (σ : gmap Z (gset Z)) : Prop :=
  ∀ p X, σ !! p = Some X → ∃ s, m !! p = Some s ∧ cpu_rep n s X.

Lemma cpu_sets_insert m σ p s X :
  cpu_sets m σ → cpu_rep n s X → cpu_sets (<[p := s]> m) (<[p := X]> σ).
Proof.
  intros Hm Hs q Y [[<- <-]|[Hne Hq]]%lookup_insert_Some.
  - exists s. by rewrite lookup_insert_eq.
  - rewrite lookup_insert_ne by done. by apply Hm.
Qed.

Lemma cpu_binary_ok m σ d p q op f (Z' : gset Z) :
  set_operator op f → cpu_sets m σ → is_Some (σ !! d) →
  (∃ X Y, σ !! p = Some X ∧ σ !! q = Some Y ∧
    ∀ c, bool_decide (c ∈ Z') = f (bool_decide (c ∈ X)) (bool_decide (c ∈ Y))) →
  wp (__CPU_OP_S bytes d p q op;; mret true) m
    (λ b m', b = true ∧ cpu_sets m' (<[d := Z']> σ)).
Proof.
  intros Hop Hm [D HD] (X & Y & Hp & Hq & HZ).
  apply Hm in HD as (sd & Hd & [Hld _ _]). apply Hm in Hp as (s & Hs & HX).
  apply Hm in Hq as (t & Ht & HY). pose proof (rep_op _ _ _ _ _ _ _ _ Hop HX HY HZ) as HR.
  apply wp_bind. eapply wp_mono; [by eapply cpu_op_ok; [..|apply HX|apply HY]|].
  intros r m' [_ ->]. apply wp_ret. split; [done|]. by apply cpu_sets_insert.
Qed.

(** The sets a command names. *)
Ltac cs_sets Hexec Hm :=
  repeat match type of Hexec with
  | context [?σ !! ?p] =>
      let E := fresh in destruct (σ !! p) as [?X|] eqn:E; [|discriminate Hexec];
      pose proof (Hm _ _ E) as (? & ? & ?); cbn [mbind option_bind] in Hexec
  end; injection Hexec as <- <-.

(** The macros for [cpu_set_t] are the others with its size. *)
Lemma cpu_perform_fixed c : n = 16%nat → cpu_perform false c = cpu_perform true c.
Proof. unfold cpu_perform. intros ->. by destruct c. Qed.

Lemma cpu_perform_ok sized c m σ σ' b :
  (sized = false → n = 16%nat) → cpu_sets m σ → cpu_exec c σ = Some (σ', b) →
  wp (cpu_perform sized c) m (λ b' m', b' = b ∧ cpu_sets m' σ').
Proof.
  intros Hn Hm Hexec. assert (cpu_perform sized c = cpu_perform true c) as ->
    by (destruct sized; [done|by apply cpu_perform_fixed, Hn]).
  destruct c as [p c|p c|p c|p|p q|d p q|d p q|d p q]; cbn [cpu_exec cpu_perform] in *;
    cs_sets Hexec Hm.
  - apply wp_bind. eapply wp_mono; [by eapply cpu_set_ok|]. intros _w m' (s' & -> & Hr').
    apply wp_ret. split; [done|]. by apply cpu_sets_insert.
  - apply wp_bind. eapply wp_mono; [by eapply cpu_clr_ok|]. intros _w m' (s' & -> & Hr').
    apply wp_ret. split; [done|]. by apply cpu_sets_insert.
  - eapply wp_mono; [by eapply cpu_isset_ok|]. by intros b m' [-> ->].
  - apply wp_bind. eapply wp_mono; [by eapply cpu_zero_ok; [|eapply cr_length]|].
    intros [] m' ->. apply wp_ret. split; [done|]. by apply cpu_sets_insert, rep_zero.
  - eapply wp_mono; [by eapply cpu_equal_ok|]. by intros b m' [-> ->].
  - apply (cpu_binary_ok _ _ _ _ _ _ andb); [apply land_operator|done|by eexists|].
    do 2 eexists. split; [done|split; [done|]]. intros c.
    rewrite <- bool_decide_and. apply bool_decide_ext. set_solver.
  - apply (cpu_binary_ok _ _ _ _ _ _ orb); [apply lor_operator|done|by eexists|].
    do 2 eexists. split; [done|split; [done|]]. intros c.
    rewrite <- bool_decide_or. apply bool_decide_ext. set_solver.
  - apply (cpu_binary_ok _ _ _ _ _ _ xorb); [apply lxor_operator|done|by eexists|].
    do 2 eexists. split; [done|split; [done|]]. intros c. apply bool_decide_xor.
Qed.
End programs.

(** C21: the macros on CPU sets, those with a size and those for [cpu_set_t], are the
    operations on sets of numbers, for sets of any whole number of words, in any program
    whose sets exist, with any aliasing of the arguments, and for both versions of clearing
    and comparing: the program runs inside the arrays, answers what it answers on sets, and
    memory represents the resulting sets; a number beyond the size is never added. *)
Theorem cpu_sets_refine (gnuc sized : bool) (n : nat) (cs : list cpu_command) (m : cpu_mem)
    (σ σ' : gmap Z (gset Z)) (bs : list bool) :
  (sized = false → 8 * Z.of_nat n = sizeof_cpu_set_t) →
  cpu_sets n m σ → cpu_exec_all n cs σ = Some (σ', bs) →
  wp (cpu_perform_all gnuc n sized cs) m (λ bs' m', bs' = bs ∧ cpu_sets n m' σ').
Proof.
  intros Hn. assert (sized = false → n = 16%nat) as Hn'
    by (intros E; specialize (Hn E); change sizeof_cpu_set_t with 128 in Hn; lia).
  revert m σ bs. induction cs as [|c cs IH]; intros m σ bs Hm Hexec;
    cbn [cpu_exec_all cpu_perform_all] in *.
  - injection Hexec as <- <-. by apply wp_ret.
  - destruct (cpu_exec n c σ) as [[σ1 b]|] eqn:E1; [|done]. cbn in Hexec.
    destruct (cpu_exec_all n cs σ1) as [[σ2 bs']|] eqn:E2; [|done]. injection Hexec as <- <-.
    apply wp_bind. eapply wp_mono; [by eapply cpu_perform_ok|]. intros b' m1 [-> Hm1].
    apply wp_bind. eapply wp_mono; [by eapply IH|]. intros ? m2 [-> Hm2]. by apply wp_ret.
Qed.

(** Two sets of 1024 cpus; cpus 5000 and -1 do not exist, and the last operation writes
    over one of its sources. *)
Definition cpu_demo : list cpu_command :=
  [CpuSet 1 3; CpuSet 1 1000; CpuSet 1 5000; CpuSet 2 1000; CpuSet 2 (-1); CpuEqual 1 2;
   CpuXor 1 1 2; CpuIsset 1 1000; CpuIsset 1 3; CpuClr 2 1000; CpuZero 1; CpuEqual 1 2].

Definition cpu_demo_mem : cpu_mem := {[ 1 := replicate 16 0; 2 := replicate 16 0 ]}.

Lemma cpu_sets_refine_witness :
  wp (cpu_perform_all true 16 false cpu_demo) cpu_demo_mem (λ bs m',
    bs = [true; true; true; true; true; false; true; false; true; true; true; true] ∧
    cpu_sets 16 m' {[ 1 := ∅; 2 := ∅ ]}).
Proof.
  apply (cpu_sets_refine true false 16 cpu_demo cpu_demo_mem {[ 1 := ∅; 2 := ∅ ]}).
  - reflexivity.
  - intros p X [[<- <-]|[_ [<- <-]%lookup_singleton_Some]]%lookup_insert_Some;
      (exists (replicate 16 0); split; [vm_compute; reflexivity|apply rep_zero]).
  - vm_compute. reflexivity.
Defined.
