(* ===== verification/Fields.v ===== *)
(** * Fields packed into words

    Headers pack several values into a word and give each a function that reads it and one
    that writes it.  [put] replaces a bit field; [Fields]/[FieldsLaws] is what the functions
    of one structure promise together.  Against this interface: after any writes every field
    holds the last value written to it, the order of writes to different fields does not
    matter, and writing back what the fields held gives back the whole structure. *)

From Stdlib Require Import ZArith Lia.
From stdpp Require Import base list numbers.
From S2P Require Import Prelude Bits.

#[local] Open Scope c_scope.
#[local] Open Scope Z_scope.

(** ** One field of a word *)

(** [~x] of [w] bits. *)
Definition not_w (w x : Z) : Z := uwrap w (Z.lnot x).

(** [x] with the [w] bits from bit [i] on replaced by those of [v]. *)
Definition put (i w x v : Z) : Z := Z.ldiff x (Z.ones w ≪ i) .| (field 0 w v ≪ i).

Ltac split_bits :=
  repeat (match goal with
    | |- context [?a <? ?b] => destruct (Z.ltb_spec a b); try lia
    | |- context [?a <=? ?b] => destruct (Z.leb_spec a b); try lia
    end; cbn [andb orb negb]; rewrite ?andb_false_r, ?andb_true_r, ?orb_false_r).

Lemma testbit_ones w n : 0 ≤ w → 0 ≤ n → Z.testbit (Z.ones w) n = (n <? w).
Proof.
  intros. rewrite Z.testbit_ones by done.
  by replace (0 <=? n) with true by (symmetry; apply Z.leb_le; lia).
Qed.

Lemma testbit_shl x i n :
  0 ≤ i → 0 ≤ n → Z.testbit (x ≪ i) n = (i <=? n) && Z.testbit x (n - i).
Proof.
  intros. destruct (Z.leb_spec i n); [by rewrite Z.shiftl_spec by lia|].
  by rewrite Z.shiftl_spec_low by lia.
Qed.

Lemma testbit_put i w x v n :
  0 ≤ i → 0 ≤ w → 0 ≤ n →
  Z.testbit (put i w x v) n =
  if (i <=? n) && (n <? i + w) then Z.testbit v (n - i) else Z.testbit x n.
Proof.
  intros. unfold put. rewrite Z.lor_spec, Z.ldiff_spec, !testbit_shl by lia.
  destruct (Z.leb_spec i n) as [Hi|Hi]; cbn [andb negb].
  - rewrite testbit_ones, testbit_field by lia.
    replace (0 + (n - i)) with (n - i) by lia. split_bits; done.
  - by rewrite andb_true_r, orb_false_r.
Qed.

Lemma testbit_not w x n :
  0 ≤ w → 0 ≤ n → Z.testbit (not_w w x) n = (n <? w) && negb (Z.testbit x n).
Proof.
  intros. unfold not_w. rewrite uwrap_field, testbit_field by lia.
  by rewrite Z.add_0_l, Z.lnot_spec by lia.
Qed.

Lemma testbit_wrap w x n :
  0 ≤ w → 0 ≤ n → Z.testbit (uwrap w x) n = (n <? w) && Z.testbit x n.
Proof. intros. by rewrite uwrap_field, testbit_field, Z.add_0_l by lia. Qed.

(** Above its width a word has no bits. *)
Lemma testbit_high W x n : 0 ≤ x < 2 ^ W → 0 ≤ W ≤ n → Z.testbit x n = false.
Proof. intros Hx Hn. rewrite <- (Z.mod_small x (2 ^ W)) by done. apply Z.mod_pow2_bits_high. lia. Qed.

Lemma word_range W x :
  0 ≤ W → 0 ≤ x → (∀ n, W ≤ n → Z.testbit x n = false) → 0 ≤ x < 2 ^ W.
Proof.
  intros HW Hx H. replace x with (x mod 2 ^ W); [apply Z.mod_pos_bound; by apply pow2_pos|].
  apply Z.bits_inj'. intros n Hn. destruct (Z.ltb_spec n W).
  - by apply Z.mod_pow2_bits_low.
  - rewrite Z.mod_pow2_bits_high by lia. symmetry. by apply H.
Qed.

(** Equality of words bit by bit, [n] being the bit. *)
Ltac rewrite_bits :=
  repeat first
    [ rewrite testbit_put by lia | rewrite testbit_field by lia | rewrite testbit_not by lia
    | rewrite testbit_wrap by lia | rewrite Z.lnot_spec by lia | rewrite testbit_ones by lia | rewrite testbit_shl by lia
    | rewrite Z.bits_0 | rewrite Z.land_spec | rewrite Z.lor_spec | rewrite Z.shiftr_spec by lia ].

Ltac by_bits n :=
  let Hn := fresh "Hn" in
  apply Z.bits_inj'; intros n Hn; repeat (progress (rewrite_bits; split_bits));
  try solve [ done | f_equal; lia ].

Lemma testbit_swrap w z n : 0 < w → 0 ≤ n < w → Z.testbit (swrap w z) n = Z.testbit z n.
Proof.
  intros Hw Hn. rewrite <- (Z.mod_pow2_bits_low (swrap w z) w n), <- (Z.mod_pow2_bits_low z w n) by lia.
  f_equal. unfold swrap. rewrite Zminus_mod_idemp_l. f_equal. lia.
Qed.

Section put.
Context (i w : Z) (Hi : 0 ≤ i) (Hw : 0 ≤ w).

Lemma field_put x v : field i w (put i w x v) = field 0 w v.
Proof. by_bits n. Qed.

Lemma field_put_other j u x v :
  0 ≤ j → 0 ≤ u → i + w ≤ j ∨ j + u ≤ i → field j u (put i w x v) = field j u x.
Proof. intros Hj Hu H. by_bits n. Qed.

Lemma put_put x u v : put i w (put i w x u) v = put i w x v.
Proof. by_bits n. Qed.

Lemma put_field x : put i w x (field i w x) = x.
Proof. by_bits n. Qed.

Lemma put_comm j u x v v' :
  0 ≤ j → 0 ≤ u → i + w ≤ j ∨ j + u ≤ i →
  put i w (put j u x v') v = put j u (put i w x v) v'.
Proof. intros Hj Hu H. by_bits n. Qed.

Lemma put_range W x v : i + w ≤ W → 0 ≤ x < 2 ^ W → 0 ≤ put i w x v < 2 ^ W.
Proof.
  intros HW Hx. apply word_range; [lia| |].
  - unfold put. apply Z.lor_nonneg. split.
    + apply Z.ldiff_nonneg. lia.
    + apply Z.shiftl_nonneg. apply field_range. done.
  - intros n Hn. rewrite testbit_put by lia. split_bits. eapply testbit_high; [done|lia].
Qed.

Lemma put_keeps x v : put i w x (field 0 w v) = put i w x v.
Proof. by_bits n. Qed.
End put.

(** ** The fields of a structure *)

(** [fs_get] and [fs_set] are the functions of the header; [fs_val] is what a field holds and
    [fs_put] what writing it does.  [fs_can] says which values may be written and [fs_keeps]
    what a field keeps of one. *)
Record Fields : Type := mk_fields {
  fs_state : Type;
  fs_key : Type;
  fs_key_eq : EqDecision fs_key;
  fs_good : fs_state → Prop;
  fs_get : fs_key → M fs_state Z;
  fs_set : fs_key → Z → M fs_state unit;
  fs_val : fs_key → fs_state → Z;
  fs_put : fs_key → Z → fs_state → fs_state;
  fs_can : fs_key → Z → Prop;
  fs_keeps : fs_key → Z → Z }.
#[export] Existing Instance fs_key_eq.

Class FieldsLaws (F : Fields) : Prop := {
  fl_get : ∀ k s, fs_good F s → fs_get F k s = Ret (fs_val F k s, s);
  fl_set : ∀ k v s, fs_good F s → fs_can F k v → fs_set F k v s = Ret (tt, fs_put F k v s);
  fl_good : ∀ k v s, fs_good F s → fs_can F k v → fs_good F (fs_put F k v s);
  fl_same : ∀ k v s, fs_good F s → fs_can F k v →
    fs_val F k (fs_put F k v s) = fs_keeps F k v;
  fl_other : ∀ k k' v s, fs_good F s → fs_can F k v → k ≠ k' →
    fs_val F k' (fs_put F k v s) = fs_val F k' s;
  fl_again : ∀ k u v s, fs_good F s → fs_can F k u → fs_can F k v →
    fs_put F k v (fs_put F k u s) = fs_put F k v s;
  fl_comm : ∀ k k' v v' s, fs_good F s → fs_can F k v → fs_can F k' v' → k ≠ k' →
    fs_put F k v (fs_put F k' v' s) = fs_put F k' v' (fs_put F k v s);
  fl_can_back : ∀ k s, fs_good F s → fs_can F k (fs_val F k s);
  fl_back : ∀ k s, fs_good F s → fs_put F k (fs_val F k s) s = s }.

(** Writes in order. *)
Fixpoint assign (F : Fields) (ws : list (fs_key F * Z)) : M (fs_state F) unit :=
  match ws with [] => mret tt | w :: ws => fs_set F w.1 w.2;; assign F ws end.

(** The last value written to a field. *)
Fixpoint last_write (F : Fields) (k : fs_key F) (ws : list (fs_key F * Z)) : option Z :=
  match ws with
  | [] => None
  | (k', v) :: ws =>
      match last_write F k ws with Some v' => Some v' | None => if decide (k' = k) then Some v else None end
  end.

(** [ws'] writes back to every field of [ws] what it held in [s]. *)
Definition writes_back (F : Fields) (s : fs_state F) (ws ws' : list (fs_key F * Z)) : Prop :=
  Forall (λ w, w.2 = fs_val F w.1 s) ws' ∧ ∀ k, k ∈ ws.*1 → k ∈ ws'.*1.

(** What every structure of fields is for: a field holds its last write, only the last writes
    count, and writing back what the fields held gives back the whole structure, so nothing
    else in it has changed. *)
Definition fields_hold (F : Fields) : Prop :=
  ∀ ws s, fs_good F s → Forall (λ w, fs_can F w.1 w.2) ws →
  ∃ s', assign F ws s = Ret (tt, s') ∧
    (∀ k, fs_get F k s' =
          Ret (match last_write F k ws with Some v => fs_keeps F k v | None => fs_val F k s end, s')) ∧
    (∀ ws', Forall (λ w, fs_can F w.1 w.2) ws' →
       (∀ k, last_write F k ws' = last_write F k ws) → assign F ws' s = Ret (tt, s')) ∧
    (∀ ws', writes_back F s ws ws' → assign F ws' s' = Ret (tt, s)).

Section fields.
Context (F : Fields) {L : FieldsLaws F}.
Implicit Types (k : fs_key F) (s : fs_state F) (ws : list (fs_key F * Z)).

Definition writable ws : Prop := Forall (λ w, fs_can F w.1 w.2) ws.
Definition puts ws s : fs_state F := foldl (λ s w, fs_put F w.1 w.2 s) s ws.
Definition without k ws := filter (λ w, w.1 ≠ k) ws.

Lemma puts_good ws s : fs_good F s → writable ws → fs_good F (puts ws s).
Proof.
  intros Hs H. revert s Hs. induction H as [|w ws Hw _ IH]; intros s Hs; [done|].
  apply IH. by apply fl_good.
Qed.

Lemma assign_puts ws s : fs_good F s → writable ws → assign F ws s = Ret (tt, puts ws s).
Proof.
  intros Hs H. revert s Hs. induction H as [|w ws Hw _ IH]; intros s Hs; [done|].
  cbn [assign]. rewrite (bind_eval _ _ _ _ _ (fl_set _ _ _ Hs Hw)). apply IH. by apply fl_good.
Qed.

Lemma val_puts k ws s :
  fs_good F s → writable ws →
  fs_val F k (puts ws s) = match last_write F k ws with Some v => fs_keeps F k v | None => fs_val F k s end.
Proof.
  intros Hs H. revert s Hs. induction H as [|[k' v] ws Hw _ IH]; intros s Hs; [done|].
  cbn [puts foldl last_write fst snd]. change (foldl _ ?x ws) with (puts ws x).
  rewrite IH by (by apply fl_good). destruct (last_write F k ws); [done|].
  destruct (decide (k' = k)) as [<-|Hk]; [by apply fl_same|by apply fl_other].
Qed.

Lemma writable_without k ws : writable ws → writable (without k ws).
Proof. unfold writable. rewrite !list.Forall_forall. intros H w [_ Hw]%list_elem_of_filter. by apply H. Qed.

Lemma last_without k k' ws :
  last_write F k' (without k ws) = if decide (k' = k) then None else last_write F k' ws.
Proof.
  induction ws as [|[k2 v] ws IH]; [by destruct (decide _)|].
  unfold without in *. rewrite filter_cons. cbn [fst]. destruct (decide (k2 ≠ k)) as [Hk|Hk].
  - cbn [last_write]. rewrite IH. repeat case_decide; by subst.
  - rewrite IH. cbn [last_write]. destruct (decide (k' = k)); [done|].
    destruct (last_write F k' ws); [done|]. rewrite decide_False; [done|]. intros ->. tauto.
Qed.

(** A later write to [k] makes the earlier ones irrelevant. *)
Lemma put_without k v ws s :
  fs_good F s → writable ws → fs_can F k v →
  fs_put F k v (puts ws s) = puts (without k ws) (fs_put F k v s).
Proof.
  intros Hs H Hv. revert s Hs. induction H as [|[k2 u] ws Hw _ IH]; intros s Hs; [done|].
  cbn [puts foldl]. change (foldl _ ?x ws) with (puts ws x). rewrite IH by (by apply fl_good).
  unfold without. rewrite filter_cons. cbn [fst snd] in *.
  destruct (decide (k2 ≠ k)) as [Hk|Hk].
  - cbn [puts foldl fst snd]. unfold puts. by rewrite (fl_comm k k2) by congruence.
  - assert (k2 = k) as -> by (by apply dec_stable). by rewrite fl_again.
Qed.

Lemma put_first k v ws s :
  fs_good F s → writable ws → fs_can F k v → last_write F k ws = Some v →
  puts ws s = puts (without k ws) (fs_put F k v s).
Proof.
  intros Hs H Hv. revert s Hs. induction H as [|[k2 u] ws Hw Hws IH]; intros s Hs E; [done|].
  cbn [last_write] in E. cbn [puts foldl fst snd] in *. change (foldl _ ?x ws) with (puts ws x).
  unfold without. rewrite filter_cons. cbn [fst]. destruct (last_write F k ws) as [v'|] eqn:E'.
  - rewrite IH by (done || by apply fl_good). destruct (decide (k2 ≠ k)) as [Hk|Hk].
    + cbn [puts foldl fst snd]. unfold puts. by rewrite (fl_comm k k2) by congruence.
    + assert (k2 = k) as -> by (by apply dec_stable). by rewrite fl_again.
  - destruct (decide (k2 = k)) as [->|]; [|done]. injection E as ->.
    rewrite decide_False by tauto. unfold puts. f_equal. clear -E'.
    induction ws as [|[k2 u] ws IH]; [done|]. cbn [last_write] in E'. rewrite filter_cons.
    cbn [fst]. destruct (last_write F k ws); [done|]. destruct (decide (k2 = k)); [done|].
    rewrite decide_True by done. f_equal. by apply IH.
Qed.

Lemma writable_last k v ws : writable ws → last_write F k ws = Some v → fs_can F k v.
Proof.
  induction 1 as [|[k2 u] ws Hw _ IH]; [done|]. cbn [last_write].
  destruct (last_write F k ws); [intros [= ->]; by apply IH|].
  destruct (decide (k2 = k)) as [->|]; [by intros [= ->]|done].
Qed.

(** Only the last writes count. *)
Lemma puts_last n ws ws' s :
  (length ws ≤ n)%nat → fs_good F s → writable ws → writable ws' →
  (∀ k, last_write F k ws' = last_write F k ws) → puts ws' s = puts ws s.
Proof.
  revert ws ws' s. induction n as [|n IH]; intros ws ws' s Hn Hs H H' E.
  - destruct ws; [|simpl in Hn; lia]. destruct ws' as [|[k v] ws']; [done|].
    specialize (E k). cbn [last_write] in E. destruct (last_write F k ws'); [done|].
    by rewrite decide_True in E.
  - destruct ws as [|[k v0] ws]; [apply (IH [] ws'); auto; simpl; lia|].
    assert (∃ v, last_write F k ((k, v0) :: ws) = Some v) as [v Hv].
    { cbn [last_write]. destruct (last_write F k ws); [eauto|].
      destruct (decide (k = k)); [eauto|done]. }
    assert (fs_can F k v) as Hc by (by eapply (writable_last k v ((k, v0) :: ws))).
    rewrite (put_first k v ((k, v0) :: ws)), (put_first k v ws') by (done || by rewrite ?E).
    apply IH; try (by apply writable_without); [|by apply fl_good|].
    + unfold without. rewrite filter_cons. cbn [fst]. rewrite decide_False by tauto.
      simpl in Hn. pose proof (length_filter (λ w : fs_key F * Z, w.1 ≠ k) ws). lia.
    + intros k'. rewrite !last_without, E. done.
Qed.

(** Writing back. *)
Lemma last_write_app k ws ws' :
  last_write F k (ws ++ ws') = match last_write F k ws' with Some v => Some v | None => last_write F k ws end.
Proof.
  induction ws as [|[k' v] ws IH]; cbn [app last_write]; [by destruct (last_write F k ws')|].
  rewrite IH. by destruct (last_write F k ws').
Qed.

Lemma last_write_none k ws : last_write F k ws = None ↔ k ∉ ws.*1.
Proof.
  induction ws as [|[k' v] ws IH]; cbn [last_write fmap list_fmap fst].
  - split; [intros _; apply not_elem_of_nil|done].
  - rewrite list.not_elem_of_cons, <- IH. destruct (last_write F k ws); [naive_solver|].
    destruct (decide (k' = k)); naive_solver.
Qed.

Lemma back_writable s ws ws' : fs_good F s → writes_back F s ws ws' → writable ws'.
Proof.
  intros Hs [Hv _]. eapply list.Forall_impl; [exact Hv|]. intros [k v] E. cbn in *. subst v.
  by apply fl_can_back.
Qed.

Lemma puts_back s ws : fs_good F s → Forall (λ w, w.2 = fs_val F w.1 s) ws → puts ws s = s.
Proof.
  intros Hs. induction 1 as [|[k v] ws Hv _ IH]; [done|]. cbn in Hv. subst v.
  cbn [puts foldl fst snd]. rewrite fl_back by done. exact IH.
Qed.

Lemma puts_undone s ws ws' :
  fs_good F s → writable ws → writes_back F s ws ws' → puts ws' (puts ws s) = s.
Proof.
  intros Hs H Hb. pose proof (back_writable s ws ws' Hs Hb) as H'. destruct Hb as [Hv Hk].
  unfold puts. rewrite <- foldl_app. etransitivity; [|exact (puts_back s ws' Hs Hv)].
  apply (puts_last (length ws')); [done|done|done|by apply Forall_app_2|].
  intros k. rewrite last_write_app. destruct (last_write F k ws') as [v|] eqn:E; [done|].
  apply last_write_none. apply last_write_none in E. auto.
Qed.

Lemma fields_hold_ok : fields_hold F.
Proof.
  intros ws s Hs H. exists (puts ws s). split; [by apply assign_puts|]. split; [|split].
  - intros k. rewrite fl_get by (by apply puts_good). by rewrite val_puts.
  - intros ws' H' E. rewrite assign_puts by done. by rewrite (puts_last (length ws) ws ws').
  - intros ws' Hb. rewrite assign_puts by (by apply puts_good || by eapply back_writable).
    by rewrite (puts_undone s ws).
Qed.
End fields.

(** ** Fields at fixed bits of words *)

(** The words of a structure, and where its fields lie: [ly_len k] bits from bit [ly_bit k]
    on of the word [ly_at k].  The value of a field leaves out [ly_scale k] low bits, which
    are zero. *)
Record Layout (S K : Type) : Type := mk_layout {
  ly_word : Type;
  ly_rd : ly_word → S → Z;
  ly_wr : ly_word → Z → S → S;
  ly_width : ly_word → Z;
  ly_there : S → Prop;
  ly_at : K → ly_word;
  ly_bit : K → Z;
  ly_len : K → Z;
  ly_scale : K → Z;
  ly_can : K → Z → Prop }.
Arguments ly_word {S K}. Arguments ly_rd {S K}. Arguments ly_wr {S K}. Arguments ly_width {S K}.
Arguments ly_there {S K}. Arguments ly_at {S K}. Arguments ly_bit {S K}. Arguments ly_len {S K}.
Arguments ly_scale {S K}. Arguments ly_can {S K}.

Class LayoutLaws {S K : Type} (Y : Layout S K) : Prop := {
  yl_rd_wr : ∀ l x s, 0 ≤ x < 2 ^ ly_width Y l → ly_rd Y l (ly_wr Y l x s) = x;
  yl_rd_other : ∀ l l' x s, l ≠ l' → ly_rd Y l' (ly_wr Y l x s) = ly_rd Y l' s;
  yl_wr_wr : ∀ l x y s, ly_wr Y l x (ly_wr Y l y s) = ly_wr Y l x s;
  yl_wr_comm : ∀ l l' x y s, l ≠ l' →
    ly_wr Y l x (ly_wr Y l' y s) = ly_wr Y l' y (ly_wr Y l x s);
  yl_there : ∀ l x s, 0 ≤ x < 2 ^ ly_width Y l → ly_there Y s → ly_there Y (ly_wr Y l x s);
  yl_same : ∀ l l' : ly_word Y, l = l' ∨ l ≠ l';
  yl_bits : ∀ k, 0 ≤ ly_bit Y k ∧ 0 ≤ ly_len Y k ∧ 0 ≤ ly_scale Y k ∧
    ly_bit Y k + ly_len Y k ≤ ly_width Y (ly_at Y k);
  yl_apart : ∀ k k', k ≠ k' → ly_at Y k = ly_at Y k' →
    ly_bit Y k + ly_len Y k ≤ ly_bit Y k' ∨ ly_bit Y k' + ly_len Y k' ≤ ly_bit Y k;
  yl_wr_rd : ∀ k s, ly_there Y s → ly_wr Y (ly_at Y k) (ly_rd Y (ly_at Y k) s) s = s;
  yl_can : ∀ k v, 0 ≤ v < 2 ^ ly_len Y k → ly_can Y k (v * 2 ^ ly_scale Y k) }.

Section layout.
Context {S K : Type} `{EqDecision K} (Y : Layout S K).
Context (get : K → M S Z) (set : K → Z → M S unit).

Definition words_ok (s : S) : Prop :=
  ly_there Y s ∧ ∀ l, 0 ≤ ly_rd Y l s < 2 ^ ly_width Y l.
Definition held (k : K) (s : S) : Z :=
  field (ly_bit Y k) (ly_len Y k) (ly_rd Y (ly_at Y k) s) * 2 ^ ly_scale Y k.
Definition hold (k : K) (v : Z) (s : S) : S :=
  ly_wr Y (ly_at Y k) (put (ly_bit Y k) (ly_len Y k) (ly_rd Y (ly_at Y k) s) (v / 2 ^ ly_scale Y k)) s.

Definition layout_fields : Fields := {|
  fs_state := S; fs_key := K; fs_key_eq := _;
  fs_good := words_ok;
  fs_get := get; fs_set := set;
  fs_val := held; fs_put := hold;
  fs_can := ly_can Y;
  fs_keeps k v := field (ly_scale Y k) (ly_len Y k) v * 2 ^ ly_scale Y k |}.

Context {H : LayoutLaws Y}.

Lemma hold_range k v s :
  words_ok s →
  0 ≤ put (ly_bit Y k) (ly_len Y k) (ly_rd Y (ly_at Y k) s) v < 2 ^ ly_width Y (ly_at Y k).
Proof. intros [_ Hw]. destruct (yl_bits k) as (? & ? & _ & ?). by apply put_range. Qed.

Lemma rd_hold k v s :
  words_ok s →
  ly_rd Y (ly_at Y k) (hold k v s) =
  put (ly_bit Y k) (ly_len Y k) (ly_rd Y (ly_at Y k) s) (v / 2 ^ ly_scale Y k).
Proof. intros Hs. unfold hold. rewrite yl_rd_wr; [done|]. by apply hold_range. Qed.

Lemma hold_ok k v s : words_ok s → words_ok (hold k v s).
Proof.
  intros Hs. split; [apply yl_there; [by apply hold_range|apply Hs]|]. intros l.
  destruct (yl_same (ly_at Y k) l) as [<-|Hne].
  - rewrite rd_hold by done. by apply hold_range.
  - unfold hold. rewrite yl_rd_other by done. apply Hs.
Qed.

Context (get_ok : ∀ k s, words_ok s → get k s = Ret (held k s, s)).
Context (set_ok : ∀ k v s, words_ok s → ly_can Y k v → set k v s = Ret (tt, hold k v s)).

Lemma layout_laws : FieldsLaws layout_fields.
Proof using Type*.
  split; cbn [layout_fields fs_good fs_get fs_set fs_val fs_put fs_can fs_keeps fs_key fs_state].
  - exact get_ok.
  - exact set_ok.
  - intros k v s Hs _. by apply hold_ok.
  - intros k v s Hs _. destruct (yl_bits k) as (Hb & Hl & Hc & _). unfold held.
    rewrite rd_hold, field_put by done. f_equal. unfold field. by rewrite Z.div_1_r.
  - intros k k' v s Hs _ Hk. unfold held.
    destruct (yl_same (ly_at Y k) (ly_at Y k')) as [E|E].
    + destruct (yl_bits k) as (? & ? & _), (yl_bits k') as (? & ? & _).
      rewrite <- E, rd_hold, field_put_other; try done. by apply yl_apart.
    + unfold hold. by rewrite yl_rd_other.
  - intros k u v s Hs _ _. destruct (yl_bits k) as (? & ? & _). unfold hold at 1.
    rewrite rd_hold by done. unfold hold. by rewrite yl_wr_wr, put_put.
  - intros k k' v v' s Hs _ _ Hk.
    destruct (yl_bits k) as (? & ? & _), (yl_bits k') as (? & ? & _).
    destruct (yl_same (ly_at Y k) (ly_at Y k')) as [E|E].
    + unfold hold at 1 3. rewrite <- E, rd_hold by done. rewrite E, rd_hold by done.
      unfold hold. rewrite <- E, !yl_wr_wr. f_equal. apply put_comm; try done. by apply yl_apart.
    + unfold hold. rewrite !yl_rd_other by done. by apply yl_wr_comm.
  - intros k s _. destruct (yl_bits k) as (? & ? & _). by apply yl_can, field_range.
  - intros k s Hs. destruct (yl_bits k) as (? & ? & ? & _). unfold hold, held.
    rewrite Z.div_mul by (apply Z.pow_nonzero; lia). rewrite put_field by done.
    apply yl_wr_rd, Hs.
Qed.
End layout.

(** A structure whose fields are all in one word. *)
Section one_word.
Context {S K : Type} `{EqDecision K} (rd : S → Z) (wr : Z → S → S) (W : Z) (there : S → Prop).
Context (place : K → Z * Z) (scale : K → Z) (can : K → Z → Prop).

Definition one_word : Layout S K := {|
  ly_word := unit;
  ly_rd _ := rd; ly_wr _ := wr; ly_width _ := W; ly_there := there; ly_at _ := tt;
  ly_bit k := (place k).1; ly_len k := (place k).2; ly_scale := scale; ly_can := can |}.

Lemma one_word_laws :
  (∀ x s, 0 ≤ x < 2 ^ W → rd (wr x s) = x) →
  (∀ x y s, wr x (wr y s) = wr x s) →
  (∀ x s, 0 ≤ x < 2 ^ W → there s → there (wr x s)) →
  (∀ k, 0 ≤ (place k).1 ∧ 0 ≤ (place k).2 ∧ 0 ≤ scale k ∧ (place k).1 + (place k).2 ≤ W) →
  (∀ k k', k ≠ k' → (place k).1 + (place k).2 ≤ (place k').1 ∨
                    (place k').1 + (place k').2 ≤ (place k).1) →
  (∀ s, there s → wr (rd s) s = s) →
  (∀ k v, 0 ≤ v < 2 ^ (place k).2 → can k (v * 2 ^ scale k)) →
  LayoutLaws one_word.
Proof.
  intros H1 H2 H3 H4 H5 H6 H7. split; cbn; auto.
  - by intros [] [].
  - by intros [] [].
  - intros [] []. by left.
Qed.
End one_word.
