(* ===== verification/BitFields.v ===== *)
(** * Headers that pack fields ([linux/bcache.h], [linux/phonet.h], ...)

    The functions that read and write bit fields: keys, pointers and the superblock of
    bcache, socket addresses of Phonet, the flags of NILFS, the entry header of the target
    user-space ring ([linux/target_core_user.h]) and the speed of [linux/ethtool.h].  A key
    of bcache is in memory, 64 bit words at the addresses of multiples of 8, because
    its functions step over it; the other structures are records, and a function that writes
    through a pointer returns the record it leaves.  [cpu_to_le32] and its like, which the
    headers of NILFS use and no header of the sysroot defines, are parameters. *)

From Stdlib Require Import ZArith Lia.
From stdpp Require Import base list gmap fin numbers.
From S2P Require Import Prelude Bits ByteOrder Fields.

#[local] Open Scope c_scope.
#[local] Open Scope Z_scope.

(** ** bcache: keys *)

Abbreviation words := (gmap Z Z).

Definition load64 (p : Z) : M words Z := m ← mget; moption Dangling (m !! p).
Definition store64 (p v : Z) : M words unit := _ ← load64 p; mmodify (insert p (u64 v)).

(** [BITMASK(name, type, field, offset, size)]: what [name] reads in a field and what
    [SET_name] makes of it. *)
Definition BITMASK (offset size field : Z) : Z :=
  (field ≫ offset) .& not_w 64 (u64 (not_w 64 0 ≪ size)).
Definition SET_BITMASK (offset size field v : Z) : Z :=
  let field := field .& not_w 64 (u64 (not_w 64 (u64 (not_w 64 0 ≪ size)) ≪ offset)) in
  field .| u64 ((v .& not_w 64 (u64 (not_w 64 0 ≪ size))) ≪ offset).

(** [struct bkey]: [high], [low] and [ptr[]]. *)
Definition bkey_high (k : Z) : Z := k.
Definition bkey_low (k : Z) : Z := k + 8.
Definition bkey_ptr (k i : Z) : Z := k + 16 + 8 * i.

Definition KEY_FIELD (offset size k : Z) : M words Z :=
  x ← load64 (bkey_high k); mret (BITMASK offset size x).
Definition SET_KEY_FIELD (offset size k v : Z) : M words unit :=
  x ← load64 (bkey_high k); store64 (bkey_high k) (SET_BITMASK offset size x v).
Definition PTR_FIELD (offset size k i : Z) : M words Z :=
  x ← load64 (bkey_ptr k i); mret (BITMASK offset size x).
Definition SET_PTR_FIELD (offset size k i v : Z) : M words unit :=
  x ← load64 (bkey_ptr k i); store64 (bkey_ptr k i) (SET_BITMASK offset size x v).

Definition KEY_SIZE_BITS : Z := 16.
Definition KEY_PTRS := KEY_FIELD 60 3.
Definition SET_KEY_PTRS := SET_KEY_FIELD 60 3.
Definition HEADER_SIZE := KEY_FIELD 58 2.
Definition SET_HEADER_SIZE := SET_KEY_FIELD 58 2.
Definition KEY_CSUM := KEY_FIELD 56 2.
Definition SET_KEY_CSUM := SET_KEY_FIELD 56 2.
Definition KEY_PINNED := KEY_FIELD 55 1.
Definition SET_KEY_PINNED := SET_KEY_FIELD 55 1.
Definition KEY_DIRTY := KEY_FIELD 36 1.
Definition SET_KEY_DIRTY := SET_KEY_FIELD 36 1.
Definition KEY_SIZE := KEY_FIELD 20 KEY_SIZE_BITS.
Definition SET_KEY_SIZE := SET_KEY_FIELD 20 KEY_SIZE_BITS.
Definition KEY_INODE := KEY_FIELD 0 20.
Definition SET_KEY_INODE := SET_KEY_FIELD 0 20.

Definition KEY_OFFSET (k : Z) : M words Z := load64 (bkey_low k).
Definition SET_KEY_OFFSET (k v : Z) : M words unit := store64 (bkey_low k) v.

Definition PTR_DEV_BITS : Z := 12.
Definition PTR_DEV := PTR_FIELD 51 PTR_DEV_BITS.
Definition SET_PTR_DEV := SET_PTR_FIELD 51 PTR_DEV_BITS.
Definition PTR_OFFSET := PTR_FIELD 8 43.
Definition SET_PTR_OFFSET := SET_PTR_FIELD 8 43.
Definition PTR_GEN := PTR_FIELD 0 8.
Definition SET_PTR_GEN := SET_PTR_FIELD 0 8.

(** A key as a value, [high] and [low], without pointers. *)
Definition KEY (inode offset size : Z) : Z * Z :=
  (u64 (1 ≪ 63) .| u64 (u64 size ≪ 20) .| u64 inode, u64 offset).
Definition ZERO_KEY : Z * Z := KEY 0 0 0.
Definition MAX_KEY_INODE : Z := Z.lnot (Z.lnot 0 ≪ 20).
Definition MAX_KEY_OFFSET : Z := not_w 64 0 ≫ 1.
Definition MAX_KEY : Z * Z := KEY MAX_KEY_INODE MAX_KEY_OFFSET 0.
Definition KEY_START (k : Z) : M words Z :=
  o ← KEY_OFFSET k; s ← KEY_SIZE k; mret (u64 (o - s)).
Definition START_KEY (k : Z) : M words (Z * Z) :=
  i ← KEY_INODE k; s ← KEY_START k; mret (KEY i s 0).

Definition PTR_CHECK_DEV : Z := 1 ≪ PTR_DEV_BITS - 1.
Definition MAKE_PTR (gen offset dev : Z) : Z :=
  u64 (u64 dev ≪ 51) .| u64 (u64 offset ≪ 8) .| u64 gen.

(** [sizeof(struct bkey) / sizeof(__u64)] is 2. *)
Definition bkey_u64s (k : Z) : M words Z := n ← KEY_PTRS k; mret (16 / 8 + n).
Definition bkey_bytes (k : Z) : M words Z := n ← bkey_u64s k; mret (n * 8).

Fixpoint load_words (n : nat) (p : Z) : M words (list Z) :=
  match n with
  | O => mret []
  | S n => x ← load64 p; l ← load_words n (p + 8); mret (x :: l)
  end.
Fixpoint store_words (p : Z) (l : list Z) : M words unit :=
  match l with [] => mret tt | x :: l => store64 p x;; store_words (p + 8) l end.

(** [memcpy(_dest, _src, bkey_bytes(_src))]. *)
Definition bkey_copy (_dest _src : Z) : M words unit :=
  n ← bkey_bytes _src; l ← load_words (Z.to_nat (n / 8)) _src; store_words _dest l.
Definition bkey_copy_key (dest src : Z) : M words unit :=
  (i ← KEY_INODE src; SET_KEY_INODE dest i);; (o ← KEY_OFFSET src; SET_KEY_OFFSET dest o).
Definition bkey_next (k : Z) : M words Z := n ← bkey_u64s k; mret (k + 8 * n).
Definition bkey_idx (k nr_keys : Z) : Z := k + 8 * nr_keys.

(** ** bcache: superblock and UUIDs *)

(** [set_magic] is the first word of [set_uuid], [data_offset] another name of [nbuckets]
    and [keys] one of [njournal_buckets]. *)
Record cache_sb : Type := mk_cache_sb {
  sb_csum : Z; sb_offset : Z; sb_version : Z;
  sb_magic : list Z; sb_uuid : list Z; sb_set_uuid : list Z; sb_label : list Z;
  sb_flags : Z; sb_seq : Z; sb_pad : list Z;
  sb_nbuckets : Z; sb_block_size : Z; sb_bucket_size : Z; sb_nr_in_set : Z; sb_nr_this_dev : Z;
  sb_last_mount : Z; sb_first_bucket : Z; sb_njournal_buckets : Z; sb_d : list Z }.
Definition set_sb_flags (x : Z) (s : cache_sb) : cache_sb :=
  mk_cache_sb (sb_csum s) (sb_offset s) (sb_version s) (sb_magic s) (sb_uuid s) (sb_set_uuid s)
    (sb_label s) x (sb_seq s) (sb_pad s) (sb_nbuckets s) (sb_block_size s) (sb_bucket_size s)
    (sb_nr_in_set s) (sb_nr_this_dev s) (sb_last_mount s) (sb_first_bucket s)
    (sb_njournal_buckets s) (sb_d s).

Definition BCACHE_SB_VERSION_BDEV : Z := 1.
Definition BCACHE_SB_VERSION_BDEV_WITH_OFFSET : Z := 4.
Definition SB_IS_BDEV (sb : cache_sb) : bool :=
  (sb_version sb =? BCACHE_SB_VERSION_BDEV) || (sb_version sb =? BCACHE_SB_VERSION_BDEV_WITH_OFFSET).

Definition SB_FIELD (offset size : Z) (sb : cache_sb) : Z := BITMASK offset size (sb_flags sb).
Definition SET_SB_FIELD (offset size : Z) (sb : cache_sb) (v : Z) : cache_sb :=
  set_sb_flags (SET_BITMASK offset size (sb_flags sb) v) sb.
Definition CACHE_SYNC := SB_FIELD 0 1.
Definition SET_CACHE_SYNC := SET_SB_FIELD 0 1.
Definition CACHE_DISCARD := SB_FIELD 1 1.
Definition SET_CACHE_DISCARD := SET_SB_FIELD 1 1.
Definition CACHE_REPLACEMENT := SB_FIELD 2 3.
Definition SET_CACHE_REPLACEMENT := SET_SB_FIELD 2 3.
Definition BDEV_CACHE_MODE := SB_FIELD 0 4.
Definition SET_BDEV_CACHE_MODE := SET_SB_FIELD 0 4.
Definition BDEV_STATE := SB_FIELD 61 2.
Definition SET_BDEV_STATE := SET_SB_FIELD 61 2.

Section magic.
Context (host : order).
Definition set_magic (sb : cache_sb) : Z := of_bytes_in host (take 8 (sb_set_uuid sb)).
Definition JSET_MAGIC : Z := 0x245235c1a3625032.
Definition PSET_MAGIC : Z := 0x6750e15f87337f91.
Definition BSET_MAGIC : Z := 0x90135c78b99e07f5.
Definition jset_magic (sb : cache_sb) : Z := Z.lxor (set_magic sb) JSET_MAGIC.
Definition pset_magic (sb : cache_sb) : Z := Z.lxor (set_magic sb) PSET_MAGIC.
Definition bset_magic (sb : cache_sb) : Z := Z.lxor (set_magic sb) BSET_MAGIC.
End magic.

(** The flags of a UUID entry have 32 bits: the assignments of the macro cut off the rest. *)
Record uuid_entry : Type := mk_uuid_entry {
  ue_uuid : list Z; ue_label : list Z; ue_first_reg : Z; ue_last_reg : Z; ue_invalidated : Z;
  ue_flags : Z; ue_sectors : Z }.
Definition set_ue_flags (x : Z) (u : uuid_entry) : uuid_entry :=
  mk_uuid_entry (ue_uuid u) (ue_label u) (ue_first_reg u) (ue_last_reg u) (ue_invalidated u) x
    (ue_sectors u).
Definition UUID_FLASH_ONLY (u : uuid_entry) : Z := BITMASK 0 1 (ue_flags u).
Definition SET_UUID_FLASH_ONLY (u : uuid_entry) (v : Z) : uuid_entry :=
  set_ue_flags (u32 (SET_BITMASK 0 1 (ue_flags u) v)) u.

(** ** Phonet *)

Definition pn_object (addr port : Z) : Z := u16 ((u8 addr ≪ 8) .| (u16 port .& 0x3ff)).
Definition pn_obj (handle : Z) : Z := u8 (u16 handle .& 0xff).
Definition pn_dev (handle : Z) : Z := u8 (u16 handle ≫ 8).
Definition pn_port (handle : Z) : Z := u16 (u16 handle .& 0x3ff).
Definition pn_addr (handle : Z) : Z := u8 ((u16 handle ≫ 8) .& 0xfc).

Record sockaddr_pn : Type := mk_sockaddr_pn {
  spn_family : Z; spn_obj : Z; spn_dev : Z; spn_resource : Z; spn_zero : list Z }.
Definition set_spn_obj (x : Z) (spn : sockaddr_pn) : sockaddr_pn :=
  mk_sockaddr_pn (spn_family spn) x (spn_dev spn) (spn_resource spn) (spn_zero spn).
Definition set_spn_dev (x : Z) (spn : sockaddr_pn) : sockaddr_pn :=
  mk_sockaddr_pn (spn_family spn) (spn_obj spn) x (spn_resource spn) (spn_zero spn).
Definition set_spn_resource (x : Z) (spn : sockaddr_pn) : sockaddr_pn :=
  mk_sockaddr_pn (spn_family spn) (spn_obj spn) (spn_dev spn) x (spn_zero spn).

Definition pn_sockaddr_set_addr (spn : sockaddr_pn) (addr : Z) : sockaddr_pn :=
  let spn := set_spn_dev (u8 (spn_dev spn .& 0x03)) spn in
  set_spn_dev (u8 (spn_dev spn .| (u8 addr .& 0xfc))) spn.
Definition pn_sockaddr_set_port (spn : sockaddr_pn) (port : Z) : sockaddr_pn :=
  let spn := set_spn_dev (u8 (spn_dev spn .& 0xfc)) spn in
  let spn := set_spn_dev (u8 (spn_dev spn .| ((u16 port ≫ 8) .& 0x03))) spn in
  set_spn_obj (u8 (u16 port .& 0xff)) spn.
Definition pn_sockaddr_set_object (spn : sockaddr_pn) (handle : Z) : sockaddr_pn :=
  let spn := set_spn_dev (pn_dev handle) spn in
  set_spn_obj (pn_obj handle) spn.
Definition pn_sockaddr_set_resource (spn : sockaddr_pn) (resource : Z) : sockaddr_pn :=
  set_spn_resource (u8 resource) spn.
Definition pn_sockaddr_get_addr (spn : sockaddr_pn) : Z := u8 (spn_dev spn .& 0xfc).
Definition pn_sockaddr_get_port (spn : sockaddr_pn) : Z :=
  u16 (((spn_dev spn .& 0x03) ≪ 8) .| spn_obj spn).
Definition pn_sockaddr_get_object (spn : sockaddr_pn) : Z := pn_object (spn_dev spn) (spn_obj spn).
Definition pn_sockaddr_get_resource (spn : sockaddr_pn) : Z := spn_resource spn.

(** ** NILFS *)

(** [cpu_to_le32] and [le32_to_cpu] are each other's inverse on 32 bits. *)
Class Le32 : Type := { cpu_to_le32 : Z → Z; le32_to_cpu : Z → Z; cpu_to_le64 : Z → Z }.
Class Le32Laws (C : Le32) : Prop := {
  to_le32_range : ∀ x, 0 ≤ x < 2 ^ 32 → 0 ≤ cpu_to_le32 x < 2 ^ 32;
  le32_to_range : ∀ x, 0 ≤ x < 2 ^ 32 → 0 ≤ le32_to_cpu x < 2 ^ 32;
  le32_to_le32 : ∀ x, 0 ≤ x < 2 ^ 32 → le32_to_cpu (cpu_to_le32 x) = x;
  to_le32_le32 : ∀ x, 0 ≤ x < 2 ^ 32 → cpu_to_le32 (le32_to_cpu x) = x;
  to_le64_zero : cpu_to_le64 0 = 0 }.

Section nilfs.
Context {C : Le32}.

(** The three functions of a flag: set, clear and test.  [1UL << flag] has 64 bits, and the
    argument of [cpu_to_le32] is cut to 32. *)
Definition set_flag (flag x : Z) : Z := cpu_to_le32 (u32 (le32_to_cpu x .| u64 (1 ≪ flag))).
Definition clear_flag (flag x : Z) : Z :=
  cpu_to_le32 (u32 (le32_to_cpu x .& not_w 64 (u64 (1 ≪ flag)))).
Definition test_flag (flag x : Z) : Z := Z.b2z (negb (le32_to_cpu x .& u64 (1 ≪ flag) =? 0)).

Record nilfs_checkpoint : Type := mk_nilfs_checkpoint {
  cp_flags : Z; cp_checkpoints_count : Z; ssl_next : Z; ssl_prev : Z; cp_cno : Z; cp_create : Z;
  cp_nblk_inc : Z; cp_inodes_count : Z; cp_blocks_count : Z; cp_ifile_inode : list Z }.
Definition set_cp_flags (x : Z) (cp : nilfs_checkpoint) : nilfs_checkpoint :=
  mk_nilfs_checkpoint x (cp_checkpoints_count cp) (ssl_next cp) (ssl_prev cp) (cp_cno cp)
    (cp_create cp) (cp_nblk_inc cp) (cp_inodes_count cp) (cp_blocks_count cp) (cp_ifile_inode cp).

(** The flags that have functions; bit 2, [NILFS_CHECKPOINT_SKETCH], has none. *)
Inductive nilfs_checkpoint_flag : Type :=
  NILFS_CHECKPOINT_SNAPSHOT | NILFS_CHECKPOINT_INVALID | NILFS_CHECKPOINT_MINOR.
Definition checkpoint_bit (f : nilfs_checkpoint_flag) : Z :=
  match f with
  | NILFS_CHECKPOINT_SNAPSHOT => 0 | NILFS_CHECKPOINT_INVALID => 1 | NILFS_CHECKPOINT_MINOR => 3
  end.
Definition nilfs_checkpoint_set (flag : nilfs_checkpoint_flag) (cp : nilfs_checkpoint) :=
  set_cp_flags (set_flag (checkpoint_bit flag) (cp_flags cp)) cp.
Definition nilfs_checkpoint_clear (flag : nilfs_checkpoint_flag) (cp : nilfs_checkpoint) :=
  set_cp_flags (clear_flag (checkpoint_bit flag) (cp_flags cp)) cp.
Definition nilfs_checkpoint_test (flag : nilfs_checkpoint_flag) (cp : nilfs_checkpoint) : Z :=
  test_flag (checkpoint_bit flag) (cp_flags cp).

Record nilfs_segment_usage : Type := mk_nilfs_segment_usage {
  su_lastmod : Z; su_nblocks : Z; su_flags : Z }.
Definition set_su_flags (x : Z) (su : nilfs_segment_usage) : nilfs_segment_usage :=
  mk_nilfs_segment_usage (su_lastmod su) (su_nblocks su) x.

Inductive nilfs_segment_usage_flag : Type :=
  NILFS_SEGMENT_USAGE_ACTIVE | NILFS_SEGMENT_USAGE_DIRTY | NILFS_SEGMENT_USAGE_ERROR.
Definition segment_usage_bit (f : nilfs_segment_usage_flag) : Z :=
  match f with
  | NILFS_SEGMENT_USAGE_ACTIVE => 0 | NILFS_SEGMENT_USAGE_DIRTY => 1 | NILFS_SEGMENT_USAGE_ERROR => 2
  end.
Definition nilfs_segment_usage_set (flag : nilfs_segment_usage_flag) (su : nilfs_segment_usage) :=
  set_su_flags (set_flag (segment_usage_bit flag) (su_flags su)) su.
Definition nilfs_segment_usage_clear (flag : nilfs_segment_usage_flag) (su : nilfs_segment_usage) :=
  set_su_flags (clear_flag (segment_usage_bit flag) (su_flags su)) su.
Definition nilfs_segment_usage_test (flag : nilfs_segment_usage_flag) (su : nilfs_segment_usage) : Z :=
  test_flag (segment_usage_bit flag) (su_flags su).
Definition nilfs_segment_usage_set_clean (su : nilfs_segment_usage) : nilfs_segment_usage :=
  mk_nilfs_segment_usage (cpu_to_le64 0) (cpu_to_le32 0) (cpu_to_le32 0).
Definition nilfs_segment_usage_clean (su : nilfs_segment_usage) : bool :=
  le32_to_cpu (su_flags su) =? 0.
End nilfs.

(** The same in the order of the host. *)
Record nilfs_cpinfo : Type := mk_nilfs_cpinfo {
  ci_flags : Z; ci_pad : Z; ci_cno : Z; ci_create : Z; ci_nblk_inc : Z; ci_inodes_count : Z;
  ci_blocks_count : Z; ci_next : Z }.
Definition nilfs_cpinfo_test (flag : nilfs_checkpoint_flag) (cpinfo : nilfs_cpinfo) : Z :=
  Z.b2z (negb (ci_flags cpinfo .& u64 (1 ≪ checkpoint_bit flag) =? 0)).

Record nilfs_suinfo : Type := mk_nilfs_suinfo {
  sui_lastmod : Z; sui_nblocks : Z; sui_flags : Z }.
Definition nilfs_suinfo_test (flag : nilfs_segment_usage_flag) (si : nilfs_suinfo) : Z :=
  i32 (sui_flags si .& u64 (1 ≪ segment_usage_bit flag)).
Definition nilfs_suinfo_clean (si : nilfs_suinfo) : bool := sui_flags si =? 0.

Record nilfs_suinfo_update : Type := mk_nilfs_suinfo_update {
  sup_segnum : Z; sup_flags : Z; sup_reserved : Z; sup_sui : nilfs_suinfo }.
Definition set_sup_flags (x : Z) (sup : nilfs_suinfo_update) : nilfs_suinfo_update :=
  mk_nilfs_suinfo_update (sup_segnum sup) x (sup_reserved sup) (sup_sui sup).
Inductive nilfs_suinfo_update_flag : Type :=
  NILFS_SUINFO_UPDATE_LASTMOD | NILFS_SUINFO_UPDATE_NBLOCKS | NILFS_SUINFO_UPDATE_FLAGS.
Definition suinfo_update_bit (f : nilfs_suinfo_update_flag) : Z :=
  match f with
  | NILFS_SUINFO_UPDATE_LASTMOD => 0 | NILFS_SUINFO_UPDATE_NBLOCKS => 1 | NILFS_SUINFO_UPDATE_FLAGS => 2
  end.
Definition nilfs_suinfo_update_set (flag : nilfs_suinfo_update_flag) (sup : nilfs_suinfo_update) :=
  set_sup_flags (u32 (sup_flags sup .| u64 (1 ≪ suinfo_update_bit flag))) sup.
Definition nilfs_suinfo_update_clear (flag : nilfs_suinfo_update_flag) (sup : nilfs_suinfo_update) :=
  set_sup_flags (u32 (sup_flags sup .& not_w 64 (u64 (1 ≪ suinfo_update_bit flag)))) sup.
Definition nilfs_suinfo_update_test (flag : nilfs_suinfo_update_flag) (sup : nilfs_suinfo_update) : Z :=
  Z.b2z (negb (sup_flags sup .& u64 (1 ≪ suinfo_update_bit flag) =? 0)).

(** ** The entry header of the target user-space ring *)

Record tcmu_cmd_entry_hdr : Type := mk_tcmu_cmd_entry_hdr {
  len_op : Z; cmd_id : Z; kflags : Z; uflags : Z }.
Definition set_len_op (x : Z) (h : tcmu_cmd_entry_hdr) : tcmu_cmd_entry_hdr :=
  mk_tcmu_cmd_entry_hdr x (cmd_id h) (kflags h) (uflags h).

Definition TCMU_OP_MASK : Z := 0x7.
Definition tcmu_hdr_get_op (len_op : Z) : Z := len_op .& TCMU_OP_MASK.
Definition tcmu_hdr_set_op (len_op op : Z) : Z :=
  let len_op := u32 (len_op .& Z.lnot TCMU_OP_MASK) in
  u32 (len_op .| (op .& TCMU_OP_MASK)).
Definition tcmu_hdr_get_len (len_op : Z) : Z := u32 (len_op .& Z.lnot TCMU_OP_MASK).
Definition tcmu_hdr_set_len (len_op len : Z) : Z :=
  let len_op := u32 (len_op .& TCMU_OP_MASK) in
  u32 (len_op .| u32 len).

(** ** The speed of a link *)

Record ethtool_cmd : Type := mk_ethtool_cmd {
  ep_cmd : Z; ep_supported : Z; ep_advertising : Z; ep_speed : Z; ep_duplex : Z; ep_port : Z;
  ep_phy_address : Z; ep_transceiver : Z; ep_autoneg : Z; ep_mdio_support : Z; ep_maxtxpkt : Z;
  ep_maxrxpkt : Z; ep_speed_hi : Z; ep_eth_tp_mdix : Z; ep_eth_tp_mdix_ctrl : Z;
  ep_lp_advertising : Z; ep_reserved : list Z }.
Definition set_speeds (lo hi : Z) (ep : ethtool_cmd) : ethtool_cmd :=
  mk_ethtool_cmd (ep_cmd ep) (ep_supported ep) (ep_advertising ep) lo (ep_duplex ep) (ep_port ep)
    (ep_phy_address ep) (ep_transceiver ep) (ep_autoneg ep) (ep_mdio_support ep) (ep_maxtxpkt ep)
    (ep_maxrxpkt ep) hi (ep_eth_tp_mdix ep) (ep_eth_tp_mdix_ctrl ep) (ep_lp_advertising ep)
    (ep_reserved ep).

Definition ethtool_cmd_speed_set (ep : ethtool_cmd) (speed : Z) : ethtool_cmd :=
  let ep := set_speeds (u16 (u32 speed .& 0xFFFF)) (ep_speed_hi ep) ep in
  set_speeds (ep_speed ep) (u16 (u32 speed ≫ 16)) ep.
(** [ep->speed_hi << 16] is computed in an [int], which 0x8000 and more overflow. *)
Definition ethtool_cmd_speed : M ethtool_cmd Z :=
  ep ← mget;
  if ep_speed_hi ep <? 0x8000 then mret (u32 ((ep_speed_hi ep ≪ 16) .| ep_speed ep))
  else mub IntOverflow.
Definition SPEED_UNKNOWN : Z := u32 (-1).
Definition ethtool_validate_speed (speed : Z) : bool :=
  (speed <=? 2 ^ 31 - 1) || (speed =? SPEED_UNKNOWN).
