(* ===== verification/BitFieldsSpec.v ===== *)
(** * The packed fields as independent values

    The structures of [BitFields] are instances of [FieldsLaws]: the functions that write a
    field change that field only.  Then keys of bcache as values, objects of Phonet, and
    where a header lets a field spill into its neighbour. *)

From Stdlib Require Import ZArith Lia.
From stdpp Require Import base list gmap fin numbers.
From S2P Require Import Prelude Bits ByteOrder Fields BitFields.

#[local] Open Scope c_scope.
#[local] Open Scope Z_scope.

(** ** What the expressions compute *)

Section bitmask.
Context (offset size : Z) (Ho : 0 ≤ offset) (Hs : 0 ≤ size) (H64 : offset + size ≤ 64).

Lemma BITMASK_field x : BITMASK offset size x = field offset size x.
Proof. unfold BITMASK. by_bits n. Qed.

Lemma SET_BITMASK_put x v :
  0 ≤ x < 2 ^ 64 → SET_BITMASK offset size x v = put offset size x v.
Proof.
  intros Hx. unfold SET_BITMASK. by_bits n. by rewrite (testbit_high 64).
Qed.
End bitmask.

(** Values without a scale. *)
Lemma put_full W x v : 0 ≤ W → 0 ≤ x < 2 ^ W → put 0 W x v = uwrap W v.
Proof. intros HW Hx. by_bits n. by rewrite (testbit_high W). Qed.
Lemma field_full W x : 0 ≤ W → 0 ≤ x < 2 ^ W → field 0 W x = x.
Proof. intros HW Hx. rewrite <- uwrap_field. by apply Z.mod_small. Qed.

(** ** Keys of bcache *)

Inductive bkey_field (n : nat) : Type :=
  | k_ptrs | k_header_size | k_csum | k_pinned | k_dirty | k_size | k_inode | k_offset
  | p_dev (i : fin n) | p_offset (i : fin n) | p_gen (i : fin n).
Arguments k_ptrs {n}. Arguments k_header_size {n}. Arguments k_csum {n}. Arguments k_pinned {n}.
Arguments k_dirty {n}. Arguments k_size {n}. Arguments k_inode {n}. Arguments k_offset {n}.
Arguments p_dev {n}. Arguments p_offset {n}. Arguments p_gen {n}.

#[export] Instance bkey_field_eq n : EqDecision (bkey_field n).
Proof. solve_decision. Defined.

Section bkey.
Context (k : Z) (n : nat).
Abbreviation idx i := (Z.of_nat (fin_to_nat i)).

Definition bkey_get (f : bkey_field n) : M words Z :=
  match f with
  | k_ptrs => KEY_PTRS k | k_header_size => HEADER_SIZE k | k_csum => KEY_CSUM k
  | k_pinned => KEY_PINNED k | k_dirty => KEY_DIRTY k | k_size => KEY_SIZE k
  | k_inode => KEY_INODE k | k_offset => KEY_OFFSET k
  | p_dev i => PTR_DEV k (idx i) | p_offset i => PTR_OFFSET k (idx i) | p_gen i => PTR_GEN k (idx i)
  end.
Definition bkey_set (f : bkey_field n) (v : Z) : M words unit :=
  match f with
  | k_ptrs => SET_KEY_PTRS k v | k_header_size => SET_HEADER_SIZE k v | k_csum => SET_KEY_CSUM k v
  | k_pinned => SET_KEY_PINNED k v | k_dirty => SET_KEY_DIRTY k v | k_size => SET_KEY_SIZE k v
  | k_inode => SET_KEY_INODE k v | k_offset => SET_KEY_OFFSET k v
  | p_dev i => SET_PTR_DEV k (idx i) v | p_offset i => SET_PTR_OFFSET k (idx i) v
  | p_gen i => SET_PTR_GEN k (idx i) v
  end.

(** Where the words of a key are, and the place of each field. *)
Definition bkey_at (f : bkey_field n) : Z :=
  match f with
  | k_offset => k + 8
  | p_dev i | p_offset i | p_gen i => k + 16 + 8 * idx i
  | _ => k
  end.
Definition bkey_place (f : bkey_field n) : Z * Z :=
  match f with
  | k_ptrs => (60, 3) | k_header_size => (58, 2) | k_csum => (56, 2) | k_pinned => (55, 1)
  | k_dirty => (36, 1) | k_size => (20, 16) | k_inode => (0, 20) | k_offset => (0, 64)
  | p_dev _ => (51, 12) | p_offset _ => (8, 43) | p_gen _ => (0, 8)
  end.

Definition bkey_layout : Layout words (bkey_field n) := {|
  ly_word := Z;
  ly_rd l m := default 0 (m !! l);
  ly_wr l x m := <[l := x]> m;
  ly_width _ := 64;
  ly_there m := ∀ f, is_Some (m !! bkey_at f);
  ly_at := bkey_at;
  ly_bit f := (bkey_place f).1;
  ly_len f := (bkey_place f).2;
  ly_scale _ := 0;
  ly_can _ _ := True |}.

#[local] Instance bkey_layout_laws : LayoutLaws bkey_layout.
Proof.
  split; cbn.
  - intros l x s _. by rewrite lookup_insert_eq.
  - intros l l' x s Hl. by rewrite lookup_insert_ne.
  - intros l x y s. by rewrite insert_insert_eq.
  - intros l l' x y s Hl. by rewrite insert_insert_ne.
  - intros l x s _ Hs f. destruct (decide (l = bkey_at f)) as [->|Hne].
    + rewrite lookup_insert_eq. eauto.
    + by rewrite lookup_insert_ne.
  - intros l l'. destruct (decide (l = l')); auto.
  - intros []; cbn; lia.
  - intros [] []; cbn; intros Hne E; try lia; try congruence;
      exfalso; apply Hne; f_equal; apply (inj fin_to_nat); lia.
  - intros f m Hm. destruct (Hm f) as [x Hx]. rewrite Hx. by apply insert_id.
  - done.
Qed.

Lemma load_there m f x :
  ly_there bkey_layout m → default 0 (m !! bkey_at f) = x →
  load64 (bkey_at f) m = Ret (x, m).
Proof.
  intros Hm <-. destruct (Hm f) as [y Hy]. unfold load64. rewrite (bind_eval _ _ _ _ _ eq_refl).
  unfold moption. by rewrite Hy.
Qed.

Lemma store_there m f v :
  ly_there bkey_layout m → store64 (bkey_at f) v m = Ret (tt, <[bkey_at f := u64 v]> m).
Proof.
  intros Hm. unfold store64. by rewrite (bind_eval _ _ _ _ _ (load_there m f _ Hm eq_refl)).
Qed.

(** Reading and writing through the macros. *)
Lemma get_field_ok f m :
  words_ok bkey_layout m → f ≠ k_offset →
  (x ← load64 (bkey_at f); mret (BITMASK (bkey_place f).1 (bkey_place f).2 x)) m
  = Ret (held bkey_layout f m, m).
Proof.
  intros [Hm _] Hf. rewrite (bind_eval _ _ _ _ _ (load_there m f _ Hm eq_refl)).
  unfold held. cbn. rewrite BITMASK_field by (by destruct f). by rewrite Z.mul_1_r.
Qed.

Lemma set_field_ok f v m :
  words_ok bkey_layout m → f ≠ k_offset →
  (x ← load64 (bkey_at f);
   store64 (bkey_at f) (SET_BITMASK (bkey_place f).1 (bkey_place f).2 x v)) m
  = Ret (tt, hold bkey_layout f v m).
Proof.
  intros [Hm Hw] Hf. rewrite (bind_eval _ _ _ _ _ (load_there m f _ Hm eq_refl)).
  rewrite store_there by done. unfold hold. cbn. specialize (Hw (bkey_at f)). cbn in Hw.
  rewrite SET_BITMASK_put, Z.div_1_r by (done || by destruct f).
  rewrite uwrap_small; [done|]. apply put_range; by destruct f.
Qed.

Definition bkey_fields : Fields := layout_fields bkey_layout bkey_get bkey_set.

#[export] Instance bkey_laws : FieldsLaws bkey_fields.
Proof.
  apply layout_laws; [exact _| |].
  - intros f m Hm. destruct (decide (f = k_offset)) as [->|Hf];
      [|rewrite <- get_field_ok by done; by destruct f].
    destruct Hm as [Hm Hw]. etransitivity; [exact (load_there m k_offset _ Hm eq_refl)|].
    unfold held. cbn. rewrite field_full; [by rewrite Z.mul_1_r|done|apply Hw].
  - intros f v m Hm _. destruct (decide (f = k_offset)) as [->|Hf];
      [|rewrite <- set_field_ok by done; by destruct f].
    destruct Hm as [Hm Hw]. etransitivity; [exact (store_there m k_offset v Hm)|].
    unfold hold. cbn. rewrite put_full, Z.div_1_r; [done|done|apply Hw].
Qed.
End bkey.

(** ** Flags *)

Lemma testbit_bit b n : 0 ≤ b < 64 → 0 ≤ n → Z.testbit (u64 (1 ≪ b)) n = (n =? b).
Proof.
  intros. rewrite testbit_wrap, testbit_shl by lia.
  destruct (Z.eqb_spec n b) as [->|Hne].
  - rewrite Z.sub_diag. by split_bits.
  - destruct (Z.ltb_spec n 64); [|done]. destruct (Z.leb_spec b n); [|done].
    cbn [andb]. rewrite (testbit_high 1); [done|done|lia].
Qed.

Section flag.
Context (b : Z) (Hb : 0 ≤ b < 32) (x : Z) (Hx : 0 ≤ x < 2 ^ 32).

Ltac by_flag_bits n :=
  apply Z.bits_inj'; intros n Hn;
  rewrite testbit_put, testbit_wrap by lia; rewrite ?Z.lor_spec, ?Z.land_spec, ?testbit_not by lia;
  rewrite testbit_bit by lia;
  destruct (Z.eqb_spec n b) as [->|Hne]; split_bits;
  rewrite ?Z.sub_diag, ?Z.bits_0, ?orb_true_r, ?(testbit_high 32 x) by lia; done.

Lemma set_bit_put : u32 (x .| u64 (1 ≪ b)) = put b 1 x 1.
Proof. by_flag_bits n. Qed.

Lemma clear_bit_put : u32 (x .& not_w 64 (u64 (1 ≪ b))) = put b 1 x 0.
Proof. by_flag_bits n. Qed.

Lemma test_bit_field : Z.b2z (negb (x .& u64 (1 ≪ b) =? 0)) = field b 1 x.
Proof.
  assert (field b 1 x = Z.b2z (Z.testbit x b)) as ->.
  { unfold field. rewrite <- Z.shiftr_div_pow2, Z.testbit_odd, Zmod_odd by lia.
    by destruct (Z.odd _). }
  f_equal. destruct (Z.testbit x b) eqn:E.
  - apply negb_true_iff, Z.eqb_neq. intros H0. apply (f_equal (λ y, Z.testbit y b)) in H0.
    rewrite Z.land_spec, testbit_bit, E, Z.bits_0, Z.eqb_refl in H0 by lia. done.
  - apply negb_false_iff, Z.eqb_eq. apply Z.bits_inj'. intros n Hn.
    rewrite Z.land_spec, testbit_bit, Z.bits_0 by lia.
    destruct (Z.eqb_spec n b) as [->|]; [by rewrite E|apply andb_false_r].
Qed.
End flag.

(** A word of 32 flags: the three functions of each flag. *)
Section flags.
Context {S K : Type} `{EqDecision K} (rd : S → Z) (wr : Z → S → S) (there : S → Prop) (bit : K → Z).
Context (set clear : K → S → S) (test : K → S → Z).

Definition flag_layout : Layout S K :=
  one_word rd wr 32 there (λ k, (bit k, 1)) (λ _, 0) (λ _ v, v = 0 ∨ v = 1).

(** Assigning 0 or 1 to a flag is clearing or setting it. *)
Definition flag_fields : Fields :=
  layout_fields flag_layout (λ k, mgets (test k))
    (λ k v, mmodify (if v =? 0 then clear k else set k)).

Context (rd_wr : ∀ x s, 0 ≤ x < 2 ^ 32 → rd (wr x s) = x).
Context (wr_wr : ∀ x y s, wr x (wr y s) = wr x s).
Context (wr_there : ∀ x s, 0 ≤ x < 2 ^ 32 → there s → there (wr x s)).
Context (wr_rd : ∀ s, there s → wr (rd s) s = s).
Context (bit_range : ∀ k, 0 ≤ bit k < 32) (bit_inj : ∀ k k', bit k = bit k' → k = k').
Context (set_ok : ∀ k s, there s → 0 ≤ rd s < 2 ^ 32 → set k s = wr (u32 (rd s .| u64 (1 ≪ bit k))) s).
Context (clear_ok : ∀ k s, there s → 0 ≤ rd s < 2 ^ 32 →
  clear k s = wr (u32 (rd s .& not_w 64 (u64 (1 ≪ bit k)))) s).
Context (test_ok : ∀ k s, test k s = Z.b2z (negb (rd s .& u64 (1 ≪ bit k) =? 0))).

Lemma flag_laws : FieldsLaws flag_fields.
Proof using Type*.
  apply layout_laws.
  - apply one_word_laws; auto; cbn.
    + intros k. pose proof (bit_range k). lia.
    + intros k k' Hk. assert (bit k ≠ bit k') by (intros E; by apply Hk, bit_inj). lia.
    + intros k v Hv. lia.
  - intros k s [_ Hw]. specialize (Hw tt). cbn in Hw. unfold mgets. rewrite test_ok, test_bit_field by auto.
    unfold held. cbn. by rewrite Z.mul_1_r.
  - intros k v s [Ht Hw] Hv. specialize (Hw tt). cbn in Hw, Ht.
    unfold mmodify, hold. cbn. rewrite Z.div_1_r.
    destruct Hv as [->| ->]; cbn; [rewrite clear_ok, clear_bit_put by auto|
      rewrite set_ok, set_bit_put by auto]; done.
Qed.
End flags.

(** ** NILFS *)

#[export] Instance checkpoint_flag_eq : EqDecision nilfs_checkpoint_flag.
Proof. solve_decision. Defined.
#[export] Instance segment_usage_flag_eq : EqDecision nilfs_segment_usage_flag.
Proof. solve_decision. Defined.
#[export] Instance suinfo_update_flag_eq : EqDecision nilfs_suinfo_update_flag.
Proof. solve_decision. Defined.

Section nilfs.
Context {C : Le32} {CL : Le32Laws C}.

Definition checkpoint_fields : Fields :=
  flag_fields (λ cp, le32_to_cpu (cp_flags cp)) (λ x, set_cp_flags (cpu_to_le32 x))
    (λ cp, 0 ≤ cp_flags cp < 2 ^ 32) checkpoint_bit
    nilfs_checkpoint_set nilfs_checkpoint_clear nilfs_checkpoint_test.
Definition segment_usage_fields : Fields :=
  flag_fields (λ su, le32_to_cpu (su_flags su)) (λ x, set_su_flags (cpu_to_le32 x))
    (λ su, 0 ≤ su_flags su < 2 ^ 32) segment_usage_bit
    nilfs_segment_usage_set nilfs_segment_usage_clear nilfs_segment_usage_test.
Definition suinfo_update_fields : Fields :=
  flag_fields sup_flags set_sup_flags (λ sup, 0 ≤ sup_flags sup < 2 ^ 32) suinfo_update_bit
    nilfs_suinfo_update_set nilfs_suinfo_update_clear nilfs_suinfo_update_test.

#[export] Instance checkpoint_laws : FieldsLaws checkpoint_fields.
Proof.
  apply flag_laws; try done.
  - intros x s Hx. by apply le32_to_le32.
  - intros x s Hx _. by apply to_le32_range.
  - intros [] Hs. cbn. unfold set_cp_flags. cbn. by rewrite to_le32_le32.
  - by intros [].
  - by intros [] [].
Qed.

#[export] Instance segment_usage_laws : FieldsLaws segment_usage_fields.
Proof.
  apply flag_laws; try done.
  - intros x s Hx. by apply le32_to_le32.
  - intros x s Hx _. by apply to_le32_range.
  - intros [] Hs. cbn. unfold set_su_flags. cbn. by rewrite to_le32_le32.
  - by intros [].
  - by intros [] [].
Qed.

#[export] Instance suinfo_update_laws : FieldsLaws suinfo_update_fields.
Proof. apply flag_laws; try done; [by intros []|by intros []|by intros [] []]. Qed.

(** A clean segment is one without flags. *)
Lemma segment_clean su :
  0 ≤ su_flags su < 2 ^ 32 →
  nilfs_segment_usage_clean (nilfs_segment_usage_set_clean su) = true ∧
  (nilfs_segment_usage_clean su = true → ∀ f, nilfs_segment_usage_test f su = 0).
Proof.
  intros Hr. split.
  - unfold nilfs_segment_usage_clean. cbn. by rewrite le32_to_le32.
  - unfold nilfs_segment_usage_clean, nilfs_segment_usage_test, test_flag.
    intros ->%Z.eqb_eq f. by rewrite Z.land_0_l.
Qed.
End nilfs.

(** ** The words of one structure *)

Inductive cache_field : Type := c_sync | c_discard | c_replacement.
Inductive backing_field : Type := b_cache_mode | b_state.
Inductive phonet_field : Type := pn_a | pn_p | pn_r.
Inductive tcmu_field : Type := t_op | t_len.
#[export] Instance cache_field_eq : EqDecision cache_field.
Proof. solve_decision. Defined.
#[export] Instance backing_field_eq : EqDecision backing_field.
Proof. solve_decision. Defined.
#[export] Instance phonet_field_eq : EqDecision phonet_field.
Proof. solve_decision. Defined.
#[export] Instance tcmu_field_eq : EqDecision tcmu_field.
Proof. solve_decision. Defined.

Definition cache_fields : Fields :=
  layout_fields
    (one_word sb_flags set_sb_flags 64 (λ _, True)
       (λ f, match f with c_sync => (0, 1) | c_discard => (1, 1) | c_replacement => (2, 3) end)
       (λ _, 0) (λ _ _, True))
    (λ f, mgets (match f with c_sync => CACHE_SYNC | c_discard => CACHE_DISCARD
                 | c_replacement => CACHE_REPLACEMENT end))
    (λ f v, mmodify (λ sb, match f with c_sync => SET_CACHE_SYNC | c_discard => SET_CACHE_DISCARD
                           | c_replacement => SET_CACHE_REPLACEMENT end sb v)).

Definition backing_fields : Fields :=
  layout_fields
    (one_word sb_flags set_sb_flags 64 (λ _, True)
       (λ f, match f with b_cache_mode => (0, 4) | b_state => (61, 2) end) (λ _, 0) (λ _ _, True))
    (λ f, mgets (match f with b_cache_mode => BDEV_CACHE_MODE | b_state => BDEV_STATE end))
    (λ f v, mmodify (λ sb, match f with b_cache_mode => SET_BDEV_CACHE_MODE
                           | b_state => SET_BDEV_STATE end sb v)).

Definition uuid_fields : Fields :=
  layout_fields
    (one_word ue_flags set_ue_flags 32 (λ _, True) (λ _ : unit, (0, 1)) (λ _, 0) (λ _ _, True))
    (λ _, mgets UUID_FLASH_ONLY) (λ _ v, mmodify (λ u, SET_UUID_FLASH_ONLY u v)).

Lemma sb_field_ok offset size v sb :
  0 ≤ offset → 0 ≤ size → offset + size ≤ 64 → 0 ≤ sb_flags sb < 2 ^ 64 →
  SB_FIELD offset size sb = field offset size (sb_flags sb) ∧
  SET_SB_FIELD offset size sb v = set_sb_flags (put offset size (sb_flags sb) v) sb.
Proof.
  intros. unfold SB_FIELD, SET_SB_FIELD. by rewrite BITMASK_field, SET_BITMASK_put by done.
Qed.

(** The two goals that are left of a structure with one word. *)
Ltac one_word_tac :=
  apply layout_laws;
  [ apply one_word_laws; cbn; [done|done|auto|intros []; cbn; lia|intros [] []; cbn; lia || done|by intros []|done]
  | intros f s [_ Hw]; specialize (Hw tt); cbn in Hw; unfold held, mgets; cbn; rewrite Z.mul_1_r
  | intros f v s [_ Hw] _; specialize (Hw tt); cbn in Hw; unfold hold, mmodify; cbn; rewrite Z.div_1_r ].

#[export] Instance cache_laws : FieldsLaws cache_fields.
Proof. one_word_tac; destruct f; do 2 f_equal; by apply (sb_field_ok _ _ 0) || by apply sb_field_ok. Qed.

#[export] Instance backing_laws : FieldsLaws backing_fields.
Proof. one_word_tac; destruct f; do 2 f_equal; by apply (sb_field_ok _ _ 0) || by apply sb_field_ok. Qed.

#[export] Instance uuid_laws : FieldsLaws uuid_fields.
Proof.
  one_word_tac; do 2 f_equal.
  - unfold UUID_FLASH_ONLY. by rewrite BITMASK_field.
  - unfold SET_UUID_FLASH_ONLY. rewrite SET_BITMASK_put by lia.
    rewrite uwrap_small; [done|by apply put_range].
Qed.

(** ** Phonet *)

(** The three bytes of an address, the object lowest. *)
Definition pn_rd (spn : sockaddr_pn) : Z :=
  (spn_resource spn ≪ 16) .| (spn_dev spn ≪ 8) .| spn_obj spn.
Definition pn_wr (x : Z) (spn : sockaddr_pn) : sockaddr_pn :=
  mk_sockaddr_pn (spn_family spn) (field 0 8 x) (field 8 8 x) (field 16 8 x) (spn_zero spn).

Definition pn_bytes (spn : sockaddr_pn) : Prop :=
  0 ≤ spn_obj spn < 2 ^ 8 ∧ 0 ≤ spn_dev spn < 2 ^ 8 ∧ 0 ≤ spn_resource spn < 2 ^ 8.

(** An address is kept in its upper six bits, so its value is a multiple of four. *)
Definition phonet_fields : Fields :=
  layout_fields
    (one_word pn_rd pn_wr 24 pn_bytes
       (λ f, match f with pn_a => (10, 6) | pn_p => (0, 10) | pn_r => (16, 8) end)
       (λ f, match f with pn_a => 2 | _ => 0 end) (λ _ _, True))
    (λ f, mgets (match f with pn_a => pn_sockaddr_get_addr | pn_p => pn_sockaddr_get_port
                 | pn_r => pn_sockaddr_get_resource end))
    (λ f v, mmodify (λ spn, match f with pn_a => pn_sockaddr_set_addr | pn_p => pn_sockaddr_set_port
                            | pn_r => pn_sockaddr_set_resource end spn v)).

Ltac pn_masks :=
  change 0x03 with (Z.ones 2); change 0xff with (Z.ones 8); change 0x3ff with (Z.ones 10);
  change 0xfc with (Z.ones 6 ≪ 2); rewrite <- ?Z.shiftr_div_pow2, <- ?Z.shiftl_mul_pow2 by lia.

(** Equality of bytes bit by bit; the bytes of [spn] have no bits from the eighth on. *)
Ltac by_pn_bits n :=
  by_bits n;
  repeat match goal with |- context [Z.testbit ?x ?m] => rewrite (testbit_high 8 x m) by lia end;
  rewrite ?orb_false_r; solve [done | f_equal; lia].

#[export] Instance phonet_laws : FieldsLaws phonet_fields.
Proof.
  apply layout_laws.
  - apply one_word_laws; cbn.
    + intros x s Hx. unfold pn_rd. cbn. by_bits n. by rewrite (testbit_high 24) by lia.
    + done.
    + intros x s Hx _. repeat split; cbn; by apply field_range.
    + intros []; cbn; lia.
    + intros [] []; cbn; lia || done.
    + intros s (Ho & Hd & Hr). unfold pn_wr, pn_rd. destruct s; cbn in *.
      f_equal; by_bits n;
        repeat match goal with |- context [Z.testbit ?x ?m] => rewrite (testbit_high 8 x m) by lia end;
        rewrite ?orb_false_r; solve [done | f_equal; lia].
    + done.
  - intros f s [(Ho & Hd & Hr) _]. unfold mgets, held. do 2 f_equal.
    destruct f; cbn; unfold pn_rd, pn_sockaddr_get_addr, pn_sockaddr_get_port,
      pn_sockaddr_get_resource; pn_masks; by_pn_bits n.
  - intros f v s [(Ho & Hd & Hr) _] _. unfold mmodify, hold. do 2 f_equal.
    destruct f; cbn; unfold pn_wr, pn_rd, pn_sockaddr_set_addr, pn_sockaddr_set_port,
      pn_sockaddr_set_resource, set_spn_dev, set_spn_obj, set_spn_resource; cbn; pn_masks;
      destruct s; cbn in *; f_equal; by_pn_bits n.
Qed.

(** ** Ring entries and link speeds *)

(** A length is a multiple of eight; [tcmu_hdr_set_len] does not enforce it. *)
Definition tcmu_fields : Fields :=
  layout_fields
    (one_word len_op set_len_op 32 (λ _, True)
       (λ f, match f with t_op => (0, 3) | t_len => (3, 29) end)
       (λ f, match f with t_op => 0 | t_len => 3 end)
       (λ f v, match f with t_op => True | t_len => v mod 2 ^ 3 = 0 end))
    (λ f, mgets (λ h, match f with t_op => tcmu_hdr_get_op | t_len => tcmu_hdr_get_len end (len_op h)))
    (λ f v, mmodify (λ h, set_len_op (match f with t_op => tcmu_hdr_set_op | t_len => tcmu_hdr_set_len
                                      end (len_op h) v) h)).

(** Bits that a multiple of [2 ^ k] does not have. *)
Lemma testbit_low k x n : x mod 2 ^ k = 0 → 0 ≤ n < k → Z.testbit x n = false.
Proof.
  intros Hx Hn. rewrite <- (Z.mod_pow2_bits_low x k n) by lia. rewrite Hx. apply Z.bits_0.
Qed.

#[export] Instance tcmu_laws : FieldsLaws tcmu_fields.
Proof.
  apply layout_laws.
  - apply one_word_laws; cbn; [done|done|auto|intros []; cbn; lia|intros [] []; cbn; lia || done|by intros []|].
    intros [] v _; [done|]. apply Z.mod_mul. done.
  - intros f s [_ Hw]. specialize (Hw tt). cbn in Hw. unfold mgets, held. do 2 f_equal.
    destruct f; cbn; unfold tcmu_hdr_get_op, tcmu_hdr_get_len, TCMU_OP_MASK;
      change 0x7 with (Z.ones 3); rewrite <- ?Z.shiftl_mul_pow2 by lia; by_bits n.
  - intros f v s [_ Hw] Hv. specialize (Hw tt). cbn in Hw, Hv. unfold mmodify, hold. do 3 f_equal.
    destruct f; cbn; unfold tcmu_hdr_set_op, tcmu_hdr_set_len, TCMU_OP_MASK;
      change 0x7 with (Z.ones 3); rewrite <- ?Z.shiftr_div_pow2 by lia;
      by_bits n;
      rewrite ?(testbit_high 32 (len_op s)), ?(testbit_low 3 v), ?orb_false_r by (done || lia);
      try done; f_equal; lia.
Qed.

Definition ep_rd (ep : ethtool_cmd) : Z := (ep_speed_hi ep ≪ 16) .| ep_speed ep.
Definition ep_wr (x : Z) (ep : ethtool_cmd) : ethtool_cmd :=
  set_speeds (field 0 16 x) (field 16 16 x) ep.

(** Speeds of 31 bits: of a faster one the two halves are stored, but the shift that reads
    them overflows. *)
Definition speed_fields : Fields :=
  layout_fields
    (one_word ep_rd ep_wr 31 (λ ep, 0 ≤ ep_speed ep < 2 ^ 16 ∧ 0 ≤ ep_speed_hi ep < 2 ^ 15)
       (λ _ : unit, (0, 31)) (λ _, 0) (λ _ v, 0 ≤ v < 2 ^ 31))
    (λ _, ethtool_cmd_speed) (λ _ v, mmodify (λ ep, ethtool_cmd_speed_set ep v)).

(** The halves of a speed have no bits above their width. *)
Ltac high_bits :=
  repeat match goal with |- context [Z.testbit ?x ?m] =>
    first [ rewrite (testbit_high 15 x m) by lia | rewrite (testbit_high 16 x m) by lia
          | rewrite (testbit_high 31 x m) by lia ] end;
  rewrite ?orb_false_r; done || (f_equal; lia).

#[export] Instance speed_laws : FieldsLaws speed_fields.
Proof.
  apply layout_laws.
  - apply one_word_laws; cbn.
    + intros x s Hx. unfold ep_rd. cbn. by_bits n. by rewrite (testbit_high 31) by lia.
    + done.
    + intros x s Hx _. split; cbn; [by apply field_range|].
      unfold field. split; [by apply Z.mod_pos_bound|].
      eapply Z.le_lt_trans; [apply Z.mod_le; [apply Z.div_pos; lia|lia]|].
      apply Z.div_lt_upper_bound; lia.
    + lia.
    + by intros [] [].
    + intros s [Hl Hh]. unfold ep_wr, ep_rd, set_speeds. destruct s; cbn in *.
      f_equal; by_bits n; high_bits.
    + intros _ v Hv. lia.
  - intros f s [[Hl Hh] _]. cbn in Hl, Hh. unfold ethtool_cmd_speed.
    rewrite (bind_eval _ _ _ _ _ eq_refl), (proj2 (Z.ltb_lt _ _)) by lia.
    unfold held, mret, M_ret. do 2 f_equal. cbn. rewrite Z.mul_1_r. unfold ep_rd. by_bits n; high_bits.
  - intros f v s [[Hl Hh] _] Hv. cbn in Hl, Hh, Hv. unfold mmodify, hold. do 2 f_equal. cbn.
    rewrite Z.div_1_r. unfold ep_wr, ethtool_cmd_speed_set, set_speeds. cbn.
    change 0xFFFF with (Z.ones 16). f_equal; by_bits n. rewrite (testbit_high 31 v) by lia.
    unfold ep_rd. rewrite_bits. split_bits; high_bits.
Qed.

(** [SPEED_UNKNOWN], -1, cannot be read back. *)
Lemma ethtool_unknown_speed_undefined ep :
  ethtool_cmd_speed (ethtool_cmd_speed_set ep (2 ^ 32 - 1)) = UB IntOverflow.
Proof. done. Qed.

(** ** All of them *)

Section all.
Context {C : Le32} {CL : Le32Laws C}.

(** The structures, a key of bcache for each address and number of pointers. *)
Inductive structure : Type :=
  | Bkey (k : Z) (n : nat) | CacheSb | BackingSb | UuidEntry | Phonet | Checkpoint | SegmentUsage
  | SuinfoUpdate | TcmuHeader | LinkSpeed.
Definition fields_of (s : structure) : Fields :=
  match s with
  | Bkey k n => bkey_fields k n | CacheSb => cache_fields | BackingSb => backing_fields
  | UuidEntry => uuid_fields | Phonet => phonet_fields | Checkpoint => checkpoint_fields
  | SegmentUsage => segment_usage_fields | SuinfoUpdate => suinfo_update_fields
  | TcmuHeader => tcmu_fields | LinkSpeed => speed_fields
  end.

#[export] Instance fields_of_laws s : FieldsLaws (fields_of s).
Proof. destruct s; exact _. Qed.

(** C27: whatever sequence of writes is made through the functions of a header (to a message
    length that is a multiple of 8, to a link speed below 2^31), each field reads as the last
    value written to it, as far as the field has bits, and the others as before; the structure
    depends on the last writes only; and writing back what the written fields held before
    gives back the structure, bit for bit, so nothing in it outside those fields has changed. *)
Theorem fields_hold_last_write (s : structure) ws (st : fs_state (fields_of s)) :
  fs_good (fields_of s) st → Forall (λ w, fs_can (fields_of s) w.1 w.2) ws →
  ∃ st', assign (fields_of s) ws st = Ret (tt, st') ∧
    (∀ k, fs_get (fields_of s) k st' =
          Ret (match last_write (fields_of s) k ws with
               | Some v => fs_keeps (fields_of s) k v
               | None => fs_val (fields_of s) k st
               end, st')) ∧
    (∀ ws', Forall (λ w, fs_can (fields_of s) w.1 w.2) ws' →
       (∀ k, last_write (fields_of s) k ws' = last_write (fields_of s) k ws) →
       assign (fields_of s) ws' st = Ret (tt, st')) ∧
    (∀ ws', writes_back (fields_of s) st ws ws' → assign (fields_of s) ws' st' = Ret (tt, st)).
Proof. apply fields_hold_ok; exact _. Qed.
End all.

(** ** Keys as values, copies and the next key *)

(** The words [l] from address [p] on. *)
Fixpoint words_at (m : words) (p : Z) (l : list Z) : Prop :=
  match l with
  | [] => True
  | x :: l => m !! p = Some x ∧ 0 ≤ x < 2 ^ 64 ∧ words_at m (p + 8) l
  end.
(** Memory with the words [l] at [p]. *)
Fixpoint put_words (p : Z) (l : list Z) (m : words) : words :=
  match l with [] => m | x :: l => put_words (p + 8) l (<[p := x]> m) end.
Definition words_there (m : words) (p : Z) (n : nat) : Prop :=
  ∀ i, 0 ≤ i < Z.of_nat n → is_Some (m !! (p + 8 * i)).

Lemma load_words_ok m p l : words_at m p l → load_words (length l) p m = Ret (l, m).
Proof.
  revert p. induction l as [|x l IH]; intros p; [done|]. intros (Hx & _ & Hl).
  cbn [load_words length]. unfold load64 at 1.
  rewrite (bind_eval _ _ _ x m); [|unfold mbind, M_bind, mget, moption; by rewrite Hx].
  by rewrite (bind_eval _ _ _ _ _ (IH _ Hl)).
Qed.

Lemma store_words_ok m p l :
  Forall (λ x, 0 ≤ x < 2 ^ 64) l → words_there m p (length l) →
  store_words p l m = Ret (tt, put_words p l m).
Proof.
  intros H. revert m p. induction H as [|x l Hx _ IH]; intros m p Hp; [done|].
  cbn [store_words put_words]. destruct (Hp 0) as [y Hy]; [cbn; lia|]. rewrite Z.add_0_r in Hy.
  rewrite (bind_eval _ _ _ tt (<[p := x]> m)).
  - apply IH. intros i Hi. rewrite lookup_insert_is_Some'. right.
    replace (p + 8 + 8 * i) with (p + 8 * (i + 1)) by lia. apply Hp. cbn. lia.
  - unfold store64, load64, mbind, M_bind, mget, moption. rewrite Hy. unfold mmodify.
    by rewrite uwrap_small.
Qed.

Lemma put_words_other p l m q :
  (∀ i, 0 ≤ i < Z.of_nat (length l) → q ≠ p + 8 * i) → put_words p l m !! q = m !! q.
Proof.
  revert p m. induction l as [|x l IH]; intros p m Hq; [done|]. cbn [put_words]. rewrite IH.
  - rewrite lookup_insert_ne; [done|]. intros ->. apply (Hq 0); [cbn; lia|lia].
  - intros i Hi. specialize (Hq (i + 1)). cbn in Hq. lia.
Qed.

Lemma put_words_at p l m :
  Forall (λ x, 0 ≤ x < 2 ^ 64) l → words_at (put_words p l m) p l.
Proof.
  intros H. revert p m. induction H as [|x l Hx _ IH]; intros p m; [done|].
  cbn [put_words words_at]. split; [|split; [done|apply IH]].
  rewrite put_words_other by (intros; lia). by rewrite lookup_insert_eq.
Qed.

Lemma words_at_range m p l : words_at m p l → Forall (λ x, 0 ≤ x < 2 ^ 64) l.
Proof. revert p. induction l as [|x l IH]; intros p; [constructor|]. intros (_ & Hx & Hl). eauto. Qed.

(** A word of memory as a field of the key at [k]. *)
Lemma key_field_word m k x o w :
  m !! k = Some x → 0 ≤ o → 0 ≤ w → o + w ≤ 64 → KEY_FIELD o w k m = Ret (field o w x, m).
Proof.
  intros Hx Ho Hw H64. unfold KEY_FIELD, load64, mbind, M_bind, mget, moption, bkey_high.
  rewrite Hx. unfold mret, M_ret. by rewrite BITMASK_field.
Qed.

(** [KEY] is a sum of its parts if they fit. *)
Lemma KEY_high inode offset size :
  0 ≤ inode < 2 ^ 20 → 0 ≤ size < 2 ^ 16 →
  (KEY inode offset size).1 = 2 ^ 63 + size * 2 ^ 20 + inode.
Proof.
  intros Hi Hs. unfold KEY. cbn [fst]. rewrite (uwrap_small 64 size), (uwrap_small 64 inode) by lia.
  rewrite (Z.shiftl_mul_pow2 size) by done. rewrite (uwrap_small 64 (size * 2 ^ 20)) by lia.
  change (u64 (1 ≪ 63)) with (1 * 2 ^ 63). rewrite (lor_add 1) by lia.
  replace (1 * 2 ^ 63 + size * 2 ^ 20) with ((2 ^ 43 + size) * 2 ^ 20) by lia.
  rewrite lor_add by lia. lia.
Qed.

Lemma KEY_reads m k inode offset size :
  0 ≤ inode < 2 ^ 20 → 0 ≤ size < 2 ^ 16 → 0 ≤ offset < 2 ^ 64 →
  words_at m k [(KEY inode offset size).1; (KEY inode offset size).2] →
  KEY_INODE k m = Ret (inode, m) ∧ KEY_SIZE k m = Ret (size, m) ∧
  KEY_OFFSET k m = Ret (offset, m) ∧ KEY_PTRS k m = Ret (0, m) ∧ KEY_DIRTY k m = Ret (0, m) ∧
  START_KEY k m = Ret (KEY inode (u64 (offset - size)) 0, m).
Proof.
  intros Hi Hs Ho (Hh & _ & Hl & _). rewrite KEY_high in Hh by done.
  set (x := 2 ^ 63 + size * 2 ^ 20 + inode) in *.
  assert (KEY_INODE k m = Ret (inode, m)) as EI.
  { unfold KEY_INODE. rewrite (key_field_word m k x) by done. do 2 f_equal.
    unfold field, x. rewrite Z.div_1_r.
    replace (2 ^ 63 + size * 2 ^ 20 + inode) with (inode + (2 ^ 43 + size) * 2 ^ 20) by lia.
    rewrite Z_mod_plus_full. by apply Z.mod_small. }
  assert (x / 2 ^ 20 = size + 2 ^ 27 * 2 ^ 16) as E20.
  { unfold x. symmetry. apply (Z.div_unique _ _ _ inode); lia. }
  assert (KEY_SIZE k m = Ret (size, m)) as ES.
  { unfold KEY_SIZE. rewrite (key_field_word m k x) by done. do 2 f_equal.
    unfold field, KEY_SIZE_BITS. rewrite E20, Z_mod_plus_full. by apply Z.mod_small. }
  assert (KEY_OFFSET k m = Ret (offset, m)) as EO.
  { unfold KEY_OFFSET, load64, mbind, M_bind, mget, moption, bkey_low. rewrite Hl.
    do 2 f_equal. by apply uwrap_small. }
  assert (∀ o w, 36 ≤ o → 0 ≤ w → o + w ≤ 63 → KEY_FIELD o w k m = Ret (0, m)) as E0.
  { intros o w H1 H2 H3. rewrite (key_field_word m k x) by (done || lia). do 2 f_equal.
    unfold field. replace (x / 2 ^ o) with (2 ^ (63 - o)).
    - replace (63 - o) with (63 - o - w + w) by lia. rewrite Z.pow_add_r by lia.
      apply Z.mod_mul. apply Z.pow_nonzero; lia.
    - apply (Z.div_unique _ _ _ (size * 2 ^ 20 + inode)).
      + left. pose proof (Z.pow_le_mono_r 2 36 o). lia.
      + rewrite Z.mul_comm, <- Z.pow_add_r by lia. replace (63 - o + o) with 63 by lia. unfold x. lia. }
  repeat split; try done; [by apply E0|by apply E0|].
  unfold START_KEY, KEY_START. rewrite (bind_eval _ _ _ _ _ EI).
  rewrite (bind_eval _ _ _ (u64 (offset - size)) m); [done|].
  by rewrite (bind_eval _ _ _ _ _ EO), (bind_eval _ _ _ _ _ ES).
Qed.

(** [bkey_copy] copies a key with its pointers, whatever [dest] held, and nothing
    else; the next key starts behind its last pointer; a key made by [KEY] from parts that fit
    reads as them, without pointers and not dirty, and starts its size before its offset. *)
Theorem bkeys_copied_and_made (m : words) (dest src k inode offset size : Z) (l : list Z) :
  words_at m src l → Z.of_nat (length l) = 2 + field 60 3 (nth 0 l 0) →
  words_there m dest (length l) →
  0 ≤ inode < 2 ^ 20 → 0 ≤ size < 2 ^ 16 → 0 ≤ offset < 2 ^ 64 →
  words_at m k [(KEY inode offset size).1; (KEY inode offset size).2] →
  (∃ m', bkey_copy dest src m = Ret (tt, m') ∧ words_at m' dest l ∧
     ∀ q, (∀ i, 0 ≤ i < Z.of_nat (length l) → q ≠ dest + 8 * i) → m' !! q = m !! q) ∧
  bkey_next src m = Ret (src + 8 * Z.of_nat (length l), m) ∧
  KEY_INODE k m = Ret (inode, m) ∧ KEY_SIZE k m = Ret (size, m) ∧
  KEY_OFFSET k m = Ret (offset, m) ∧ KEY_PTRS k m = Ret (0, m) ∧ KEY_DIRTY k m = Ret (0, m) ∧
  START_KEY k m = Ret (KEY inode (u64 (offset - size)) 0, m).
Proof.
  intros Hl Hlen Hd Hi Hs Ho Hk. pose proof (field_range 60 3 (nth 0 l 0) ltac:(lia)).
  destruct l as [|x l]; [cbn [length] in Hlen; lia|].
  assert (KEY_PTRS src m = Ret (field 60 3 x, m)) as EP.
  { unfold KEY_PTRS. by rewrite (key_field_word m src x) by (done || apply Hl). }
  assert (bkey_u64s src m = Ret (Z.of_nat (length (x :: l)), m)) as EU.
  { unfold bkey_u64s. rewrite (bind_eval _ _ _ _ _ EP), Hlen. done. }
  split; [|split; [|by apply KEY_reads]].
  - exists (put_words dest (x :: l) m). pose proof (words_at_range _ _ _ Hl) as Hr.
    split; [|split; [by apply put_words_at|by apply put_words_other]].
    unfold bkey_copy, bkey_bytes.
    rewrite (bind_eval _ _ _ (Z.of_nat (length (x :: l)) * 8) m); [|by rewrite (bind_eval _ _ _ _ _ EU)].
    rewrite Z.div_mul, Nat2Z.id by done. rewrite (bind_eval _ _ _ _ _ (load_words_ok _ _ _ Hl)).
    by apply store_words_ok.
  - unfold bkey_next. by rewrite (bind_eval _ _ _ _ _ EU).
Qed.

(** The address and the port of a Phonet object at once. *)
Lemma pn_object_round_trip spn handle :
  0 ≤ handle < 2 ^ 16 →
  pn_sockaddr_get_object (pn_sockaddr_set_object spn handle) = handle ∧
  pn_sockaddr_get_addr (pn_sockaddr_set_object spn handle) = pn_addr handle ∧
  pn_sockaddr_get_port (pn_sockaddr_set_object spn handle) = pn_port handle.
Proof.
  intros H. unfold pn_sockaddr_get_object, pn_sockaddr_get_addr, pn_sockaddr_get_port,
    pn_sockaddr_set_object, pn_object, set_spn_dev, set_spn_obj, pn_addr, pn_port, pn_dev, pn_obj.
  cbn. pn_masks. split; [|split]; by_bits n; rewrite ?(testbit_high 16 handle) by lia;
    rewrite ?orb_false_r; try done; f_equal; lia.
Qed.

(** ** Concrete structures *)

(** A little-endian host. *)
Definition le_host : Le32 := {| cpu_to_le32 x := x; le32_to_cpu x := x; cpu_to_le64 x := x |}.
#[export] Instance le_host_laws : Le32Laws le_host.
Proof. by split. Qed.

Lemma fields_hold_last_write_witness :
  let spn := mk_sockaddr_pn 35 1 2 3 [] in
  ∃ st', assign (fields_of (C := le_host) Phonet) [(pn_p, 0x123); (pn_a, 0x6e); (pn_p, 0x2ff)] spn
           = Ret (tt, st') ∧
    pn_sockaddr_get_addr st' = 0x6c ∧ pn_sockaddr_get_port st' = 0x2ff ∧ spn_resource st' = 3 ∧
    assign (fields_of (C := le_host) Phonet) [(pn_a, 0); (pn_p, 0x201)] st' = Ret (tt, spn).
Proof.
  destruct (fields_hold_last_write (C := le_host) Phonet
              [(pn_p, 0x123); (pn_a, 0x6e); (pn_p, 0x2ff)] (mk_sockaddr_pn 35 1 2 3 []))
    as (st' & E & _ & _ & Hb).
  - split; [by repeat split|]. intros []. by vm_compute.
  - repeat constructor.
  - exists st'. split; [exact E|].
    assert (assign (fields_of (C := le_host) Phonet) [(pn_a, 0); (pn_p, 0x201)] st' =
            Ret (tt, mk_sockaddr_pn 35 1 2 3 [])) as Hu.
    { apply Hb. split; [by repeat constructor|]. cbn. intros k. rewrite !list.elem_of_cons. tauto. }
    injection E as <-. split; [by vm_compute|]. split; [by vm_compute|]. split; [done|exact Hu].
Defined.

(** A key with one pointer at 0, room for a copy at 32, and a key made of parts at 64. *)
Definition bkey_memory : words :=
  list_to_map ([(0, 2 ^ 60); (8, 100); (16, 7); (32, 0); (40, 0); (48, 0)] ++
               [(64, (KEY 5 800 16).1); (72, (KEY 5 800 16).2)]).

Lemma bkeys_copied_and_made_witness :
  (∃ m', bkey_copy 32 0 bkey_memory = Ret (tt, m') ∧ words_at m' 32 [2 ^ 60; 100; 7]) ∧
  KEY_INODE 64 bkey_memory = Ret (5, bkey_memory) ∧
  START_KEY 64 bkey_memory = Ret (KEY 5 784 0, bkey_memory).
Proof.
  destruct (bkeys_copied_and_made bkey_memory 32 0 64 5 800 16 [2 ^ 60; 100; 7])
    as ((m' & E & H & _) & _ & H1 & _ & _ & _ & _ & H2).
  - by vm_compute.
  - done.
  - intros i Hi. cbn in Hi. assert (i = 0 ∨ i = 1 ∨ i = 2) as [->|[->| ->]] by lia;
      by vm_compute; eexists.
  - lia.
  - lia.
  - lia.
  - by vm_compute.
  - split; [by exists m'|]. by split.
Defined.
