(* ===== verification/Codes.v ===== *)
(** * Values packed into one number

    Numbers of the headers that are made of several parts: device numbers
    ([bits/sysmacros.h], [linux/kdev_t.h]), requests of [ioctl] ([asm-generic/ioctl.h]),
    relocations and symbols ([elf.h]), PCI functions, socket options of ATM, queueing
    handles, versions, statuses of processes ([bits/waitstatus.h]) and others.  A function
    has the widths of its C types; a macro is untyped and is taken to be used with a type
    that holds its result.  A code and its parts correspond one to one. *)

From Stdlib Require Import ZArith Lia.
From stdpp Require Import base list numbers.
From S2P Require Import Prelude Bits Fields BitFields.

#[local] Open Scope c_scope.
#[local] Open Scope Z_scope.

(** ** Device numbers *)

Definition gnu_dev_major (__dev : Z) : Z :=
  let __major := u32 ((u64 __dev .& 0x00000000000fff00) ≫ 8) in
  u32 (__major .| ((u64 __dev .& 0xfffff00000000000) ≫ 32)).
Definition gnu_dev_minor (__dev : Z) : Z :=
  let __minor := u32 ((u64 __dev .& 0x00000000000000ff) ≫ 0) in
  u32 (__minor .| ((u64 __dev .& 0x00000ffffff00000) ≫ 12)).
Definition gnu_dev_makedev (__major __minor : Z) : Z :=
  let __dev := u64 (u64 (u32 __major .& 0x00000fff) ≪ 8) in
  let __dev := __dev .| u64 (u64 (u32 __major .& 0xfffff000) ≪ 32) in
  let __dev := __dev .| u64 (u64 (u32 __minor .& 0x000000ff) ≪ 0) in
  __dev .| u64 (u64 (u32 __minor .& 0xffffff00) ≪ 12).

Definition MAJOR (dev : Z) : Z := dev ≫ 8.
Definition MINOR (dev : Z) : Z := dev .& 0xff.
Definition MKDEV (ma mi : Z) : Z := (ma ≪ 8) .| mi.

(** ** Requests of [ioctl] *)

Definition _IOC_NRBITS : Z := 8.
Definition _IOC_TYPEBITS : Z := 8.
Definition _IOC_SIZEBITS : Z := 14.
Definition _IOC_DIRBITS : Z := 2.
Definition _IOC_NRMASK : Z := (1 ≪ _IOC_NRBITS) - 1.
Definition _IOC_TYPEMASK : Z := (1 ≪ _IOC_TYPEBITS) - 1.
Definition _IOC_SIZEMASK : Z := (1 ≪ _IOC_SIZEBITS) - 1.
Definition _IOC_DIRMASK : Z := (1 ≪ _IOC_DIRBITS) - 1.
Definition _IOC_NRSHIFT : Z := 0.
Definition _IOC_TYPESHIFT : Z := _IOC_NRSHIFT + _IOC_NRBITS.
Definition _IOC_SIZESHIFT : Z := _IOC_TYPESHIFT + _IOC_TYPEBITS.
Definition _IOC_DIRSHIFT : Z := _IOC_SIZESHIFT + _IOC_SIZEBITS.
Definition _IOC_NONE : Z := 0.
Definition _IOC_WRITE : Z := 1.
Definition _IOC_READ : Z := 2.

Definition _IOC (dir type nr size : Z) : Z :=
  (dir ≪ _IOC_DIRSHIFT) .| (type ≪ _IOC_TYPESHIFT) .| (nr ≪ _IOC_NRSHIFT) .| (size ≪ _IOC_SIZESHIFT).
(** [size] is the size of the type that the macro is given. *)
Definition _IO (type nr : Z) : Z := _IOC _IOC_NONE type nr 0.
Definition _IOR (type nr size : Z) : Z := _IOC _IOC_READ type nr size.
Definition _IOW (type nr size : Z) : Z := _IOC _IOC_WRITE type nr size.
Definition _IOWR (type nr size : Z) : Z := _IOC (_IOC_READ .| _IOC_WRITE) type nr size.
Definition _IOC_DIR (nr : Z) : Z := (nr ≫ _IOC_DIRSHIFT) .& _IOC_DIRMASK.
Definition _IOC_TYPE (nr : Z) : Z := (nr ≫ _IOC_TYPESHIFT) .& _IOC_TYPEMASK.
Definition _IOC_NR (nr : Z) : Z := (nr ≫ _IOC_NRSHIFT) .& _IOC_NRMASK.
Definition _IOC_SIZE (nr : Z) : Z := (nr ≫ _IOC_SIZESHIFT) .& _IOC_SIZEMASK.
Definition IOC_IN : Z := _IOC_WRITE ≪ _IOC_DIRSHIFT.
Definition IOC_OUT : Z := _IOC_READ ≪ _IOC_DIRSHIFT.
Definition IOC_INOUT : Z := (_IOC_WRITE .| _IOC_READ) ≪ _IOC_DIRSHIFT.
Definition IOCSIZE_MASK : Z := _IOC_SIZEMASK ≪ _IOC_SIZESHIFT.

(** ** Object files *)

Definition ELF32_ST_BIND (val : Z) : Z := u8 val ≫ 4.
Definition ELF32_ST_TYPE (val : Z) : Z := val .& 0xf.
Definition ELF32_ST_INFO (bind type : Z) : Z := (bind ≪ 4) + (type .& 0xf).
Definition ELF32_R_SYM (val : Z) : Z := val ≫ 8.
Definition ELF32_R_TYPE (val : Z) : Z := val .& 0xff.
Definition ELF32_R_INFO (sym type : Z) : Z := (sym ≪ 8) + (type .& 0xff).
Definition ELF64_R_SYM (i : Z) : Z := i ≫ 32.
Definition ELF64_R_TYPE (i : Z) : Z := i .& 0xffffffff.
Definition ELF64_R_INFO (sym type : Z) : Z := u64 (u64 (u64 sym ≪ 32) + type).
Definition ELF32_M_SYM (info : Z) : Z := info ≫ 8.
Definition ELF32_M_SIZE (info : Z) : Z := u8 info.
Definition ELF32_M_INFO (sym size : Z) : Z := (sym ≪ 8) + u8 size.

(** ** Devices, options and versions *)

Definition PCI_DEVFN (slot func : Z) : Z := ((slot .& 0x1f) ≪ 3) .| (func .& 0x07).
Definition PCI_SLOT (devfn : Z) : Z := (devfn ≫ 3) .& 0x1f.
Definition PCI_FUNC (devfn : Z) : Z := devfn .& 0x07.

(** [t] is the size of the type of the option. *)
Definition __SO_ENCODE (l n t : Z) : Z := ((l .& 0x1FF) ≪ 22) .| (n ≪ 16) .| t.
Definition __SO_LEVEL_MATCH (c m : Z) : bool := c ≫ 22 =? (m .& 0x1FF).
Definition __SO_NUMBER (c : Z) : Z := (c ≫ 16) .& 0x3f.
Definition __SO_SIZE (c : Z) : Z := c .& 0x3fff.

Definition TC_H_MAJ (h : Z) : Z := h .& 0xFFFF0000.
Definition TC_H_MIN (h : Z) : Z := h .& 0x0000FFFF.
Definition TC_H_MAKE (maj min : Z) : Z := (maj .& 0xFFFF0000) .| (min .& 0x0000FFFF).

Definition SNDRV_PROTOCOL_VERSION (major minor subminor : Z) : Z :=
  (major ≪ 16) .| (minor ≪ 8) .| subminor.
Definition SNDRV_PROTOCOL_MAJOR (version : Z) : Z := (version ≫ 16) .& 0xffff.
Definition SNDRV_PROTOCOL_MINOR (version : Z) : Z := (version ≫ 8) .& 0xff.
Definition SNDRV_PROTOCOL_MICRO (version : Z) : Z := version .& 0xff.
Definition SNDRV_PROTOCOL_INCOMPATIBLE (kversion uversion : Z) : bool :=
  negb (SNDRV_PROTOCOL_MAJOR kversion =? SNDRV_PROTOCOL_MAJOR uversion) ||
  (SNDRV_PROTOCOL_MAJOR kversion =? SNDRV_PROTOCOL_MAJOR uversion) &&
  negb (SNDRV_PROTOCOL_MINOR kversion =? SNDRV_PROTOCOL_MINOR uversion).

Definition RDMA_NL_GET_CLIENT (type : Z) : Z := (type .& (((1 ≪ 6) - 1) ≪ 10)) ≫ 10.
Definition RDMA_NL_GET_OP (type : Z) : Z := type .& ((1 ≪ 10) - 1).
Definition RDMA_NL_GET_TYPE (client op : Z) : Z := (client ≪ 10) + op.

Definition K (t v : Z) : Z := (t ≪ 8) .| v.
Definition KTYP (x : Z) : Z := x ≫ 8.
Definition KVAL (x : Z) : Z := x .& 0xff.

Definition _NL_ITEM (category index : Z) : Z := (category ≪ 16) .| index.
Definition _NL_ITEM_CATEGORY (item : Z) : Z := i32 item ≫ 16.
Definition _NL_ITEM_INDEX (item : Z) : Z := i32 item .& 0xffff.

(** [manuf] is the number of the manufacturer that the macro is given the name of. *)
Definition ZORRO_ID (manuf prod epc : Z) : Z := (manuf ≪ 16) .| (prod ≪ 8) .| epc.
Definition ZORRO_MANUF (id : Z) : Z := id ≫ 16.
Definition ZORRO_PROD (id : Z) : Z := (id ≫ 8) .& 0xff.
Definition ZORRO_EPC (id : Z) : Z := id .& 0xff.

Definition BSD_NBITS (x : Z) : Z := x .& 0x1F.
Definition BSD_VERSION (x : Z) : Z := x ≫ 5.
Definition BSD_MAKE_OPT (v n : Z) : Z := (v ≪ 5) .| n.
Definition DEFLATE_METHOD_VAL : Z := 8.
Definition DEFLATE_SIZE (x : Z) : Z := (x ≫ 4) + 8.
Definition DEFLATE_METHOD (x : Z) : Z := x .& 0x0F.
Definition DEFLATE_MAKE_OPT (w : Z) : Z := ((w - 8) ≪ 4) + DEFLATE_METHOD_VAL.

(** The mask is 0170000. *)
Definition IFTOCDT (mode : Z) : Z := (mode .& 0xF000) ≫ 12.
Definition CDTTOIF (dirtype : Z) : Z := dirtype ≪ 12.

Definition LOG_PRIMASK : Z := 0x07.
Definition LOG_PRI (p : Z) : Z := p .& LOG_PRIMASK.
Definition LOG_MAKEPRI (fac pri : Z) : Z := fac .| pri.
Definition LOG_FACMASK : Z := 0x03f8.
Definition LOG_FAC (p : Z) : Z := (p .& LOG_FACMASK) ≫ 3.
Definition LOG_MASK (pri : Z) : Z := 1 ≪ pri.
Definition LOG_UPTO (pri : Z) : Z := (1 ≪ (pri + 1)) - 1.

Definition LIRC_VALUE_MASK : Z := 0x00FFFFFF.
Definition LIRC_MODE2_MASK : Z := 0xFF000000.
Definition LIRC_MODE2_SPACE : Z := 0x00000000.
Definition LIRC_MODE2_PULSE : Z := 0x01000000.
Definition LIRC_MODE2_FREQUENCY : Z := 0x02000000.
Definition LIRC_MODE2_TIMEOUT : Z := 0x03000000.
Definition LIRC_SPACE (val : Z) : Z := (val .& LIRC_VALUE_MASK) .| LIRC_MODE2_SPACE.
Definition LIRC_PULSE (val : Z) : Z := (val .& LIRC_VALUE_MASK) .| LIRC_MODE2_PULSE.
Definition LIRC_FREQUENCY (val : Z) : Z := (val .& LIRC_VALUE_MASK) .| LIRC_MODE2_FREQUENCY.
Definition LIRC_TIMEOUT (val : Z) : Z := (val .& LIRC_VALUE_MASK) .| LIRC_MODE2_TIMEOUT.
Definition LIRC_VALUE (val : Z) : Z := val .& LIRC_VALUE_MASK.
Definition LIRC_MODE2 (val : Z) : Z := val .& LIRC_MODE2_MASK.
Definition LIRC_IS_SPACE (val : Z) : bool := LIRC_MODE2 val =? LIRC_MODE2_SPACE.
Definition LIRC_IS_PULSE (val : Z) : bool := LIRC_MODE2 val =? LIRC_MODE2_PULSE.
Definition LIRC_IS_FREQUENCY (val : Z) : bool := LIRC_MODE2 val =? LIRC_MODE2_FREQUENCY.
Definition LIRC_IS_TIMEOUT (val : Z) : bool := LIRC_MODE2 val =? LIRC_MODE2_TIMEOUT.

(** ** Statuses of processes *)

Definition __WEXITSTATUS (status : Z) : Z := (status .& 0xff00) ≫ 8.
Definition __WTERMSIG (status : Z) : Z := status .& 0x7f.
Definition __WSTOPSIG (status : Z) : Z := __WEXITSTATUS status.
Definition __WIFEXITED (status : Z) : bool := __WTERMSIG status =? 0.
Definition __WIFSIGNALED (status : Z) : bool := 0 <? swrap 8 ((status .& 0x7f) + 1) ≫ 1.
Definition __WIFSTOPPED (status : Z) : bool := (status .& 0xff) =? 0x7f.
Definition __W_CONTINUED : Z := 0xffff.
Definition __WIFCONTINUED (status : Z) : bool := status =? __W_CONTINUED.
Definition __WCOREFLAG : Z := 0x80.
Definition __WCOREDUMP (status : Z) : Z := status .& __WCOREFLAG.
Definition __W_EXITCODE (ret sig : Z) : Z := (ret ≪ 8) .| sig.
Definition __W_STOPCODE (sig : Z) : Z := (sig ≪ 8) .| 0x7f.

(** ** Codes and their parts *)

Inductive code : Type :=
  | DevT | KDev | Ioctl | ElfSymbol | ElfRel32 | ElfRel64 | ElfMove | PciDevfn | AtmOption
  | SoundVersion | RdmaType | KeyCode | LangItem | ZorroId | BsdOption | DirType | BcachePtr
  | PhonetObject | ExitStatus.

Definition make (c : code) (vs : list Z) : Z :=
  match c, vs with
  | DevT, [a; b] => gnu_dev_makedev a b
  | KDev, [a; b] => MKDEV a b
  | Ioctl, [d; t; n; s] => _IOC d t n s
  | ElfSymbol, [a; b] => ELF32_ST_INFO a b
  | ElfRel32, [a; b] => ELF32_R_INFO a b
  | ElfRel64, [a; b] => ELF64_R_INFO a b
  | ElfMove, [a; b] => ELF32_M_INFO a b
  | PciDevfn, [a; b] => PCI_DEVFN a b
  | AtmOption, [l; n; s] => __SO_ENCODE l n s
  | SoundVersion, [a; b; c] => SNDRV_PROTOCOL_VERSION a b c
  | RdmaType, [a; b] => RDMA_NL_GET_TYPE a b
  | KeyCode, [a; b] => K a b
  | LangItem, [a; b] => _NL_ITEM a b
  | ZorroId, [a; b; c] => ZORRO_ID a b c
  | BsdOption, [a; b] => BSD_MAKE_OPT a b
  | DirType, [a] => CDTTOIF a
  | BcachePtr, [g; o; d] => MAKE_PTR g o d
  | PhonetObject, [a; p] => pn_object (a * 4) p
  | ExitStatus, [r; s] => __W_EXITCODE r s
  | _, _ => 0
  end.

(** What the macros read, the level of an ATM option from [__SO_LEVEL_MATCH] and the parts of
    a pointer from its accessors. *)
Definition parts (c : code) (x : Z) : list Z :=
  match c with
  | DevT => [gnu_dev_major x; gnu_dev_minor x]
  | KDev => [MAJOR x; MINOR x]
  | Ioctl => [_IOC_DIR x; _IOC_TYPE x; _IOC_NR x; _IOC_SIZE x]
  | ElfSymbol => [ELF32_ST_BIND x; ELF32_ST_TYPE x]
  | ElfRel32 => [ELF32_R_SYM x; ELF32_R_TYPE x]
  | ElfRel64 => [ELF64_R_SYM x; ELF64_R_TYPE x]
  | ElfMove => [ELF32_M_SYM x; ELF32_M_SIZE x]
  | PciDevfn => [PCI_SLOT x; PCI_FUNC x]
  | AtmOption => [x ≫ 22; __SO_NUMBER x; __SO_SIZE x]
  | SoundVersion => [SNDRV_PROTOCOL_MAJOR x; SNDRV_PROTOCOL_MINOR x; SNDRV_PROTOCOL_MICRO x]
  | RdmaType => [RDMA_NL_GET_CLIENT x; RDMA_NL_GET_OP x]
  | KeyCode => [KTYP x; KVAL x]
  | LangItem => [_NL_ITEM_CATEGORY x; _NL_ITEM_INDEX x]
  | ZorroId => [ZORRO_MANUF x; ZORRO_PROD x; ZORRO_EPC x]
  | BsdOption => [BSD_VERSION x; BSD_NBITS x]
  | DirType => [IFTOCDT x]
  | BcachePtr => [BITMASK 0 8 x; BITMASK 8 43 x; BITMASK 51 12 x]
  | PhonetObject => [pn_addr x / 4; pn_port x]
  | ExitStatus => [__WEXITSTATUS x; __WTERMSIG x]
  end.

(** The bits of each part, and where they are in the code: pieces [(i, w)] of the code, the
    piece of lowest bits of the part first. *)
Definition pieces (c : code) : list (list (Z * Z)) :=
  match c with
  | DevT => [[(8, 12); (44, 20)]; [(0, 8); (20, 24)]]
  | KDev => [[(8, 24)]; [(0, 8)]]
  | Ioctl => [[(30, 2)]; [(8, 8)]; [(0, 8)]; [(16, 14)]]
  | ElfSymbol => [[(4, 4)]; [(0, 4)]]
  | ElfRel32 => [[(8, 24)]; [(0, 8)]]
  | ElfRel64 => [[(32, 32)]; [(0, 32)]]
  | ElfMove => [[(8, 24)]; [(0, 8)]]
  | PciDevfn => [[(3, 5)]; [(0, 3)]]
  | AtmOption => [[(22, 9)]; [(16, 6)]; [(0, 14)]]
  | SoundVersion => [[(16, 16)]; [(8, 8)]; [(0, 8)]]
  | RdmaType => [[(10, 6)]; [(0, 10)]]
  | KeyCode => [[(8, 8)]; [(0, 8)]]
  | LangItem => [[(16, 15)]; [(0, 16)]]
  | ZorroId => [[(16, 16)]; [(8, 8)]; [(0, 8)]]
  | BsdOption => [[(5, 3)]; [(0, 5)]]
  | DirType => [[(12, 4)]]
  | BcachePtr => [[(0, 8)]; [(8, 43)]; [(51, 12)]]
  | PhonetObject => [[(10, 6)]; [(0, 10)]]
  | ExitStatus => [[(8, 8)]; [(0, 7)]]
  end.

(** The width of a part, and the bits that a code has. *)
Definition width (ps : list (Z * Z)) : Z := sumZ (snd <$> ps).
Definition bits_of (c : code) (n : Z) : bool :=
  existsb (λ p, (p.1 <=? n) && (n <? p.1 + p.2)) (concat (pieces c)).
Definition is_code (c : code) (x : Z) : Prop :=
  0 ≤ x ∧ ∀ n, 0 ≤ n → bits_of c n = false → Z.testbit x n = false.

(** ** One to one *)

Lemma shl_add a c k : 0 ≤ k → 0 ≤ c < 2 ^ k → (a ≪ k) + c = (a ≪ k) .| c.
Proof. intros. rewrite !Z.shiftl_mul_pow2 by done. symmetry. by apply lor_add. Qed.

(** The masks of the macros, as ones in place. *)
Ltac ones_in_place :=
  repeat match goal with |- context [Zpos ?p] =>
    let z := constr:(Zpos p) in
    let t := lazymatch z with
      | 0xff => constr:(Z.ones 8) | 0xffff => constr:(Z.ones 16) | 0xffffffff => constr:(Z.ones 32)
      | 0xf => constr:(Z.ones 4) | 0xfff => constr:(Z.ones 12) | 0x1f => constr:(Z.ones 5)
      | 0x3ff => constr:(Z.ones 10) | 0x1ff => constr:(Z.ones 9) | 0x3f => constr:(Z.ones 6)
      | 0x3fff => constr:(Z.ones 14) | 0x7f => constr:(Z.ones 7)
      | 0xfff00 => constr:(Z.ones 12 ≪ 8) | 0xfffff00000000000 => constr:(Z.ones 20 ≪ 44)
      | 0xffffff00000 => constr:(Z.ones 24 ≪ 20) | 0xfffff000 => constr:(Z.ones 20 ≪ 12)
      | 0xffffff00 => constr:(Z.ones 24 ≪ 8) | 0xfc => constr:(Z.ones 6 ≪ 2)
      | 0xf000 => constr:(Z.ones 4 ≪ 12) | 0xff00 => constr:(Z.ones 8 ≪ 8)
      end in
    change z with t
  end;
  repeat match goal with |- context [?x .& 7] => change (x .& 7) with (x .& Z.ones 3) end.

Ltac unfold_code :=
  cbn [make parts];
  unfold gnu_dev_major, gnu_dev_minor, gnu_dev_makedev, MAJOR, MINOR, MKDEV, _IOC, _IOC_DIR, _IOC_TYPE,
    _IOC_NR, _IOC_SIZE, ELF32_ST_BIND, ELF32_ST_TYPE, ELF32_ST_INFO, ELF32_R_SYM, ELF32_R_TYPE,
    ELF32_R_INFO, ELF64_R_SYM, ELF64_R_TYPE, ELF64_R_INFO, ELF32_M_SYM, ELF32_M_SIZE, ELF32_M_INFO,
    PCI_DEVFN, PCI_SLOT, PCI_FUNC, __SO_ENCODE, __SO_NUMBER, __SO_SIZE, SNDRV_PROTOCOL_VERSION,
    SNDRV_PROTOCOL_MAJOR, SNDRV_PROTOCOL_MINOR, SNDRV_PROTOCOL_MICRO, RDMA_NL_GET_TYPE,
    RDMA_NL_GET_CLIENT, RDMA_NL_GET_OP, K, KTYP, KVAL, _NL_ITEM, _NL_ITEM_CATEGORY, _NL_ITEM_INDEX,
    ZORRO_ID, ZORRO_MANUF, ZORRO_PROD, ZORRO_EPC, BSD_MAKE_OPT, BSD_NBITS, BSD_VERSION, IFTOCDT,
    CDTTOIF, MAKE_PTR, BITMASK, pn_object, pn_addr, pn_port, __WEXITSTATUS, __WTERMSIG, __W_EXITCODE.

(** The bits of a part and of a code. *)
Ltac part_bits :=
  repeat match goal with
    | H : 0 ≤ ?v < 2 ^ ?w |- context [Z.testbit ?v ?m] => rewrite (testbit_high w v m) by (done || lia)
    end.

(** Terms that [by_bits] does not take apart. *)
Lemma wrap_shl x : 0 ≤ x < 2 ^ 32 → u64 (u64 x ≪ 32) = x ≪ 32.
Proof.
  intros Hx. rewrite (uwrap_small 64 x) by lia. rewrite Z.shiftl_mul_pow2 by done.
  apply uwrap_small. lia.
Qed.
Lemma land_ones_range x w : 0 ≤ w → 0 ≤ x .& Z.ones w < 2 ^ w.
Proof. intros. rewrite Z.land_ones by done. by apply Z.mod_pos_bound, pow2_pos. Qed.
Lemma item_small x y : 0 ≤ x < 2 ^ 15 → 0 ≤ y < 2 ^ 16 → i32 ((x ≪ 16) .| y) = (x ≪ 16) .| y.
Proof.
  intros Hx Hy. apply swrap_small; [done|]. rewrite <- shl_add by done.
  rewrite Z.shiftl_mul_pow2 by done. lia.
Qed.
Lemma times_4 x : x * 4 = x ≪ 2.
Proof. by rewrite Z.shiftl_mul_pow2. Qed.
Lemma over_4 x : x / 4 = x ≫ 2.
Proof. by rewrite Z.shiftr_div_pow2. Qed.

Ltac tidy_code :=
  change _IOC_DIRMASK with (Z.ones 2); change _IOC_TYPEMASK with (Z.ones 8);
  change _IOC_NRMASK with (Z.ones 8); change _IOC_SIZEMASK with (Z.ones 14);
  change _IOC_NRSHIFT with 0; change _IOC_TYPESHIFT with 8; change _IOC_SIZESHIFT with 16;
  change _IOC_DIRSHIFT with 30; change ((1 ≪ 6) - 1) with (Z.ones 6);
  change ((1 ≪ 10) - 1) with (Z.ones 10); rewrite ?times_4, ?over_4;
  rewrite ?wrap_shl by done; rewrite ?item_small by done; ones_in_place;
  rewrite ?shl_add by first [ done | lia | by apply land_ones_range | by apply uwrap_range ].

Ltac code_tac n :=
  unfold_code; tidy_code; by_bits n; part_bits; rewrite ?orb_false_r, ?orb_false_l;
  try solve [done | f_equal; lia].

(** The parts of a code, one by one. *)
Ltac each_part H :=
  cbn [pieces] in H;
  repeat match goal with H : Forall2 _ _ (_ :: _) |- _ => inversion H; clear H; subst
    | H : Forall2 _ _ [] |- _ => inversion H; clear H; subst end;
  repeat match goal with H : _ ≤ _ < 2 ^ width _ |- _ => cbv [width sumZ fmap list_fmap snd] in H end.

Ltac nonneg_tac :=
  repeat lazymatch goal with
    | |- 0 ≤ _ .| _ => apply Z.lor_nonneg; split
    | |- 0 ≤ _ ≪ _ => apply Z.shiftl_nonneg
    | |- 0 ≤ _ ≫ _ => apply Z.shiftr_nonneg
    | |- 0 ≤ _ .& Z.ones _ => apply land_ones_range; done
    | |- 0 ≤ _ .& _ => apply Z.land_nonneg; left
    | |- 0 ≤ uwrap _ _ => apply uwrap_range; done
    end; try lia.

(** Outside the pieces, as inequalities. *)
Ltac outside H :=
  cbn in H;
  repeat match type of H with
    | (_ || _ = false) => let H1 := fresh "Hout" in apply orb_false_iff in H as [H1 H];
        apply andb_false_iff in H1; rewrite Z.leb_gt, Z.ltb_ge in H1
    end.

Lemma parts_make c vs :
  Forall2 (λ v ps, 0 ≤ v < 2 ^ width ps) vs (pieces c) → parts c (make c vs) = vs.
Proof.
  intros H. destruct c; each_part H; cbn [parts]; repeat (apply (f_equal2 cons)); try done.
  all: code_tac n.
Qed.

(** A code has bits in its pieces only. *)
Lemma make_code c vs :
  Forall2 (λ v ps, 0 ≤ v < 2 ^ width ps) vs (pieces c) → is_code c (make c vs).
Proof.
  intros H. destruct c; each_part H; (split; [|intros n Hn Hb; outside Hb]).
  all: unfold_code; tidy_code; try solve [nonneg_tac].
  all: rewrite_bits; split_bits; rewrite_bits; split_bits; part_bits; done.
Qed.

(** The bits of [x] that its code does not have. *)
Ltac code_bits H :=
  repeat match goal with |- context [Z.testbit ?x ?m] =>
    rewrite (proj2 H m) by (lia || (cbn; split_bits; done)) end.

Lemma is_code_range c x w :
  is_code c x → 0 ≤ w → (∀ n, w ≤ n → bits_of c n = false) → 0 ≤ x < 2 ^ w.
Proof.
  intros [Hx Hb] Hw H. apply word_range; [done|done|]. intros n Hn. apply Hb; [lia|by apply H].
Qed.

Lemma item_code x : is_code LangItem x → i32 x = x.
Proof.
  intros H. apply swrap_small; [done|]. cut (0 ≤ x < 2 ^ 31); [cbn; lia|].
  apply (is_code_range _ _ _ H); [done|]. intros n Hn. cbn. by split_bits.
Qed.

Lemma parts_range c x :
  is_code c x → Forall2 (λ v ps, 0 ≤ v < 2 ^ width ps) (parts c x) (pieces c).
Proof.
  intros H. pose proof (proj1 H) as Hx.
  destruct c; cbn [parts pieces]; repeat (apply Forall2_cons; [|]); try apply Forall2_nil_2.
  all: cbv [width sumZ fmap list_fmap snd]; apply word_range; [lia| |intros n Hn].
  all: unfold_code; rewrite ?item_code by done; tidy_code;
    lazymatch goal with
    | |- 0 ≤ _ => nonneg_tac
    | |- _ => do 2 (rewrite_bits; split_bits); code_bits H; done
    end.
Qed.

Lemma make_parts c x : is_code c x → make c (parts c x) = x.
Proof.
  intros H. pose proof (proj1 H) as Hx.
  destruct c;
    try (assert (0 ≤ x ≫ 32 < 2 ^ 32)
      by (pose proof (parts_range ElfRel64 x H) as HR; by inversion HR));
    unfold_code; rewrite ?item_code by done; tidy_code.
  all: by_bits n; code_bits H; rewrite ?orb_false_r, ?orb_false_l; solve [done | f_equal; lia].
Qed.

(** C28: a code of a header and its parts correspond one to one: parts that fit are found
    again by the macros that take the code apart, and a code is put together again from what
    they find. *)
Theorem codes_one_to_one (c : code) :
  (∀ vs, Forall2 (λ v ps, 0 ≤ v < 2 ^ width ps) vs (pieces c) →
     is_code c (make c vs) ∧ parts c (make c vs) = vs) ∧
  (∀ x, is_code c x →
     Forall2 (λ v ps, 0 ≤ v < 2 ^ width ps) (parts c x) (pieces c) ∧ make c (parts c x) = x).
Proof.
  split.
  - intros vs H. split; [by apply make_code|by apply parts_make].
  - intros x H. split; [by apply parts_range|by apply make_parts].
Qed.

(** [/dev/sda2] is device 8, 2; a request to read four bytes of command 1 of group ['A']. *)
Lemma codes_one_to_one_witness :
  parts DevT (make DevT [8; 2]) = [8; 2] ∧ make DevT (parts DevT 0x802) = 0x802 ∧
  parts Ioctl (make Ioctl [2; 65; 1; 4]) = [2; 65; 1; 4].
Proof.
  split; [|split].
  - apply (codes_one_to_one DevT). repeat constructor; by vm_compute.
  - apply (codes_one_to_one DevT). split; [done|]. intros n Hn H.
    destruct (decide (n < 12)) as [Hlt|Hge]; [|apply (testbit_high 12); lia].
    assert (n = 0 ∨ n = 1 ∨ n = 2 ∨ n = 3 ∨ n = 4 ∨ n = 5 ∨ n = 6 ∨ n = 7 ∨ n = 8 ∨ n = 9 ∨ n = 10
            ∨ n = 11) as E by lia. clear Hn Hlt.
    repeat destruct E as [->|E]; try subst n; by vm_compute in H |- *.
  - apply (codes_one_to_one Ioctl). repeat constructor; by vm_compute.
Defined.

(** ** Statuses *)

Lemma signaled_range s : __WIFSIGNALED s = (1 <=? s mod 128) && (s mod 128 <=? 126).
Proof.
  unfold __WIFSIGNALED. change 0x7f with (Z.ones 7). rewrite Z.land_ones by done.
  change (2 ^ 7) with 128. pose proof (Z.mod_pos_bound s 128 eq_refl). rewrite Z.shiftr_div_pow2 by done.
  destruct (decide (s mod 128 = 127)) as [->|Hne]; [done|].
  rewrite swrap_small by lia. change (2 ^ 1) with 2.
  destruct (Z.leb_spec 1 (s mod 128)), (Z.leb_spec (s mod 128) 126); try lia; cbn.
  - apply Z.ltb_lt, Z.div_str_pos. lia.
  - assert (s mod 128 = 0) as -> by lia. done.
Qed.

Lemma exited_range s : __WIFEXITED s = (s mod 128 =? 0).
Proof. unfold __WIFEXITED, __WTERMSIG. change 0x7f with (Z.ones 7). by rewrite Z.land_ones. Qed.

Lemma stopped_range s : __WIFSTOPPED s = (s mod 256 =? 127).
Proof. unfold __WIFSTOPPED. change 0xff with (Z.ones 8). by rewrite Z.land_ones. Qed.

Lemma mod_256_128 s : s mod 128 = (s mod 256) mod 128.
Proof. rewrite Z.mod_mod_divide; [done|]. by exists 2. Qed.

Lemma shl8_mod r g : 0 ≤ g < 256 → ((r ≪ 8) .| g) mod 256 = g.
Proof.
  intros Hg. rewrite <- shl_add, Z.shiftl_mul_pow2, Z.add_comm by done.
  rewrite Z_mod_plus_full. by apply Z.mod_small.
Qed.

(** The macros tell three ways apart that a process can be in (exited, killed, stopped):
    a status has exactly one of them, and none if its low byte is 255, as for a process that
    continues; a status made of an exit code and a signal has the way and the number that were
    put in. *)
Theorem wait_statuses (s r g : Z) :
  Z.b2z (__WIFEXITED s) + Z.b2z (__WIFSIGNALED s) + Z.b2z (__WIFSTOPPED s)
    = (if s mod 256 =? 255 then 0 else 1) ∧
  (__WIFCONTINUED s = true → s mod 256 = 255) ∧
  (0 ≤ r < 256 → __WIFEXITED (__W_EXITCODE r 0) = true ∧ __WEXITSTATUS (__W_EXITCODE r 0) = r) ∧
  (1 ≤ g ≤ 126 → __WIFSIGNALED (__W_EXITCODE r g) = true ∧ __WTERMSIG (__W_EXITCODE r g) = g) ∧
  (0 ≤ g < 256 → __WIFSTOPPED (__W_STOPCODE g) = true ∧ __WSTOPSIG (__W_STOPCODE g) = g).
Proof.
  repeat split.
  - rewrite exited_range, signaled_range, stopped_range, mod_256_128.
    pose proof (Z.mod_pos_bound s 256 eq_refl) as Hm. revert Hm. generalize (s mod 256). clear s.
    intros m Hm. destruct (Z.eqb_spec m 255) as [->|H255]; [done|].
    destruct (decide (m < 128)) as [Hl|Hl].
    + rewrite Z.mod_small by lia.
      destruct (Z.eqb_spec m 0), (Z.leb_spec 1 m), (Z.leb_spec m 126), (Z.eqb_spec m 127); cbn; lia.
    + assert (m mod 128 = m - 128) as ->.
      { symmetry. apply (Z.mod_unique m 128 1); lia. }
      destruct (Z.eqb_spec (m - 128) 0), (Z.leb_spec 1 (m - 128)), (Z.leb_spec (m - 128) 126),
        (Z.eqb_spec m 127); cbn; lia.
  - unfold __WIFCONTINUED. by intros ->%Z.eqb_eq.
  - rewrite exited_range, mod_256_128. unfold __W_EXITCODE. by rewrite shl8_mod.
  - pose proof (parts_make ExitStatus [r; 0]) as H'. cbn in H'.
    assert (0 ≤ r < 2 ^ 8 ∧ 0 ≤ 0 < 2 ^ 7) as [H1 H2] by lia.
    assert ([__WEXITSTATUS (__W_EXITCODE r 0); __WTERMSIG (__W_EXITCODE r 0)] = [r; 0]) as E.
    { apply H'. repeat constructor; cbn; lia. }
    by injection E.
  - rewrite signaled_range, mod_256_128. unfold __W_EXITCODE. rewrite shl8_mod, Z.mod_small by lia.
    destruct (Z.leb_spec 1 g), (Z.leb_spec g 126); lia || done.
  - unfold __WTERMSIG, __W_EXITCODE. change 0x7f with (Z.ones 7). rewrite Z.land_ones by done.
    change (2 ^ 7) with 128. rewrite mod_256_128, shl8_mod, Z.mod_small by lia. done.
  - rewrite stopped_range. unfold __W_STOPCODE. by rewrite shl8_mod.
  - unfold __WSTOPSIG, __WEXITSTATUS, __W_STOPCODE. ones_in_place. by_bits n; part_bits.
    + by rewrite (testbit_high 8 g) by lia.
Qed.
