(* ===== verification/BitMaps.v ===== *)
(** * Bit maps ([sys/select.h], [sys/param.h], [linux/netfilter/xt_sctp.h], [linux/mroute.h], ...)

    Sets of small numbers as the bits of an array of words, each header with its own macros:
    descriptors of [select], [setbit] and its like, chunk types of SCTP, interfaces of
    multicast routing.  A word is a residue, also where its type is signed.  No macro checks
    the number: one outside the array is outside the object, and a signed number below zero
    asks for a negative shift.  [1 << 31] of an [int] is the smallest one, as the compilers of
    the system define it. *)

From Stdlib Require Import ZArith Lia.
From stdpp Require Import base list gmap sets numbers.
From S2P Require Import Prelude Bits Fields.

#[local] Open Scope c_scope.
#[local] Open Scope Z_scope.

(** ** Arrays of words *)

Definition get_word (i : Z) : M (list Z) Z :=
  s ← mget; if i <? 0 then mub OutOfBounds else moption OutOfBounds (s !! Z.to_nat i).
Definition set_word (i w : Z) : M (list Z) unit :=
  _ ← get_word i; mmodify <[Z.to_nat i := w]>.

(** [1 << n] in an [int], and in an [unsigned long]. *)
Definition int_bit {St} (n : Z) : M St Z :=
  if (0 <=? n) && (n <? 32) then mret (i32 (1 ≪ n)) else mub IntOverflow.
Definition ulong_bit {St} (n : Z) : M St Z :=
  if (0 <=? n) && (n <? 64) then mret (u64 (1 ≪ n)) else mub IntOverflow.

(** [for (__i = i; __i < i + steps; ++__i) arr[__i] = 0]. *)
Fixpoint clear_words (steps : nat) (i : Z) : M (list Z) unit :=
  match steps with O => mret tt | S n => set_word i 0;; clear_words n (i + 1) end.

(** [memset] of all bytes of the array to those of [w]. *)
Definition fill_words (w : Z) : M (list Z) unit := mmodify (fmap (λ _, w)).

(** ** [select] *)

Definition __NFDBITS : Z := 8 * 8.
Definition __FD_SETSIZE : Z := 1024.
Definition __FD_ELT (d : Z) : Z := Z.quot d __NFDBITS.
Definition __FD_MASK (d : Z) : M (list Z) Z := ulong_bit (Z.rem d __NFDBITS).

Definition __FD_ZERO : M (list Z) unit := clear_words (Z.to_nat (__FD_SETSIZE / 8 / 8)) 0.
Definition __FD_SET (d : Z) : M (list Z) unit :=
  w ← get_word (__FD_ELT d); m ← __FD_MASK d; set_word (__FD_ELT d) (w .| m).
Definition __FD_CLR (d : Z) : M (list Z) unit :=
  w ← get_word (__FD_ELT d); m ← __FD_MASK d; set_word (__FD_ELT d) (w .& not_w 64 m).
Definition __FD_ISSET (d : Z) : M (list Z) bool :=
  w ← get_word (__FD_ELT d); m ← __FD_MASK d; mret (negb (w .& m =? 0)).
Definition FD_SET (fd : Z) : M (list Z) unit := __FD_SET fd.
Definition FD_CLR (fd : Z) : M (list Z) unit := __FD_CLR fd.
Definition FD_ISSET (fd : Z) : M (list Z) bool := __FD_ISSET fd.
Definition FD_ZERO : M (list Z) unit := __FD_ZERO.

(** ** [sys/param.h] *)

Definition NBBY : Z := 8.
Definition setbit (i : Z) : M (list Z) unit :=
  w ← get_word (Z.quot i NBBY); m ← int_bit (Z.rem i NBBY); set_word (Z.quot i NBBY) (u8 (w .| m)).
Definition clrbit (i : Z) : M (list Z) unit :=
  w ← get_word (Z.quot i NBBY); m ← int_bit (Z.rem i NBBY);
  set_word (Z.quot i NBBY) (u8 (w .& Z.lnot m)).
Definition isset (i : Z) : M (list Z) Z :=
  w ← get_word (Z.quot i NBBY); m ← int_bit (Z.rem i NBBY); mret (w .& m).
Definition isclr (i : Z) : M (list Z) bool :=
  w ← get_word (Z.quot i NBBY); m ← int_bit (Z.rem i NBBY); mret (w .& m =? 0).

Definition howmany (x y : Z) : Z := Z.quot (x + (y - 1)) y.
Definition powerof2 (x : Z) : bool := (x - 1) .& x =? 0.
(** The compiler may know [y]; then a power of two is rounded with a mask. *)
Definition roundup (gnuc constant_y : bool) (x y : Z) : Z :=
  if gnuc && constant_y && powerof2 y then (x + y - 1) .& Z.lnot (y - 1)
  else Z.quot (x + (y - 1)) y * y.
Definition MIN (a b : Z) : Z := if a <? b then a else b.
Definition MAX (a b : Z) : Z := if b <? a then a else b.

(** ** Chunk types of SCTP *)

(** [chunkmap[256 / sizeof (__u32)]]. *)
Definition chunkmap_words : nat := 64.
Definition sctp_bytes : Z := 4 * 8.
Definition SCTP_CHUNKMAP_SET (type : Z) : M (list Z) unit :=
  w ← get_word (u64 type / sctp_bytes); m ← int_bit (u64 type mod sctp_bytes);
  set_word (u64 type / sctp_bytes) (u32 (w .| m)).
Definition SCTP_CHUNKMAP_CLEAR (type : Z) : M (list Z) unit :=
  w ← get_word (u64 type / sctp_bytes); m ← int_bit (u64 type mod sctp_bytes);
  set_word (u64 type / sctp_bytes) (u32 (w .& Z.lnot m)).
Definition SCTP_CHUNKMAP_IS_SET (type : Z) : M (list Z) Z :=
  w ← get_word (u64 type / sctp_bytes); m ← int_bit (u64 type mod sctp_bytes);
  mret (if w .& u32 m =? 0 then 0 else 1).
Definition SCTP_CHUNKMAP_RESET : M (list Z) unit := fill_words 0.
Definition SCTP_CHUNKMAP_SET_ALL : M (list Z) unit := fill_words (2 ^ 32 - 1).
(** The copy replaces the whole array. *)
Definition SCTP_CHUNKMAP_COPY (srcmap : list Z) : M (list Z) unit := mmodify (λ _, srcmap).

(** [for (i = ...; i < n; ++i) if (chunkmap[i] != v) return 0; return 1;], [steps] of it left. *)
Fixpoint all_words_are (steps : nat) (i v : Z) : M (list Z) bool :=
  match steps with
  | O => mret true
  | S k => w ← get_word i; if negb (w =? v) then mret false else all_words_are k (i + 1) v
  end.
Definition __sctp_chunkmap_is_clear (n : Z) : M (list Z) bool := all_words_are (Z.to_nat n) 0 0.
Definition __sctp_chunkmap_is_all_set (n : Z) : M (list Z) bool :=
  all_words_are (Z.to_nat n) 0 (2 ^ 32 - 1).
(** [ARRAY_SIZE] is not in the header; it is the number of words. *)
Definition SCTP_CHUNKMAP_IS_CLEAR : M (list Z) bool :=
  s ← mget; __sctp_chunkmap_is_clear (Z.of_nat (length s)).
Definition SCTP_CHUNKMAP_IS_ALL_SET : M (list Z) bool :=
  s ← mget; __sctp_chunkmap_is_all_set (Z.of_nat (length s)).

(** ** Interfaces of multicast routing *)

Definition IF_SETSIZE : Z := 256.
Definition NIFBITS : Z := 4 * 8.
Definition IF_SET (n : Z) : M (list Z) unit :=
  w ← get_word (u64 n / NIFBITS); m ← int_bit (u64 n mod NIFBITS);
  set_word (u64 n / NIFBITS) (u32 (w .| m)).
Definition IF_CLR (n : Z) : M (list Z) unit :=
  w ← get_word (u64 n / NIFBITS); m ← int_bit (u64 n mod NIFBITS);
  set_word (u64 n / NIFBITS) (u32 (w .& Z.lnot m)).
Definition IF_ISSET (n : Z) : M (list Z) Z :=
  w ← get_word (u64 n / NIFBITS); m ← int_bit (u64 n mod NIFBITS); mret (w .& u32 m).
Definition IF_COPY (f : list Z) : M (list Z) unit := mmodify (λ _, f).
Definition IF_ZERO : M (list Z) unit := fill_words 0.

(** A [vifbitmap_t] is one [unsigned long], and the mask an [int] that is converted to it. *)
Definition VIFM_SET (n : Z) : M Z unit := b ← int_bit n; mmodify (λ m, m .| u64 b).
Definition VIFM_CLR (n : Z) : M Z unit := b ← int_bit n; mmodify (λ m, m .& u64 (Z.lnot b)).
Definition VIFM_ISSET (n : Z) : M Z Z := b ← int_bit n; mgets (λ m, m .& u64 b).
Definition VIFM_CLRALL : M Z unit := mmodify (λ _, 0).
Definition VIFM_COPY (mfrom : Z) : M Z unit := mmodify (λ _, mfrom).
Definition VIFM_SAME (m1 m2 : Z) : bool := m1 =? m2.

(** ** The interface *)

(** A bit map of numbers below [bm_size] and the set it stands for. *)
Record BitMap : Type := {
  bm_state : Type;
  bm_size : Z;
  bm_rep : bm_state → gset Z → Prop;
  bm_zero : M bm_state unit;
  bm_set : Z → M bm_state unit;
  bm_clr : Z → M bm_state unit;
  bm_isset : Z → M bm_state bool }.

Class BitMapLaws (B : BitMap) : Prop := {
  bl_range : ∀ s X i, bm_rep B s X → i ∈ X → 0 ≤ i < bm_size B;
  bl_inj : ∀ s X Y, bm_rep B s X → bm_rep B s Y → X = Y;
  bl_same : ∀ s t X, bm_rep B s X → bm_rep B t X → s = t;
  bl_zero : ∀ s X, bm_rep B s X → wp (bm_zero B) s (λ _ s', bm_rep B s' ∅);
  bl_set : ∀ s X i, bm_rep B s X → 0 ≤ i < bm_size B →
    wp (bm_set B i) s (λ _ s', bm_rep B s' ({[i]} ∪ X));
  bl_clr : ∀ s X i, bm_rep B s X → 0 ≤ i < bm_size B →
    wp (bm_clr B i) s (λ _ s', bm_rep B s' (X ∖ {[i]}));
  bl_isset : ∀ s X i, bm_rep B s X → 0 ≤ i < bm_size B →
    bm_isset B i s = Ret (bool_decide (i ∈ X), s);
  bl_outside : ∀ s X i, bm_rep B s X → - 2 ^ 63 ≤ i < 2 ^ 63 → ¬ 0 ≤ i < bm_size B →
    (∃ w, bm_set B i s = UB w) ∧ (∃ w, bm_clr B i s = UB w) ∧ (∃ w, bm_isset B i s = UB w) }.

(** ** Words *)

(** All accesses come down to this one: bit [i mod W] of word [i / W] becomes [b]. *)
Definition put_bit (W i b : Z) : M (list Z) unit :=
  w ← get_word (i / W); set_word (i / W) (put (i mod W) 1 w b).
Definition take_bit (W i : Z) : M (list Z) bool :=
  w ← get_word (i / W); mret (Z.testbit w (i mod W)).

Definition bit_in (W : Z) (s : list Z) (i : Z) : bool :=
  Z.testbit (default 0 (s !! Z.to_nat (i / W))) (i mod W).
Record words_rep (W : Z) (n : nat) (s : list Z) (X : gset Z) : Prop := {
  wr_length : length s = n;
  wr_words : Forall (λ w, 0 ≤ w < 2 ^ W) s;
  wr_bits : ∀ i, i ∈ X ↔ 0 ≤ i < W * Z.of_nat n ∧ bit_in W s i = true }.

Section words.
Context (W : Z) (n : nat) (HW : 0 < W).
Implicit Types (s : list Z) (X : gset Z).

Lemma word_index i : 0 ≤ i < W * Z.of_nat n → 0 ≤ i / W ∧ (Z.to_nat (i / W) < n)%nat.
Proof.
  intros Hi. assert (0 ≤ i / W) by (apply Z.div_pos; lia). split; [done|].
  assert (i / W < Z.of_nat n) by (apply Z.div_lt_upper_bound; lia). lia.
Qed.

Lemma get_word_ok s X i :
  words_rep W n s X → 0 ≤ i < W * Z.of_nat n →
  ∃ w, s !! Z.to_nat (i / W) = Some w ∧ get_word (i / W) s = Ret (w, s) ∧ 0 ≤ w < 2 ^ W.
Proof.
  intros [Hl Hw _] Hi. destruct (word_index i Hi) as [H0 Hn].
  destruct (lookup_lt_is_Some_2 s (Z.to_nat (i / W))) as [w E]; [lia|]. exists w.
  split; [done|]. split; [|exact (Forall_lookup_1 _ _ _ _ Hw E)]. unfold get_word, mbind, M_bind, mget.
  destruct (Z.ltb_spec (i / W) 0); [lia|]. unfold moption. by rewrite E.
Qed.

Lemma bit_in_put s i j w b :
  0 ≤ i < W * Z.of_nat n → 0 ≤ j < W * Z.of_nat n → s !! Z.to_nat (i / W) = Some w → b = 0 ∨ b = 1 →
  bit_in W (<[Z.to_nat (i / W) := put (i mod W) 1 w b]> s) j =
  if decide (j = i) then b =? 1 else bit_in W s j.
Proof.
  intros Hi Hj E Hb. destruct (word_index i Hi) as [Hi0 _], (word_index j Hj) as [Hj0 _].
  pose proof (Z.mod_pos_bound i W HW). pose proof (Z.mod_pos_bound j W HW).
  unfold bit_in. destruct (decide (j / W = i / W)) as [Eq|Ne].
  - rewrite Eq, list_lookup_insert_eq by (by eapply lookup_lt_Some). rewrite E. cbn [from_option id].
    rewrite testbit_put by lia. destruct (decide (j = i)) as [->|Hne].
    + rewrite Z.sub_diag. split_bits. by destruct Hb as [->| ->].
    + assert (j mod W ≠ i mod W).
      { intros Em. apply Hne. rewrite (Z.div_mod j W), (Z.div_mod i W) by lia. congruence. }
      by split_bits.
  - rewrite list_lookup_insert_ne by lia. rewrite decide_False; [done|congruence].
Qed.

Lemma put_bit_ok s X i b :
  words_rep W n s X → 0 ≤ i < W * Z.of_nat n → b = 0 ∨ b = 1 →
  wp (put_bit W i b) s (λ _ s', words_rep W n s' (if b =? 1 then {[i]} ∪ X else X ∖ {[i]})).
Proof.
  intros HX Hi Hb. destruct (get_word_ok s X i HX Hi) as (w & E & Eg & Hw).
  unfold put_bit. apply wp_bind. apply wp_run. exists w, s. split; [done|].
  unfold set_word. apply wp_bind, wp_run. exists w, s. split; [done|]. apply wp_modify.
  pose proof (Z.mod_pos_bound i W HW). split.
  - rewrite length_insert. apply HX.
  - apply Forall_insert; [apply HX|]. apply put_range; lia.
  - intros j. split.
    + intros Hj. assert (0 ≤ j < W * Z.of_nat n ∧ (j = i ∧ b = 1 ∨ j ≠ i ∧ bit_in W s j = true)) as [Hr Hc].
      { destruct Hb as [->| ->]; cbn in Hj.
        - assert (j ∈ X ∧ j ≠ i) as [Hj' Hne] by set_solver. apply HX in Hj' as [? ?]. auto.
        - destruct (decide (j = i)) as [->|Hne]; [auto|].
          assert (j ∈ X) as Hj' by set_solver. apply HX in Hj' as [? ?]. auto. }
      split; [done|]. rewrite bit_in_put by done. destruct (decide (j = i)); [|by destruct Hc as [[]|[]]].
      destruct Hc as [[_ ->]|[]]; done.
    + intros [Hr Hbit]. rewrite bit_in_put in Hbit by done.
      destruct (decide (j = i)) as [->|Hne]; [rewrite Hbit; set_solver|].
      assert (j ∈ X) by (by apply HX). destruct (b =? 1); set_solver.
Qed.

Lemma take_bit_ok s X i :
  words_rep W n s X → 0 ≤ i < W * Z.of_nat n →
  take_bit W i s = Ret (bool_decide (i ∈ X), s).
Proof.
  intros HX Hi. destruct (get_word_ok s X i HX Hi) as (w & E & Eg & _).
  unfold take_bit. rewrite (bind_eval _ _ _ _ _ Eg). unfold mret, M_ret. do 2 f_equal.
  apply eq_bool_prop_intro. rewrite bool_decide_spec, (wr_bits _ _ _ _ HX). unfold bit_in.
  rewrite E. cbn [from_option id]. split; [intros H; split; [done|by apply Is_true_true]|].
  intros [_ H]. by apply Is_true_true.
Qed.

Lemma get_word_outside s X i :
  words_rep W n s X → i < 0 ∨ Z.of_nat n ≤ i → get_word i s = UB OutOfBounds.
Proof.
  intros [Hl _ _] Hi. unfold get_word, mbind, M_bind, mget.
  destruct (Z.ltb_spec i 0); [done|]. unfold moption. by rewrite lookup_ge_None_2 by lia.
Qed.

Lemma words_inj s X Y : words_rep W n s X → words_rep W n s Y → X = Y.
Proof. intros HX HY. apply set_eq. intros i. by rewrite (wr_bits _ _ _ _ HX), (wr_bits _ _ _ _ HY). Qed.

Lemma words_same s t X : words_rep W n s X → words_rep W n t X → s = t.
Proof.
  intros [Hs Ws Bs] [Ht Wt Bt]. apply list_eq. intros k.
  destruct (decide (k < n)%nat) as [Hk|Hk]; [|by rewrite !lookup_ge_None_2 by lia].
  destruct (lookup_lt_is_Some_2 s k) as [v Ev]; [lia|].
  destruct (lookup_lt_is_Some_2 t k) as [w Ew]; [lia|]. rewrite Ev, Ew. f_equal.
  pose proof (Forall_lookup_1 _ _ _ _ Ws Ev) as Hv. pose proof (Forall_lookup_1 _ _ _ _ Wt Ew) as Hw.
  cbn in Hv, Hw. apply Z.bits_inj'. intros b Hb.
  destruct (decide (b < W)) as [Hlt|Hge]; [|by rewrite !(testbit_high W) by lia].
  set (i := Z.of_nat k * W + b). assert (i / W = Z.of_nat k) as Ed.
  { symmetry. apply (Z.div_unique _ _ _ b); lia. }
  assert (i mod W = b) as Em by (symmetry; apply (Z.mod_unique _ _ (Z.of_nat k)); lia).
  assert (0 ≤ i < W * Z.of_nat n) as Hi by nia.
  assert (bit_in W s i = true ↔ bit_in W t i = true) as Hbit.
  { split; intros H; [apply Bt, Bs|apply Bs, Bt]; done. }
  unfold bit_in in Hbit. rewrite Ed, Em, Nat2Z.id, Ev, Ew in Hbit. cbn [from_option id] in Hbit.
  apply eq_true_iff_eq. exact Hbit.
Qed.

Lemma words_empty : words_rep W n (replicate n 0) ∅.
Proof.
  split; [apply length_replicate| |].
  - apply Forall_replicate. pose proof (pow2_pos W). lia.
  - intros i. split; [set_solver|]. intros [Hi Hb]. destruct (word_index i Hi) as [_ Hk].
    unfold bit_in in Hb. rewrite lookup_replicate_2 in Hb by done. cbn in Hb.
    by rewrite Z.bits_0 in Hb.
Qed.
End words.

(** ** The expressions of the macros *)

(** [m] has bit [b] and no other of the [W] bits. *)
Definition is_bit (W b m : Z) : Prop := ∀ n, 0 ≤ n < W → Z.testbit m n = (n =? b).

Lemma is_bit_wrap W V b m : 0 ≤ W ≤ V → is_bit W b m → is_bit W b (uwrap V m).
Proof. intros HW H n Hn. rewrite testbit_wrap by lia. split_bits. by apply H. Qed.

Lemma is_bit_shl W b : 0 ≤ b → is_bit W b (1 ≪ b).
Proof.
  intros Hb n Hn. rewrite testbit_shl by lia. destruct (Z.eqb_spec n b) as [->|Hne].
  - rewrite Z.sub_diag. by split_bits.
  - split_bits; try done. apply (testbit_high 1); [done|lia].
Qed.

Lemma is_bit_int W b : 0 ≤ W ≤ 32 → 0 ≤ b → is_bit W b (i32 (1 ≪ b)).
Proof. intros HW Hb n Hn. rewrite testbit_swrap by lia. by apply (is_bit_shl W). Qed.

Section masks.
Context (W b m w : Z) (Hb : 0 ≤ b < W) (Hw : 0 ≤ w < 2 ^ W) (Hm : is_bit W b m).

Ltac mask_bits n :=
  apply Z.bits_inj'; intros n Hn; rewrite testbit_put, testbit_wrap by lia;
  rewrite ?Z.lor_spec, ?Z.land_spec, ?Z.lnot_spec by lia;
  destruct (Z.ltb_spec n W); [rewrite Hm by lia|rewrite (testbit_high W w) by lia];
  destruct (Z.eqb_spec n b) as [->|Hne]; split_bits;
  rewrite ?Z.sub_diag, ?Z.bits_0, ?orb_true_r; done.

Lemma or_mask : uwrap W (w .| m) = put b 1 w 1.
Proof using Type*. mask_bits n. Qed.
Lemma and_mask : uwrap W (w .& Z.lnot m) = put b 1 w 0.
Proof using Type*. mask_bits n. Qed.
Lemma test_mask : negb (w .& m =? 0) = Z.testbit w b.
Proof using Type*.
  destruct (Z.testbit w b) eqn:E.
  - apply negb_true_iff, Z.eqb_neq. intros H0. apply (f_equal (λ y, Z.testbit y b)) in H0.
    rewrite Z.land_spec, E, Hm, Z.bits_0, Z.eqb_refl in H0 by lia. done.
  - apply negb_false_iff, Z.eqb_eq. apply Z.bits_inj'. intros n Hn. rewrite Z.land_spec, Z.bits_0.
    destruct (Z.ltb_spec n W); [|by rewrite (testbit_high W w) by lia].
    rewrite Hm by lia. destruct (Z.eqb_spec n b) as [->|]; [by rewrite E|apply andb_false_r].
Qed.
End masks.

Lemma wp_eq {St A} (m m' : M St A) s Q : m s = m' s → wp m' s Q → wp m s Q.
Proof. unfold wp. by intros ->. Qed.

(** What a macro does to the word of its number. *)
Section access.
Context (W : Z) (n : nat) (HW : 0 < W) (s : list Z) (X : gset Z) (HX : words_rep W n s X).
Context (i e m : Z) (mask : M (list Z) Z) (Hi : 0 ≤ i < W * Z.of_nat n) (He : e = i / W).
Context (Hmask : mask s = Ret (m, s)) (Hm : is_bit W (i mod W) m).

Lemma update_eq (f : Z → Z → Z) b :
  (∀ w, 0 ≤ w < 2 ^ W → f w m = put (i mod W) 1 w b) →
  (w ← get_word e; m ← mask; set_word e (f w m)) s = put_bit W i b s.
Proof using Type*.
  intros Hf. destruct (get_word_ok W n HW s X i HX Hi) as (w & _ & Eg & Hw). subst e.
  unfold put_bit. rewrite !(bind_eval _ _ _ _ _ Eg), (bind_eval _ _ _ _ _ Hmask). by rewrite Hf.
Qed.

Lemma test_eq {A} (f : Z → Z → A) (g : A → bool) :
  (∀ w, 0 ≤ w < 2 ^ W → g (f w m) = Z.testbit w (i mod W)) →
  (r ← (w ← get_word e; m ← mask; mret (f w m)); mret (g r)) s = take_bit W i s.
Proof using Type*.
  intros Hf. destruct (get_word_ok W n HW s X i HX Hi) as (w & _ & Eg & Hw). subst e.
  unfold take_bit. rewrite (bind_eval _ _ _ _ _ Eg).
  rewrite (bind_eval _ _ s (f w m) s); [unfold mret, M_ret; by rewrite Hf|].
  by rewrite (bind_eval _ _ _ _ _ Eg), (bind_eval _ _ _ _ _ Hmask).
Qed.
End access.

Lemma int_bit_ok {St} b (s : St) : 0 ≤ b < 32 → int_bit b s = Ret (i32 (1 ≪ b), s).
Proof.
  intros Hb. unfold int_bit. destruct (Z.leb_spec 0 b), (Z.ltb_spec b 32); try lia. done.
Qed.
Lemma ulong_bit_ok {St} b (s : St) : 0 ≤ b < 64 → ulong_bit b s = Ret (u64 (1 ≪ b), s).
Proof.
  intros Hb. unfold ulong_bit. destruct (Z.leb_spec 0 b), (Z.ltb_spec b 64); try lia. done.
Qed.

(** An access whose word or mask is not defined. *)
Lemma undefined_word {A} e s (f : Z → M (list Z) A) :
  (∃ w, get_word e s = UB w) → ∃ w, (get_word e ≫= f) s = UB w.
Proof. intros [w E]. exists w. by apply bind_ub. Qed.

(** ** Arrays of words are bit maps *)

(** The laws of an array of [n] words, from what its macros do to a word. *)
Section array.
Context (W : Z) (n : nat) (HW : 0 < W).
Context (zero : M (list Z) unit) (set clr : Z → M (list Z) unit) (test : Z → M (list Z) bool).

Definition array_map : BitMap := {|
  bm_state := list Z; bm_size := W * Z.of_nat n; bm_rep := words_rep W n;
  bm_zero := zero; bm_set := set; bm_clr := clr; bm_isset := test |}.

Context (zero_ok : ∀ s X, words_rep W n s X → zero s = Ret (tt, replicate n 0)).
Context (set_ok : ∀ s X i, words_rep W n s X → 0 ≤ i < W * Z.of_nat n → set i s = put_bit W i 1 s).
Context (clr_ok : ∀ s X i, words_rep W n s X → 0 ≤ i < W * Z.of_nat n → clr i s = put_bit W i 0 s).
Context (test_ok : ∀ s X i, words_rep W n s X → 0 ≤ i < W * Z.of_nat n → test i s = take_bit W i s).
Context (outside : ∀ s X i, words_rep W n s X → - 2 ^ 63 ≤ i < 2 ^ 63 → ¬ 0 ≤ i < W * Z.of_nat n →
  (∃ w, set i s = UB w) ∧ (∃ w, clr i s = UB w) ∧ (∃ w, test i s = UB w)).

Lemma array_laws : BitMapLaws array_map.
Proof using Type*.
  split; cbn.
  - intros s X i HX Hi. by apply HX.
  - intros s X Y. by apply words_inj.
  - intros s t X. by apply words_same.
  - intros s X HX. unfold wp. rewrite (zero_ok s X HX). by apply words_empty.
  - intros s X i HX Hi. eapply wp_eq; [by eapply set_ok|]. apply (put_bit_ok W n HW s X i 1); auto.
  - intros s X i HX Hi. eapply wp_eq; [by eapply clr_ok|]. apply (put_bit_ok W n HW s X i 0); auto.
  - intros s X i HX Hi. erewrite test_ok by done. by apply (take_bit_ok W n).
  - exact outside.
Qed.
End array.

Lemma clear_words_ok k i (s : list Z) :
  0 ≤ i → (Z.to_nat i + k ≤ length s)%nat →
  clear_words k i s = Ret (tt, take (Z.to_nat i) s ++ replicate k 0 ++ drop (Z.to_nat i + k) s).
Proof.
  revert i s. induction k as [|k IH]; intros i s Hi Hk; cbn [clear_words].
  - cbn [replicate app]. by rewrite Nat.add_0_r, take_drop.
  - destruct (lookup_lt_is_Some_2 s (Z.to_nat i)) as [w E]; [lia|].
    rewrite (bind_eval _ _ s tt (<[Z.to_nat i := 0]> s)).
    + rewrite IH by (rewrite ?length_insert; lia). do 2 f_equal.
      replace (Z.to_nat (i + 1)) with (S (Z.to_nat i)) by lia.
      rewrite (take_S_r _ _ 0), take_insert_ge, drop_insert_lt, <- app_assoc by
        first [lia | apply list_lookup_insert_eq; lia].
      by replace (Z.to_nat i + S k)%nat with (S (Z.to_nat i) + k)%nat by lia.
    + unfold set_word, get_word, mbind, M_bind, mget, moption.
      destruct (Z.ltb_spec i 0); [lia|]. by rewrite E.
Qed.

Lemma clear_all n s X W : words_rep W n s X → clear_words n 0 s = Ret (tt, replicate n 0).
Proof.
  intros HX. pose proof (wr_length _ _ _ _ HX). rewrite clear_words_ok by (cbn; lia).
  cbn [Z.to_nat take app Nat.add]. by rewrite drop_ge, app_nil_r by lia.
Qed.

Lemma fill_all n s X W v : words_rep W n s X → fill_words v s = Ret (tt, replicate n v).
Proof.
  intros HX. unfold fill_words, mmodify. do 2 f_equal. rewrite <- (wr_length _ _ _ _ HX).
  clear HX. induction s as [|w s IH]; [done|]. cbn. by f_equal.
Qed.

(** Signed numbers: above the array there is no word, below zero no word or no mask. *)
Lemma signed_outside {A} W n s X i (mask : Z → M (list Z) Z) (f : Z → Z → M (list Z) A) :
  0 < W → words_rep W n s X → ¬ 0 ≤ i < W * Z.of_nat n →
  (∀ b t, b < 0 → mask b t = UB IntOverflow) →
  ∃ w, (w ← get_word (Z.quot i W); m ← mask (Z.rem i W); f w m) s = UB w.
Proof.
  intros HW HX Hi Hmask. destruct (decide (0 ≤ i)) as [H0|H0].
  - exists OutOfBounds. apply bind_ub. apply (get_word_outside W n s X); [done|]. right.
    rewrite Z.quot_div_nonneg by lia. apply Z.div_le_lower_bound; lia.
  - assert (Z.quot i W = - (- i / W)) as Eq.
    { rewrite <- Z.quot_div_nonneg, Z.quot_opp_l by lia. lia. }
    destruct (decide (- i < W)) as [Hs|Hs].
    + assert (Z.rem i W = i) as Er.
      { rewrite <- (Z.opp_involutive i) at 1. rewrite Z.rem_opp_l by lia.
        rewrite Z.rem_small by lia. lia. }
      rewrite Eq, Er, Z.div_small by lia. change (- 0) with 0.
      destruct (get_word 0 s) as [[w s']|u|] eqn:E.
      * exists IntOverflow. rewrite (bind_eval _ _ _ _ _ E). apply bind_ub. apply Hmask. lia.
      * exists u. by apply bind_ub.
      * unfold get_word, mbind, M_bind, mget in E. cbn in E. unfold moption in E. by destruct (s !! _).
    + exists OutOfBounds. apply bind_ub. apply (get_word_outside W n s X); [done|]. left.
      rewrite Eq. assert (1 ≤ - i / W) by (apply Z.div_le_lower_bound; lia). lia.
Qed.

(** Unsigned numbers: a negative one is a large one. *)
Lemma unsigned_outside {A} W n s X i (f : Z → M (list Z) A) :
  0 < W → words_rep W n s X → W * Z.of_nat n ≤ 2 ^ 62 → - 2 ^ 63 ≤ i < 2 ^ 63 →
  ¬ 0 ≤ i < W * Z.of_nat n → ∃ w, (get_word (u64 i / W) ≫= f) s = UB w.
Proof.
  intros HW HX Hsz Hi Ho. exists OutOfBounds. apply bind_ub.
  apply (get_word_outside W n s X); [done|]. right. apply Z.div_le_lower_bound; [done|].
  destruct (decide (0 ≤ i)); [rewrite uwrap_small by lia; lia|].
  assert (u64 i = i + 2 ^ 64) as ->.
  { unfold uwrap. symmetry. apply (Z.mod_unique _ _ (-1)); lia. }
  lia.
Qed.

(** A test of a number outside is undefined however its result is used. *)
Lemma test_undefined {A B} (m : M (list Z) A) (f : A → M (list Z) B) s :
  (∃ w, m s = UB w) → ∃ w, (m ≫= f) s = UB w.
Proof. intros [w E]. exists w. by apply bind_ub. Qed.

(** ** The headers *)

Definition fd_map : BitMap :=
  array_map 64 16 FD_ZERO FD_SET FD_CLR (λ i, r ← FD_ISSET i; mret r).
(** An array of [n] bytes for [setbit]; clearing it is up to the program. *)
Definition byte_map (n : nat) : BitMap :=
  array_map 8 n (fill_words 0) setbit clrbit (λ i, r ← isset i; mret (negb (r =? 0))).
Definition sctp_map : BitMap :=
  array_map 32 chunkmap_words SCTP_CHUNKMAP_RESET SCTP_CHUNKMAP_SET SCTP_CHUNKMAP_CLEAR
    (λ i, r ← SCTP_CHUNKMAP_IS_SET i; mret (negb (r =? 0))).
Definition if_map : BitMap :=
  array_map 32 8 IF_ZERO IF_SET IF_CLR (λ i, r ← IF_ISSET i; mret (negb (r =? 0))).

Lemma not_w_and W w m : 0 ≤ W → 0 ≤ w < 2 ^ W → w .& not_w W m = uwrap W (w .& Z.lnot m).
Proof. intros HW Hw. by_bits n; by rewrite (testbit_high W w) by lia. Qed.

Lemma is_bit_high W b m w :
  0 ≤ b < W → 0 ≤ w < 2 ^ W → 0 ≤ m < 2 ^ W → w .| m = uwrap W (w .| m).
Proof.
  intros Hb Hw Hm. by_bits n. rewrite (testbit_high W w), (testbit_high W m) by lia. done.
Qed.

(** A number of a signed type. *)
Lemma signed_index W n i :
  0 < W → 0 ≤ i < W * n → Z.quot i W = i / W ∧ Z.rem i W = i mod W.
Proof. intros HW Hi. by rewrite Z.quot_div_nonneg, Z.rem_mod_nonneg by lia. Qed.

#[export] Instance fd_laws : BitMapLaws fd_map.
Proof.
  assert (∀ i s, 0 ≤ i < 64 * Z.of_nat 16 →
    __FD_MASK i s = Ret (u64 (1 ≪ (i mod 64)), s) ∧ __FD_ELT i = i / 64 ∧
    is_bit 64 (i mod 64) (u64 (1 ≪ (i mod 64))) ∧ 0 ≤ i mod 64 < 64) as Hd.
  { intros i s Hi. pose proof (Z.mod_pos_bound i 64 eq_refl).
    destruct (signed_index 64 16 i) as [Eq Er]; [done|lia|].
    unfold __FD_MASK, __FD_ELT. change __NFDBITS with 64. rewrite Eq, Er.
    split; [by apply ulong_bit_ok|]. split; [done|]. split; [|done].
    apply is_bit_wrap; [done|]. apply is_bit_shl. lia. }
  apply array_laws; [done|..].
  - intros s X HX. by eapply (clear_all 16 s X 64).
  - intros s X i HX Hi. destruct (Hd i s Hi) as (Em & Ee & Hb & Hr).
    apply (update_eq 64 16 ltac:(done) s X HX i _ _ _ Hi Ee Em Hb). intros w Hw.
    rewrite (is_bit_high 64 (i mod 64)) by (done || by apply (uwrap_range 64)). by apply or_mask.
  - intros s X i HX Hi. destruct (Hd i s Hi) as (Em & Ee & Hb & Hr).
    apply (update_eq 64 16 ltac:(done) s X HX i _ _ _ Hi Ee Em Hb (λ w m, w .& not_w 64 m)).
    intros w Hw. rewrite not_w_and by done. by apply and_mask.
  - intros s X i HX Hi. destruct (Hd i s Hi) as (Em & Ee & Hb & Hr).
    apply (test_eq 64 16 ltac:(done) s X HX i _ _ _ Hi Ee Em Hb (λ w m, negb (w .& m =? 0)) id).
    intros w Hw. by apply (test_mask 64).
  - intros s X i HX _ Ho. assert (∀ b t, b < 0 → ulong_bit b t = (UB IntOverflow : outcome (Z * list Z))).
    { intros b t Hb. unfold ulong_bit. destruct (Z.leb_spec 0 b); [lia|done]. }
    split; [|split; [|apply test_undefined]]; by apply (signed_outside 64 16 s X).
Qed.

Lemma int_bit_negative {St} b (t : St) : b < 0 → int_bit b t = (UB IntOverflow : outcome (Z * St)).
Proof. intros Hb. unfold int_bit. destruct (Z.leb_spec 0 b); [lia|done]. Qed.

#[export] Instance byte_laws n : BitMapLaws (byte_map n).
Proof.
  assert (∀ i (s : list Z), 0 ≤ i < 8 * Z.of_nat n →
    int_bit (Z.rem i NBBY) s = Ret (i32 (1 ≪ (i mod 8)), s) ∧ Z.quot i NBBY = i / 8 ∧
    is_bit 8 (i mod 8) (i32 (1 ≪ (i mod 8))) ∧ 0 ≤ i mod 8 < 8) as Hd.
  { intros i s Hi. pose proof (Z.mod_pos_bound i 8 eq_refl).
    destruct (signed_index 8 (Z.of_nat n) i) as [Eq Er]; [done|lia|]. change NBBY with 8.
    rewrite Eq, Er. split; [apply int_bit_ok; lia|]. split; [done|]. split; [|done].
    apply is_bit_int; lia. }
  apply array_laws; [done|..].
  - intros s X HX. by eapply (fill_all n s X 8).
  - intros s X i HX Hi. destruct (Hd i s Hi) as (Em & Ee & Hb & Hr).
    apply (update_eq 8 n ltac:(done) s X HX i _ _ _ Hi Ee Em Hb (λ w m, u8 (w .| m))).
    intros w Hw. by apply (or_mask 8).
  - intros s X i HX Hi. destruct (Hd i s Hi) as (Em & Ee & Hb & Hr).
    apply (update_eq 8 n ltac:(done) s X HX i _ _ _ Hi Ee Em Hb (λ w m, u8 (w .& Z.lnot m))).
    intros w Hw. by apply (and_mask 8).
  - intros s X i HX Hi. destruct (Hd i s Hi) as (Em & Ee & Hb & Hr).
    apply (test_eq 8 n ltac:(done) s X HX i _ _ _ Hi Ee Em Hb Z.land (λ r, negb (r =? 0))).
    intros w Hw. by apply (test_mask 8).
  - intros s X i HX _ Ho. pose proof (@int_bit_negative (list Z)).
    split; [|split; [|apply test_undefined]]; by apply (signed_outside 8 n s X).
Qed.

(** The two maps of 32 bit words with an unsigned number differ in what the test returns. *)
Section words_32.
Context (n : nat) (Hn : 32 * Z.of_nat n ≤ 2 ^ 62) (test : Z → Z).
Context (Htest : ∀ x, negb (test x =? 0) = negb (x =? 0)).

Let set i := w ← get_word (u64 i / 32); m ← int_bit (u64 i mod 32); set_word (u64 i / 32) (u32 (w .| m)).
Let clr i :=
  w ← get_word (u64 i / 32); m ← int_bit (u64 i mod 32); set_word (u64 i / 32) (u32 (w .& Z.lnot m)).
Let get i := w ← get_word (u64 i / 32); m ← int_bit (u64 i mod 32); mret (test (w .& u32 m)).

Lemma words_32_laws :
  BitMapLaws (array_map 32 n (fill_words 0) set clr (λ i, r ← get i; mret (negb (r =? 0)))).
Proof using Hn Htest.
  assert (∀ i (s : list Z), 0 ≤ i < 32 * Z.of_nat n →
    int_bit (u64 i mod 32) s = Ret (i32 (1 ≪ (i mod 32)), s) ∧ u64 i / 32 = i / 32 ∧
    is_bit 32 (i mod 32) (i32 (1 ≪ (i mod 32))) ∧ 0 ≤ i mod 32 < 32) as Hd.
  { intros i s Hi. pose proof (Z.mod_pos_bound i 32 eq_refl). rewrite (uwrap_small 64 i) by lia.
    split; [by apply int_bit_ok|]. split; [done|]. split; [|done]. apply is_bit_int; lia. }
  apply array_laws; [done|..].
  - intros s X HX. by eapply (fill_all n s X 32).
  - intros s X i HX Hi. destruct (Hd i s Hi) as (Em & Ee & Hb & Hr).
    apply (update_eq 32 n ltac:(done) s X HX i _ _ _ Hi Ee Em Hb (λ w m, u32 (w .| m))).
    intros w Hw. by apply (or_mask 32).
  - intros s X i HX Hi. destruct (Hd i s Hi) as (Em & Ee & Hb & Hr).
    apply (update_eq 32 n ltac:(done) s X HX i _ _ _ Hi Ee Em Hb (λ w m, u32 (w .& Z.lnot m))).
    intros w Hw. by apply (and_mask 32).
  - intros s X i HX Hi. destruct (Hd i s Hi) as (Em & Ee & Hb & Hr).
    apply (test_eq 32 n ltac:(done) s X HX i _ _ _ Hi Ee Em Hb (λ w m, test (w .& u32 m))
             (λ r, negb (r =? 0))).
    intros w Hw. rewrite Htest. apply (test_mask 32); [done|done|]. by apply is_bit_wrap.
  - intros s X i HX Hi Ho.
    split; [|split; [|apply test_undefined]]; by apply (unsigned_outside 32 n s X).
Qed.
End words_32.

#[export] Instance sctp_laws : BitMapLaws sctp_map.
Proof. apply (words_32_laws chunkmap_words ltac:(done) (λ x, if x =? 0 then 0 else 1)). by intros []. Qed.
#[export] Instance if_laws : BitMapLaws if_map.
Proof. by apply (words_32_laws 8 ltac:(done) (λ x, x)). Qed.

(** ** One word of interfaces *)

(** Bit 31 is the sign of the mask, so that it stands for all the bits above as well. *)
Record vif_rep (m : Z) (X : gset Z) : Prop := {
  vr_word : 0 ≤ m < 2 ^ 64;
  vr_high : ∀ n, 32 ≤ n < 64 → Z.testbit m n = Z.testbit m 31;
  vr_bits : ∀ i, i ∈ X ↔ 0 ≤ i < 32 ∧ Z.testbit m i = true }.

Definition vif_map : BitMap := {|
  bm_state := Z; bm_size := 32; bm_rep := vif_rep; bm_zero := VIFM_CLRALL; bm_set := VIFM_SET;
  bm_clr := VIFM_CLR; bm_isset := λ i, r ← VIFM_ISSET i; mret (negb (r =? 0)) |}.

(** The bits of the mask, as converted. *)
Lemma vif_mask_bit i n :
  0 ≤ i < 32 → 0 ≤ n < 64 →
  Z.testbit (u64 (i32 (1 ≪ i))) n = (n =? i) || (i =? 31) && (32 <=? n).
Proof.
  intros Hi Hn. rewrite testbit_wrap by lia. destruct (Z.ltb_spec n 64); [|lia]. cbn [andb].
  destruct (decide (i = 31)) as [->|Hne].
  - change (i32 (1 ≪ 31)) with (Z.lnot (Z.ones 31)). rewrite Z.lnot_spec, testbit_ones by lia.
    destruct (Z.ltb_spec n 31), (Z.eqb_spec n 31), (Z.leb_spec 32 n); cbn; lia || done.
  - replace (i32 (1 ≪ i)) with (1 ≪ i).
    + rewrite (is_bit_shl 64 i) by lia. destruct (Z.eqb_spec i 31); [lia|]. cbn. by rewrite orb_false_r.
    + symmetry. apply swrap_small; [done|]. rewrite Z.shiftl_mul_pow2 by lia.
      pose proof (Z.pow_le_mono_r 2 i 30). pose proof (pow2_pos i). lia.
Qed.

Lemma vif_same m1 m2 X : vif_rep m1 X → vif_rep m2 X → m1 = m2.
Proof.
  intros [H1 T1 B1] [H2 T2 B2]. apply Z.bits_inj'. intros n Hn.
  assert (∀ i, 0 ≤ i < 32 → Z.testbit m1 i = Z.testbit m2 i) as Hlow.
  { intros i Hi. apply eq_true_iff_eq. split; intros H.
    - apply B2, B1. auto.
    - apply B1, B2. auto. }
  destruct (decide (n < 32)); [by apply Hlow|].
  destruct (decide (n < 64)); [|by rewrite !(testbit_high 64) by lia].
  rewrite T1, T2 by lia. apply Hlow. lia.
Qed.

(** Setting and clearing, bit by bit. *)
Lemma vif_update m X i (b : bool) :
  vif_rep m X → 0 ≤ i < 32 →
  vif_rep (if b then m .| u64 (i32 (1 ≪ i)) else m .& u64 (Z.lnot (i32 (1 ≪ i))))
          (if b then {[i]} ∪ X else X ∖ {[i]}).
Proof.
  intros [Hm Ht Hb] Hi. set (m' := if b then _ else _).
  assert (∀ n, 0 ≤ n < 64 → Z.testbit m' n =
    if (n =? i) || (i =? 31) && (32 <=? n) then b else Z.testbit m n) as Hbit.
  { intros n Hn. pose proof (vif_mask_bit i n Hi Hn) as Hv. revert Hv.
    generalize ((n =? i) || (i =? 31) && (32 <=? n)). intros c Hv. unfold m'. destruct b.
    - rewrite Z.lor_spec, Hv. destruct c; [apply orb_true_r|apply orb_false_r].
    - rewrite Z.land_spec, testbit_wrap, Z.lnot_spec by lia.
      rewrite testbit_wrap in Hv by lia. destruct (Z.ltb_spec n 64); [|lia]. cbn [andb] in *.
      rewrite Hv. destruct c; [apply andb_false_r|apply andb_true_r]. }
  split.
  - apply word_range; [done| |].
    + unfold m'. destruct b; [apply Z.lor_nonneg; split; [lia|by apply (uwrap_range 64)]|].
      apply Z.land_nonneg. lia.
    + intros n Hn. unfold m'. destruct b; rewrite ?Z.lor_spec, ?Z.land_spec;
        rewrite (testbit_high 64 m) by lia; [|done].
      rewrite testbit_wrap by lia. destruct (Z.ltb_spec n 64); [lia|done].
  - intros n Hn. rewrite !Hbit, (Z.eqb_sym i 31) by lia.
    destruct (Z.eqb_spec n i), (Z.leb_spec 32 n), (Z.eqb_spec 31 i); try lia; [done|]. by apply Ht.
  - intros j. split.
    + intros Hj. assert (0 ≤ j < 32) as Hr.
      { destruct b; [apply elem_of_union in Hj as [->%elem_of_singleton|Hj]; [done|]|
          apply elem_of_difference in Hj as [Hj _]]; by apply Hb in Hj as [? _]. }
      split; [done|]. rewrite Hbit by lia. destruct (Z.leb_spec 32 j); [lia|].
      rewrite andb_false_r, orb_false_r. destruct (Z.eqb_spec j i) as [->|Hne].
      * destruct b; [done|set_solver].
      * apply Hb. destruct b; set_solver.
    + intros [Hr Hj]. rewrite Hbit in Hj by lia. destruct (Z.leb_spec 32 j); [lia|].
      rewrite andb_false_r, orb_false_r in Hj. destruct (Z.eqb_spec j i) as [->|Hne].
      * subst b. set_solver.
      * assert (j ∈ X) by (by apply Hb). destruct b; set_solver.
Qed.

#[export] Instance vif_laws : BitMapLaws vif_map.
Proof.
  split; cbn.
  - intros s X i HX Hi. by apply HX.
  - intros s X Y HX HY. apply set_eq. intros i. by rewrite (vr_bits _ _ HX), (vr_bits _ _ HY).
  - exact vif_same.
  - intros s X _. split; [done|intros; by rewrite !Z.bits_0|].
    intros i. rewrite Z.bits_0. set_solver.
  - intros s X i HX Hi. unfold VIFM_SET. apply wp_bind, wp_run. eexists _, _.
    split; [by apply int_bit_ok|]. apply wp_modify. by apply (vif_update s X i true).
  - intros s X i HX Hi. unfold VIFM_CLR. apply wp_bind, wp_run. eexists _, _.
    split; [by apply int_bit_ok|]. apply wp_modify. by apply (vif_update s X i false).
  - intros s X i HX Hi. unfold VIFM_ISSET.
    rewrite (bind_eval _ _ s (s .& u64 (i32 (1 ≪ i))) s);
      [|by rewrite (bind_eval _ _ _ _ _ (int_bit_ok i s Hi))].
    unfold mret, M_ret. do 2 f_equal. apply eq_bool_prop_intro.
    rewrite bool_decide_spec, (vr_bits _ _ HX). split.
    + intros H%Is_true_true. split; [done|]. apply negb_true_iff, Z.eqb_neq in H.
      apply not_false_is_true. intros Hf. apply H. apply Z.bits_inj'. intros n Hn.
      rewrite Z.land_spec, Z.bits_0.
      destruct (decide (n < 64)); [|by rewrite (testbit_high 64 s) by (apply HX || lia)].
      rewrite vif_mask_bit by lia. destruct (Z.eqb_spec n i) as [->|]; [by rewrite Hf|].
      destruct (Z.eqb_spec i 31) as [->|]; [|apply andb_false_r].
      destruct (Z.leb_spec 32 n); [|apply andb_false_r].
      by rewrite (vr_high _ _ HX), Hf by lia.
    + intros [_ H]. apply Is_true_true, negb_true_iff, Z.eqb_neq. intros H0.
      apply (f_equal (λ y, Z.testbit y i)) in H0.
      rewrite Z.land_spec, H, Z.bits_0, vif_mask_bit, Z.eqb_refl in H0 by lia. done.
  - intros s X i _ _ Ho.
    assert (int_bit i s = (UB IntOverflow : outcome (Z * Z))) as E.
    { unfold int_bit. destruct (Z.leb_spec 0 i), (Z.ltb_spec i 32); lia || done. }
    split; [|split]; exists IntOverflow; [by apply bind_ub|by apply bind_ub|].
    by apply bind_ub, bind_ub.
Qed.

(** ** Programs on bit maps *)

Inductive bm_command : Type := BZero | BSet (i : Z) | BClr (i : Z) | BTest (i : Z).

Definition bm_perform (B : BitMap) (c : bm_command) : M (bm_state B) (list bool) :=
  match c with
  | BZero => bm_zero B;; mret []
  | BSet i => bm_set B i;; mret []
  | BClr i => bm_clr B i;; mret []
  | BTest i => b ← bm_isset B i; mret [b]
  end.
Fixpoint bm_run (B : BitMap) (cs : list bm_command) : M (bm_state B) (list bool) :=
  match cs with
  | [] => mret []
  | c :: cs => b ← bm_perform B c; bs ← bm_run B cs; mret (b ++ bs)
  end.

(** The same on sets of numbers. *)
Fixpoint set_run (X : gset Z) (cs : list bm_command) : list bool * gset Z :=
  match cs with
  | [] => ([], X)
  | BZero :: cs => set_run ∅ cs
  | BSet i :: cs => set_run ({[i]} ∪ X) cs
  | BClr i :: cs => set_run (X ∖ {[i]}) cs
  | BTest i :: cs => let r := set_run X cs in (bool_decide (i ∈ X) :: r.1, r.2)
  end.

Definition number (c : bm_command) : option Z :=
  match c with BZero => None | BSet i | BClr i | BTest i => Some i end.
Definition fits (B : BitMap) (c : bm_command) : Prop :=
  match number c with Some i => 0 ≤ i < bm_size B | None => True end.

Section programs.
Context (B : BitMap) {L : BitMapLaws B}.

Lemma bm_run_ok cs s X :
  bm_rep B s X → Forall (fits B) cs →
  wp (bm_run B cs) s (λ bs s', bs = (set_run X cs).1 ∧ bm_rep B s' (set_run X cs).2).
Proof.
  intros HX H. revert s X HX. induction H as [|c cs Hc _ IH]; intros s X HX; [by apply wp_ret|].
  cbn [bm_run]. apply wp_bind.
  assert (wp (bm_perform B c) s (λ b s', ∃ Y, bm_rep B s' Y ∧
    b ++ (set_run Y cs).1 = (set_run X (c :: cs)).1 ∧ (set_run Y cs).2 = (set_run X (c :: cs)).2)) as Hw.
  { destruct c as [|i|i|i]; cbn [bm_perform set_run]; apply wp_bind.
    - eapply wp_mono; [by eapply bl_zero|]. intros ? s' Hs'. apply wp_ret. eexists. split; [exact Hs'|done].
    - eapply wp_mono; [by eapply bl_set|]. intros ? s' Hs'. apply wp_ret. eexists. split; [exact Hs'|done].
    - eapply wp_mono; [by eapply bl_clr|]. intros ? s' Hs'. apply wp_ret. eexists. split; [exact Hs'|done].
    - apply wp_run. exists (bool_decide (i ∈ X)), s. split; [by apply bl_isset|].
      apply wp_ret. by exists X. }
  eapply wp_mono; [exact Hw|]. intros b s' (Y & HY & E1 & E2). apply wp_bind.
  eapply wp_mono; [by apply IH|]. intros bs s2 [-> H2]. apply wp_ret. rewrite <- E1, <- E2. done.
Qed.
End programs.

(** The headers; [sys/param.h] for an array of each length. *)
Inductive map_header : Type := Select | Param (n : nat) | Sctp | Mroute6 | Mroute.
Definition map_of (h : map_header) : BitMap :=
  match h with
  | Select => fd_map | Param n => byte_map n | Sctp => sctp_map | Mroute6 => if_map
  | Mroute => vif_map
  end.
#[export] Instance map_of_laws h : BitMapLaws (map_of h).
Proof. destruct h; exact _. Qed.

(** C29: any program of the macros of a header computes on the array what the same commands
    compute on a set of numbers, as long as the numbers fit; two arrays hold the same set
    exactly if they are equal; and a number that does not fit is never silently accepted: the
    access is outside the array, or the shift is undefined. *)
Theorem bit_maps_refine_sets (h : map_header) (cs : list bm_command) (s t : bm_state (map_of h))
    (X Y : gset Z) :
  bm_rep (map_of h) s X → bm_rep (map_of h) t Y →
  (Forall (fits (map_of h)) cs →
   wp (bm_run (map_of h) cs) s (λ bs s',
     bs = (set_run X cs).1 ∧ bm_rep (map_of h) s' (set_run X cs).2)) ∧
  (s = t ↔ X = Y) ∧
  (∀ c i, number c = Some i → - 2 ^ 63 ≤ i < 2 ^ 63 → ¬ fits (map_of h) c →
     ∃ w, bm_perform (map_of h) c s = UB w).
Proof.
  intros HX HY. split; [intros H; by apply (bm_run_ok _ cs s X)|]. split.
  - split; intros E; [rewrite <- E in HY; by eapply bl_inj|rewrite <- E in HY; by eapply bl_same].
  - intros c i Hc Hi Ho. unfold fits in Ho. rewrite Hc in Ho.
    destruct (bl_outside s X i HX Hi Ho) as ([w1 H1] & [w2 H2] & [w3 H3]).
    destruct c as [|j|j|j]; [done|..]; injection Hc as Ej; subst j; cbn [bm_perform];
      eexists; apply bind_ub; eassumption.
Qed.

Lemma bit_maps_refine_sets_witness :
  wp (bm_run fd_map [BSet 5; BSet 1023; BClr 5; BTest 5; BTest 1023]) (replicate 16 0) (λ bs s',
    bs = [false; true] ∧ words_rep 64 16 s' ({[1023]} ∪ ({[5]} ∪ ∅) ∖ {[5]})) ∧
  (∃ w, bm_perform fd_map (BSet 1024) (replicate 16 0) = UB w).
Proof.
  destruct (bit_maps_refine_sets Select [BSet 5; BSet 1023; BClr 5; BTest 5; BTest 1023]
              (replicate 16 0) (replicate 16 0) ∅ ∅) as (H & _ & Ho).
  - by apply (words_empty 64 16).
  - by apply (words_empty 64 16).
  - split; [|by apply (Ho (BSet 1024) 1024); vm_compute; intuition].
    eapply wp_mono; [apply H; repeat constructor; by vm_compute|].
    intros bs s' [-> Hr]. split; [done|].
    replace ({[1023]} ∪ ({[5]} ∪ ∅) ∖ {[5]} : gset Z) with (({[1023]} ∪ ({[5]} ∪ ∅)) ∖ {[5]} : gset Z)
      by set_solver. exact Hr.
Defined.

(** ** Whole maps of chunk types *)

Lemma all_words_are_ok k i v (s : list Z) :
  0 ≤ i → (Z.to_nat i + k ≤ length s)%nat →
  all_words_are k i v s =
  Ret (bool_decide (take k (drop (Z.to_nat i) s) = replicate k v), s).
Proof.
  revert i. induction k as [|k IH]; intros i Hi Hk; [done|]. cbn [all_words_are].
  destruct (lookup_lt_is_Some_2 s (Z.to_nat i)) as [w E]; [lia|].
  rewrite (bind_eval _ _ s w s).
  - rewrite (drop_S _ _ _ E). cbn [take replicate]. destruct (Z.eqb_spec w v) as [->|Hne]; cbn [negb].
    + rewrite IH by lia. replace (Z.to_nat (i + 1)) with (S (Z.to_nat i)) by lia.
      do 2 f_equal. apply bool_decide_ext. split; [by intros ->|by intros [= ->]].
    + unfold mret, M_ret. do 2 f_equal. rewrite bool_decide_eq_false_2; [done|]. by intros [= ? ?].
  - unfold get_word, mbind, M_bind, mget, moption. destruct (Z.ltb_spec i 0); [lia|]. by rewrite E.
Qed.

Lemma whole_map v s X :
  words_rep 32 chunkmap_words s X →
  all_words_are (Z.to_nat (Z.of_nat (length s))) 0 v s =
  Ret (bool_decide (s = replicate chunkmap_words v), s).
Proof.
  intros HX. pose proof (wr_length _ _ _ _ HX) as Hl. rewrite all_words_are_ok by lia.
  change (Z.to_nat 0) with 0%nat. rewrite drop_0, Nat2Z.id, firstn_all, Hl. done.
Qed.

(** The numbers that a map has bits for. *)
Definition all_numbers : gset Z := list_to_set (seqZ 0 2048).

Lemma elem_of_all_numbers i : i ∈ all_numbers ↔ 0 ≤ i < 2048.
Proof. unfold all_numbers. rewrite elem_of_list_to_set, elem_of_seqZ. lia. Qed.

Lemma all_numbers_rep : words_rep 32 chunkmap_words (replicate chunkmap_words (2 ^ 32 - 1)) all_numbers.
Proof.
  split.
  - apply length_replicate.
  - apply Forall_replicate. lia.
  - intros i. rewrite elem_of_all_numbers.
    change (32 * Z.of_nat chunkmap_words) with 2048. split; [|lia].
    intros Hi. split; [lia|]. destruct (word_index 32 chunkmap_words ltac:(done) i) as [H0 Hk].
    { change (32 * Z.of_nat chunkmap_words) with 2048. lia. }
    unfold bit_in. rewrite lookup_replicate_2 by done. cbn [from_option id].
    change (2 ^ 32 - 1) with (Z.ones 32). pose proof (Z.mod_pos_bound i 32 eq_refl).
    rewrite testbit_ones by lia. apply Z.ltb_lt. lia.
Qed.

(** The chunk types, as numbers of a byte. *)
Definition chunk_types : list Z := seqZ 0 256.

Lemma elem_of_chunk_types i : i ∈ chunk_types ↔ 0 ≤ i < 256.
Proof. unfold chunk_types. rewrite elem_of_seqZ. lia. Qed.

Lemma set_all_types X :
  (set_run X (BSet <$> chunk_types)).2 = list_to_set chunk_types ∪ X.
Proof.
  generalize chunk_types. intros l. revert X. induction l as [|i l IH]; intros X; [set_solver|].
  change (BSet <$> i :: l) with (BSet i :: (BSet <$> l)). cbn [set_run]. rewrite IH. set_solver.
Qed.

(** A number that is no chunk type, and that a map has a bit for. *)
Lemma types_not_all : list_to_set chunk_types ∪ (∅ : gset Z) ≠ all_numbers.
Proof.
  intros E. assert (300 ∈ list_to_set chunk_types ∪ (∅ : gset Z)) as Hin.
  { rewrite E. apply elem_of_all_numbers. lia. }
  apply elem_of_union in Hin as [Hin|Hin]; [|by apply not_elem_of_empty in Hin].
  apply elem_of_list_to_set, elem_of_chunk_types in Hin. lia.
Qed.

#[local] Opaque all_numbers chunk_types.

(** The tests of a whole map of chunk types: it is clear exactly if it has no number, and
    all set exactly if it has all 2048 numbers its words have bits for.  A chunk type is one
    byte, so that setting every type there is does not make the map all set, while
    [SCTP_CHUNKMAP_SET_ALL] does. *)
Theorem chunkmap_whole (s : list Z) (X : gset Z) :
  words_rep 32 chunkmap_words s X →
  SCTP_CHUNKMAP_IS_CLEAR s = Ret (bool_decide (X = ∅), s) ∧
  SCTP_CHUNKMAP_IS_ALL_SET s = Ret (bool_decide (X = all_numbers), s) ∧
  wp (SCTP_CHUNKMAP_RESET;; bm_run sctp_map (BSet <$> chunk_types);; SCTP_CHUNKMAP_IS_ALL_SET) s
    (λ b s', b = false ∧ ∀ i, 0 ≤ i < 256 → bm_isset sctp_map i s' = Ret (true, s')) ∧
  wp (SCTP_CHUNKMAP_SET_ALL;; SCTP_CHUNKMAP_IS_ALL_SET) s (λ b _, b = true).
Proof.
  assert (∀ s X, words_rep 32 chunkmap_words s X →
    SCTP_CHUNKMAP_IS_ALL_SET s = Ret (bool_decide (X = all_numbers), s)) as Hall.
  { clear s X. intros s X HX. unfold SCTP_CHUNKMAP_IS_ALL_SET, __sctp_chunkmap_is_all_set.
    rewrite (bind_eval _ _ _ _ _ eq_refl), (whole_map _ s X HX). do 2 f_equal. apply bool_decide_ext.
    pose proof all_numbers_rep as Hf. split; intros E.
    - rewrite E in HX. by eapply words_inj.
    - rewrite E in HX. by eapply (words_same 32). }
  intros HX. split; [|split; [by apply Hall|split]].
  - unfold SCTP_CHUNKMAP_IS_CLEAR, __sctp_chunkmap_is_clear.
    rewrite (bind_eval _ _ _ _ _ eq_refl), (whole_map _ s X HX). do 2 f_equal. apply bool_decide_ext.
    pose proof (words_empty 32 chunkmap_words ltac:(done)) as He. split; intros E.
    + rewrite E in HX. by eapply words_inj.
    + rewrite E in HX. by eapply (words_same 32).
  - apply wp_bind. eapply wp_mono; [by apply (bl_zero (B := sctp_map) s X)|]. intros [] s1 H1.
    apply wp_bind. eapply wp_mono.
    { apply (bm_run_ok sctp_map _ s1 ∅ H1). apply Forall_fmap, list.Forall_forall.
      intros i Hi. apply elem_of_chunk_types in Hi. change (0 ≤ i < 2048). lia. }
    intros bs s2 [_ H2]. rewrite set_all_types in H2.
    apply wp_run. exists false, s2. split; [|split; [done|]].
    + rewrite (Hall _ _ H2), bool_decide_eq_false_2; [done|]. intros E.
      by destruct (types_not_all E).
    + intros i Hi. rewrite (bl_isset (B := sctp_map) s2 _ i H2)
        by (change (bm_size sctp_map) with 2048; lia). do 2 f_equal.
      apply bool_decide_eq_true_2. by apply elem_of_union_l, elem_of_list_to_set, elem_of_chunk_types.
  - apply wp_bind, wp_run. exists tt, (replicate chunkmap_words (2 ^ 32 - 1)).
    split; [by apply (fill_all chunkmap_words s X 32)|].
    apply wp_run. exists true, (replicate chunkmap_words (2 ^ 32 - 1)). split; [|done].
    rewrite (Hall _ _ all_numbers_rep). by rewrite bool_decide_eq_true_2.
Qed.

Lemma chunkmap_whole_witness :
  SCTP_CHUNKMAP_IS_CLEAR (replicate 64 0) = Ret (true, replicate 64 0) ∧
  wp (SCTP_CHUNKMAP_SET_ALL;; SCTP_CHUNKMAP_IS_ALL_SET) (replicate 64 0) (λ b _, b = true).
Proof.
  destruct (chunkmap_whole (replicate 64 0) ∅) as (H1 & _ & _ & H2).
  - by apply (words_empty 32 64).
  - by split.
Defined.

(** ** Rounding *)

Lemma powerof2_spec y : 0 < y → powerof2 y = true → ∃ k, 0 ≤ k ∧ y = 2 ^ k.
Proof.
  intros Hy H. apply Z.eqb_eq in H. exists (Z.log2 y). split; [apply Z.log2_nonneg|].
  destruct (Z.log2_spec y Hy) as [Hlo Hhi]. destruct (decide (2 ^ Z.log2 y < y)) as [Hlt|]; [|lia].
  exfalso. apply (f_equal (λ x, Z.testbit x (Z.log2 y))) in H.
  rewrite Z.land_spec, Z.bits_0, Z.bit_log2 in H by lia.
  assert (Z.log2 (y - 1) = Z.log2 y) as E by (apply Z.log2_unique; [apply Z.log2_nonneg|lia]).
  rewrite <- E, Z.bit_log2 in H; [done|]. pose proof (pow2_pos (Z.log2 y) (Z.log2_nonneg y)). lia.
Qed.

(** Both versions of [roundup], whatever the compiler knows, give the next multiple, and
    [howmany] counts them. *)
Lemma roundup_align gnuc constant_y x y :
  0 ≤ x → 0 < y →
  roundup gnuc constant_y x y = align_up y x ∧ howmany x y * y = align_up y x.
Proof.
  intros Hx Hy. unfold roundup, howmany, align_up.
  replace (x + (y - 1)) with (x + y - 1) by lia. rewrite Z.quot_div_nonneg by lia.
  split; [|done]. destruct (gnuc && constant_y && powerof2 y) eqn:E; [|done].
  apply andb_true_iff in E as [_ E]. destruct (powerof2_spec y Hy E) as (k & Hk & ->).
  replace (2 ^ k - 1) with (Z.ones k) by (rewrite Z.ones_equiv; lia).
  rewrite <- Z.ldiff_land. rewrite Z.ldiff_ones_r by done.
  by rewrite Z.shiftl_mul_pow2, Z.shiftr_div_pow2 by done.
Qed.
