(* ===== verification/Sequencer.v ===== *)
(** * The sequencer macros of [linux/soundcard.h]

    The macros that format events for [/dev/sequencer] into the buffer of the program.  The
    program supplies [seqbuf_dump], which writes the buffer to the device and empties it, and
    the device; both are an interface.  The macros come in two versions: with a buffer of many
    events, and ([USE_SIMPLE_MACROS]) with a fixed buffer for one event.  The stream that
    reaches the device is the events in order, each a record of 4 or 8 bytes. *)

From Stdlib Require Import ZArith Lia.
From stdpp Require Import base list numbers strings.
From S2P Require Import Prelude Bits ByteOrder ByteOrderSpec ByteOrderMem.

#[local] Open Scope c_scope.
#[local] Open Scope Z_scope.

(** ** Constants *)

Definition SEQ_MIDIPUTC : Z := 5.
Definition SEQ_CONTROLLER : Z := 10.
Definition CTL_MAIN_VOLUME : Z := 0x07.
Definition CTL_PAN : Z := 0x0a.
Definition CTL_EXPRESSION : Z := 0x0b.
Definition CTRL_PITCH_BENDER : Z := 255.
Definition CTRL_PITCH_BENDER_RANGE : Z := 254.
Definition SEQ_VOLMODE : Z := 12.
Definition SEQ_EXTENDED : Z := 0xff.
Definition EV_SEQ_LOCAL : Z := 0x80.
Definition EV_TIMING : Z := 0x81.
Definition EV_CHN_COMMON : Z := 0x92.
Definition EV_CHN_VOICE : Z := 0x93.
Definition EV_SYSEX : Z := 0x94.
Definition MIDI_NOTEOFF : Z := 0x80.
Definition MIDI_NOTEON : Z := 0x90.
Definition MIDI_KEY_PRESSURE : Z := 0xA0.
Definition MIDI_CTL_CHANGE : Z := 0xB0.
Definition MIDI_PGM_CHANGE : Z := 0xC0.
Definition MIDI_CHN_PRESSURE : Z := 0xD0.
Definition MIDI_PITCH_BEND : Z := 0xE0.
Definition TMR_WAIT_REL : Z := 1.
Definition TMR_WAIT_ABS : Z := 2.
Definition TMR_STOP : Z := 3.
Definition TMR_START : Z := 4.
Definition TMR_CONTINUE : Z := 5.
Definition TMR_TEMPO : Z := 6.
Definition TMR_ECHO : Z := 8.
Definition TMR_SPP : Z := 10.
Definition TMR_TIMESIG : Z := 11.
Definition LOCL_STARTAUDIO : Z := 1.

(** ** The buffer *)

(** The buffer with its length and the index of its free part, what the device has received,
    how many patches it was offered, and what [perror] has printed. *)
Record seq : Type := mk_seq {
  _seqbuf : list Z; _seqbuflen : Z; _seqbufptr : Z; dev : list Z; patches : nat; errors : list string }.
Definition with_seqbuf (b : list Z) (s : seq) : seq :=
  mk_seq b (_seqbuflen s) (_seqbufptr s) (dev s) (patches s) (errors s).
Definition with_seqbufptr (p : Z) (s : seq) : seq :=
  mk_seq (_seqbuf s) (_seqbuflen s) p (dev s) (patches s) (errors s).
Definition with_dev (l : list Z) (s : seq) : seq :=
  mk_seq (_seqbuf s) (_seqbuflen s) (_seqbufptr s) l (patches s) (errors s).
Definition perror (msg : string) : M seq unit :=
  mmodify (λ s, mk_seq (_seqbuf s) (_seqbuflen s) (_seqbufptr s) (dev s) (patches s) (errors s ++ [msg])).
Definition offered_patch (s : seq) : seq :=
  mk_seq (_seqbuf s) (_seqbuflen s) (_seqbufptr s) (dev s) (S (patches s)) (errors s).

(** [SEQ_DEFINEBUF(len)], before anything was sent. *)
Definition SEQ_DEFINEBUF (len : nat) : seq := mk_seq (replicate len 0) (Z.of_nat len) 0 [] 0 [].

(** What the program has: its function, and the device, which takes the first bytes of the
    [i]-th patch that it is offered, or refuses it. *)
Class SeqProgram : Type := {
  seqbuf_dump : M seq unit;
  patch_taken : nat → list Z → option nat }.

(** The call of [write] for a patch: what the device takes is at its end, and the result is
    how much that is, or -1. *)
Definition write `{SeqProgram} (l : list Z) : M seq Z :=
  s ← mget; mmodify offered_patch;;
  match patch_taken (patches s) l with
  | Some k => mmodify (λ s, with_dev (dev s ++ take k l) s);; mret (Z.of_nat (Nat.min k (length l)))
  | None => mret (-1)
  end.

(** [seqbuf_dump] writes what is in the buffer and empties it. *)
Definition dumped (s : seq) : seq :=
  with_seqbufptr 0 (with_dev (dev s ++ take (Z.to_nat (_seqbufptr s)) (_seqbuf s)) s).
Class SeqProgramLaws (P : SeqProgram) : Prop := {
  seqbuf_dump_ok : ∀ s, 0 ≤ _seqbufptr s ≤ Z.of_nat (length (_seqbuf s)) →
    seqbuf_dump s = Ret (tt, dumped s) }.

(** An [int] that is computed. *)
Definition c_int (x : Z) : M seq Z :=
  if (- 2 ^ 31 <=? x) && (x <? 2 ^ 31) then mret x else mub IntOverflow.

(** The two macros that differ between the versions. *)
Class SeqBuffer : Type := { _SEQ_NEEDBUF : Z → M seq unit; _SEQ_ADVBUF : Z → M seq unit }.

Definition queued `{SeqProgram} : SeqBuffer := {|
  _SEQ_NEEDBUF len :=
    s ← mget; n ← c_int (_seqbufptr s + len);
    if _seqbuflen s <? n then seqbuf_dump else mret tt;
  _SEQ_ADVBUF len := s ← mget; n ← c_int (_seqbufptr s + len); mmodify (with_seqbufptr n) |}.
(** [adv] is the [_SEQ_ADVBUF] that the program defines. *)
Definition simple (adv : Z → M seq unit) : SeqBuffer := {|
  _SEQ_NEEDBUF _ := mret tt;
  _SEQ_ADVBUF := adv |}.

(** ** Stores *)

(** [_seqbuf[_seqbufptr+i] = v], and the store of an integer of [n] bytes there, which is
    taken to be allowed at any address. *)
Definition set_byte (j v : Z) : M seq unit :=
  s ← mget;
  if (0 <=? j) && (j <? Z.of_nat (length (_seqbuf s))) then
    mmodify (λ s, with_seqbuf (<[Z.to_nat j := u8 v]> (_seqbuf s)) s)
  else mub OutOfBounds.
Definition put_at (i v : Z) : M seq unit := s ← mget; set_byte (_seqbufptr s + i) v.
Fixpoint put_bytes (i : Z) (l : list Z) : M seq unit :=
  match l with [] => mret tt | b :: l => put_at i b;; put_bytes (i + 1) l end.
Definition put_int (host : order) (n : nat) (i v : Z) : M seq unit := put_bytes i (bytes_in host n v).

(** [for (ii = ii; ii < ii + steps; ii++) body(ii)]. *)
Fixpoint for_ii (steps : nat) (ii : Z) (body : Z → M seq unit) : M seq unit :=
  match steps with O => mret tt | S n => body ii;; for_ii n (ii + 1) body end.

(** [bufp[ii]]. *)
Definition buf_at (buf : list Z) (ii : Z) : M seq Z :=
  if ii <? 0 then mub OutOfBounds else moption OutOfBounds (buf !! Z.to_nat ii).

(** ** Events *)

Section events.
Context {B : SeqBuffer} (host : order).

Definition SEQ_VOLUME_MODE (dev mode : Z) : M seq unit :=
  _SEQ_NEEDBUF 8;;
  put_at 0 SEQ_EXTENDED;;
  put_at 1 SEQ_VOLMODE;;
  put_at 2 dev;;
  put_at 3 mode;;
  put_at 4 0;;
  put_at 5 0;;
  put_at 6 0;;
  put_at 7 0;;
  _SEQ_ADVBUF 8.

Definition _CHN_VOICE (dev event chn note parm : Z) : M seq unit :=
  _SEQ_NEEDBUF 8;;
  put_at 0 EV_CHN_VOICE;;
  put_at 1 dev;;
  put_at 2 event;;
  put_at 3 chn;;
  put_at 4 note;;
  put_at 5 parm;;
  put_at 6 0;;
  put_at 7 0;;
  _SEQ_ADVBUF 8.

Definition SEQ_START_NOTE (dev chn note vol : Z) : M seq unit :=
  _CHN_VOICE dev MIDI_NOTEON chn note vol.
Definition SEQ_STOP_NOTE (dev chn note vol : Z) : M seq unit :=
  _CHN_VOICE dev MIDI_NOTEOFF chn note vol.
Definition SEQ_KEY_PRESSURE (dev chn note pressure : Z) : M seq unit :=
  _CHN_VOICE dev MIDI_KEY_PRESSURE chn note pressure.

Definition _CHN_COMMON (dev event chn p1 p2 w14 : Z) : M seq unit :=
  _SEQ_NEEDBUF 8;;
  put_at 0 EV_CHN_COMMON;;
  put_at 1 dev;;
  put_at 2 event;;
  put_at 3 chn;;
  put_at 4 p1;;
  put_at 5 p2;;
  put_int host 2 6 w14;;
  _SEQ_ADVBUF 8.

Definition SEQ_SYSEX (dev : Z) (buf : list Z) (len : Z) : M seq unit :=
  let ll := len in
  let ll := if 6 <? ll then 6 else ll in
  _SEQ_NEEDBUF 8;;
  put_at 0 EV_SYSEX;;
  put_at 1 dev;;
  for_ii (Z.to_nat ll) 0 (λ ii, b ← buf_at buf ii; put_at (ii + 2) b);;
  for_ii (Z.to_nat (6 - ll)) ll (λ ii, put_at (ii + 2) 0xff);;
  _SEQ_ADVBUF 8.

Definition SEQ_CHN_PRESSURE (dev chn pressure : Z) : M seq unit :=
  _CHN_COMMON dev MIDI_CHN_PRESSURE chn pressure 0 0.
Definition SEQ_PGM_CHANGE (dev chn patch : Z) : M seq unit :=
  _CHN_COMMON dev MIDI_PGM_CHANGE chn patch 0 0.
Definition SEQ_SET_PATCH := SEQ_PGM_CHANGE.
Definition SEQ_CONTROL (dev chn controller value : Z) : M seq unit :=
  _CHN_COMMON dev MIDI_CTL_CHANGE chn controller 0 value.
Definition SEQ_BENDER (dev chn value : Z) : M seq unit :=
  _CHN_COMMON dev MIDI_PITCH_BEND chn 0 0 value.

Definition SEQ_V2_X_CONTROL (dev voice controller value : Z) : M seq unit :=
  _SEQ_NEEDBUF 8;;
  put_at 0 SEQ_EXTENDED;;
  put_at 1 SEQ_CONTROLLER;;
  put_at 2 dev;;
  put_at 3 voice;;
  put_at 4 controller;;
  put_at 5 (value .& 0xff);;
  put_at 6 ((value ≫ 8) .& 0xff);;
  put_at 7 0;;
  _SEQ_ADVBUF 8.

Definition SEQ_PITCHBEND (dev voice value : Z) : M seq unit :=
  SEQ_V2_X_CONTROL dev voice CTRL_PITCH_BENDER value.
Definition SEQ_BENDER_RANGE (dev voice value : Z) : M seq unit :=
  SEQ_V2_X_CONTROL dev voice CTRL_PITCH_BENDER_RANGE value.
(** The value of these is computed where the macro stores it, after the rest of the event;
    an overflow is undefined wherever it happens. *)
Definition SEQ_EXPRESSION (dev voice value : Z) : M seq unit :=
  v ← c_int (value * 128); SEQ_CONTROL dev voice CTL_EXPRESSION v.
Definition SEQ_MAIN_VOLUME (dev voice value : Z) : M seq unit :=
  v ← c_int (value * 16383); SEQ_CONTROL dev voice CTL_MAIN_VOLUME (Z.quot v 100).
Definition SEQ_PANNING (dev voice pos : Z) : M seq unit :=
  v ← c_int (pos + 128); SEQ_CONTROL dev voice CTL_PAN (Z.quot v 2).

Definition _TIMER_EVENT (ev parm : Z) : M seq unit :=
  _SEQ_NEEDBUF 8;;
  put_at 0 EV_TIMING;;
  put_at 1 ev;;
  put_at 2 0;;
  put_at 3 0;;
  put_int host 4 4 parm;;
  _SEQ_ADVBUF 8.

Definition SEQ_START_TIMER : M seq unit := _TIMER_EVENT TMR_START 0.
Definition SEQ_STOP_TIMER : M seq unit := _TIMER_EVENT TMR_STOP 0.
Definition SEQ_CONTINUE_TIMER : M seq unit := _TIMER_EVENT TMR_CONTINUE 0.
Definition SEQ_WAIT_TIME (ticks : Z) : M seq unit := _TIMER_EVENT TMR_WAIT_ABS ticks.
Definition SEQ_DELTA_TIME (ticks : Z) : M seq unit := _TIMER_EVENT TMR_WAIT_REL ticks.
Definition SEQ_ECHO_BACK (key : Z) : M seq unit := _TIMER_EVENT TMR_ECHO key.
Definition SEQ_SET_TEMPO (value : Z) : M seq unit := _TIMER_EVENT TMR_TEMPO value.
Definition SEQ_SONGPOS (pos : Z) : M seq unit := _TIMER_EVENT TMR_SPP pos.
Definition SEQ_TIME_SIGNATURE (sig : Z) : M seq unit := _TIMER_EVENT TMR_TIMESIG sig.

Definition _LOCAL_EVENT (ev parm : Z) : M seq unit :=
  _SEQ_NEEDBUF 8;;
  put_at 0 EV_SEQ_LOCAL;;
  put_at 1 ev;;
  put_at 2 0;;
  put_at 3 0;;
  put_int host 4 4 parm;;
  _SEQ_ADVBUF 8.

Definition SEQ_PLAYAUDIO (devmask : Z) : M seq unit := _LOCAL_EVENT LOCL_STARTAUDIO devmask.

Definition SEQ_MIDIOUT (device byte : Z) : M seq unit :=
  _SEQ_NEEDBUF 4;;
  put_at 0 SEQ_MIDIPUTC;;
  put_at 1 byte;;
  put_at 2 device;;
  put_at 3 0;;
  _SEQ_ADVBUF 4.
End events.

(** ** Patches *)

Section patches.
Context {P : SeqProgram}.

Definition SEQ_DUMPBUF : M seq unit := seqbuf_dump.
(** [write(seqfd, (char* )(patchx), len)] of the bytes at [patchx]. *)
Definition SEQ_WRPATCH (patchx : list Z) (len : nat) : M seq unit :=
  s ← mget;
  (if negb (_seqbufptr s =? 0) then SEQ_DUMPBUF else mret tt);;
  r ← write (take len patchx);
  if r =? -1 then perror "Write patch: /dev/sequencer" else mret tt.
Definition SEQ_WRPATCH2 (patchx : list Z) (len : nat) : M seq Z :=
  SEQ_DUMPBUF;; write (take len patchx).
End patches.

(** ** What the events are *)

(** The macros that a program uses, with their arguments. *)
Inductive event : Type :=
  | VolumeMode (dev mode : Z)
  | StartNote (dev chn note vol : Z)
  | StopNote (dev chn note vol : Z)
  | KeyPressure (dev chn note pressure : Z)
  | Sysex (dev : Z) (buf : list Z) (len : Z)
  | ChnPressure (dev chn pressure : Z)
  | SetPatch (dev chn patch : Z)
  | PgmChange (dev chn patch : Z)
  | Control (dev chn controller value : Z)
  | Bender (dev chn value : Z)
  | V2Control (dev voice controller value : Z)
  | PitchBend (dev voice value : Z)
  | BenderRange (dev voice value : Z)
  | Expression (dev voice value : Z)
  | MainVolume (dev voice value : Z)
  | Panning (dev voice pos : Z)
  | StartTimer | StopTimer | ContinueTimer
  | WaitTime (ticks : Z)
  | DeltaTime (ticks : Z)
  | EchoBack (key : Z)
  | SetTempo (value : Z)
  | SongPos (pos : Z)
  | TimeSignature (sig : Z)
  | PlayAudio (devmask : Z)
  | MidiOut (device byte : Z).

Section encoding.
Context (host : order).

Definition format `{SeqBuffer} (e : event) : M seq unit :=
  match e with
  | VolumeMode d m => SEQ_VOLUME_MODE d m
  | StartNote d c n v => SEQ_START_NOTE d c n v
  | StopNote d c n v => SEQ_STOP_NOTE d c n v
  | KeyPressure d c n p => SEQ_KEY_PRESSURE d c n p
  | Sysex d buf len => SEQ_SYSEX d buf len
  | ChnPressure d c p => SEQ_CHN_PRESSURE host d c p
  | SetPatch d c p => SEQ_SET_PATCH host d c p
  | PgmChange d c p => SEQ_PGM_CHANGE host d c p
  | Control d c k v => SEQ_CONTROL host d c k v
  | Bender d c v => SEQ_BENDER host d c v
  | V2Control d v k x => SEQ_V2_X_CONTROL d v k x
  | PitchBend d v x => SEQ_PITCHBEND d v x
  | BenderRange d v x => SEQ_BENDER_RANGE d v x
  | Expression d v x => SEQ_EXPRESSION host d v x
  | MainVolume d v x => SEQ_MAIN_VOLUME host d v x
  | Panning d v x => SEQ_PANNING host d v x
  | StartTimer => SEQ_START_TIMER host
  | StopTimer => SEQ_STOP_TIMER host
  | ContinueTimer => SEQ_CONTINUE_TIMER host
  | WaitTime x => SEQ_WAIT_TIME host x
  | DeltaTime x => SEQ_DELTA_TIME host x
  | EchoBack x => SEQ_ECHO_BACK host x
  | SetTempo x => SEQ_SET_TEMPO host x
  | SongPos x => SEQ_SONGPOS host x
  | TimeSignature x => SEQ_TIME_SIGNATURE host x
  | PlayAudio x => SEQ_PLAYAUDIO host x
  | MidiOut d b => SEQ_MIDIOUT d b
  end.

(** The records: a voice or channel message, and a message of the timer. *)
Definition voice (d e c n p : Z) : list Z := [0x93; u8 d; e; u8 c; u8 n; u8 p; 0; 0].
Definition common (d e c p1 p2 w : Z) : list Z :=
  [0x92; u8 d; e; u8 c; u8 p1; u8 p2] ++ bytes_in host 2 w.
Definition extended (d v k x : Z) : list Z :=
  [0xff; 10; u8 d; u8 v; u8 k; x mod 256; (x / 256) mod 256; 0].
Definition timing (e x : Z) : list Z := [0x81; e; 0; 0] ++ bytes_in host 4 x.

Definition record (e : event) : list Z :=
  match e with
  | VolumeMode d m => [0xff; 12; u8 d; u8 m; 0; 0; 0; 0]
  | StartNote d c n v => voice d 0x90 c n v
  | StopNote d c n v => voice d 0x80 c n v
  | KeyPressure d c n p => voice d 0xA0 c n p
  | Sysex d buf len =>
      let l := take 6 (take (Z.to_nat len) buf) in [0x94; u8 d] ++ l ++ replicate (6 - length l) 0xff
  | ChnPressure d c p => common d 0xD0 c p 0 0
  | SetPatch d c p | PgmChange d c p => common d 0xC0 c p 0 0
  | Control d c k v => common d 0xB0 c k 0 v
  | Bender d c v => common d 0xE0 c 0 0 v
  | V2Control d v k x => extended d v k x
  | PitchBend d v x => extended d v 255 x
  | BenderRange d v x => extended d v 254 x
  | Expression d v x => common d 0xB0 v 11 0 (x * 128)
  | MainVolume d v x => common d 0xB0 v 7 0 (Z.quot (x * 16383) 100)
  | Panning d v x => common d 0xB0 v 10 0 (Z.quot (x + 128) 2)
  | StartTimer => timing 4 0
  | StopTimer => timing 3 0
  | ContinueTimer => timing 5 0
  | WaitTime x => timing 2 x
  | DeltaTime x => timing 1 x
  | EchoBack x => timing 8 x
  | SetTempo x => timing 6 x
  | SongPos x => timing 10 x
  | TimeSignature x => timing 11 x
  | PlayAudio x => [0x80; 1; 0; 0] ++ bytes_in host 4 x
  | MidiOut d b => [5; u8 b; u8 d; 0]
  end.

(** The arguments that the macros are defined for. *)
Definition admissible (e : event) : Prop :=
  match e with
  | Sysex _ buf len =>
      0 ≤ len ∧ Z.min len 6 ≤ Z.of_nat (length buf) ∧ Forall (λ b, 0 ≤ b < 256) buf
  | Expression _ _ x => - 2 ^ 31 ≤ x * 128 < 2 ^ 31
  | MainVolume _ _ x => - 2 ^ 31 ≤ x * 16383 < 2 ^ 31
  | Panning _ _ x => - 2 ^ 31 ≤ x + 128 < 2 ^ 31
  | _ => True
  end.

(** "Events are records of 4 or 8 bytes.  The first byte defines the size": a device splits
    the stream, 8 bytes if the first is 128 or more. *)
Definition record_size (b : Z) : nat := if 128 <=? b then 8 else 4.
Fixpoint split_records (fuel : nat) (l : list Z) : option (list (list Z)) :=
  match fuel, l with
  | _, [] => Some []
  | O, _ => None
  | S n, b :: _ =>
      if decide (record_size b ≤ length l)%nat then
        r ← split_records n (drop (record_size b) l); Some (take (record_size b) l :: r)
      else None
  end.

Lemma record_shape e : admissible e →
  ∃ b l, record e = b :: l ∧ length (record e) = record_size b ∧ (4 ≤ length (record e) ≤ 8)%nat.
Proof.
  assert (∀ n x, length (bytes_in host n x) = n) as Hn by apply length_bytes_in.
  destruct e; intros He; cbn [record]; unfold voice, common, extended, timing;
    try (eexists _, _; split; [reflexivity|]; rewrite ?length_app, ?Hn; cbn; lia).
  eexists _, _. split; [reflexivity|]. change (record_size 0x94) with 8%nat.
  rewrite !length_app, length_replicate, length_take. cbn [length]. lia.
Qed.

Lemma split_app e es n :
  admissible e → split_records (S n) (record e ++ es) =
  (r ← split_records n es; Some (record e :: r)).
Proof.
  intros He. destruct (record_shape e He) as (b & l & E & El & _).
  destruct (record e ++ es) as [|b' l'] eqn:Ea; [by rewrite E in Ea|].
  assert (b' = b) as -> by (rewrite E in Ea; by inversion Ea).
  cbn [split_records]. rewrite <- El, <- Ea, decide_True by (rewrite length_app; lia).
  by rewrite drop_app_length, take_app_length.
Qed.

Lemma split_events es :
  Forall admissible es → split_records (length es) (concat (record <$> es)) = Some (record <$> es).
Proof.
  induction 1 as [|e es He Hes IH]; [done|]. cbn [length concat fmap list_fmap].
  change (concat (record e :: (record <$> es))) with (record e ++ concat (record <$> es)).
  by rewrite split_app, IH.
Qed.
End encoding.

(** ** Formatting *)

(** The buffer with [l] behind what was in it. *)
Definition formatting (s : seq) (l : list Z) : seq :=
  let p := Z.to_nat (_seqbufptr s) in
  with_seqbuf (take p (_seqbuf s) ++ l ++ drop (p + length l) (_seqbuf s)) s.

Section formatting.
Context (s : seq) (Hp : 0 ≤ _seqbufptr s ≤ Z.of_nat (length (_seqbuf s))).

Lemma formatting_nil : formatting s [] = s.
Proof. destruct s. unfold formatting, with_seqbuf. cbn. by rewrite Nat.add_0_r, take_drop. Qed.

Lemma length_formatting l :
  _seqbufptr s + Z.of_nat (length l) ≤ Z.of_nat (length (_seqbuf s)) →
  length (_seqbuf (formatting s l)) = length (_seqbuf s).
Proof using Type*. intros. cbn. rewrite !length_app, length_take, length_drop. lia. Qed.

Lemma put_next l i v :
  i = Z.of_nat (length l) → _seqbufptr s + i < Z.of_nat (length (_seqbuf s)) →
  put_at i v (formatting s l) = Ret (tt, formatting s (l ++ [u8 v])).
Proof using Type*.
  intros -> Hr. unfold put_at, set_byte, mget. rewrite !(bind_eval _ _ _ _ _ eq_refl).
  rewrite length_formatting by lia. change (_seqbufptr (formatting s l)) with (_seqbufptr s).
  rewrite (proj2 (Z.leb_le _ _)), (proj2 (Z.ltb_lt _ _)) by lia. cbn [andb].
  unfold mmodify. do 2 f_equal. unfold formatting, with_seqbuf. cbn. f_equal.
  set (p := Z.to_nat (_seqbufptr s)). replace (Z.to_nat (_seqbufptr s + Z.of_nat (length l)))
    with (length (take p (_seqbuf s)) + length l)%nat by (rewrite length_take; lia).
  rewrite insert_app_r. f_equal. rewrite <- (Nat.add_0_r (length l)) at 1. rewrite insert_app_r.
  rewrite <- app_assoc. f_equal. rewrite length_app. cbn [length].
  destruct (drop (p + length l) (_seqbuf s)) as [|b r] eqn:E.
  - apply (f_equal length) in E. rewrite length_drop in E. cbn in E. lia.
  - cbn. f_equal. replace (p + (length l + 1))%nat with (S (p + length l)) by lia.
    apply (f_equal (drop 1)) in E. by rewrite drop_drop, Nat.add_1_r in E.
Qed.

Lemma put_bytes_next l bs i :
  Forall (λ b, 0 ≤ b < 256) bs → i = Z.of_nat (length l) →
  _seqbufptr s + i + Z.of_nat (length bs) ≤ Z.of_nat (length (_seqbuf s)) →
  put_bytes i bs (formatting s l) = Ret (tt, formatting s (l ++ bs)).
Proof using Type*.
  intros Hbs. revert l i. induction Hbs as [|b bs Hb Hbs IH]; intros l i Hi Hr; cbn [put_bytes length] in *.
  - by rewrite app_nil_r.
  - rewrite (bind_eval _ _ _ _ _ (put_next l i b Hi ltac:(lia))).
    rewrite (uwrap_small 8 b Hb), (IH (l ++ [b])) by (rewrite ?length_app; cbn; lia).
    by rewrite <- app_assoc.
Qed.
End formatting.

(** ** Every macro formats its record *)

Lemma low_byte x : u8 (x .& 0xff) = x mod 256.
Proof. change 0xff with (Z.ones 8). rewrite Z.land_ones by done. apply Z.mod_mod. done. Qed.

Lemma c_int_ok x {A} (k : Z → M seq A) s : - 2 ^ 31 ≤ x < 2 ^ 31 → (c_int x ≫= k) s = k x s.
Proof.
  intros Hx. apply bind_eval. unfold c_int.
  rewrite (proj2 (Z.leb_le _ _)), (proj2 (Z.ltb_lt _ _)) by lia. done.
Qed.

Section formats.
Context {B : SeqBuffer} (host : order) (s s' : seq) (n : nat).
Context (Hneed : _SEQ_NEEDBUF (Z.of_nat n) s = Ret (tt, s')).
Context (Hp : 0 ≤ _seqbufptr s' ∧ _seqbufptr s' + Z.of_nat n ≤ Z.of_nat (length (_seqbuf s'))).

Lemma bind_put l i v {A} (k : unit → M seq A) :
  i = Z.of_nat (length l) → (length l < n)%nat →
  (put_at i v ≫= k) (formatting s' l) = k tt (formatting s' (l ++ [u8 v])).
Proof using Hp. intros -> Hl. apply bind_eval, put_next; lia. Qed.

Lemma bind_put_int l m i v {A} (k : unit → M seq A) :
  i = Z.of_nat (length l) → (length l + m ≤ n)%nat →
  (put_int host m i v ≫= k) (formatting s' l) = k tt (formatting s' (l ++ bytes_in host m v)).
Proof using Hp.
  intros -> Hl. apply bind_eval, put_bytes_next; [lia| |done|].
  - apply bytes_in_range.
  - rewrite length_bytes_in. lia.
Qed.

Lemma bind_need m {A} (k : unit → M seq A) :
  m = Z.of_nat n → (_SEQ_NEEDBUF m ≫= k) s = k tt (formatting s' []).
Proof using Hneed Hp. intros ->. rewrite formatting_nil by lia. by apply bind_eval. Qed.

Lemma fill_ff l k ii :
  ii = Z.of_nat (length l) - 2 → (length l + k ≤ n)%nat →
  for_ii k ii (λ ii, put_at (ii + 2) 0xff) (formatting s' l) =
  Ret (tt, formatting s' (l ++ replicate k 0xff)).
Proof using Hp.
  revert l ii. induction k as [|k IH]; intros l ii Hi Hk; cbn [for_ii replicate].
  - by rewrite app_nil_r.
  - rewrite bind_put by lia. rewrite IH by (rewrite ?length_app; cbn; lia).
    by rewrite <- app_assoc.
Qed.

Lemma copy_buf h buf k ii :
  0 ≤ ii → length h = 2%nat → (Z.to_nat ii + k ≤ length buf)%nat → (2 + Z.to_nat ii + k ≤ n)%nat →
  Forall (λ b, 0 ≤ b < 256) buf →
  for_ii k ii (λ ii, b ← buf_at buf ii; put_at (ii + 2) b) (formatting s' (h ++ take (Z.to_nat ii) buf)) =
  Ret (tt, formatting s' (h ++ take (Z.to_nat ii + k) buf)).
Proof using Hp.
  intros Hi Hh. revert ii Hi. induction k as [|k IH]; intros ii Hi Hk Hn Hb; cbn [for_ii].
  - by rewrite Nat.add_0_r.
  - destruct (lookup_lt_is_Some_2 buf (Z.to_nat ii)) as [b Eb]; [lia|].
    assert (0 ≤ b < 256) as Hb' by (by eapply Forall_lookup_1 in Hb).
    assert (Z.to_nat (ii + 1) = S (Z.to_nat ii)) as Es by lia.
    assert (buf_at buf ii (formatting s' (h ++ take (Z.to_nat ii) buf)) =
      Ret (b, formatting s' (h ++ take (Z.to_nat ii) buf))) as Eat.
    { unfold buf_at. destruct (Z.ltb_spec ii 0); [lia|]. by rewrite Eb. }
    rewrite (bind_eval _ _ _ tt (formatting s' (h ++ take (Z.to_nat (ii + 1)) buf))).
    + rewrite IH by (done || lia). by rewrite Es, Nat.add_succ_comm.
    + rewrite (bind_eval _ _ _ _ _ Eat), put_next
        by (rewrite ?length_app, ?length_take, ?Hh; lia).
      by rewrite Es, (take_S_r _ _ _ Eb), app_assoc, (uwrap_small 8).
Qed.

(** The stores of an event, one behind the other. *)
Ltac stores :=
  rewrite bind_need by lia;
  repeat first
    [ rewrite bind_put by (cbn; lia) | rewrite bind_put_int by (cbn; lia) ];
  f_equal; unfold voice, common, extended, timing; cbn [app]; try done.

Lemma sysex_record d buf len :
  n = 8%nat → 0 ≤ len → Z.min len 6 ≤ Z.of_nat (length buf) → Forall (λ b, 0 ≤ b < 256) buf →
  SEQ_SYSEX d buf len s = _SEQ_ADVBUF 8 (formatting s' (record host (Sysex d buf len))).
Proof using Type*.
  intros Hn Hl Hb Hr. unfold SEQ_SYSEX. set (ll := if 6 <? len then 6 else len).
  assert (ll = Z.min len 6) as Ell by (unfold ll; destruct (Z.ltb_spec 6 len); lia).
  rewrite bind_need, !bind_put by (cbn; lia). cbn [app].
  rewrite (bind_eval _ _ _ _ _
    (copy_buf [u8 EV_SYSEX; u8 d] buf (Z.to_nat ll) 0 ltac:(done) eq_refl ltac:(lia) ltac:(lia) Hr)).
  change (Z.to_nat 0 + Z.to_nat ll)%nat with (Z.to_nat ll).
  assert (length (take (Z.to_nat ll) buf) = Z.to_nat ll) as Et by (rewrite length_take; lia).
  rewrite (bind_eval _ _ _ _ _ (fill_ff ([u8 EV_SYSEX; u8 d] ++ take (Z.to_nat ll) buf) (Z.to_nat (6 - ll)) ll
    ltac:(rewrite length_app, Et; cbn; lia) ltac:(rewrite length_app, Et; cbn; lia))).
  do 2 f_equal. cbn [record]. rewrite <- app_assoc, take_take.
  replace (Nat.min 6 (Z.to_nat len)) with (Z.to_nat ll) by lia. rewrite Et.
  by replace (6 - Z.to_nat ll)%nat with (Z.to_nat (6 - ll)) by lia.
Qed.

Lemma format_record e :
  admissible e → n = length (record host e) →
  format host e s = _SEQ_ADVBUF (Z.of_nat n) (formatting s' (record host e)).
Proof using Type*.
  assert (∀ d e c k v, n = 8%nat → _CHN_VOICE d e c k v s = _SEQ_ADVBUF 8 (formatting s' (voice d (u8 e) c k v)))
    as Hv by (intros; unfold _CHN_VOICE; stores).
  assert (∀ d e c k v w, n = 8%nat →
    _CHN_COMMON host d e c k v w s = _SEQ_ADVBUF 8 (formatting s' (common host d (u8 e) c k v w)))
    as Hc by (intros; unfold _CHN_COMMON; stores).
  assert (∀ e x, n = 8%nat → _TIMER_EVENT host e x s = _SEQ_ADVBUF 8 (formatting s' (timing host (u8 e) x)))
    as Ht by (intros; unfold _TIMER_EVENT; stores).
  assert (∀ d v k x, n = 8%nat →
    SEQ_V2_X_CONTROL d v k x s = _SEQ_ADVBUF 8 (formatting s' (extended d v k x))) as Hx.
  { intros. unfold SEQ_V2_X_CONTROL. stores. by rewrite low_byte, (low_byte (x ≫ 8)), Z.shiftr_div_pow2. }
  intros He En. assert (n = length (record host e) → Z.of_nat n = 8 ∨ ∃ d b, e = MidiOut d b) as Hn.
  { destruct e; cbn [record]; unfold voice, common, extended, timing;
      rewrite ?length_app, ?length_bytes_in; cbn [length]; try lia; [|by eauto].
    rewrite length_replicate, length_take. lia. }
  destruct (Hn En) as [H8|(d & b & ->)].
  - rewrite H8. assert (n = 8%nat) as E8 by lia. clear Hn.
    destruct e; cbn [format record admissible] in *;
      unfold SEQ_START_NOTE, SEQ_STOP_NOTE, SEQ_KEY_PRESSURE, SEQ_CHN_PRESSURE, SEQ_SET_PATCH,
        SEQ_PGM_CHANGE, SEQ_CONTROL, SEQ_BENDER, SEQ_PITCHBEND, SEQ_BENDER_RANGE, SEQ_EXPRESSION,
        SEQ_MAIN_VOLUME, SEQ_PANNING, SEQ_START_TIMER, SEQ_STOP_TIMER, SEQ_CONTINUE_TIMER,
        SEQ_WAIT_TIME, SEQ_DELTA_TIME, SEQ_ECHO_BACK, SEQ_SET_TEMPO, SEQ_SONGPOS, SEQ_TIME_SIGNATURE,
        SEQ_CONTROL; rewrite ?c_int_ok by done;
      lazymatch goal with
      | |- _CHN_VOICE _ _ _ _ _ _ = _ => exact (Hv _ _ _ _ _ E8)
      | |- _CHN_COMMON _ _ _ _ _ _ _ _ = _ => exact (Hc _ _ _ _ _ _ E8)
      | |- _TIMER_EVENT _ _ _ _ = _ => exact (Ht _ _ E8)
      | |- SEQ_V2_X_CONTROL _ _ _ _ _ = _ => exact (Hx _ _ _ _ E8)
      | |- _ => idtac
      end.
    + unfold SEQ_VOLUME_MODE. stores.
    + destruct He as (Hl & Hb & Hr). apply sysex_record; done.
    + unfold SEQ_PLAYAUDIO, _LOCAL_EVENT. stores.
    + cbn in En. lia.
  - cbn in En. replace (Z.of_nat n) with 4 by lia. cbn [format record]. unfold SEQ_MIDIOUT. stores.
Qed.
End formats.

(** ** The stream that the device receives *)

Section stream.
Context {P : SeqProgram} {L : SeqProgramLaws P} (host : order).
#[local] Existing Instance queued.

(** The buffer is as long as it says, has room for an event, and its index is in it. *)
Record buffer_ok (s : seq) : Prop := {
  bo_length : _seqbuflen s ≤ Z.of_nat (length (_seqbuf s));
  bo_room : 8 ≤ _seqbuflen s < 2 ^ 31 - 8;
  bo_ptr : 0 ≤ _seqbufptr s ≤ _seqbuflen s }.

(** What the device has once the buffer is written; and what it answered to. *)
Definition stream (s : seq) : list Z := dev s ++ take (Z.to_nat (_seqbufptr s)) (_seqbuf s).
Definition same_log (s s' : seq) : Prop := patches s' = patches s ∧ errors s' = errors s.

Lemma dumped_stream s :
  buffer_ok s → buffer_ok (dumped s) ∧ stream (dumped s) = stream s ∧ same_log s (dumped s).
Proof.
  intros [H1 H2 H3]. split; [split; cbn in *; lia|]. split; [|done].
  unfold stream. cbn. by rewrite take_0, app_nil_r.
Qed.

Lemma need_ok s k :
  buffer_ok s → 0 ≤ k ≤ 8 →
  ∃ s', _SEQ_NEEDBUF k s = Ret (tt, s') ∧ buffer_ok s' ∧ stream s' = stream s ∧ same_log s s' ∧
    _seqbufptr s' + k ≤ _seqbuflen s'.
Proof using L.
  intros Hs Hk. pose proof Hs as [H1 H2 H3]. cbn [_SEQ_NEEDBUF queued]. unfold mget.
  rewrite (bind_eval _ _ _ _ _ eq_refl), c_int_ok by lia.
  destruct (Z.ltb_spec (_seqbuflen s) (_seqbufptr s + k)) as [Hlt|Hge].
  - exists (dumped s). destruct (dumped_stream s Hs) as (Hd & Ed & Ld).
    rewrite seqbuf_dump_ok by lia. do 4 (split; [done|]). cbn. lia.
  - exists s. do 4 (split; [done|]). lia.
Qed.

Lemma adv_ok s l :
  buffer_ok s → _seqbufptr s + Z.of_nat (length l) ≤ _seqbuflen s →
  ∃ s', _SEQ_ADVBUF (Z.of_nat (length l)) (formatting s l) = Ret (tt, s') ∧ buffer_ok s' ∧
    stream s' = stream s ++ l ∧ same_log s s'.
Proof.
  intros Hs Hl. pose proof Hs as [H1 H2 H3]. cbn [_SEQ_ADVBUF queued]. unfold mget.
  rewrite (bind_eval _ _ _ _ _ eq_refl), c_int_ok by (cbn; lia). eexists. split; [done|].
  split; [split; cbn -[formatting]; rewrite ?length_formatting by lia; cbn in *; lia|].
  split; [|done]. unfold stream. cbn. rewrite <- app_assoc. f_equal.
  replace (Z.to_nat (_seqbufptr s + Z.of_nat (length l)))
    with (length (take (Z.to_nat (_seqbufptr s)) (_seqbuf s)) + length l)%nat
    by (rewrite length_take; lia).
  rewrite take_app_add. by rewrite take_app_length.
Qed.

Lemma event_sent e s :
  admissible e → buffer_ok s →
  wp (format host e) s (λ _ s', buffer_ok s' ∧ stream s' = stream s ++ record host e ∧ same_log s s').
Proof using L.
  intros He Hs. destruct (record_shape host e He) as (_ & _ & _ & _ & Hlen).
  destruct (need_ok s (Z.of_nat (length (record host e))) Hs)
    as (s1 & E1 & H1 & S1 & [P1 R1] & N1); [lia|].
  destruct (adv_ok s1 (record host e) H1 N1) as (s2 & E2 & H2 & S2 & P2 & R2).
  apply wp_run. exists tt, s2. split; [|split; [done|split; [by rewrite S2, S1|split; congruence]]].
  rewrite (format_record host s s1 (length (record host e)) E1) by (done || (destruct H1; lia)).
  exact E2.
Qed.

(** ** Programs *)

(** What a program does with the macros; [perform] gives the results of the macros that have
    one. *)
Inductive command : Type :=
  Event (e : event) | Patch (patchx : list Z) (len : nat) | Patch2 (patchx : list Z) (len : nat) | Dump.

Definition perform (c : command) : M seq (list Z) :=
  match c with
  | Event e => format host e;; mret []
  | Patch l n => SEQ_WRPATCH l n;; mret []
  | Patch2 l n => r ← SEQ_WRPATCH2 l n; mret [r]
  | Dump => SEQ_DUMPBUF;; mret []
  end.
Fixpoint run_commands (cs : list command) : M seq (list Z) :=
  match cs with
  | [] => mret []
  | c :: cs => r ← perform c; rs ← run_commands cs; mret (r ++ rs)
  end.

(** The arguments are those the macro is defined for, and a patch is as long as it says. *)
Definition command_ok (c : command) : Prop :=
  match c with
  | Event e => admissible e
  | Patch p n | Patch2 p n => (n ≤ length p)%nat
  | Dump => True
  end.

(** What a command sends, prints and returns when the device was offered [i] patches before. *)
Record effect : Type := mk_effect { sent : list Z; printed : list string; returned : list Z }.
Definition effect_of (i : nat) (c : command) : effect :=
  match c with
  | Event e => mk_effect (record host e) [] []
  | Patch p n =>
      match patch_taken i (take n p) with
      | Some k => mk_effect (take k (take n p)) [] []
      | None => mk_effect [] ["Write patch: /dev/sequencer"%string] []
      end
  | Patch2 p n =>
      match patch_taken i (take n p) with
      | Some k => mk_effect (take k (take n p)) [] [Z.of_nat (Nat.min k n)]
      | None => mk_effect [] [] [-1]
      end
  | Dump => mk_effect [] [] []
  end.
Definition after (i : nat) (c : command) : nat :=
  match c with Patch _ _ | Patch2 _ _ => S i | _ => i end.
Fixpoint effects (i : nat) (cs : list command) : list effect :=
  match cs with [] => [] | c :: cs => effect_of i c :: effects (after i c) cs end.

(** The state behind the effects [fx] of commands that began in [s]. *)
Record has_effects (s : seq) (fx : list effect) (rs : list Z) (s' : seq) : Prop := {
  he_sent : stream s' = stream s ++ concat (sent <$> fx);
  he_printed : errors s' = errors s ++ concat (printed <$> fx);
  he_returned : rs = concat (returned <$> fx) }.

Lemma dump_sent s :
  buffer_ok s →
  wp SEQ_DUMPBUF s (λ _ s', buffer_ok s' ∧ stream s' = stream s ∧ same_log s s' ∧ _seqbufptr s' = 0).
Proof using L.
  intros Hs. apply wp_run. exists tt, (dumped s). destruct (dumped_stream s Hs) as (Hd & Ed & Ld).
  split; [|done]. destruct Hs. apply seqbuf_dump_ok. lia.
Qed.

(** With an empty buffer a patch comes behind all that was sent. *)
Lemma write_sent l s :
  buffer_ok s → _seqbufptr s = 0 →
  wp (write l) s (λ r s', buffer_ok s' ∧ patches s' = S (patches s) ∧ errors s' = errors s ∧
    match patch_taken (patches s) l with
    | Some k => r = Z.of_nat (Nat.min k (length l)) ∧ stream s' = stream s ++ take k l
    | None => r = -1 ∧ stream s' = stream s
    end).
Proof.
  intros [H1 H2 H3] Hp. unfold write. apply wp_bind, wp_get, wp_bind, wp_modify.
  destruct (patch_taken (patches s) l) as [k|].
  - apply wp_bind, wp_modify, wp_ret. split; [by split|]. do 3 (split; [done|]).
    unfold stream. cbn. by rewrite Hp, !take_0, !app_nil_r.
  - apply wp_ret. split; [by split|done].
Qed.

Lemma command_sent c s :
  command_ok c → buffer_ok s →
  wp (perform c) s (λ rs s', buffer_ok s' ∧ patches s' = after (patches s) c ∧
    has_effects s [effect_of (patches s) c] rs s').
Proof using L.
  intros Hc Hs. destruct c as [e|p n|p n|]; cbn [perform effect_of after command_ok] in *.
  - apply wp_bind. eapply wp_mono; [by apply event_sent|]. intros _ s' (H1 & S1 & P1 & R1). apply wp_ret.
    do 2 (split; [done|]). split; cbn; rewrite ?app_nil_r; done.
  - unfold SEQ_WRPATCH. apply wp_bind, wp_bind, wp_get, wp_bind.
    eapply (wp_mono _ _ (λ _ s', buffer_ok s' ∧ stream s' = stream s ∧ same_log s s' ∧ _seqbufptr s' = 0)).
    { destruct (Z.eqb_spec (_seqbufptr s) 0); [by apply wp_ret|by apply dump_sent]. }
    intros _ s1 (H1 & S1 & [P1 R1] & Z1). apply wp_bind. eapply wp_mono; [by apply write_sent|].
    intros r s2 (H2 & P2 & R2 & W2). rewrite P1 in *.
    destruct (patch_taken (patches s) (take n p)) as [k|]; destruct W2 as [-> S2].
    + rewrite (proj2 (Z.eqb_neq _ _)) by lia. apply wp_ret, wp_ret.
      do 2 (split; [done|]). split; cbn; rewrite ?app_nil_r; congruence.
    + apply wp_modify, wp_ret. split; [destruct H2; by split|]. split; [done|].
      split; cbn; rewrite ?app_nil_r; unfold stream in *; cbn; congruence.
  - unfold SEQ_WRPATCH2. apply wp_bind, wp_bind. eapply wp_mono; [by apply dump_sent|].
    intros _ s1 (H1 & S1 & [P1 R1] & Z1). eapply wp_mono; [by apply write_sent|].
    intros r s2 (H2 & P2 & R2 & W2). apply wp_ret. rewrite P1 in *. do 2 (split; [done|]).
    rewrite length_take, Nat.min_l in W2 by done.
    destruct (patch_taken (patches s) (take n p)) as [k|]; destruct W2 as [-> S2];
      split; cbn; rewrite ?app_nil_r; congruence.
  - apply wp_bind. eapply wp_mono; [by apply dump_sent|]. intros _ s' (H1 & S1 & [P1 R1] & _). apply wp_ret.
    do 2 (split; [done|]). split; cbn; rewrite ?app_nil_r; done.
Qed.

Lemma commands_sent cs s :
  Forall command_ok cs → buffer_ok s →
  wp (run_commands cs) s (λ rs s', buffer_ok s' ∧ has_effects s (effects (patches s) cs) rs s').
Proof using L.
  intros Hcs. revert s. induction Hcs as [|c cs Hc Hcs IH]; intros s Hs; cbn [run_commands effects].
  - apply wp_ret. split; [done|]. split; cbn; by rewrite ?app_nil_r.
  - apply wp_bind. eapply wp_mono; [by apply command_sent|]. intros r s1 (H1 & <- & [S1 E1 R1]).
    apply wp_bind. eapply wp_mono; [by apply IH|]. intros rs s2 (H2 & [S2 E2 R2]). apply wp_ret.
    split; [done|]. cbn in *. rewrite !app_nil_r in *.
    split; cbn; [by rewrite S2, S1, <- app_assoc|by rewrite E2, E1, <- app_assoc|congruence].
Qed.

Lemma sent_events es i : sent <$> effects i (Event <$> es) = record host <$> es.
Proof. revert i. induction es as [|e es IH]; intros i; [done|]. cbn. f_equal. apply IH. Qed.
End stream.

(** C12: a program that uses the macros with a buffer of at least 8 bytes, as long as
    [_seqbuflen] says, with arguments the macros are defined for, with a [seqbuf_dump] that
    writes the whole buffer, and with any answers of the device to its patches: no store
    misses the buffer, and once the buffer is written the device has received, in the order
    of the program, the bytes of each event and of each patch exactly what the device took of
    it; a patch that is refused is reported by [SEQ_WRPATCH] and gives -1 in [SEQ_WRPATCH2].
    Of a program that sends only events, a device that splits the stream by the first bytes
    gets their records back. *)
Theorem events_reach_device (P : SeqProgram) (L : SeqProgramLaws P) (host : order) cs s :
  buffer_ok s → Forall command_ok cs →
  wp (rs ← run_commands host cs; SEQ_DUMPBUF;; mret rs) s (λ rs s',
    let fx := effects host (patches s) cs in
    _seqbufptr s' = 0 ∧ rs = concat (returned <$> fx) ∧
    dev s' = stream s ++ concat (sent <$> fx) ∧ errors s' = errors s ++ concat (printed <$> fx) ∧
    ∀ es, cs = Event <$> es →
      split_records (length es) (concat (sent <$> fx)) = Some (record host <$> es)).
Proof.
  intros Hs Hcs. apply wp_bind. eapply wp_mono; [by apply (commands_sent host)|].
  intros rs s1 (H1 & [S1 E1 R1]). apply wp_bind. eapply wp_mono; [by apply dump_sent|].
  intros _ s2 (H2 & S2 & [P2 R2] & Z2). apply wp_ret. do 2 (split; [done|]). split; [|split].
  - unfold stream in S2 at 1. by rewrite Z2, take_0, app_nil_r, S1 in S2.
  - congruence.
  - intros es ->. rewrite sent_events. apply split_events.
    apply list.Forall_forall. intros e He. rewrite list.Forall_forall in Hcs.
    apply (Hcs (Event e)), list_elem_of_fmap_2, He.
Qed.

(** ** A program *)

(** A device that takes all it is given, and the sample [seqbuf_dump] of the header. *)
Definition take_all (l : list Z) : M seq Z :=
  mmodify (λ s, with_dev (dev s ++ l) s);; mret (Z.of_nat (length l)).
Definition sample (taken : nat → list Z → option nat) : SeqProgram := {|
  seqbuf_dump :=
    s ← mget;
    (if negb (_seqbufptr s =? 0) then
       take_all (take (Z.to_nat (_seqbufptr s)) (_seqbuf s));; mret tt
     else mret tt);;
    mmodify (with_seqbufptr 0);
  patch_taken := taken |}.

Lemma sample_laws taken : SeqProgramLaws (sample taken).
Proof.
  split. intros s Hp. cbn. unfold mget, mmodify, take_all, mret, M_ret, mbind, M_bind, dumped.
  destruct (Z.eqb_spec (_seqbufptr s) 0) as [E|]; cbn; [|done].
  destruct s. cbn in *. subst. by rewrite take_0, app_nil_r.
Qed.

(** A device that takes two bytes of its first patch, refuses the second and takes the rest. *)
Definition choosy (i : nat) (l : list Z) : option nat :=
  match i with O => Some 2%nat | 1%nat => None | _ => Some (length l) end.

(** Events of both sizes and patches. *)
Definition song : list command :=
  [Event StartTimer; Event (StartNote 0 1 60 64); Patch [1; 2; 3] 3; Event (Sysex 0 [0xf0; 1; 0xf7] 3);
   Patch [4; 5] 2; Event (MidiOut 2 0x90); Patch2 [6; 7] 1].

Lemma events_reach_device_witness :
  buffer_ok (SEQ_DEFINEBUF 18) ∧ Forall command_ok song ∧
  wp (rs ← run_commands (P := sample choosy) Little song; SEQ_DUMPBUF (P := sample choosy);; mret rs)
    (SEQ_DEFINEBUF 18) (λ rs s',
      let fx := effects (P := sample choosy) Little 0 song in
      _seqbufptr s' = 0 ∧ rs = concat (returned <$> fx) ∧
      dev s' = stream (SEQ_DEFINEBUF 18) ++ concat (sent <$> fx) ∧
      errors s' = [] ++ concat (printed <$> fx) ∧
      ∀ es, song = Event <$> es →
        split_records (length es) (concat (sent <$> fx)) = Some (record Little <$> es)).
Proof.
  assert (buffer_ok (SEQ_DEFINEBUF 18)) as Hb by (split; cbn; lia).
  assert (Forall command_ok song) as Hc by (repeat constructor; cbn; lia).
  split; [exact Hb|split; [exact Hc|]].
  apply (events_reach_device (sample choosy) (sample_laws choosy)); assumption.
Defined.

Example song_played :
  (λ o, match o with Ret (rs, s) => Some (rs, dev s, errors s) | _ => None end)
    ((rs ← run_commands (P := sample choosy) Little song; SEQ_DUMPBUF (P := sample choosy);; mret rs)
       (SEQ_DEFINEBUF 10)) =
  Some ([1],
        [0x81; 4; 0; 0; 0; 0; 0; 0; 0x93; 0; 0x90; 1; 60; 64; 0; 0; 1; 2;
         0x94; 0; 0xf0; 1; 0xf7; 0xff; 0xff; 0xff; 5; 0x90; 2; 0; 6],
        ["Write patch: /dev/sequencer"%string]).
Proof. vm_compute. reflexivity. Qed.

(** A negative length of a system exclusive message: the second loop begins at it and
    overwrites the event before, here its last byte. *)
Example sysex_negative_overwrites :
  (λ o, match o with Ret (_, s) => Some (take 16 (_seqbuf s)) | _ => None end)
    ((run_commands (P := sample choosy) Little [Event StartTimer; Event (Sysex 7 [] (-3))]) (SEQ_DEFINEBUF 20)) =
  Some [0x81; 4; 0; 0; 0; 0; 0; 0xff; 0xff; 0xff; 0xff; 0xff; 0xff; 0xff; 0xff; 0xff].
Proof. vm_compute. reflexivity. Qed.

(** A buffer without room for an event is overrun: after the dump there is no second test. *)
Example small_buffer_overrun :
  run_commands (P := sample choosy) Little [Event StartTimer] (SEQ_DEFINEBUF 7) = UB OutOfBounds.
Proof. vm_compute. reflexivity. Qed.

(** The other version formats one event at the front of a fixed buffer. *)
Lemma simple_formats host e s :
  admissible e → _seqbufptr s = 0 → (8 ≤ length (_seqbuf s))%nat →
  format (H := simple (λ _, mret tt)) host e s = Ret (tt, formatting s (record host e)).
Proof.
  intros He Hp Hl. destruct (record_shape host e He) as (_ & _ & _ & _ & Hlen).
  rewrite (format_record (B := simple (λ _, mret tt)) host s s (length (record host e)) eq_refl)
    by (done || lia).
  done.
Qed.
