(* ===== verification/Usb.v ===== *)
(** * Descriptors of USB ([linux/usb/ch9.h], [linux/usb/audio.h])

    The queries on endpoint descriptors, and the accessors of the units of an audio device.  A
    unit has arrays of variable length in its middle, so that what follows them is found by an
    index computed from the bytes before; where and how wide it is depends on the version of
    the audio class. *)

From Stdlib Require Import ZArith Lia.
From stdpp Require Import base list gmap numbers.
From S2P Require Import Prelude Bits ByteOrder ByteOrderSpec ByteOrderMem Fields.

#[local] Open Scope c_scope.
#[local] Open Scope Z_scope.

(** ** Endpoints *)

Record usb_endpoint_descriptor : Type := mk_endpoint {
  ep_bLength : Z; ep_bDescriptorType : Z; bEndpointAddress : Z; bmAttributes : Z;
  wMaxPacketSize : Z; bInterval : Z; bRefresh : Z; bSynchAddress : Z }.

Definition USB_DIR_OUT : Z := 0.
Definition USB_DIR_IN : Z := 0x80.
Definition USB_ENDPOINT_NUMBER_MASK : Z := 0x0f.
Definition USB_ENDPOINT_DIR_MASK : Z := 0x80.
Definition USB_ENDPOINT_XFERTYPE_MASK : Z := 0x03.
Definition USB_ENDPOINT_XFER_CONTROL : Z := 0.
Definition USB_ENDPOINT_XFER_ISOC : Z := 1.
Definition USB_ENDPOINT_XFER_BULK : Z := 2.
Definition USB_ENDPOINT_XFER_INT : Z := 3.
Definition USB_ENDPOINT_MAXP_MASK : Z := 0x07ff.
Definition USB_EP_MAXP_MULT_SHIFT : Z := 11.
Definition USB_EP_MAXP_MULT_MASK : Z := 3 ≪ USB_EP_MAXP_MULT_SHIFT.
Definition USB_EP_MAXP_MULT (m : Z) : Z := (m .& USB_EP_MAXP_MULT_MASK) ≫ USB_EP_MAXP_MULT_SHIFT.
Definition USB_ENDPOINT_INTRTYPE : Z := 0x30.

Definition usb_endpoint_num (epd : usb_endpoint_descriptor) : Z :=
  bEndpointAddress epd .& USB_ENDPOINT_NUMBER_MASK.
Definition usb_endpoint_type (epd : usb_endpoint_descriptor) : Z :=
  bmAttributes epd .& USB_ENDPOINT_XFERTYPE_MASK.
Definition usb_endpoint_dir_in (epd : usb_endpoint_descriptor) : bool :=
  bEndpointAddress epd .& USB_ENDPOINT_DIR_MASK =? USB_DIR_IN.
Definition usb_endpoint_dir_out (epd : usb_endpoint_descriptor) : bool :=
  bEndpointAddress epd .& USB_ENDPOINT_DIR_MASK =? USB_DIR_OUT.
Definition usb_endpoint_xfer_bulk (epd : usb_endpoint_descriptor) : bool :=
  bmAttributes epd .& USB_ENDPOINT_XFERTYPE_MASK =? USB_ENDPOINT_XFER_BULK.
Definition usb_endpoint_xfer_control (epd : usb_endpoint_descriptor) : bool :=
  bmAttributes epd .& USB_ENDPOINT_XFERTYPE_MASK =? USB_ENDPOINT_XFER_CONTROL.
Definition usb_endpoint_xfer_int (epd : usb_endpoint_descriptor) : bool :=
  bmAttributes epd .& USB_ENDPOINT_XFERTYPE_MASK =? USB_ENDPOINT_XFER_INT.
Definition usb_endpoint_xfer_isoc (epd : usb_endpoint_descriptor) : bool :=
  bmAttributes epd .& USB_ENDPOINT_XFERTYPE_MASK =? USB_ENDPOINT_XFER_ISOC.
Definition usb_endpoint_is_bulk_in (epd : usb_endpoint_descriptor) : bool :=
  usb_endpoint_xfer_bulk epd && usb_endpoint_dir_in epd.
Definition usb_endpoint_is_bulk_out (epd : usb_endpoint_descriptor) : bool :=
  usb_endpoint_xfer_bulk epd && usb_endpoint_dir_out epd.
Definition usb_endpoint_is_int_in (epd : usb_endpoint_descriptor) : bool :=
  usb_endpoint_xfer_int epd && usb_endpoint_dir_in epd.
Definition usb_endpoint_is_int_out (epd : usb_endpoint_descriptor) : bool :=
  usb_endpoint_xfer_int epd && usb_endpoint_dir_out epd.
Definition usb_endpoint_is_isoc_in (epd : usb_endpoint_descriptor) : bool :=
  usb_endpoint_xfer_isoc epd && usb_endpoint_dir_in epd.
Definition usb_endpoint_is_isoc_out (epd : usb_endpoint_descriptor) : bool :=
  usb_endpoint_xfer_isoc epd && usb_endpoint_dir_out epd.

(** [__le16_to_cpu] is a conversion of the byte order headers. *)
Section packets.
Context {C : Conversions}.
Definition usb_endpoint_maxp (epd : usb_endpoint_descriptor) : Z :=
  cv_from Little 2 (wMaxPacketSize epd) .& USB_ENDPOINT_MAXP_MASK.
Definition usb_endpoint_maxp_mult (epd : usb_endpoint_descriptor) : Z :=
  let maxp := cv_from Little 2 (wMaxPacketSize epd) in
  USB_EP_MAXP_MULT maxp + 1.
End packets.

Definition usb_endpoint_interrupt_type (epd : usb_endpoint_descriptor) : Z :=
  bmAttributes epd .& USB_ENDPOINT_INTRTYPE.

Record usb_ss_ep_comp_descriptor : Type := mk_ss_ep_comp {
  ss_bLength : Z; ss_bDescriptorType : Z; bMaxBurst : Z; ss_bmAttributes : Z; wBytesPerInterval : Z }.

(** [comp] may be null; [1 << 31] is the smallest [int]. *)
Definition usb_ss_max_streams (comp : option usb_ss_ep_comp_descriptor) : Z :=
  match comp with
  | None => 0
  | Some comp =>
      let max_streams := ss_bmAttributes comp .& 0x1f in
      if max_streams =? 0 then 0 else i32 (1 ≪ max_streams)
  end.
Definition USB_SS_MULT (p : Z) : Z := 1 + (p .& 0x3).
Definition USB_SS_SSP_ISOC_COMP (p : Z) : Z := p .& (1 ≪ 7).

(** ** Audio units *)

Definition UAC_VERSION_1 : Z := 0x00.
Definition UAC_VERSION_2 : Z := 0x20.
Definition UAC_VERSION_3 : Z := 0x30.

Definition load8 (p : Z) : M bmem Z := m ← mget; moption OutOfBounds (m !! p).

(** [raw[desc->bLength - 1]]: [bLength] is the first byte of every descriptor. *)
Definition last_of (desc : Z) : M bmem Z := n ← load8 desc; load8 (desc + (n - 1)).

(** [struct uac_mixer_unit_descriptor]: [bNrInPins] is byte 4 and [baSourceID] is behind it. *)
Section mixer_unit.
Context (desc : Z).
Definition mixer_at (k : Z) : M bmem Z := p ← load8 (desc + 4); load8 (desc + 5 + p + k).

Definition uac_mixer_unit_bNrChannels : M bmem Z := mixer_at 0.
Definition uac_mixer_unit_wChannelConfig (protocol : Z) : M bmem Z :=
  if protocol =? UAC_VERSION_1 then
    b2 ← mixer_at 2; b1 ← mixer_at 1; mret (u32 ((b2 ≪ 8) .| b1))
  else
    b4 ← mixer_at 4; b3 ← mixer_at 3; b2 ← mixer_at 2; b1 ← mixer_at 1;
    mret (u32 (i32 (b4 ≪ 24) .| (b3 ≪ 16) .| (b2 ≪ 8) .| b1)).
Definition uac_mixer_unit_iChannelNames (protocol : Z) : M bmem Z :=
  if protocol =? UAC_VERSION_1 then mixer_at 3 else mixer_at 5.
(** A pointer, [None] the null one. *)
Definition uac_mixer_unit_bmControls (protocol : Z) : M bmem (option Z) :=
  let at_pin k := p ← load8 (desc + 4); mret (Some (desc + 5 + p + k)) in
  if protocol =? UAC_VERSION_1 then at_pin 4
  else if protocol =? UAC_VERSION_2 then at_pin 6
  else if protocol =? UAC_VERSION_3 then at_pin 2
  else mret None.
Definition uac3_mixer_unit_wClusterDescrID : M bmem Z :=
  b1 ← mixer_at 1; b0 ← mixer_at 0; mret (u16 ((b1 ≪ 8) .| b0)).
Definition uac_mixer_unit_iMixer : M bmem Z := last_of desc.
End mixer_unit.

Definition uac_selector_unit_iSelector (desc : Z) : M bmem Z := last_of desc.
Definition uac_feature_unit_iFeature (desc : Z) : M bmem Z := last_of desc.

(** [struct uac_processing_unit_descriptor]: [bNrInPins] is byte 6. *)
Section processing_unit.
Context (desc : Z).
Definition processing_at (k : Z) : M bmem Z := p ← load8 (desc + 6); load8 (desc + 7 + p + k).

Definition uac_processing_unit_bNrChannels : M bmem Z := processing_at 0.
Definition uac_processing_unit_wChannelConfig (protocol : Z) : M bmem Z :=
  if protocol =? UAC_VERSION_1 then
    b2 ← processing_at 2; b1 ← processing_at 1; mret (u32 ((b2 ≪ 8) .| b1))
  else
    b4 ← processing_at 4; b3 ← processing_at 3; b2 ← processing_at 2; b1 ← processing_at 1;
    mret (u32 (i32 (b4 ≪ 24) .| (b3 ≪ 16) .| (b2 ≪ 8) .| b1)).
Definition uac_processing_unit_iChannelNames (protocol : Z) : M bmem Z :=
  if protocol =? UAC_VERSION_1 then processing_at 3 else processing_at 5.
Definition uac_processing_unit_bControlSize (protocol : Z) : M bmem Z :=
  if protocol =? UAC_VERSION_1 then processing_at 4
  else if protocol =? UAC_VERSION_2 then mret 2
  else if protocol =? UAC_VERSION_3 then mret 4
  else mret 1.
Definition uac_processing_unit_bmControls (protocol : Z) : M bmem (option Z) :=
  let at_pin k := p ← load8 (desc + 6); mret (Some (desc + 7 + p + k)) in
  if protocol =? UAC_VERSION_1 then at_pin 5
  else if protocol =? UAC_VERSION_2 then at_pin 6
  else if protocol =? UAC_VERSION_3 then at_pin 2
  else mret None.

(** A null pointer is neither read through nor moved. *)
Definition uac_processing_unit_iProcessing (protocol : Z) : M bmem Z :=
  control_size ← uac_processing_unit_bControlSize protocol;
  if protocol =? UAC_VERSION_3 then mret 0
  else
    q ← uac_processing_unit_bmControls protocol;
    q ← moption NullDeref q;
    load8 (q + control_size).
Definition uac_processing_unit_specific (protocol : Z) : M bmem Z :=
  control_size ← uac_processing_unit_bControlSize protocol;
  q ← uac_processing_unit_bmControls protocol;
  q ← moption NullDeref q;
  mret (if protocol =? UAC_VERSION_3 then q + control_size else q + control_size + 1).
End processing_unit.

(** ** Queries on endpoints *)

(** What an endpoint is, and its descriptor: the packet size is in the order of the bus. *)
Record endpoint : Type := mk_an_endpoint {
  number : Z; is_in : bool; transfer : Z; sync : Z; usage : Z; max_packet : Z; per_frame : Z }.
Record endpoint_ok (e : endpoint) : Prop := {
  eo_number : 0 ≤ number e < 16;
  eo_transfer : 0 ≤ transfer e < 4;
  eo_sync : 0 ≤ sync e < 4;
  eo_usage : 0 ≤ usage e < 4;
  eo_packet : 0 ≤ max_packet e < 2048;
  eo_frame : 1 ≤ per_frame e ≤ 4 }.
Record describes {C : Conversions} (epd : usb_endpoint_descriptor) (e : endpoint) : Prop := {
  de_address : bEndpointAddress epd = number e + 128 * Z.b2z (is_in e);
  de_attributes : bmAttributes epd = transfer e + 4 * sync e + 16 * usage e;
  de_packet : bytes_in cv_host 2 (wMaxPacketSize epd) =
    bytes_in Little 2 (max_packet e + 2048 * (per_frame e - 1)) }.

(** The low bits of a sum of parts, and a part in the middle. *)
Lemma land_low k a b : 0 ≤ k → 0 ≤ a < 2 ^ k → (a + 2 ^ k * b) .& (2 ^ k - 1) = a.
Proof.
  intros Hk Ha. rewrite land_ones_field by done. unfold field. rewrite Z.pow_0_r, Z.div_1_r.
  rewrite Z.mul_comm, Z.mod_add by (pose proof (pow2_pos k); lia). by apply Z.mod_small.
Qed.
Lemma land_part k w a b c :
  0 ≤ k → 0 ≤ w → 0 ≤ a < 2 ^ k → 0 ≤ b < 2 ^ w →
  (a + 2 ^ k * (b + 2 ^ w * c)) .& ((2 ^ w - 1) * 2 ^ k) = b * 2 ^ k.
Proof.
  intros Hk Hw Ha Hb. rewrite land_field by done. f_equal. unfold field.
  rewrite (Z.mul_comm (2 ^ k)), Z.div_add by (pose proof (pow2_pos k); lia).
  rewrite (Z.div_small a) by done. rewrite Z.add_0_l, (Z.mul_comm (2 ^ w)).
  rewrite Z.mod_add by (pose proof (pow2_pos w); lia). by apply Z.mod_small.
Qed.

(** The queries on the descriptor of an endpoint give what the endpoint is: number,
    direction, type of transfer, each combination, packet size and packets per frame, on a
    host of either order. *)
Theorem endpoint_queries (C : Conversions) (L : ConversionsLaws C) (epd : usb_endpoint_descriptor) (e : endpoint) :
  endpoint_ok e → describes epd e →
  usb_endpoint_num epd = number e ∧ usb_endpoint_type epd = transfer e ∧
  usb_endpoint_dir_in epd = is_in e ∧ usb_endpoint_dir_out epd = negb (is_in e) ∧
  usb_endpoint_xfer_control epd = (transfer e =? 0) ∧ usb_endpoint_xfer_isoc epd = (transfer e =? 1) ∧
  usb_endpoint_xfer_bulk epd = (transfer e =? 2) ∧ usb_endpoint_xfer_int epd = (transfer e =? 3) ∧
  usb_endpoint_is_bulk_in epd = (transfer e =? 2) && is_in e ∧
  usb_endpoint_is_bulk_out epd = (transfer e =? 2) && negb (is_in e) ∧
  usb_endpoint_is_int_in epd = (transfer e =? 3) && is_in e ∧
  usb_endpoint_is_int_out epd = (transfer e =? 3) && negb (is_in e) ∧
  usb_endpoint_is_isoc_in epd = (transfer e =? 1) && is_in e ∧
  usb_endpoint_is_isoc_out epd = (transfer e =? 1) && negb (is_in e) ∧
  usb_endpoint_maxp epd = max_packet e ∧ usb_endpoint_maxp_mult epd = per_frame e ∧
  usb_endpoint_interrupt_type epd = 16 * usage e.
Proof.
  intros [Hn Ht Hs Hu Hp Hf] [Ea Et Ep].
  assert (usb_endpoint_num epd = number e) as E1.
  { unfold usb_endpoint_num. rewrite Ea.
    replace (128 * Z.b2z (is_in e)) with (2 ^ 4 * (8 * Z.b2z (is_in e))) by lia. by apply (land_low 4). }
  assert (usb_endpoint_type epd = transfer e) as E2.
  { unfold usb_endpoint_type. rewrite Et.
    replace (transfer e + 4 * sync e + 16 * usage e)
      with (transfer e + 2 ^ 2 * (sync e + 4 * usage e)) by lia.
    by apply (land_low 2). }
  assert (bEndpointAddress epd .& USB_ENDPOINT_DIR_MASK = 128 * Z.b2z (is_in e)) as E3.
  { rewrite Ea. pose proof (land_part 7 1 (number e) (Z.b2z (is_in e)) 0) as E.
    change (2 ^ 7) with 128 in E. change (2 ^ 1) with 2 in E.
    replace (Z.b2z (is_in e) + 2 * 0) with (Z.b2z (is_in e)) in E by lia.
    change ((2 - 1) * 128) with USB_ENDPOINT_DIR_MASK in E. rewrite E; [lia|done|done|lia|].
    by destruct (is_in e). }
  assert (cv_from Little 2 (wMaxPacketSize epd) = max_packet e + 2 ^ 11 * (per_frame e - 1)) as E4.
  { rewrite cv_from_bytes by (by left). rewrite Ep, of_bytes_in_bytes. apply Z.mod_small. cbn. lia. }
  assert (usb_endpoint_interrupt_type epd = 16 * usage e) as E5.
  { unfold usb_endpoint_interrupt_type. rewrite Et.
    pose proof (land_part 4 2 (transfer e + 4 * sync e) (usage e) 0) as E.
    change ((2 ^ 2 - 1) * 2 ^ 4) with USB_ENDPOINT_INTRTYPE in E. change (2 ^ 4) with 16 in E.
    change (2 ^ 2) with 4 in E. replace (usage e + 4 * 0) with (usage e) in E by lia.
    rewrite E by lia. lia. }
  assert (usb_endpoint_dir_in epd = is_in e ∧ usb_endpoint_dir_out epd = negb (is_in e)) as [E6 E7].
  { unfold usb_endpoint_dir_in, usb_endpoint_dir_out. rewrite E3. by destruct (is_in e). }
  unfold usb_endpoint_is_bulk_in, usb_endpoint_is_bulk_out, usb_endpoint_is_int_in,
    usb_endpoint_is_int_out, usb_endpoint_is_isoc_in, usb_endpoint_is_isoc_out,
    usb_endpoint_xfer_control, usb_endpoint_xfer_isoc, usb_endpoint_xfer_bulk, usb_endpoint_xfer_int.
  change (bmAttributes epd .& USB_ENDPOINT_XFERTYPE_MASK) with (usb_endpoint_type epd).
  rewrite E2, E6, E7. repeat (split; [done|]). split; [|split; [|done]].
  - unfold usb_endpoint_maxp. rewrite E4. by apply (land_low 11).
  - unfold usb_endpoint_maxp_mult. rewrite E4. unfold USB_EP_MAXP_MULT.
    pose proof (land_part 11 2 (max_packet e) (per_frame e - 1) 0) as E.
    change ((2 ^ 2 - 1) * 2 ^ 11) with USB_EP_MAXP_MULT_MASK in E.
    replace (per_frame e - 1 + 2 ^ 2 * 0) with (per_frame e - 1) in E by lia.
    rewrite E by lia. change USB_EP_MAXP_MULT_SHIFT with 11. rewrite Z.shiftr_div_pow2 by done.
    rewrite Z.div_mul by done. lia.
Qed.

Lemma endpoint_queries_witness :
  let _ : Compiler := λ _, false in
  let epd := mk_endpoint 7 5 0x83 2 0x0c00 0 0 0 in
  let e := mk_an_endpoint 3 true 2 0 0 1024 2 in
  endpoint_ok e ∧ describes (C := linux_little 64) epd e ∧
  usb_endpoint_num epd = 3 ∧ usb_endpoint_is_bulk_in epd = true ∧
  usb_endpoint_maxp (C := linux_little 64) epd = 1024.
Proof.
  intros cc epd e.
  assert (endpoint_ok e) as He by (split; cbn; lia).
  assert (describes (C := linux_little 64) epd e) as Hd by (split; reflexivity).
  destruct (endpoint_queries (linux_little 64) _ epd e He Hd) as
    (E1 & _ & _ & _ & _ & _ & _ & _ & E9 & _ & _ & _ & _ & _ & E15 & _).
  repeat split; try apply He; try apply Hd; assumption.
Defined.

(** The streams of a companion descriptor: a power of two up to [2^30]; the value 31 of the
    field gives a negative number. *)
Lemma max_streams_power comp :
  let k := ss_bmAttributes comp mod 32 in
  usb_ss_max_streams (Some comp) = if k =? 0 then 0 else if k =? 31 then - 2 ^ 31 else 2 ^ k.
Proof.
  intros k. unfold usb_ss_max_streams. change (ss_bmAttributes comp .& 0x1f) with (ss_bmAttributes comp .& Z.ones 5).
  rewrite Z.land_ones by done.
  change (2 ^ 5) with 32. fold k. destruct (Z.eqb_spec k 0); [done|].
  pose proof (Z.mod_pos_bound (ss_bmAttributes comp) 32 eq_refl) as Hk. fold k in Hk.
  destruct (Z.eqb_spec k 31) as [->|]; [done|].
  rewrite Z.shiftl_mul_pow2, Z.mul_1_l by lia. apply swrap_small; [done|].
  assert (2 ^ k ≤ 2 ^ 30) by (apply Z.pow_le_mono_r; lia).
  pose proof (pow2_pos k). change (2 ^ (32 - 1)) with (2 * 2 ^ 30). lia.
Qed.

(** ** Audio units in memory *)

(** What a unit says, and its bytes for a version of the class.  [au_rest] is what the class
    puts between the controls and the last byte of a mixer, or what is specific to a kind of
    processing. *)
Inductive version : Type := V1 | V2 | V3.
Definition protocol_of (v : version) : Z :=
  match v with V1 => UAC_VERSION_1 | V2 => UAC_VERSION_2 | V3 => UAC_VERSION_3 end.

Record audio_unit : Type := mk_audio_unit {
  au_head : list Z;
  au_sources : list Z;
  au_channels : Z; au_config : Z; au_names : Z; au_cluster : Z;
  au_controls : list Z;
  au_name : Z;
  au_rest : list Z }.

Definition byte (b : Z) : Prop := 0 ≤ b < 256.
Record audio_unit_ok (v : version) (u : audio_unit) : Prop := {
  ao_head : Forall byte (au_head u); ao_sources : Forall byte (au_sources u);
  ao_channels : byte (au_channels u); ao_names : byte (au_names u); ao_name : byte (au_name u);
  ao_config : 0 ≤ au_config u < match v with V1 => 2 ^ 16 | _ => 2 ^ 32 end;
  ao_cluster : 0 ≤ au_cluster u < 2 ^ 16 }.

(** The channels of the unit: in version 3 they are described by a cluster elsewhere. *)
Definition cluster (v : version) (u : audio_unit) : list Z :=
  match v with
  | V1 => [au_channels u] ++ le_bytes 2 (au_config u) ++ [au_names u]
  | V2 => [au_channels u] ++ le_bytes 4 (au_config u) ++ [au_names u]
  | V3 => le_bytes 2 (au_cluster u)
  end.

Definition mixer_bytes (v : version) (u : audio_unit) : list Z :=
  let body := au_head u ++ [Z.of_nat (length (au_sources u))] ++ au_sources u ++ cluster v u ++
    au_controls u ++ au_rest u ++ [au_name u] in
  Z.of_nat (S (length body)) :: body.

Definition processing_bytes (v : version) (u : audio_unit) : list Z :=
  let body := au_head u ++ [Z.of_nat (length (au_sources u))] ++ au_sources u ++ cluster v u ++
    match v with V1 => [Z.of_nat (length (au_controls u))] | _ => [] end ++
    au_controls u ++ match v with V3 => [] | _ => [au_name u] end ++ au_rest u in
  Z.of_nat (S (length body)) :: body.

Lemma load8_at m p l i b a : bytes_at m p l → l !! i = Some b → a = p + Z.of_nat i → load8 a m = Ret (b, m).
Proof.
  intros H Hi ->. revert p i H Hi. induction l as [|c l IH]; intros p i H Hi; [done|].
  destruct H as [H1 H2]. destruct i as [|i]; cbn in Hi.
  - injection Hi as ->. unfold load8, mget, moption. rewrite (bind_eval _ _ _ _ _ eq_refl).
    by rewrite Z.add_0_r, H1.
  - rewrite <- (IH (p + 1) i H2 Hi). f_equal. lia.
Qed.

(** The words that the accessors put together. *)
Lemma word16 x : 0 ≤ x < 2 ^ 16 → (byte_of 1 x ≪ 8) .| byte_of 0 x = x.
Proof.
  intros Hx. unfold byte_of. by_bits n; try (rewrite (testbit_high 16 x) by lia; done); f_equal; lia.
Qed.

Lemma word32 x :
  0 ≤ x < 2 ^ 32 →
  u32 (i32 (byte_of 3 x ≪ 24) .| (byte_of 2 x ≪ 16) .| (byte_of 1 x ≪ 8) .| byte_of 0 x) = x.
Proof.
  intros Hx. apply Z.bits_inj'. intros n Hn. rewrite testbit_wrap by lia.
  destruct (Z.ltb_spec n 32); [|by rewrite (testbit_high 32 x) by lia].
  rewrite !Z.lor_spec, testbit_swrap by lia. unfold byte_of. cbn [andb].
  repeat (progress (rewrite_bits; split_bits)); cbn [orb andb]; f_equal; lia.
Qed.

(** Bytes behind the sources: [c] bytes, the number of sources, the sources, and [body]. *)
Section pins.
Context (m : bmem) (desc c : Z) (pre src body : list Z).
Context (Hc : Z.of_nat (length pre) = c).
Context (Hm : bytes_at m desc (pre ++ [Z.of_nat (length src)] ++ src ++ body)).

Lemma count_read a : a = desc + c → load8 a m = Ret (Z.of_nat (length src), m).
Proof using Hc Hm.
  intros ->. eapply load8_at; [exact Hm| |by rewrite <- Hc].
  rewrite lookup_app_r, Nat.sub_diag by done. done.
Qed.

Lemma body_at : bytes_at m (desc + c + 1 + Z.of_nat (length src)) body.
Proof using Hc Hm.
  rewrite !bytes_at_app in Hm. destruct Hm as (_ & _ & _ & Hb). cbn [length] in Hb.
  by replace (desc + c + 1 + Z.of_nat (length src))
    with (desc + Z.of_nat (length pre) + Z.of_nat 1 + Z.of_nat (length src)) by lia.
Qed.

Lemma body_read k b a :
  body !! k = Some b → a = desc + c + 1 + Z.of_nat (length src) + Z.of_nat k →
  load8 a m = Ret (b, m).
Proof using Hc Hm. intros Hk ->. eapply load8_at; [exact body_at|exact Hk|done]. Qed.

Lemma body_drop k : (k ≤ length body)%nat →
  bytes_at m (desc + c + 1 + Z.of_nat (length src) + Z.of_nat k) (drop k body).
Proof using Hc Hm.
  intros Hk. pose proof body_at as Hb. rewrite <- (take_drop k body), bytes_at_app in Hb.
  destruct Hb as [_ Hb]. by rewrite length_take, Nat.min_l in Hb by done.
Qed.
End pins.

(** The last byte of a descriptor. *)
Lemma last_read m desc l b :
  bytes_at m desc (Z.of_nat (2 + length l) :: l ++ [b]) → last_of desc m = Ret (b, m).
Proof.
  intros Hm. unfold last_of.
  rewrite (bind_eval _ _ m _ m (load8_at m desc _ 0 _ desc Hm eq_refl ltac:(lia))).
  eapply (load8_at m desc _ (S (length l)) b); [exact Hm| |lia].
  change ((l ++ [b]) !! length l = Some b). by rewrite lookup_app_r, Nat.sub_diag by done.
Qed.

Definition reads {A} (f : M bmem A) (m : bmem) (v : A) : Prop := f m = Ret (v, m).

(** The channels through any access [at] to what is behind the sources. *)
Definition config_at (v : version) (at_ : Z → M bmem Z) : M bmem Z :=
  match v with
  | V1 => b2 ← at_ 2; b1 ← at_ 1; mret (u32 ((b2 ≪ 8) .| b1))
  | _ => b4 ← at_ 4; b3 ← at_ 3; b2 ← at_ 2; b1 ← at_ 1;
      mret (u32 (i32 (b4 ≪ 24) .| (b3 ≪ 16) .| (b2 ≪ 8) .| b1))
  end.
Definition names_at (v : version) (at_ : Z → M bmem Z) : M bmem Z :=
  match v with V1 => at_ 3 | _ => at_ 5 end.
Definition cluster_at (at_ : Z → M bmem Z) : M bmem Z :=
  b1 ← at_ 1; b0 ← at_ 0; mret (u16 ((b1 ≪ 8) .| b0)).

Lemma cluster_reads v u m rest (at_ : Z → M bmem Z) :
  audio_unit_ok v u →
  (∀ k b, (cluster v u ++ rest) !! k = Some b → at_ (Z.of_nat k) m = Ret (b, m)) →
  match v with
  | V3 => reads (cluster_at at_) m (au_cluster u)
  | _ => reads (at_ 0) m (au_channels u) ∧ reads (config_at v at_) m (au_config u) ∧
      reads (names_at v at_) m (au_names u)
  end.
Proof.
  intros [_ _ _ _ _ Hcfg Hcl] Hat. unfold cluster in Hat. rewrite ?le_bytes_eq in Hat.
  pose proof (Hat 0%nat) as H0. pose proof (Hat 1%nat) as H1. pose proof (Hat 2%nat) as H2.
  pose proof (Hat 3%nat) as H3. pose proof (Hat 4%nat) as H4. pose proof (Hat 5%nat) as H5. clear Hat.
  unfold reads, config_at, names_at, cluster_at. destruct v; rewrite ?le_bytes_eq in *.
  all: specialize (H0 _ eq_refl); specialize (H1 _ eq_refl).
  - specialize (H2 _ eq_refl). specialize (H3 _ eq_refl). split; [exact H0|split; [|exact H3]].
    rewrite (bind_eval _ _ _ _ _ H2), (bind_eval _ _ _ _ _ H1). unfold mret, M_ret.
    rewrite word16 by done. rewrite uwrap_small by lia. done.
  - specialize (H2 _ eq_refl). specialize (H3 _ eq_refl). specialize (H4 _ eq_refl).
    specialize (H5 _ eq_refl). split; [exact H0|split; [|exact H5]].
    rewrite (bind_eval _ _ _ _ _ H4), (bind_eval _ _ _ _ _ H3), (bind_eval _ _ _ _ _ H2),
      (bind_eval _ _ _ _ _ H1). unfold mret, M_ret. by rewrite word32.
  - rewrite (bind_eval _ _ _ _ _ H1), (bind_eval _ _ _ _ _ H0). unfold mret, M_ret.
    rewrite word16 by done. by rewrite uwrap_small.
Qed.

(** The branch of a known version. *)
Ltac version_branch :=
  cbv [protocol_of UAC_VERSION_1 UAC_VERSION_2 UAC_VERSION_3 Z.eqb Pos.eqb].

Lemma mixer_reads v u m desc :
  audio_unit_ok v u → length (au_head u) = 3%nat → bytes_at m desc (mixer_bytes v u) →
  reads (uac_mixer_unit_iMixer desc) m (au_name u) ∧
  (∃ a, reads (uac_mixer_unit_bmControls desc (protocol_of v)) m (Some a) ∧
    bytes_at m a (au_controls u)) ∧
  match v with
  | V3 => reads (uac3_mixer_unit_wClusterDescrID desc) m (au_cluster u)
  | _ => reads (uac_mixer_unit_bNrChannels desc) m (au_channels u) ∧
      reads (uac_mixer_unit_wChannelConfig desc (protocol_of v)) m (au_config u) ∧
      reads (uac_mixer_unit_iChannelNames desc (protocol_of v)) m (au_names u)
  end.
Proof.
  intros Hok Hh Hm. split.
  { unfold uac_mixer_unit_iMixer, reads.
    eapply (last_read m desc (au_head u ++ [Z.of_nat (length (au_sources u))] ++ au_sources u ++
      cluster v u ++ au_controls u ++ au_rest u) (au_name u)).
    unfold mixer_bytes in Hm. rewrite <- !app_assoc. revert Hm. rewrite !length_app. cbn [length].
    by match goal with |- bytes_at _ _ (?a :: _) → bytes_at _ _ (?b :: _) => replace b with a by lia end. }
  set (rest := au_controls u ++ au_rest u ++ [au_name u]).
  assert (∃ n, bytes_at m desc ((n :: au_head u) ++ [Z.of_nat (length (au_sources u))] ++
    au_sources u ++ (cluster v u ++ rest))) as [n Hb] by (eexists; exact Hm).
  assert (Z.of_nat (length (n :: au_head u)) = 4) as Hc by (cbn; lia).
  pose proof (count_read m desc 4 _ _ _ Hc Hb _ eq_refl) as Hcount.
  split.
  { exists (desc + 5 + Z.of_nat (length (au_sources u)) + Z.of_nat (length (cluster v u))).
    pose proof (body_drop m desc 4 _ _ _ Hc Hb (length (cluster v u)) ltac:(rewrite length_app; lia)) as Hctl.
    rewrite drop_app_length in Hctl. unfold rest in Hctl. apply bytes_at_app in Hctl as [Hctl _].
    split; [|by replace (desc + 5) with (desc + 4 + 1) by lia].
    unfold reads, uac_mixer_unit_bmControls.
    by destruct v; version_branch; rewrite (bind_eval _ _ _ _ _ Hcount). }
  assert (∀ k b, (cluster v u ++ rest) !! k = Some b → mixer_at desc (Z.of_nat k) m = Ret (b, m)) as Hat.
  { intros k b Hk. unfold mixer_at. rewrite (bind_eval _ _ _ _ _ Hcount).
    eapply (body_read m desc 4 _ _ _ Hc Hb); [exact Hk|lia]. }
  pose proof (cluster_reads v u m rest _ Hok Hat) as Hr. by destruct v.
Qed.

Lemma processing_reads v u m desc :
  audio_unit_ok v u → length (au_head u) = 5%nat →
  length (au_controls u) = match v with V1 => length (au_controls u) | V2 => 2%nat | V3 => 4%nat end →
  bytes_at m desc (processing_bytes v u) →
  reads (uac_processing_unit_bControlSize desc (protocol_of v)) m (Z.of_nat (length (au_controls u))) ∧
  (∃ a, reads (uac_processing_unit_bmControls desc (protocol_of v)) m (Some a) ∧
    bytes_at m a (au_controls u)) ∧
  reads (uac_processing_unit_iProcessing desc (protocol_of v)) m
    (match v with V3 => 0 | _ => au_name u end) ∧
  (∃ a, reads (uac_processing_unit_specific desc (protocol_of v)) m a ∧ bytes_at m a (au_rest u)) ∧
  match v with
  | V3 => True
  | _ => reads (uac_processing_unit_bNrChannels desc) m (au_channels u) ∧
      reads (uac_processing_unit_wChannelConfig desc (protocol_of v)) m (au_config u) ∧
      reads (uac_processing_unit_iChannelNames desc (protocol_of v)) m (au_names u)
  end.
Proof.
  intros Hok Hh Hl Hm.
  set (size := match v with V1 => [Z.of_nat (length (au_controls u))] | _ => [] end).
  set (name := match v with V3 => [] | _ => [au_name u] end).
  set (rest := size ++ au_controls u ++ name ++ au_rest u).
  assert (∃ n, bytes_at m desc ((n :: au_head u) ++ [Z.of_nat (length (au_sources u))] ++
    au_sources u ++ (cluster v u ++ rest))) as [n Hb] by (eexists; exact Hm).
  assert (Z.of_nat (length (n :: au_head u)) = 6) as Hc by (cbn; lia).
  pose proof (count_read m desc 6 _ _ _ Hc Hb _ eq_refl) as Hcount.
  set (base := desc + 7 + Z.of_nat (length (au_sources u))).
  set (ctl := base + Z.of_nat (length (cluster v u ++ size))).
  assert (bytes_at m ctl (au_controls u ++ name ++ au_rest u)) as Hctl.
  { pose proof (body_drop m desc 6 _ _ _ Hc Hb (length (cluster v u ++ size))) as H.
    unfold rest in H. rewrite app_assoc, drop_app_length in H.
    unfold ctl, base. replace (desc + 7) with (desc + 6 + 1) by lia. apply H. rewrite !length_app. lia. }
  apply bytes_at_app in Hctl as [Hctl Hname]. apply bytes_at_app in Hname as [Hname Hrest].
  assert (∀ k b, (cluster v u ++ rest) !! k = Some b → processing_at desc (Z.of_nat k) m = Ret (b, m)) as Hat.
  { intros k b Hk. unfold processing_at. rewrite (bind_eval _ _ _ _ _ Hcount).
    eapply (body_read m desc 6 _ _ _ Hc Hb); [exact Hk|lia]. }
  assert (reads (uac_processing_unit_bControlSize desc (protocol_of v)) m
    (Z.of_nat (length (au_controls u)))) as Hsize.
  { unfold reads, uac_processing_unit_bControlSize. destruct v; version_branch; rewrite ?Hl; try done.
    exact (Hat 4%nat _ eq_refl). }
  assert (reads (uac_processing_unit_bmControls desc (protocol_of v)) m (Some ctl)) as Hptr.
  { unfold reads, uac_processing_unit_bmControls.
    by destruct v; version_branch; rewrite (bind_eval _ _ _ _ _ Hcount). }
  split; [exact Hsize|split; [by exists ctl|split; [|split]]].
  - unfold reads, uac_processing_unit_iProcessing. rewrite (bind_eval _ _ _ _ _ Hsize).
    destruct v; try done; match goal with |- context [?a =? ?b] => change (a =? b) with false end;
      cbv iota; rewrite (bind_eval _ _ _ _ _ Hptr);
      destruct Hname as [Hname _]; exact (load8_at m _ [au_name u] 0 _ _ (conj Hname I) eq_refl (eq_sym (Z.add_0_r _))).
  - exists (ctl + Z.of_nat (length (au_controls u)) + Z.of_nat (length name)). split; [|exact Hrest].
    unfold reads, uac_processing_unit_specific.
    rewrite (bind_eval _ _ _ _ _ Hsize), (bind_eval _ _ _ _ _ Hptr).
    unfold mbind, M_bind, moption, mret, M_ret. do 2 f_equal. unfold name.
    generalize ctl, (length (au_controls u)). intros. by destruct v; cbn [length Z.of_nat]; version_branch; lia.
  - pose proof (cluster_reads v u m rest _ Hok Hat) as Hr. by destruct v.
Qed.

(** C30: of the units of an audio device, laid out in memory for each version of the class, the
    accessors read back what the unit says: the channels, their configuration and names, the
    controls, the name at the end, and what is specific to a kind of processing.  For any
    other version the controls of a processing unit are the null pointer, through which
    [uac_processing_unit_iProcessing] reads. *)
Theorem audio_units_read_back (v : version) (u : audio_unit) (m : bmem) (desc : Z) :
  audio_unit_ok v u →
  (length (au_head u) = 3%nat → bytes_at m desc (mixer_bytes v u) →
    reads (uac_mixer_unit_iMixer desc) m (au_name u) ∧
    (∃ a, reads (uac_mixer_unit_bmControls desc (protocol_of v)) m (Some a) ∧
      bytes_at m a (au_controls u)) ∧
    match v with
    | V3 => reads (uac3_mixer_unit_wClusterDescrID desc) m (au_cluster u)
    | _ => reads (uac_mixer_unit_bNrChannels desc) m (au_channels u) ∧
        reads (uac_mixer_unit_wChannelConfig desc (protocol_of v)) m (au_config u) ∧
        reads (uac_mixer_unit_iChannelNames desc (protocol_of v)) m (au_names u)
    end) ∧
  (length (au_head u) = 5%nat →
    length (au_controls u) = match v with V1 => length (au_controls u) | V2 => 2%nat | V3 => 4%nat end →
    bytes_at m desc (processing_bytes v u) →
    reads (uac_processing_unit_bControlSize desc (protocol_of v)) m (Z.of_nat (length (au_controls u))) ∧
    (∃ a, reads (uac_processing_unit_bmControls desc (protocol_of v)) m (Some a) ∧
      bytes_at m a (au_controls u)) ∧
    reads (uac_processing_unit_iProcessing desc (protocol_of v)) m
      (match v with V3 => 0 | _ => au_name u end) ∧
    (∃ a, reads (uac_processing_unit_specific desc (protocol_of v)) m a ∧ bytes_at m a (au_rest u)) ∧
    match v with
    | V3 => True
    | _ => reads (uac_processing_unit_bNrChannels desc) m (au_channels u) ∧
        reads (uac_processing_unit_wChannelConfig desc (protocol_of v)) m (au_config u) ∧
        reads (uac_processing_unit_iChannelNames desc (protocol_of v)) m (au_names u)
    end) ∧
  (∀ protocol, ¬ (∃ w, protocol = protocol_of w) →
    reads (uac_processing_unit_bmControls desc protocol) m None ∧
    uac_processing_unit_iProcessing desc protocol m = UB NullDeref).
Proof.
  intros Hok. split; [by apply mixer_reads|split; [by apply processing_reads|]].
  intros protocol Hp. unfold reads, uac_processing_unit_iProcessing, uac_processing_unit_bmControls,
    uac_processing_unit_bControlSize.
  destruct (Z.eqb_spec protocol UAC_VERSION_1); [by destruct Hp; exists V1|].
  destruct (Z.eqb_spec protocol UAC_VERSION_2); [by destruct Hp; exists V2|].
  destruct (Z.eqb_spec protocol UAC_VERSION_3); [by destruct Hp; exists V3|]. done.
Qed.

(** A mixer of version 2 with three inputs. *)
Definition a_mixer : audio_unit :=
  mk_audio_unit [0x24; 4; 9] [1; 2; 3] 2 0x80000003 7 0 [0xff; 0] 11 [0].
Definition a_memory : bmem :=
  list_to_map (zip (seqZ 100 (Z.of_nat (length (mixer_bytes V2 a_mixer)))) (mixer_bytes V2 a_mixer)).

Lemma audio_units_read_back_witness :
  bytes_at a_memory 100 (mixer_bytes V2 a_mixer) ∧
  reads (uac_mixer_unit_wChannelConfig 100 UAC_VERSION_2) a_memory 0x80000003 ∧
  reads (uac_mixer_unit_iMixer 100) a_memory 11.
Proof.
  assert (audio_unit_ok V2 a_mixer) as Hok.
  { split; cbn; unfold byte; try (repeat constructor); lia. }
  assert (bytes_at a_memory 100 (mixer_bytes V2 a_mixer)) as Hm by (vm_compute; tauto).
  split; [exact Hm|].
  destruct (audio_units_read_back V2 a_mixer a_memory 100 Hok) as (H & _).
  destruct (H eq_refl Hm) as (H1 & _ & _ & H2 & _). split; [exact H2|exact H1].
Defined.
