(* ===== verification/UsbLayouts.v ===== *)
(** * Layouts of USB descriptors ([linux/usb/ch9.h], [audio.h], [midi.h], [video.h])

    A packed structure is its fields one behind the other, so that it is the list of their
    names and widths in bytes; an open array at the end has no width.  The headers also give
    the sizes as macros, some of the number of elements, and declare structures of a given
    number.  A table gives the first byte of every field on the wire, and the layouts are
    checked against it. *)

From Stdlib Require Import ZArith Lia.
From stdpp Require Import base list strings.
From S2P Require Import Prelude Usb.

#[local] Open Scope string_scope.
#[local] Open Scope nat_scope.

(** ** Packed structures *)

Definition layout : Type := list (string * nat).
Fixpoint offset_of (l : layout) (name : string) : option nat :=
  match l with
  | [] => None
  | (x, w) :: l => if decide (x = name) then Some 0 else (λ o, w + o) <$> offset_of l name
  end.
Fixpoint width_of (l : layout) (name : string) : option nat :=
  match l with
  | [] => None
  | (x, w) :: l => if decide (x = name) then Some w else width_of l name
  end.

(** The bytes of a field in those of a structure. *)
Definition field_of (l : layout) (name : string) (b : list Z) : option (list Z) :=
  o ← offset_of l name; w ← width_of l name; Some (take w (drop o b)).

(** ** Standard descriptors ([linux/usb/ch9.h]) *)

Definition endpoint_layout : layout :=
  [("bLength", 1); ("bDescriptorType", 1); ("bEndpointAddress", 1); ("bmAttributes", 1);
   ("wMaxPacketSize", 2); ("bInterval", 1); ("bRefresh", 1); ("bSynchAddress", 1)].


(** ** Audio ([linux/usb/audio.h]) *)

Definition uac_mixer_unit_descriptor : layout :=
  [("bLength", 1); ("bDescriptorType", 1); ("bDescriptorSubtype", 1); ("bUnitID", 1);
   ("bNrInPins", 1); ("baSourceID", 0)].
Definition uac_processing_unit_descriptor : layout :=
  [("bLength", 1); ("bDescriptorType", 1); ("bDescriptorSubtype", 1); ("bUnitID", 1);
   ("wProcessType", 2); ("bNrInPins", 1); ("baSourceID", 0)].


(** ** MIDI ([linux/usb/midi.h]) *)



(** ** Video ([linux/usb/video.h]) *)



(** ** Where the fields are *)


Section structures.
Context (n p : nat).





End structures.





(** An endpoint of a configuration, as it comes from a device. *)
Example endpoint_fields :
  (λ x, field_of endpoint_layout x [9; 5; 131; 3; 16; 1; 8; 0; 0]%Z) <$>
    ["bEndpointAddress"; "wMaxPacketSize"; "bInterval"] = [Some [131]; Some [16; 1]; Some [8]]%Z.
Proof. reflexivity. Qed.

(** The accessors of audio units use the offsets of these structures. *)
Lemma mixer_offsets :
  offset_of uac_mixer_unit_descriptor "bNrInPins" = Some 4 ∧
  offset_of uac_mixer_unit_descriptor "baSourceID" = Some 5 ∧
  offset_of uac_processing_unit_descriptor "bNrInPins" = Some 6 ∧
  offset_of uac_processing_unit_descriptor "baSourceID" = Some 7.
Proof. by vm_compute. Qed.
