(* ===== verification/Bsearch.v ===== *)
(** * Binary search ([bits/stdlib-bsearch.h])

    [bsearch] on an array of [__nmemb] elements of [__size] bytes.  The comparison is a
    parameter, as it is in C; the array maps addresses to elements.  Indices are [size_t]:
    their arithmetic wraps.  The window halves in each round, so 65 rounds are enough. *)

From stdpp Require Import base list numbers.
From Stdlib Require Import ZArith Lia.
From S2P Require Import Prelude.

#[local] Open Scope Z_scope.

Section bsearch.
Context {K E : Type} (__compar : K → E → Z).

(** The element at the address [p] of an array of elements of [size] bytes at [base]. *)
Definition element (base size : Z) (array : list E) (p : Z) : outcome E :=
  if (base <=? p) && ((p - base) mod size =? 0) then
    match array !! Z.to_nat ((p - base) / size) with Some e => Ret e | None => UB OutOfBounds end
  else UB OutOfBounds.

Fixpoint bsearch_loop (fuel : nat) (__key : K) (__base __size : Z) (array : list E)
    (__l __u : Z) : outcome (option Z) :=
  match fuel with
  | O => OutOfFuel
  | S fuel =>
    if __l <? __u then
      let __idx := u64 (__l + __u) / 2 in
      let __p := __base + u64 (__idx * __size) in
      e ← element __base __size array __p;
      let __comparison := __compar __key e in
      if __comparison <? 0 then bsearch_loop fuel __key __base __size array __l __idx
      else if 0 <? __comparison then
        bsearch_loop fuel __key __base __size array (u64 (__idx + 1)) __u
      else mret (Some __p)
    else mret None
  end.

Definition bsearch (__key : K) (__base __nmemb __size : Z) (array : list E) : outcome (option Z) :=
  bsearch_loop 65 __key __base __size array 0 __nmemb.

(** ** What it finds *)

(** The elements that compare below the key come first, then those that compare equal, then
    those above: for no two elements the first compares higher than the second. *)
Definition partitioned (key : K) (array : list E) : Prop :=
  ∀ i j e f, array !! i = Some e → array !! j = Some f → (i ≤ j)%nat →
    (__compar key f > 0 → __compar key e > 0) ∧ (__compar key e < 0 → __compar key f < 0).

Section found.
Context (key : K) (base size : Z) (array : list E).
Context (Hsize : 0 < size) (Hfits : Z.of_nat (length array) * size < 2 ^ 63).
Context (Hpart : partitioned key array).

Lemma element_ok i e :
  array !! i = Some e →
  u64 (Z.of_nat i * size) = Z.of_nat i * size ∧
  element base size array (base + Z.of_nat i * size) = Ret e.
Proof.
  intros He. pose proof (lookup_lt_Some _ _ _ He). split.
  - apply uwrap_small. nia.
  - unfold element. replace (base + Z.of_nat i * size - base) with (Z.of_nat i * size) by lia.
    rewrite Z.mod_mul, Z.div_mul, Nat2Z.id, He by lia.
    replace (base <=? base + Z.of_nat i * size) with true; [done|]. symmetry. apply Z.leb_le. nia.
Qed.

(** What the window [[l, u)] leaves out: below it elements before the key, above it elements
    after the key. *)
Definition outside (l u : Z) : Prop :=
  ∀ i e, array !! i = Some e →
    (Z.of_nat i < l → __compar key e > 0) ∧ (u ≤ Z.of_nat i → __compar key e < 0).

Definition search_result (r : option Z) : Prop :=
  match r with
  | Some p => ∃ i e, array !! i = Some e ∧ p = base + Z.of_nat i * size ∧ __compar key e = 0
  | None => ∀ e, e ∈ array → __compar key e ≠ 0
  end.

Lemma bsearch_loop_ok fuel l u :
  0 ≤ l → u ≤ Z.of_nat (length array) → u - l < 2 ^ Z.of_nat fuel → outside l u →
  owp (bsearch_loop (S fuel) key base size array l u) search_result.
Proof.
  revert l u. induction fuel as [|fuel IH]; intros l u Hl Hu Hf Hout.
  - cbn [bsearch_loop]. destruct (Z.ltb_spec l u) as [Hlt|Hge]; [change (2 ^ Z.of_nat 0) with 1 in Hf; lia|].
    apply owp_ret. intros e [i Hi]%list_elem_of_lookup He0.
    destruct (Hout i e Hi) as [H1 H2]. destruct (Z.ltb_spec (Z.of_nat i) l); lia.
  - remember (S fuel) as n eqn:En. cbn [bsearch_loop]. subst n.
    destruct (Z.ltb_spec l u) as [Hlt|Hge].
    2: { apply owp_ret. intros e [i Hi]%list_elem_of_lookup He0.
         destruct (Hout i e Hi) as [H1 H2]. destruct (Z.ltb_spec (Z.of_nat i) l); lia. }
    rewrite (uwrap_small 64 (l + u)) by nia.
    set (idx := (l + u) / 2). assert (l ≤ idx < u) as Hidx by (unfold idx; Z.div_mod_to_equations; lia).
    assert (Z.to_nat idx < length array)%nat as [e He]%lookup_lt_is_Some by lia.
    destruct (element_ok (Z.to_nat idx) e He) as [Hw Hel]. rewrite Z2Nat.id in Hw, Hel by lia.
    rewrite Hw, Hel. apply owp_bind, owp_ret.
    assert (2 ^ Z.of_nat (S fuel) = 2 * 2 ^ Z.of_nat fuel) as Hp
      by (rewrite Nat2Z.inj_succ, Z.pow_succ_r by lia; done).
    destruct (Z.ltb_spec (__compar key e) 0) as [Hc|Hc];
      [|destruct (Z.ltb_spec 0 (__compar key e)) as [Hc'|Hc']].
    + apply (IH l idx); [lia|lia|unfold idx in *; Z.div_mod_to_equations; lia|].
      intros i f Hi. split; [by apply Hout|]. intros Hge.
      apply (Hpart (Z.to_nat idx) i e f); [done|done|lia|done].
    + rewrite (uwrap_small 64 (idx + 1)) by nia.
      apply (IH (idx + 1) u); [lia|lia|unfold idx in *; Z.div_mod_to_equations; lia|].
      intros i f Hi. split; [|by apply Hout]. intros Hge.
      apply (Hpart i (Z.to_nat idx) f e); [done|done|lia|lia].
    + apply owp_ret. exists (Z.to_nat idx), e. rewrite Z2Nat.id by lia. split; [done|]. split; [done|lia].
Qed.
End found.
End bsearch.

(** C26: on an array in the order that the standard asks for, which fits in memory, [bsearch]
    returns within 65 rounds, reads nothing outside the array, and finds an element that
    compares equal to the key exactly when there is one. *)
Theorem bsearch_finds {K E} (compar : K → E → Z) (key : K) (base size : Z) (array : list E) :
  0 < size → Z.of_nat (length array) * size < 2 ^ 63 → partitioned compar key array →
  owp (bsearch compar key base (Z.of_nat (length array)) size array)
    (search_result compar key base size array).
Proof.
  intros Hsize Hfits Hpart. unfold bsearch. apply bsearch_loop_ok; try done.
  - change (2 ^ Z.of_nat 64) with (2 ^ 64). nia.
  - intros i e Hi. apply lookup_lt_Some in Hi. lia.
Qed.

(** Four integers of eight bytes at 1000: 7 is the third. *)
Lemma bsearch_finds_witness :
  bsearch Z.sub 7 1000 4 8 [2; 3; 7; 11] = Ret (Some 1016) ∧
  owp (bsearch Z.sub 7 1000 4 8 [2; 3; 7; 11]) (search_result Z.sub 7 1000 8 [2; 3; 7; 11]).
Proof.
  split; [reflexivity|]. apply (bsearch_finds Z.sub 7 1000 8 [2; 3; 7; 11]); [done|done|].
  intros [|[|[|[|i]]]] [|[|[|[|j]]]] e f He Hf Hij; cbn in He, Hf; try discriminate;
    injection He as <-; injection Hf as <-; lia.
Defined.
