(* ===== verification/TimeVal.v ===== *)
(** * Arithmetic on times ([sys/time.h])

    The macros on [struct timeval].  They take pointers, and the result may be one of the
    arguments: memory maps a pointer to a struct.  Seconds and microseconds are [long]s, so an
    addition that leaves 64 bits is undefined. *)

From stdpp Require Import base gmap numbers.
From Stdlib Require Import ZArith Lia.
From S2P Require Import Prelude.

#[local] Open Scope Z_scope.

Record timeval : Type := Timeval { tv_sec : Z; tv_usec : Z }.

Abbreviation tmem := (gmap Z timeval).

Definition at_time (p : Z) : M tmem timeval := m ← mget; moption Dangling (m !! p).
Definition set_sec (p s : Z) : M tmem unit :=
  t ← at_time p; mmodify (insert p (Timeval s (tv_usec t))).
Definition set_usec (p u : Z) : M tmem unit :=
  t ← at_time p; mmodify (insert p (Timeval (tv_sec t) u)).

(** A result of signed arithmetic on [long]s. *)
Definition long_ok (z : Z) : bool := (- 2 ^ 63 <=? z) && (z <? 2 ^ 63).
Definition long (z : Z) : M tmem Z := if long_ok z then mret z else mub IntOverflow.

(** ** The macros *)

Definition timerisset (tvp : Z) : M tmem bool :=
  t ← at_time tvp;
  if negb (tv_sec t =? 0) then mret true else t ← at_time tvp; mret (negb (tv_usec t =? 0)).

Definition timerclear (tvp : Z) : M tmem unit :=
  set_usec tvp 0;; t ← at_time tvp; set_sec tvp (tv_usec t).

Definition timercmp (a b : Z) (CMP : Z → Z → bool) : M tmem bool :=
  x ← at_time a; y ← at_time b;
  if tv_sec x =? tv_sec y then mret (CMP (tv_usec x) (tv_usec y))
  else mret (CMP (tv_sec x) (tv_sec y)).

Definition timeradd (a b result : Z) : M tmem unit :=
  x ← at_time a; y ← at_time b; s ← long (tv_sec x + tv_sec y); set_sec result s;;
  x ← at_time a; y ← at_time b; u ← long (tv_usec x + tv_usec y); set_usec result u;;
  r ← at_time result;
  if 1000000 <=? tv_usec r then
    r ← at_time result; s ← long (tv_sec r + 1); set_sec result s;;
    r ← at_time result; u ← long (tv_usec r - 1000000); set_usec result u
  else mret tt.

Definition timersub (a b result : Z) : M tmem unit :=
  x ← at_time a; y ← at_time b; s ← long (tv_sec x - tv_sec y); set_sec result s;;
  x ← at_time a; y ← at_time b; u ← long (tv_usec x - tv_usec y); set_usec result u;;
  r ← at_time result;
  if tv_usec r <? 0 then
    r ← at_time result; s ← long (tv_sec r - 1); set_sec result s;;
    r ← at_time result; u ← long (tv_usec r + 1000000); set_usec result u
  else mret tt.

(** ** Times as numbers of microseconds *)

Definition micros (t : timeval) : Z := tv_sec t * 1000000 + tv_usec t.
Definition normal (t : timeval) : Prop := 0 ≤ tv_usec t < 1000000 ∧ long_ok (tv_sec t) = true.

(** A result whose seconds fit. *)
Definition representable (z : Z) : Prop := long_ok (z / 1000000) = true.

Definition of_micros (z : Z) : timeval := Timeval (z / 1000000) (z mod 1000000).

Lemma of_micros_normal z : representable z → normal (of_micros z) ∧ micros (of_micros z) = z.
Proof.
  intros H. split; [split; [by apply Z.mod_pos_bound|done]|].
  unfold micros, of_micros. cbn [tv_sec tv_usec]. pose proof (Z.div_mod z 1000000). lia.
Qed.

Lemma micros_inj t : normal t → t = of_micros (micros t).
Proof.
  intros [H _]. destruct t as [s u]. unfold of_micros, micros. cbn [tv_sec tv_usec] in *.
  f_equal; Z.div_mod_to_equations; lia.
Qed.

Lemma long_okP z : long_ok z = true ↔ - 2 ^ 63 ≤ z < 2 ^ 63.
Proof. unfold long_ok. rewrite andb_true_iff, Z.leb_le, Z.ltb_lt. done. Qed.

(** ** Rules *)

Lemma wp_at_time m p t (Q : timeval → tmem → Prop) :
  m !! p = Some t → Q t m → wp (at_time p) m Q.
Proof. intros E H. apply wp_bind, wp_get. by eapply wp_option. Qed.
Lemma wp_set_sec m p t s (Q : unit → tmem → Prop) :
  m !! p = Some t → Q tt (<[p := Timeval s (tv_usec t)]> m) → wp (set_sec p s) m Q.
Proof. intros E H. apply wp_bind. by eapply wp_at_time. Qed.
Lemma wp_set_usec m p t u (Q : unit → tmem → Prop) :
  m !! p = Some t → Q tt (<[p := Timeval (tv_sec t) u]> m) → wp (set_usec p u) m Q.
Proof. intros E H. apply wp_bind. by eapply wp_at_time. Qed.
Lemma wp_long z m (Q : Z → tmem → Prop) : - 2 ^ 63 ≤ z < 2 ^ 63 → Q z m → wp (long z) m Q.
Proof. intros H%long_okP HQ. unfold long. by rewrite H. Qed.

(** The value at [q] after the seconds of [r] have been stored: its microseconds are those
    from before, even if [q] is [r]. *)
Lemma usec_after (m : tmem) (q r : Z) (t tr : timeval) (s : Z) :
  m !! q = Some t → m !! r = Some tr →
  ∃ t', <[r := Timeval s (tv_usec tr)]> m !! q = Some t' ∧ tv_usec t' = tv_usec t.
Proof.
  intros Hq Hr. destruct (decide (q = r)) as [->|Hne].
  - eexists. split; [apply lookup_insert_eq|]. rewrite Hq in Hr. by injection Hr as <-.
  - exists t. by rewrite lookup_insert_ne.
Qed.

Section arithmetic.
Context (m : tmem) (a b r : Z) (A B R : timeval).
Context (Ha : m !! a = Some A) (Hb : m !! b = Some B) (Hr : m !! r = Some R).
Context (HA : normal A) (HB : normal B).

(** The first two assignments, for an operation on each field. *)
Lemma wp_fields (op : Z → Z → Z) (k : M tmem unit) (Q : unit → tmem → Prop) :
  - 2 ^ 63 ≤ op (tv_sec A) (tv_sec B) < 2 ^ 63 →
  - 2 ^ 63 ≤ op (tv_usec A) (tv_usec B) < 2 ^ 63 →
  wp k (<[r := Timeval (op (tv_sec A) (tv_sec B)) (op (tv_usec A) (tv_usec B))]> m) Q →
  wp (x ← at_time a; y ← at_time b; s ← long (op (tv_sec x) (tv_sec y)); set_sec r s;;
      x ← at_time a; y ← at_time b; u ← long (op (tv_usec x) (tv_usec y)); set_usec r u;; k) m Q.
Proof.
  intros Hs Hu Hk. apply wp_bind. eapply wp_at_time; [exact Ha|].
  apply wp_bind. eapply wp_at_time; [exact Hb|]. apply wp_bind, wp_long; [done|].
  apply wp_bind. eapply wp_set_sec; [exact Hr|].
  destruct (usec_after m a r A R (op (tv_sec A) (tv_sec B)) Ha Hr) as (A' & HA' & EA).
  destruct (usec_after m b r B R (op (tv_sec A) (tv_sec B)) Hb Hr) as (B' & HB' & EB).
  apply wp_bind. eapply wp_at_time; [exact HA'|]. apply wp_bind. eapply wp_at_time; [exact HB'|].
  rewrite EA, EB. apply wp_bind, wp_long; [done|].
  apply wp_bind. eapply wp_set_usec; [apply lookup_insert_eq|]. by rewrite insert_insert_eq.
Qed.

Lemma timeradd_ok :
  long_ok (tv_sec A + tv_sec B) = true → representable (micros A + micros B) →
  wp (timeradd a b r) m (λ _ m', m' = <[r := of_micros (micros A + micros B)]> m).
Proof.
  intros Hs%long_okP Hrep%long_okP. destruct HA as [HuA _], HB as [HuB _].
  unfold timeradd. apply (wp_fields Z.add); [done|lia|]. unfold micros in *.
  apply wp_bind. eapply wp_at_time; [apply lookup_insert_eq|]. cbn [tv_usec].
  destruct (Z.leb_spec 1000000 (tv_usec A + tv_usec B)).
  - apply wp_bind. eapply wp_at_time; [apply lookup_insert_eq|]. cbn [tv_sec tv_usec].
    apply wp_bind, wp_long; [Z.div_mod_to_equations; lia|].
    apply wp_bind. eapply wp_set_sec; [apply lookup_insert_eq|]. rewrite insert_insert_eq.
    apply wp_bind. eapply wp_at_time; [apply lookup_insert_eq|]. cbn [tv_sec tv_usec].
    apply wp_bind, wp_long; [lia|]. eapply wp_set_usec; [apply lookup_insert_eq|].
    rewrite insert_insert_eq. cbn [tv_sec]. f_equal. unfold of_micros. f_equal; Z.div_mod_to_equations; lia.
  - apply wp_ret. f_equal. unfold of_micros. f_equal; Z.div_mod_to_equations; lia.
Qed.

Lemma timersub_ok :
  long_ok (tv_sec A - tv_sec B) = true → representable (micros A - micros B) →
  wp (timersub a b r) m (λ _ m', m' = <[r := of_micros (micros A - micros B)]> m).
Proof.
  intros Hs%long_okP Hrep%long_okP. destruct HA as [HuA _], HB as [HuB _].
  unfold timersub. apply (wp_fields Z.sub); [done|lia|]. unfold micros in *.
  apply wp_bind. eapply wp_at_time; [apply lookup_insert_eq|]. cbn [tv_usec].
  destruct (Z.ltb_spec (tv_usec A - tv_usec B) 0).
  - apply wp_bind. eapply wp_at_time; [apply lookup_insert_eq|]. cbn [tv_sec tv_usec].
    apply wp_bind, wp_long; [Z.div_mod_to_equations; lia|].
    apply wp_bind. eapply wp_set_sec; [apply lookup_insert_eq|]. rewrite insert_insert_eq.
    apply wp_bind. eapply wp_at_time; [apply lookup_insert_eq|]. cbn [tv_sec tv_usec].
    apply wp_bind, wp_long; [lia|]. eapply wp_set_usec; [apply lookup_insert_eq|].
    rewrite insert_insert_eq. cbn [tv_sec]. f_equal. unfold of_micros. f_equal; Z.div_mod_to_equations; lia.
  - apply wp_ret. f_equal. unfold of_micros. f_equal; Z.div_mod_to_equations; lia.
Qed.

(** The comparison of two fields is the comparison of the times, for every operator that
    only depends on the order, [<=] and [>=] included. *)
Definition by_order_of (CMP : Z → Z → bool) : Prop :=
  ∃ f : comparison → bool, ∀ x y, CMP x y = f (x ?= y).

Lemma timercmp_ok CMP :
  by_order_of CMP → wp (timercmp a b CMP) m (λ c m', c = CMP (micros A) (micros B) ∧ m' = m).
Proof.
  intros [f Hf]. destruct HA as [HuA _], HB as [HuB _]. unfold timercmp, micros.
  apply wp_bind. eapply wp_at_time; [exact Ha|]. apply wp_bind. eapply wp_at_time; [exact Hb|].
  rewrite !Hf. destruct (Z.eqb_spec (tv_sec A) (tv_sec B)) as [E|E]; apply wp_ret; (split; [|done]);
    f_equal; symmetry.
  - rewrite E. apply Z.add_compare_mono_l.
  - destruct (Z.compare_spec (tv_sec A) (tv_sec B));
      [done|apply Z.compare_lt_iff|apply Z.compare_gt_iff]; lia.
Qed.

Lemma timerisset_ok : wp (timerisset a) m (λ c m', c = negb (micros A =? 0) ∧ m' = m).
Proof.
  destruct HA as [HuA _]. unfold timerisset, micros. apply wp_bind. eapply wp_at_time; [exact Ha|].
  destruct (Z.eqb_spec (tv_sec A) 0) as [->|E]; cbn [negb].
  - apply wp_bind. eapply wp_at_time; [exact Ha|]. by apply wp_ret.
  - apply wp_ret. split; [|done]. symmetry. apply negb_true_iff, Z.eqb_neq. lia.
Qed.

Lemma timerclear_ok : wp (timerclear a) m (λ _ m', m' = <[a := of_micros 0]> m).
Proof.
  unfold timerclear. apply wp_bind. eapply wp_set_usec; [exact Ha|].
  apply wp_bind. eapply wp_at_time; [apply lookup_insert_eq|].
  eapply wp_set_sec; [apply lookup_insert_eq|]. by rewrite insert_insert_eq.
Qed.
End arithmetic.

(** [timeradd] and [timersub] are addition and subtraction of microseconds on times whose
    seconds fit, with a normal result, also when the result is one of the arguments, and
    adding and then subtracting gives the first time back; [timercmp] compares the times. *)
Theorem time_arithmetic (m : tmem) (a b r : Z) (A B R : timeval) (CMP : Z → Z → bool) :
  m !! a = Some A → m !! b = Some B → m !! r = Some R → normal A → normal B →
  long_ok (tv_sec A + tv_sec B) = true → representable (micros A + micros B) → b ≠ r →
  long_ok (tv_sec A + 1) = true → by_order_of CMP →
  wp (timeradd a b r) m (λ _ m1,
    m1 = <[r := of_micros (micros A + micros B)]> m ∧
    normal (of_micros (micros A + micros B)) ∧
    wp (timersub r b r) m1 (λ _ m2, m2 = <[r := A]> m)) ∧
  wp (timercmp a b CMP) m (λ c m', c = CMP (micros A) (micros B) ∧ m' = m).
Proof.
  intros Ha Hb Hr HA HB Hs Hrep Hbr HsA1%long_okP Hcmp. split; [|by apply timercmp_ok].
  eapply wp_mono; [by eapply timeradd_ok|]. intros [] m1 ->.
  destruct (of_micros_normal _ Hrep) as [Hn Hm]. split; [done|split; [done|]].
  pose proof (micros_inj A HA) as EA. destruct HA as [HuA HsA%long_okP], HB as [HuB HsB%long_okP].
  eapply wp_mono.
  - eapply timersub_ok; [apply lookup_insert_eq|by rewrite lookup_insert_ne|apply lookup_insert_eq|done|
      by split; [|apply long_okP]| |].
    + apply long_okP. apply long_okP in Hs. unfold of_micros, micros. cbn [tv_sec].
      Z.div_mod_to_equations; lia.
    + rewrite Hm. replace (micros A + micros B - micros B) with (micros A) by lia.
      apply long_okP. unfold micros. Z.div_mod_to_equations; lia.
  - intros [] m2 ->. rewrite Hm, insert_insert_eq.
    replace (micros A + micros B - micros B) with (micros A) by lia. by rewrite <- EA.
Qed.

(** Seconds that overflow: undefined, before anything is stored. *)
Lemma timeradd_overflows (m : tmem) a b r A B :
  m !! a = Some A → m !! b = Some B → long_ok (tv_sec A + tv_sec B) = false →
  timeradd a b r m = UB IntOverflow.
Proof.
  intros Ha Hb Hs. unfold timeradd, at_time, mbind, M_bind, mget, moption. rewrite Ha, Hb.
  unfold long. by rewrite Hs.
Qed.

(** 1.6 s and 2.7 s; the result replaces the first. *)
Lemma time_arithmetic_witness :
  let m : tmem := {[ 1 := Timeval 1 600000; 2 := Timeval 2 700000 ]} in
  wp (timeradd 1 2 1) m (λ _ m1,
    m1 = <[1 := Timeval 4 300000]> m ∧ normal (Timeval 4 300000) ∧
    wp (timersub 1 2 1) m1 (λ _ m2, m2 = <[1 := Timeval 1 600000]> m)) ∧
  wp (timercmp 1 2 Z.leb) m (λ c m', c = true ∧ m' = m).
Proof.
  intros m.
  apply (time_arithmetic m 1 2 1 (Timeval 1 600000) (Timeval 2 700000) (Timeval 1 600000) Z.leb);
    [done|done|done|by split; [|done]|by split; [|done]|done|done|done|done|].
  exists (λ c, match c with Gt => false | _ => true end). reflexivity.
Defined.
