(* ===== verification/VirtioRing.v ===== *)
(** * The memory of a virtio ring ([linux/virtio_ring.h])

    Where [vring_init] puts the three parts of a ring, how much memory [vring_size] asks
    for, and when [vring_need_event] asks for a notification.  Addresses are numbers; sizes
    are computed in [unsigned long] and returned as [unsigned]. *)

From stdpp Require Import base numbers.
From Stdlib Require Import ZArith Lia.
From S2P Require Import Prelude Bits.

#[local] Open Scope c_scope.
#[local] Open Scope Z_scope.

(** ** The structures *)

(** [struct vring_desc]: [addr] at 0, [len] at 8, [flags] at 12, [next] at 14.
    [struct vring_used_elem]: [id] at 0, [len] at 4.  [struct vring_avail] and
    [struct vring_used]: [flags] at 0, [idx] at 2, [ring] at 4. *)
Definition sizeof_vring_desc : Z := 8 + 4 + 2 + 2.
Definition sizeof_virtio16 : Z := 2.
Definition sizeof_vring_used_elem : Z := 4 + 4.
Definition avail_ring (avail i : Z) : Z := avail + 2 + 2 + i * sizeof_virtio16.
Definition used_ring (used i : Z) : Z := used + 2 + 2 + i * sizeof_vring_used_elem.

Record vring : Type := Vring { num : Z; desc : Z; avail : Z; used : Z }.

Definition VRING_AVAIL_ALIGN_SIZE : Z := 2.
Definition VRING_USED_ALIGN_SIZE : Z := 4.
Definition VRING_DESC_ALIGN_SIZE : Z := 16.

(** ** The code *)

(** The addresses of the two event indices. *)
Definition vring_used_event (vr : vring) : Z := avail_ring (avail vr) (num vr).
Definition vring_avail_event (vr : vring) : Z := used_ring (used vr) (num vr).

Definition vring_init (num p align : Z) : vring :=
  let num := u32 num in
  let avail := p + u64 (num * sizeof_vring_desc) in
  let used := u64 (avail_ring avail num + sizeof_virtio16 + align - 1)
                .& u64 (Z.lnot (u64 (align - 1))) in
  Vring num p avail used.

Definition vring_size (num align : Z) : Z :=
  let num := u32 num in
  u32 (u64 ((u64 (sizeof_vring_desc * num + sizeof_virtio16 * u32 (3 + num) + align - 1)
               .& u64 (Z.lnot (u64 (align - 1))))
            + sizeof_virtio16 * 3 + sizeof_vring_used_elem * num)).

Definition vring_need_event (event_idx new_idx old : Z) : bool :=
  u16 (new_idx - event_idx - 1) <? u16 (new_idx - old).

(** ** The layout *)

(** Where the parts end: each array is followed by the event index of the other side. *)
Definition desc_end (vr : vring) : Z := desc vr + sizeof_vring_desc * num vr.
Definition avail_end (vr : vring) : Z := vring_used_event vr + sizeof_virtio16.
Definition used_end (vr : vring) : Z := vring_avail_event vr + sizeof_virtio16.

(** The parts follow each other without overlap, from [p] to [p + size], each aligned. *)
Record vring_layout (vr : vring) (p size align : Z) : Prop := {
  vl_desc : desc vr = p;
  vl_avail : avail vr = desc_end vr;
  vl_used : avail_end vr ≤ used vr < avail_end vr + align;
  vl_end : used_end vr = p + size;
  vl_desc_aligned : desc vr mod VRING_DESC_ALIGN_SIZE = 0;
  vl_avail_aligned : avail vr mod VRING_AVAIL_ALIGN_SIZE = 0;
  vl_used_aligned : used vr mod align = 0;
  vl_used_words : used vr mod VRING_USED_ALIGN_SIZE = 0 }.

Lemma mask_align k x :
  0 ≤ k ≤ 63 → 0 ≤ x → x + 2 ^ k - 1 < 2 ^ 64 →
  u64 (x + 2 ^ k - 1) .& u64 (Z.lnot (u64 (2 ^ k - 1))) = align_up (2 ^ k) x.
Proof.
  intros Hk Hx Hb. pose proof (pow2_pos k). assert (2 ^ k ≤ 2 ^ 63) by (apply Z.pow_le_mono_r; lia).
  rewrite (uwrap_small 64 (2 ^ k - 1)), uwrap_small by lia. apply land_lnot_low; lia.
Qed.

(** For a ring in suitably aligned memory whose size fits, [vring_init] lays the
    descriptors, the available ring and the used ring out in this order without overlap,
    each aligned as its elements need, within the [vring_size] bytes from [p]. *)
Theorem vring_init_layout (n p k : Z) :
  2 ≤ k ≤ 63 → 0 ≤ n → 0 ≤ p → p mod 16 = 0 → p mod 2 ^ k = 0 →
  26 * n + 2 ^ k + 12 < 2 ^ 32 → p + 26 * n + 2 ^ k + 12 < 2 ^ 64 →
  vring_layout (vring_init n p (2 ^ k)) p (vring_size n (2 ^ k)) (2 ^ k).
Proof.
  intros Hk Hn Hp Hp16 Hpk Hsize Hfits. pose proof (pow2_pos k).
  assert (2 ^ k = 2 ^ (k - 2) * 4) as E.
  { change 4 with (2 ^ 2). rewrite <- Z.pow_add_r by lia. f_equal. lia. }
  unfold vring_init, vring_size, avail_ring, sizeof_vring_desc, sizeof_virtio16,
    sizeof_vring_used_elem.
  rewrite !(uwrap_small 32 n), (uwrap_small 32 (3 + n)), (uwrap_small 64 (n * _)) by lia.
  rewrite (mask_align k (p + _ + _ + _ + _ + _)), (mask_align k (_ + _)) by lia.
  remember (16 * n + 2 * (3 + n)) as body eqn:Hbody.
  replace (p + n * (8 + 4 + 2 + 2) + 2 + 2 + n * 2 + 2) with (p + body) by lia.
  change ((8 + 4 + 2 + 2) * n) with (16 * n). rewrite <- Hbody.
  rewrite align_up_add by (done || lia).
  destruct (align_up_spec (2 ^ k) body) as [Hal Hbounds]; [lia|].
  rewrite (uwrap_small 64 (align_up _ _ + _ + _)), (uwrap_small 32 (align_up _ _ + _ + _)) by lia.
  assert ((p + align_up (2 ^ k) body) mod 2 ^ k = 0) as Hused.
  { rewrite Z.add_mod, Hpk, Hal by lia. by rewrite Z.mod_0_l by lia. }
  split; cbn [desc avail used num]; unfold desc_end, avail_end, used_end, vring_used_event,
    vring_avail_event, avail_ring, used_ring, sizeof_vring_desc, sizeof_virtio16,
    sizeof_vring_used_elem, VRING_DESC_ALIGN_SIZE, VRING_AVAIL_ALIGN_SIZE, VRING_USED_ALIGN_SIZE;
    cbn [desc avail used num]; try done; try lia.
  - Z.div_mod_to_equations; lia.
  - apply Z.mod_divide in Hused; [|lia]. apply Z.mod_divide; [done|].
    eapply Z.divide_trans; [|exact Hused]. exists (2 ^ (k - 2)). exact E.
Qed.

(** With free-running 16 bit indices, a notification is due exactly when the index the
    other side waits for is one of those that were just passed, from [old] up to and without
    [new_idx], also across the wrap. *)
Theorem vring_need_event_passed (event_idx new_idx old : Z) :
  0 ≤ event_idx < 2 ^ 16 →
  vring_need_event event_idx new_idx old = true ↔
  ∃ j, 0 ≤ j < u16 (new_idx - old) ∧ event_idx = u16 (old + j).
Proof.
  intros He. unfold vring_need_event, uwrap. rewrite Z.ltb_lt. change (2 ^ 16) with 65536 in *. split.
  - intros H. exists ((new_idx - old) mod 65536 - 1 - (new_idx - event_idx - 1) mod 65536).
    Z.div_mod_to_equations; lia.
  - intros (j & Hj & ->). Z.div_mod_to_equations; lia.
Qed.

(** The ring of 256 entries of the legacy layout, in pages. *)
Lemma vring_init_layout_witness :
  vring_layout (vring_init 256 0x10000 (2 ^ 12)) 0x10000 (vring_size 256 (2 ^ 12)) (2 ^ 12) ∧
  vring_init 256 0x10000 (2 ^ 12) = Vring 256 0x10000 0x11000 0x12000 ∧
  vring_size 256 (2 ^ 12) = 10246.
Proof. split; [apply (vring_init_layout 256 0x10000 12); reflexivity || lia|split; reflexivity]. Defined.

(** Across the wrap: 65534, 65535, 0 and 1 are passed. *)
Lemma vring_need_event_passed_witness :
  vring_need_event 0 2 65534 = true ∧
  ∃ j, 0 ≤ j < u16 (2 - 65534) ∧ 0 = u16 (65534 + j).
Proof. split; [reflexivity|]. apply (vring_need_event_passed 0 2 65534); [lia|reflexivity]. Defined.
