(* ===== verification/Tlv.v ===== *)
(** * Configuration messages of TIPC ([linux/tipc_config.h])

    A TLV is a descriptor of four bytes, its length and its type in network order, followed
    by a value; a message holds several, each at a multiple of four bytes.  Memory is the
    bytes of [ByteOrder], [host] the order of the machine. *)

From stdpp Require Import base list gmap numbers.
From Stdlib Require Import ZArith Lia.
From S2P Require Import Prelude Bits ByteOrder ByteOrderSpec ByteOrderMem.

#[local] Open Scope c_scope.
#[local] Open Scope Z_scope.

Section tipc_config.
Context (host : order) (gnuc : bool).

(** [ntohs] and its fellows on this host. *)
Definition ntohs (x : Z) : Z :=
  match host with Little => GlibcLittle.ntohs gnuc x | Big => GlibcBig.ntohs x end.
Definition htons (x : Z) : Z :=
  match host with Little => GlibcLittle.htons gnuc x | Big => GlibcBig.htons x end.
Definition htonl (x : Z) : Z :=
  match host with Little => GlibcLittle.htonl gnuc x | Big => GlibcBig.htonl x end.

(** ** Descriptors *)

(** [struct tlv_desc]. *)
Definition tlv_len_at (tlv : Z) : Z := tlv.
Definition tlv_type_at (tlv : Z) : Z := tlv + 2.
Definition sizeof_tlv_desc : Z := 2 + 2.

Definition TLV_ALIGNTO : Z := 4.

Definition TLV_ALIGN (datalen : Z) : Z :=
  u64 (datalen + (TLV_ALIGNTO - 1)) .& u64 (Z.lnot (TLV_ALIGNTO - 1)).
Definition TLV_LENGTH (datalen : Z) : Z := u64 (sizeof_tlv_desc + datalen).
Definition TLV_SPACE (datalen : Z) : Z := TLV_ALIGN (TLV_LENGTH datalen).
Definition TLV_DATA (tlv : Z) : Z := tlv + TLV_LENGTH 0.

Definition TLV_OK (tlv space : Z) : M bmem bool :=
  let space := u16 space in
  if TLV_SPACE 0 <=? space then
    len ← load_int host 2 (tlv_len_at tlv); mret (ntohs len <=? space)
  else mret false.

Definition TLV_CHECK (tlv space exp_type : Z) : M bmem bool :=
  ok ← TLV_OK tlv (u16 space);
  if (ok : bool) then
    type ← load_int host 2 (tlv_type_at tlv); mret (ntohs type =? u16 exp_type)
  else mret false.

Definition TLV_SET_LEN (tlv len : Z) : M bmem unit :=
  store_int host 2 (tlv_len_at tlv) (htons (u16 len)).
Definition TLV_CHECK_TYPE (tlv type : Z) : M bmem bool :=
  t ← load_int host 2 (tlv_type_at tlv); mret (ntohs t =? u16 type).
Definition TLV_SET_TYPE (tlv type : Z) : M bmem unit :=
  store_int host 2 (tlv_type_at tlv) (htons (u16 type)).

(** [data] may be null, which is 0 here. *)
Definition TLV_SET (tlv type data len : Z) : M bmem Z :=
  let len := u16 len in
  let tlv_len := TLV_LENGTH len in
  store_int host 2 (tlv_type_at tlv) (htons (u16 type));;
  store_int host 2 (tlv_len_at tlv) (htons tlv_len);;
  (if negb (len =? 0) && negb (data =? 0) then memcpy (TLV_DATA tlv) data tlv_len else mret tt);;
  mret (TLV_SPACE len).

(** ** Lists *)

(** [struct tlv_list_desc] is passed by value: the functions that change it return it. *)
Record tlv_list_desc : Type := TlvList { tlv_ptr : Z; tlv_space : Z }.

Definition TLV_LIST_INIT (data space : Z) : tlv_list_desc := TlvList data (u32 space).
Definition TLV_LIST_CHECK (list : tlv_list_desc) (exp_type : Z) : M bmem bool :=
  TLV_CHECK (tlv_ptr list) (tlv_space list) exp_type.
Definition TLV_LIST_STEP (list : tlv_list_desc) : M bmem tlv_list_desc :=
  len ← load_int host 2 (tlv_len_at (tlv_ptr list));
  let tlv_space' := u16 (TLV_ALIGN (ntohs len)) in
  mret (TlvList (tlv_ptr list + tlv_space') (u32 (tlv_space list - tlv_space'))).

(** ** The message header *)

(** [struct tipc_cfg_msg_hdr]: length at 0, type at 4, flags at 6, eight unused bytes. *)
Definition tcm_len_at (msg : Z) : Z := msg.
Definition tcm_type_at (msg : Z) : Z := msg + 4.
Definition tcm_flags_at (msg : Z) : Z := msg + 6.
Definition sizeof_tipc_cfg_msg_hdr : Z := 4 + 2 + 2 + 8.

Definition TCM_ALIGN (datalen : Z) : Z := u64 (datalen + 3) .& u64 (Z.lnot 3).
Definition TCM_LENGTH (datalen : Z) : Z := u64 (sizeof_tipc_cfg_msg_hdr + datalen).
Definition TCM_SPACE (datalen : Z) : Z := TCM_ALIGN (TCM_LENGTH datalen).
Definition TCM_DATA (msg : Z) : Z := msg + TCM_LENGTH 0.

Definition TCM_SET (msg cmd flags data data_len : Z) : M bmem Z :=
  let data_len := u16 data_len in
  let msg_len := TCM_LENGTH data_len in
  store_int host 4 (tcm_len_at msg) (htonl msg_len);;
  store_int host 2 (tcm_type_at msg) (htons (u16 cmd));;
  store_int host 2 (tcm_flags_at msg) (htons (u16 flags));;
  (if negb (data_len =? 0) && negb (data =? 0) then memcpy (TCM_DATA msg) data data_len
   else mret tt);;
  mret (TCM_SPACE data_len).
End tipc_config.

(** ** Messages of several TLVs

    What [TLV_SET] writes and how much it reads, and the round trip: values that were put
    into a message one after the other are found again, in order, by walking the list. *)

(** ** Network order *)

Definition be (n : nat) (x : Z) : list Z := bytes_in Big n x.

Section network.
Context (host : order) (gnuc : bool).

Definition glibc : Conversions :=
  match host with Little => glibc_little gnuc | Big => glibc_big gnuc end.
#[local] Instance glibc_laws : ConversionsLaws glibc.
Proof. unfold glibc. destruct host; apply _. Qed.

Lemma glibc_host : cv_host (Conversions := glibc) = host.
Proof. unfold glibc. by destruct host. Qed.

Lemma htons_bytes x : bytes_in host 2 (htons host gnuc x) = be 2 x.
Proof.
  unfold be. rewrite <- glibc_host at 1. rewrite <- (cv_to_bytes (C := glibc) Big 2 x) by by left.
  f_equal. unfold htons, glibc. by destruct host.
Qed.
Lemma htonl_bytes x : bytes_in host 4 (htonl host gnuc x) = be 4 x.
Proof.
  unfold be. rewrite <- glibc_host at 1. rewrite <- (cv_to_bytes (C := glibc) Big 4 x) by by right; left.
  f_equal. unfold htonl, glibc. by destruct host.
Qed.

Lemma ntohs_bytes l :
  Forall (λ b, 0 ≤ b < 256) l → length l = 2%nat →
  ntohs host gnuc (of_bytes_in host l) = of_bytes_in Big l.
Proof.
  intros Hl Hn. pose proof (cv_from_bytes (C := glibc) Big 2 (of_bytes_in host l)) as H.
  rewrite glibc_host, bytes_in_of_bytes in H by done. rewrite <- H by by left.
  unfold ntohs, glibc. by destruct host.
Qed.

Lemma be_of n x : of_bytes_in Big (be n x) = x mod 2 ^ (8 * Z.of_nat n).
Proof.
  unfold be, bytes_in, of_bytes_in. by rewrite reverse_involutive, of_le_le_bytes.
Qed.

(** A field of a descriptor. *)
Lemma wp_load_be p x m :
  bytes_at m p (be 2 x) →
  wp (load_int host 2 p) m (λ v m', ntohs host gnuc v = u16 x ∧ m' = m).
Proof.
  intros H. eapply wp_mono; [by apply (wp_load_int 2 Big x p m H)|]. intros v m' [-> ->].
  split; [|done]. rewrite ntohs_bytes by (apply bytes_in_range || apply length_bytes_in).
  apply be_of.
Qed.

Lemma wp_store_be p x m :
  region m p 2 →
  wp (store_int host 2 p (htons host gnuc x)) m (λ _ m', bytes_at m' p (be 2 x) ∧
    only_bytes p 2 m m').
Proof. intros H. rewrite <- htons_bytes. by apply wp_store_region. Qed.
End network.

(** ** Lengths *)

Lemma TLV_ALIGN_up x : 0 ≤ x < 2 ^ 63 → TLV_ALIGN x = align_up 4 x.
Proof.
  intros Hx. unfold TLV_ALIGN, TLV_ALIGNTO. rewrite uwrap_small by lia.
  change (4 - 1) with (2 ^ 2 - 1). rewrite land_lnot_low by lia.
  unfold align_up. change (2 ^ 2) with 4. do 2 f_equal. lia.
Qed.

Lemma TLV_LENGTH_eq n : 0 ≤ n < 2 ^ 63 → TLV_LENGTH n = 4 + n.
Proof. intros. unfold TLV_LENGTH, sizeof_tlv_desc. by rewrite uwrap_small by lia. Qed.



Lemma align_4 x : align_up 4 x mod 4 = 0 ∧ x ≤ align_up 4 x ≤ x + 3.
Proof. destruct (align_up_spec 4 x) as [H1 H2]; [done|]. split; [done|lia]. Qed.

(** ** Writing one *)

Section tlv.
Context (host : order) (gnuc : bool).


(** ** Messages *)

(** A value, its type, and the address it is copied from with the four bytes behind it. *)
Record item : Type := Item { it_type : Z; it_data : Z; it_value : list Z; it_extra : list Z }.

Definition space_of (it : item) : Z := align_up 4 (4 + Z.of_nat (length (it_value it))).
Fixpoint total (its : list item) : Z :=
  match its with [] => 0 | it :: its => space_of it + total its end.



(** What memory holds after [build]. *)
Fixpoint tlvs_at (m : bmem) (p : Z) (its : list item) : Prop :=
  match its with
  | [] => True
  | it :: its =>
      bytes_at m p (be 2 (4 + Z.of_nat (length (it_value it))) ++ be 2 (u16 (it_type it)) ++
        it_value it) ∧
      tlvs_at m (p + space_of it) its
  end.

Lemma total_nonneg its : 0 ≤ total its.
Proof.
  induction its as [|it its IH]; cbn [total]; [lia|].
  pose proof (align_4 (4 + Z.of_nat (length (it_value it)))) as Hal. unfold space_of. lia.
Qed.

Lemma tlvs_at_only m m' p n q its :
  only_bytes p n m m' → q + total its ≤ p ∨ p + n ≤ q → tlvs_at m q its → tlvs_at m' q its.
Proof.
  intros Ho. revert q. induction its as [|it its IH]; intros q Hd H; [done|].
  cbn [total tlvs_at] in *. pose proof (total_nonneg its) as Htot.
  pose proof (align_4 (4 + Z.of_nat (length (it_value it)))) as Hal. fold (space_of it) in *.
  destruct H as [H1 H2]. split; [|apply IH; [lia|done]].
  eapply bytes_at_only; [exact Ho| |exact H1].
  unfold be. rewrite !length_app, !length_bytes_in. lia.
Qed.



(** The three parts of a TLV in memory. *)
Lemma tlv_parts m p t v :
  bytes_at m p (be 2 (4 + Z.of_nat (length v)) ++ be 2 (u16 t) ++ v) ↔
  bytes_at m p (be 2 (4 + Z.of_nat (length v))) ∧ bytes_at m (p + 2) (be 2 (u16 t)) ∧
  bytes_at m (p + 4) v.
Proof.
  rewrite !bytes_at_app. unfold be. rewrite !length_bytes_in.
  by replace (p + Z.of_nat 2 + Z.of_nat 2) with (p + 4) by lia.
Qed.



(** ** Where it reads too much *)

Lemma read_bytes_short m p l n :
  bytes_at m p l → m !! (p + Z.of_nat (length l)) = None →
  read_bytes (length l + S n) p m = UB OutOfBounds.
Proof.
  revert p. induction l as [|b l IH]; intros p H Hend; cbn [length Nat.add read_bytes].
  - rewrite Z.add_0_r in Hend. unfold mbind, M_bind, mget, moption. by rewrite Hend.
  - destruct H as [H1 H2]. rewrite (bind_eval _ _ _ m m) by done.
    rewrite (bind_eval _ _ m b m) by (unfold moption; by rewrite H1).
    apply bind_ub, IH; [done|]. rewrite <- Hend. f_equal. cbn [length]. lia.
Qed.

(** A value in memory of exactly its size cannot be copied: [TLV_SET] reads past its
    end. *)
Theorem TLV_SET_overreads (m : bmem) (p type data : Z) (value : list Z) :
  0 < Z.of_nat (length value) < 2 ^ 16 - 4 → data ≠ 0 → region m p 4 →
  bytes_at m data value → m !! (data + Z.of_nat (length value)) = None →
  data + Z.of_nat (length value) ≤ p ∨ p + 4 ≤ data →
  TLV_SET host gnuc p type data (Z.of_nat (length value)) m = UB OutOfBounds.
Proof.
  intros Hlen Hdata Hreg Hbytes Hend Hdis. unfold TLV_SET.
  rewrite (uwrap_small 16 (Z.of_nat _)) by lia. rewrite TLV_LENGTH_eq by lia.
  pose proof Hreg as Hr. change 4%nat with (2 + 2)%nat in Hr. apply region_split in Hr as [Hr1 Hr2].
  destruct (proj1 (wp_run _ _ _) (wp_store_be host gnuc (p + 2) (u16 type) m Hr2))
    as ([] & m1 & E1 & _ & Ho1).
  pose proof (region_only _ _ _ _ p 2 Ho1 ltac:(lia) Hr1) as Hr1'.
  destruct (proj1 (wp_run _ _ _) (wp_store_be host gnuc p (4 + Z.of_nat (length value)) m1 Hr1'))
    as ([] & m2 & E2 & _ & Ho2).
  unfold tlv_type_at, tlv_len_at. rewrite (bind_eval _ _ _ _ _ E1), (bind_eval _ _ _ _ _ E2).
  rewrite (proj2 (Z.eqb_neq (Z.of_nat (length value)) 0)), (proj2 (Z.eqb_neq data 0)) by lia.
  cbn [negb andb]. apply bind_ub, bind_ub.
  replace (Z.to_nat _) with (length value + 4)%nat by lia. apply read_bytes_short.
  - eapply bytes_at_only; [exact Ho2|lia|]. by eapply bytes_at_only; [exact Ho1|lia|].
  - destruct (decide (p ≤ data + Z.of_nat (length value) < p + 4)) as [Hin|Hout].
    + destruct (region_is_Some _ _ _ _ Hreg Hin) as [b Hb]. congruence.
    + rewrite Ho2, Ho1 by lia. exact Hend.
Qed.
End tlv.

(** ** The message header, and concrete messages

    What [TCM_SET] writes, a list whose last TLV is cut short, and the theorems above
    on concrete memories. *)

Section demo.
Context (host : order) (gnuc : bool).

Lemma wp_store_be32 p x m :
  region m p 4 →
  wp (store_int host 4 p (htonl host gnuc x)) m (λ _ m', bytes_at m' p (be 4 x) ∧
    only_bytes p 4 m m').
Proof. intros H. rewrite <- (htonl_bytes host gnuc). by apply wp_store_region. Qed.

(** The header in network order and the data behind it; the reserved bytes keep what they
    held. *)
Lemma TCM_SET_ok m p cmd flags data value :
  0 < Z.of_nat (length value) < 2 ^ 16 → data ≠ 0 →
  region m p (16 + length value) → bytes_at m data value →
  (data + Z.of_nat (length value) ≤ p ∨ p + 16 + Z.of_nat (length value) ≤ data) →
  wp (TCM_SET host gnuc p cmd flags data (Z.of_nat (length value))) m (λ n m',
    n = align_up 4 (16 + Z.of_nat (length value)) ∧
    bytes_at m' p (be 4 (16 + Z.of_nat (length value)) ++ be 2 (u16 cmd) ++ be 2 (u16 flags)) ∧
    bytes_at m' (p + 16) value ∧
    (∀ a, a < p ∨ p + 8 ≤ a < p + 16 ∨ p + 16 + Z.of_nat (length value) ≤ a →
       m' !! a = m !! a)).
Proof.
  intros Hlen Hdata Hreg Hbytes Hdis. unfold TCM_SET.
  rewrite (uwrap_small 16 (Z.of_nat _)) by lia.
  assert (TCM_LENGTH (Z.of_nat (length value)) = 16 + Z.of_nat (length value)) as Elen
    by (unfold TCM_LENGTH, sizeof_tipc_cfg_msg_hdr; by rewrite uwrap_small by lia).
  assert (TCM_SPACE (Z.of_nat (length value)) = align_up 4 (16 + Z.of_nat (length value))) as ->.
  { unfold TCM_SPACE. rewrite Elen. by apply (TLV_ALIGN_up (16 + Z.of_nat (length value))); lia. }
  rewrite Elen.
  replace (16 + length value)%nat with (4 + (2 + (2 + (8 + length value))))%nat in Hreg by lia.
  apply region_split in Hreg as [Hr1 Hreg]. apply region_split in Hreg as [Hr2 Hreg].
  apply region_split in Hreg as [Hr3 Hreg]. apply region_split in Hreg as [_ Hr4].
  replace (p + Z.of_nat 4 + Z.of_nat 2 + Z.of_nat 2 + Z.of_nat 8) with (p + 16) in Hr4 by lia.
  replace (p + Z.of_nat 4 + Z.of_nat 2) with (p + 6) in Hr3 by lia.
  change (Z.of_nat 4) with 4 in Hr2. unfold tcm_len_at, tcm_type_at, tcm_flags_at.
  apply wp_bind. eapply wp_mono; [by apply wp_store_be32|]. intros [] m1 [H1 Ho1].
  apply wp_bind. eapply wp_mono; [by eapply wp_store_be, region_only; [exact Ho1|lia|]|].
  intros [] m2 [H2 Ho2].
  apply wp_bind. eapply wp_mono.
  { eapply wp_store_be, region_only; [exact Ho2|lia|]. by eapply region_only; [exact Ho1|lia|]. }
  intros [] m3 [H3 Ho3].
  rewrite (proj2 (Z.eqb_neq (Z.of_nat (length value)) 0)), (proj2 (Z.eqb_neq data 0)) by lia.
  cbn [negb andb]. change (TCM_DATA p) with (p + 16). apply wp_bind. eapply wp_mono.
  { apply wp_memcpy.
    - eapply bytes_at_only; [exact Ho3|lia|]. eapply bytes_at_only; [exact Ho2|lia|].
      by eapply bytes_at_only; [exact Ho1|lia|].
    - eapply region_only; [exact Ho3|lia|]. eapply region_only; [exact Ho2|lia|].
      by eapply region_only; [exact Ho1|lia|]. }
  intros [] m4 [H4 Ho4]. apply wp_ret. split; [done|split; [|split; [done|]]].
  - rewrite !bytes_at_app. unfold be in *. rewrite !length_bytes_in.
    replace (p + Z.of_nat 4 + Z.of_nat 2) with (p + 6) by lia. change (Z.of_nat 4) with 4.
    split; [|split]; (eapply bytes_at_only; [exact Ho4|rewrite length_bytes_in; lia|]).
    + eapply bytes_at_only; [exact Ho3|rewrite length_bytes_in; lia|].
      by eapply bytes_at_only; [exact Ho2|rewrite length_bytes_in; lia|].
    + by eapply bytes_at_only; [exact Ho3|rewrite length_bytes_in; lia|].
    + exact H3.
  - intros a Ha. rewrite Ho4, Ho3, Ho2, Ho1 by lia. done.
Qed.

(** The last TLV of a list may be as long as the space that is left without filling it to a
    multiple of four: the step then goes beyond the end, and the space wraps. *)
Lemma TLV_LIST_STEP_past_end m p t v1 :
  bytes_at m p (be 2 5 ++ be 2 (u16 t) ++ [v1]) →
  wp (TLV_LIST_CHECK host gnuc (TLV_LIST_INIT p 5) t) m (λ ok m', ok = true ∧ m' = m) ∧
  wp (TLV_LIST_STEP host gnuc (TLV_LIST_INIT p 5)) m (λ l m',
    l = TlvList (p + 8) (2 ^ 32 - 3) ∧ m' = m).
Proof.
  intros Hm. apply (tlv_parts m p t [v1]) in Hm as (Hlen & Htype & _).
  change (4 + Z.of_nat (length [v1])) with 5 in Hlen. split.
  - unfold TLV_LIST_CHECK, TLV_CHECK, TLV_OK. cbn [TLV_LIST_INIT tlv_space tlv_ptr].
    change (TLV_SPACE 0 <=? u16 (u16 (u32 5))) with true. cbv iota. apply wp_bind, wp_bind.
    eapply wp_mono; [apply (wp_load_be host gnuc _ _ _ Hlen)|]. intros v m' [Hv ->]. apply wp_ret.
    rewrite Hv. change (u16 5 <=? _) with true. cbv iota. apply wp_bind.
    eapply wp_mono; [apply (wp_load_be host gnuc _ _ _ Htype)|]. intros v' m' [Hv' ->]. apply wp_ret.
    rewrite Hv', (uwrap_small 16 (u16 t)) by by apply (uwrap_range 16). by rewrite Z.eqb_refl.
  - unfold TLV_LIST_STEP. apply wp_bind.
    eapply wp_mono; [apply (wp_load_be host gnuc _ _ _ Hlen)|]. intros v m' [Hv ->]. apply wp_ret.
    by rewrite Hv.
Qed.
End demo.

(** ** A message of two values *)

Definition fill (p : Z) (l : list Z) : bmem :=
  list_to_map (imap (λ i b, (p + Z.of_nat i, b)) l).




Lemma TLV_SET_overreads_witness :
  TLV_SET Little true 100 0x10 400 3 (fill 100 (replicate 24 0) ∪ fill 400 [1; 2; 3]) =
    UB OutOfBounds.
Proof.
  apply (TLV_SET_overreads Little true _ 100 0x10 400 [1; 2; 3]).
  - by cbn.
  - discriminate.
  - exists (replicate 4 0). split; [reflexivity|]. vm_compute. repeat split.
  - vm_compute. repeat split.
  - reflexivity.
  - right. vm_compute. discriminate.
Defined.
