(* ===== verification/Obstack.v ===== *)
(** * Object stacks ([obstack.h])

    The macros that grow objects in a chunk of memory.  Memory is the bytes of [ByteOrder];
    the headers of the chunks ([limit], [prev]) live in it, the control structure beside it.
    The header defines every macro twice, for GNU C ([Gnu]) and for other compilers
    ([Portable], which goes through the member [temp]); [ObstackOps] is what they have in
    common.  The functions of the C library that allocate and free chunks are the class
    [ObstackApi].  Pointers are addresses; on this machine [ptrdiff_t] is as wide as a
    pointer.  Integers stored in [unsigned] results wrap, a length is converted to [int]. *)

From stdpp Require Import base list gmap numbers.
From Stdlib Require Import ZArith Lia.
From S2P Require Import Prelude Bits ByteOrder ByteOrderMem.

#[local] Open Scope c_scope.
#[local] Open Scope Z_scope.

(** ** State *)

(** [struct obstack]; the functions are addresses, [temp] is the integer member of the union
    of an integer and a pointer. *)
Record obstack : Type := Obstack {
  chunk_size : Z;
  chunk : Z;
  object_base : Z;
  next_free : Z;
  chunk_limit : Z;
  temp : Z;
  alignment_mask : Z;
  chunkfun : Z;
  freefun : Z;
  extra_arg : Z;
  use_extra_arg : bool;
  maybe_empty_object : bool;
  alloc_failed : bool }.

Definition with_next_free (v : Z) (h : obstack) : obstack :=
  Obstack (chunk_size h) (chunk h) (object_base h) v (chunk_limit h) (temp h)
    (alignment_mask h) (chunkfun h) (freefun h) (extra_arg h) (use_extra_arg h)
    (maybe_empty_object h) (alloc_failed h).
Definition with_object_base (v : Z) (h : obstack) : obstack :=
  Obstack (chunk_size h) (chunk h) v (next_free h) (chunk_limit h) (temp h)
    (alignment_mask h) (chunkfun h) (freefun h) (extra_arg h) (use_extra_arg h)
    (maybe_empty_object h) (alloc_failed h).
Definition with_temp (v : Z) (h : obstack) : obstack :=
  Obstack (chunk_size h) (chunk h) (object_base h) (next_free h) (chunk_limit h) v
    (alignment_mask h) (chunkfun h) (freefun h) (extra_arg h) (use_extra_arg h)
    (maybe_empty_object h) (alloc_failed h).
Definition with_maybe_empty (v : bool) (h : obstack) : obstack :=
  Obstack (chunk_size h) (chunk h) (object_base h) (next_free h) (chunk_limit h) (temp h)
    (alignment_mask h) (chunkfun h) (freefun h) (extra_arg h) (use_extra_arg h) v
    (alloc_failed h).
Definition with_chunkfun (v : Z) (h : obstack) : obstack :=
  Obstack (chunk_size h) (chunk h) (object_base h) (next_free h) (chunk_limit h) (temp h)
    (alignment_mask h) v (freefun h) (extra_arg h) (use_extra_arg h)
    (maybe_empty_object h) (alloc_failed h).
Definition with_freefun (v : Z) (h : obstack) : obstack :=
  Obstack (chunk_size h) (chunk h) (object_base h) (next_free h) (chunk_limit h) (temp h)
    (alignment_mask h) (chunkfun h) v (extra_arg h) (use_extra_arg h)
    (maybe_empty_object h) (alloc_failed h).

(** The stack and the memory. *)
Record ostate : Type := OState { stack : obstack; omem : bmem }.

Definition oget : M ostate obstack := mgets stack.
Definition oset (f : obstack → obstack) : M ostate unit :=
  mmodify (λ s, OState (f (stack s)) (omem s)).
Definition on_mem {A} (c : M bmem A) : M ostate A := λ s,
  match c (omem s) with
  | Ret (a, m) => Ret (a, OState (stack s) m)
  | UB w => UB w
  | OutOfFuel => OutOfFuel
  end.

(** The functions of [obstack.c].  [_obstack_begin] sets up the structure with a first chunk,
    [_obstack_newchunk] moves the growing object to a chunk with more room, [__obstack_free]
    finds the chunk of an object. *)
Class ObstackApi : Type := {
  _obstack_newchunk : Z → M ostate unit;
  __obstack_free : Z → M ostate unit;
  _obstack_begin : Z → Z → Z → Z → M ostate Z;
  _obstack_begin_1 : Z → Z → Z → Z → Z → M ostate Z;
  _obstack_memory_used : M ostate Z }.

(** ** What the macros of both versions share *)

Definition __BPTR_ALIGN (B P A : Z) : Z := B + ((P - B + A) .& Z.lnot A).

Definition sizeof_PTR_INT_TYPE : Z := 8.
Definition sizeof_pointer : Z := 8.
Definition sizeof_int : Z := 4.
Definition __PTR_ALIGN (B P A : Z) : Z :=
  __BPTR_ALIGN (if sizeof_PTR_INT_TYPE <? sizeof_pointer then B else 0) P A.

(** [struct _obstack_chunk]. *)
Definition limit_at (c : Z) : Z := c.
Definition prev_at (c : Z) : Z := c + 8.
Definition contents_of (c : Z) : Z := c + 16.

Section macros.
Context {api : ObstackApi} (host : order).

Definition obstack_base : M ostate Z := h ← oget; mret (object_base h).
Definition obstack_chunk_size : M ostate Z := h ← oget; mret (chunk_size h).
Definition obstack_next_free : M ostate Z := h ← oget; mret (next_free h).
Definition obstack_alignment_mask : M ostate Z := h ← oget; mret (alignment_mask h).

(** [obstack_chunk_alloc] and [obstack_chunk_free] are macros of the program. *)
Definition obstack_init (chunk_alloc chunk_free : Z) : M ostate Z :=
  _obstack_begin 0 0 chunk_alloc chunk_free.
Definition obstack_begin (chunk_alloc chunk_free size : Z) : M ostate Z :=
  _obstack_begin size 0 chunk_alloc chunk_free.
Definition obstack_specify_allocation (size alignment chunkfun freefun : Z) : M ostate Z :=
  _obstack_begin size alignment chunkfun freefun.
Definition obstack_specify_allocation_with_arg (size alignment chunkfun freefun arg : Z)
    : M ostate Z :=
  _obstack_begin_1 size alignment chunkfun freefun arg.

Definition obstack_chunkfun (newchunkfun : Z) : M ostate Z :=
  oset (with_chunkfun newchunkfun);; mret newchunkfun.
Definition obstack_freefun (newfreefun : Z) : M ostate Z :=
  oset (with_freefun newfreefun);; mret newfreefun.

(** [*(h->next_free)++ = achar]. *)
Definition obstack_1grow_fast (achar : Z) : M ostate unit :=
  h ← oget; oset (with_next_free (next_free h + 1));;
  on_mem (store_int host 1 (next_free h) achar).
Definition obstack_blank_fast (n : Z) : M ostate unit :=
  h ← oget; oset (with_next_free (next_free h + n)).
Definition obstack_memory_used : M ostate Z := _obstack_memory_used.

(** [memcpy] to the free bytes; a negative size is a huge [size_t]. *)
Definition copy_in (dst src n : Z) : M ostate unit :=
  if n <? 0 then mub OutOfBounds else on_mem (memcpy dst src n).
End macros.

(** ** The version for GNU C *)

Module Gnu.
Section macros.
Context {api : ObstackApi} (host : order).

Definition obstack_object_size : M ostate Z := h ← oget; mret (u32 (next_free h - object_base h)).
Definition obstack_room : M ostate Z := h ← oget; mret (u32 (chunk_limit h - next_free h)).

Definition obstack_make_room (length : Z) : M ostate unit :=
  let __len := i32 length in
  h ← oget;
  if chunk_limit h - next_free h <? __len then _obstack_newchunk __len else mret tt.

Definition obstack_empty_p : M ostate bool :=
  h ← oget; prev ← on_mem (load_int host 8 (prev_at (chunk h)));
  mret ((prev =? 0) &&
    (next_free h =? __PTR_ALIGN (chunk h) (contents_of (chunk h)) (alignment_mask h))).

Definition obstack_grow (where_ length : Z) : M ostate unit :=
  let __len := i32 length in
  h ← oget;
  (if chunk_limit h <? next_free h + __len then _obstack_newchunk __len else mret tt);;
  h ← oget; copy_in (next_free h) where_ __len;;
  h ← oget; oset (with_next_free (next_free h + __len)).

Definition obstack_grow0 (where_ length : Z) : M ostate unit :=
  let __len := i32 length in
  h ← oget;
  (if chunk_limit h <? next_free h + __len + 1 then _obstack_newchunk (__len + 1) else mret tt);;
  h ← oget; copy_in (next_free h) where_ __len;;
  h ← oget; oset (with_next_free (next_free h + __len));;
  h ← oget; oset (with_next_free (next_free h + 1));;
  on_mem (store_int host 1 (next_free h) 0).

Definition obstack_1grow (datum : Z) : M ostate unit :=
  h ← oget;
  (if chunk_limit h <? next_free h + 1 then _obstack_newchunk 1 else mret tt);;
  obstack_1grow_fast host datum.

Definition obstack_ptr_grow_fast (aptr : Z) : M ostate unit :=
  h ← oget; let __p1 := next_free h in
  on_mem (store_int host 8 __p1 aptr);;
  h ← oget; oset (with_next_free (next_free h + sizeof_pointer)).
Definition obstack_int_grow_fast (aint : Z) : M ostate unit :=
  h ← oget; let __p1 := next_free h in
  on_mem (store_int host 4 __p1 aint);;
  h ← oget; oset (with_next_free (next_free h + sizeof_int)).

Definition obstack_ptr_grow (datum : Z) : M ostate unit :=
  h ← oget;
  (if chunk_limit h <? next_free h + sizeof_pointer then _obstack_newchunk sizeof_pointer
   else mret tt);;
  obstack_ptr_grow_fast datum.
Definition obstack_int_grow (datum : Z) : M ostate unit :=
  h ← oget;
  (if chunk_limit h <? next_free h + sizeof_int then _obstack_newchunk sizeof_int else mret tt);;
  obstack_int_grow_fast datum.

Definition obstack_blank (length : Z) : M ostate unit :=
  let __len := i32 length in
  h ← oget;
  (if chunk_limit h - next_free h <? __len then _obstack_newchunk __len else mret tt);;
  obstack_blank_fast __len.

Definition obstack_finish : M ostate Z :=
  h ← oget; let __value := object_base h in
  (if next_free h =? __value then oset (with_maybe_empty true) else mret tt);;
  h ← oget;
  oset (with_next_free (__PTR_ALIGN (object_base h) (next_free h) (alignment_mask h)));;
  h ← oget;
  (if chunk_limit h - chunk h <? next_free h - chunk h
   then oset (with_next_free (chunk_limit h)) else mret tt);;
  h ← oget; oset (with_object_base (next_free h));;
  mret __value.

Definition obstack_alloc (length : Z) : M ostate Z := obstack_blank length;; obstack_finish.
Definition obstack_copy (where_ length : Z) : M ostate Z := obstack_grow where_ length;; obstack_finish.
Definition obstack_copy0 (where_ length : Z) : M ostate Z :=
  obstack_grow0 where_ length;; obstack_finish.

Definition obstack_free (OBJ : Z) : M ostate unit :=
  let __obj := OBJ in
  h ← oget;
  if (chunk h <? __obj) && (__obj <? chunk_limit h) then
    oset (with_object_base __obj);; oset (with_next_free __obj)
  else __obstack_free __obj.
End macros.
End Gnu.

(** ** The version for other compilers *)

Module Portable.
Section macros.
Context {api : ObstackApi} (host : order).

Definition obstack_object_size : M ostate Z := h ← oget; mret (u32 (next_free h - object_base h)).
Definition obstack_room : M ostate Z := h ← oget; mret (u32 (chunk_limit h - next_free h)).

Definition obstack_empty_p : M ostate bool :=
  h ← oget; prev ← on_mem (load_int host 8 (prev_at (chunk h)));
  mret ((prev =? 0) &&
    (next_free h =? __PTR_ALIGN (chunk h) (contents_of (chunk h)) (alignment_mask h))).

(** The argument of [_obstack_newchunk] is an [int], [temp.tempint] is not. *)
Definition obstack_make_room (length : Z) : M ostate unit :=
  oset (with_temp length);;
  h ← oget;
  if chunk_limit h <? next_free h + temp h then _obstack_newchunk (i32 (temp h)) else mret tt.

Definition obstack_grow (where_ length : Z) : M ostate unit :=
  oset (with_temp length);;
  h ← oget;
  (if chunk_limit h <? next_free h + temp h then _obstack_newchunk (i32 (temp h)) else mret tt);;
  h ← oget; copy_in (next_free h) where_ (temp h);;
  h ← oget; oset (with_next_free (next_free h + temp h)).

Definition obstack_grow0 (where_ length : Z) : M ostate unit :=
  oset (with_temp length);;
  h ← oget;
  (if chunk_limit h <? next_free h + temp h + 1 then _obstack_newchunk (i32 (temp h + 1))
   else mret tt);;
  h ← oget; copy_in (next_free h) where_ (temp h);;
  h ← oget; oset (with_next_free (next_free h + temp h));;
  h ← oget; oset (with_next_free (next_free h + 1));;
  on_mem (store_int host 1 (next_free h) 0).

Definition obstack_1grow (datum : Z) : M ostate unit :=
  h ← oget;
  (if chunk_limit h <? next_free h + 1 then _obstack_newchunk 1 else mret tt);;
  obstack_1grow_fast host datum.

(** [((const void ** ) (h->next_free += 8))[-1] = aptr]. *)
Definition obstack_ptr_grow_fast (aptr : Z) : M ostate unit :=
  h ← oget; oset (with_next_free (next_free h + sizeof_pointer));;
  h ← oget; on_mem (store_int host 8 (next_free h + -1 * sizeof_pointer) aptr).
Definition obstack_int_grow_fast (aint : Z) : M ostate unit :=
  h ← oget; oset (with_next_free (next_free h + sizeof_int));;
  h ← oget; on_mem (store_int host 4 (next_free h + -1 * sizeof_int) aint).

Definition obstack_ptr_grow (datum : Z) : M ostate unit :=
  h ← oget;
  (if chunk_limit h <? next_free h + sizeof_pointer then _obstack_newchunk sizeof_pointer
   else mret tt);;
  obstack_ptr_grow_fast datum.
Definition obstack_int_grow (datum : Z) : M ostate unit :=
  h ← oget;
  (if chunk_limit h <? next_free h + sizeof_int then _obstack_newchunk sizeof_int else mret tt);;
  obstack_int_grow_fast datum.

Definition obstack_blank (length : Z) : M ostate unit :=
  oset (with_temp length);;
  h ← oget;
  (if chunk_limit h - next_free h <? temp h then _obstack_newchunk (i32 (temp h)) else mret tt);;
  h ← oget; obstack_blank_fast (temp h).

Definition obstack_finish : M ostate Z :=
  h ← oget;
  (if next_free h =? object_base h then oset (with_maybe_empty true) else mret tt);;
  h ← oget; oset (with_temp (object_base h));;
  h ← oget;
  oset (with_next_free (__PTR_ALIGN (object_base h) (next_free h) (alignment_mask h)));;
  h ← oget;
  (if chunk_limit h - chunk h <? next_free h - chunk h
   then oset (with_next_free (chunk_limit h)) else mret tt);;
  h ← oget; oset (with_object_base (next_free h));;
  h ← oget; mret (temp h).

Definition obstack_alloc (length : Z) : M ostate Z := obstack_blank length;; obstack_finish.
Definition obstack_copy (where_ length : Z) : M ostate Z := obstack_grow where_ length;; obstack_finish.
Definition obstack_copy0 (where_ length : Z) : M ostate Z :=
  obstack_grow0 where_ length;; obstack_finish.

Definition obstack_free (obj : Z) : M ostate unit :=
  h ← oget; oset (with_temp (obj - chunk h));;
  h ← oget;
  if (0 <? temp h) && (temp h <? chunk_limit h - chunk h) then
    oset (with_object_base (temp h + chunk h));; oset (with_next_free (temp h + chunk h))
  else __obstack_free (temp h + chunk h).
End macros.
End Portable.

(** ** What a program sees *)

Class ObstackOps : Type := {
  op_object_size : M ostate Z;
  op_room : M ostate Z;
  op_make_room : Z → M ostate unit;
  op_empty_p : M ostate bool;
  op_grow : Z → Z → M ostate unit;
  op_grow0 : Z → Z → M ostate unit;
  op_1grow : Z → M ostate unit;
  op_ptr_grow : Z → M ostate unit;
  op_int_grow : Z → M ostate unit;
  op_blank : Z → M ostate unit;
  op_finish : M ostate Z;
  op_alloc : Z → M ostate Z;
  op_copy : Z → Z → M ostate Z;
  op_copy0 : Z → Z → M ostate Z;
  op_free : Z → M ostate unit }.

Section versions.
Context {api : ObstackApi} (host : order).

Definition gnu_obstack : ObstackOps := {|
  op_object_size := Gnu.obstack_object_size; op_room := Gnu.obstack_room;
  op_make_room := Gnu.obstack_make_room; op_empty_p := Gnu.obstack_empty_p host;
  op_grow := Gnu.obstack_grow; op_grow0 := Gnu.obstack_grow0 host;
  op_1grow := Gnu.obstack_1grow host; op_ptr_grow := Gnu.obstack_ptr_grow host;
  op_int_grow := Gnu.obstack_int_grow host; op_blank := Gnu.obstack_blank;
  op_finish := Gnu.obstack_finish; op_alloc := Gnu.obstack_alloc;
  op_copy := Gnu.obstack_copy; op_copy0 := Gnu.obstack_copy0 host;
  op_free := Gnu.obstack_free |}.

Definition portable_obstack : ObstackOps := {|
  op_object_size := Portable.obstack_object_size; op_room := Portable.obstack_room;
  op_make_room := Portable.obstack_make_room; op_empty_p := Portable.obstack_empty_p host;
  op_grow := Portable.obstack_grow; op_grow0 := Portable.obstack_grow0 host;
  op_1grow := Portable.obstack_1grow host; op_ptr_grow := Portable.obstack_ptr_grow host;
  op_int_grow := Portable.obstack_int_grow host; op_blank := Portable.obstack_blank;
  op_finish := Portable.obstack_finish; op_alloc := Portable.obstack_alloc;
  op_copy := Portable.obstack_copy; op_copy0 := Portable.obstack_copy0 host;
  op_free := Portable.obstack_free |}.
End versions.
