(* ===== verification/ObstackSpec.v ===== *)
(** * Object stacks: chunks and objects

    What the functions of the C library promise ([ObstackLaws]), and the relation [rep]
    between the control structure, the memory and the stack of finished objects with the one
    that grows. *)

From stdpp Require Import base list gmap numbers.
From Stdlib Require Import ZArith Lia.
From S2P Require Import Prelude Bits ByteOrder ByteOrderSpec ByteOrderMem Obstack.

#[local] Open Scope Z_scope.

(** ** Runs that may end in the failure handler *)

(** When memory runs out, the library calls the failure handler of the program, which does
    not return: [wpx m s Q] holds when the run ends there or returns and satisfies [Q]. *)
Definition wpx {St A} (m : M St A) (s : St) (Q : A → St → Prop) : Prop :=
  match m s with Ret (a, s') => Q a s' | UB Terminated => True | _ => False end.

Section wpx_rules.
Context {St : Type}.

Lemma wpx_wp {A} (m : M St A) s Q : wp m s Q → wpx m s Q.
Proof. unfold wp, wpx. by destruct (m s) as [[a s']|[]|]. Qed.

Lemma wpx_bind {A B} (m : M St A) (f : A → M St B) s Q :
  wpx m s (λ a s', wpx (f a) s' Q) → wpx (m ≫= f) s Q.
Proof. unfold wpx, mbind, M_bind. by destruct (m s) as [[a s']|[]|]. Qed.

Lemma wpx_mono {A} (m : M St A) s (P Q : A → St → Prop) :
  wpx m s P → (∀ a s', P a s' → Q a s') → wpx m s Q.
Proof. unfold wpx. destruct (m s) as [[a s']|[]|]; auto. Qed.

Lemma wpx_run {A} (m : M St A) s Q :
  wpx m s Q ↔ m s = UB Terminated ∨ wp m s Q.
Proof. unfold wpx, wp. destruct (m s) as [[a s']|[]|]; naive_solver. Qed.
End wpx_rules.

(** ** Alignment *)

Lemma ptr_align_up b p k : 0 ≤ k → __PTR_ALIGN b p (2 ^ k - 1) = align_up (2 ^ k) p.
Proof.
  intros Hk. pose proof (pow2_pos k Hk). unfold __PTR_ALIGN, __BPTR_ALIGN, align_up.
  change (sizeof_PTR_INT_TYPE <? sizeof_pointer) with false. cbn iota.
  replace (2 ^ k - 1) with (Z.ones k) at 2 by (rewrite Z.ones_equiv; lia).
  rewrite <- Z.ldiff_land, Z.ldiff_ones_r, Z.shiftl_mul_pow2, Z.shiftr_div_pow2 by lia.
  rewrite Z.add_0_l. do 2 f_equal. lia.
Qed.

(** The address of the first object of a chunk. *)
Definition first_of (k c : Z) : Z := __PTR_ALIGN c (contents_of c) (2 ^ k - 1).

Lemma first_of_spec k c : 0 ≤ k → c + 16 ≤ first_of k c ∧ first_of k c mod 2 ^ k = 0.
Proof.
  intros Hk. unfold first_of. rewrite ptr_align_up by done. unfold contents_of.
  destruct (align_up_spec (2 ^ k) (c + 16)); [by apply pow2_pos|lia].
Qed.

(** ** Chunks *)

(** A chunk is an address and a limit. *)
Definition outside (c : Z * Z) (a : Z) : Prop := a < c.1 ∨ c.2 ≤ a.
Definition apart (c d : Z * Z) : Prop := c.2 ≤ d.1 ∨ d.2 ≤ c.1.
Fixpoint all_apart (cs : list (Z * Z)) : Prop :=
  match cs with [] => True | c :: cs => Forall (apart c) cs ∧ all_apart cs end.

(** Memory is there at all addresses of a chunk. *)
Definition present (m : bmem) (c : Z * Z) : Prop := ∀ a, c.1 ≤ a < c.2 → is_Some (m !! a).
Definition absent (m : bmem) (c : Z * Z) : Prop := ∀ a, c.1 ≤ a < c.2 → m !! a = None.

Section chain.
Context (host : order).

(** The chunks linked from [p], with their headers in memory. *)
Fixpoint chain (m : bmem) (p : Z) (cs : list (Z * Z)) : Prop :=
  match cs with
  | [] => p = 0
  | c :: cs =>
      p = c.1 ∧ 0 < c.1 ∧ c.1 + 16 ≤ c.2 < 2 ^ 64 ∧ present m c ∧
      bytes_at m (limit_at c.1) (bytes_in host 8 c.2) ∧
      ∃ q, bytes_at m (prev_at c.1) (bytes_in host 8 q) ∧ 0 ≤ q < 2 ^ 64 ∧ chain m q cs
  end.

(** ** What the C library promises *)

(** [_obstack_newchunk] made the chunk [new] and moved the growing object to its start; the
    old chunk [old] may be freed when there was nothing else in it. *)
Record moved (k len : Z) (old : Z * Z) (cs : list (Z * Z)) (keep : bool) (new : Z * Z)
    (s s' : ostate) : Prop := {
  mv_chain : chain (omem s') (chunk (stack s')) (new :: (if keep then old :: cs else cs));
  mv_limit : chunk_limit (stack s') = new.2;
  mv_mask : alignment_mask (stack s') = alignment_mask (stack s);
  mv_temp : temp (stack s') = temp (stack s);
  mv_base : object_base (stack s') = first_of k new.1;
  mv_size : next_free (stack s') - object_base (stack s') =
            next_free (stack s) - object_base (stack s);
  mv_room : next_free (stack s') + len ≤ new.2;
  mv_object : ∀ l, bytes_at (omem s) (object_base (stack s)) l →
    Z.of_nat (length l) = next_free (stack s) - object_base (stack s) →
    bytes_at (omem s') (object_base (stack s')) l;
  mv_fresh : absent (omem s) new;
  mv_rest : ∀ a, outside new a → keep = true ∨ outside old a → omem s' !! a = omem s !! a;
  mv_freed : keep = false →
    object_base (stack s) = first_of k old.1 ∧ maybe_empty_object (stack s) = false }.

(** [__obstack_free] went back to the chunk [c] and freed the chunks [gone] above it. *)
Record released (obj : Z) (gone : list (Z * Z)) (c : Z * Z) (s s' : ostate) : Prop := {
  rl_chunk : chunk (stack s') = c.1;
  rl_limit : chunk_limit (stack s') = c.2;
  rl_base : object_base (stack s') = obj;
  rl_free : next_free (stack s') = obj;
  rl_mask : alignment_mask (stack s') = alignment_mask (stack s);
  rl_empty : maybe_empty_object (stack s') = false →
    gone = [] ∧ maybe_empty_object (stack s) = false;
  rl_rest : ∀ a, Forall (λ g, outside g a) gone → omem s' !! a = omem s !! a }.

(** [_obstack_begin] made the chunk [new], empty. *)
Record started (k : Z) (new : Z * Z) (s s' : ostate) : Prop := {
  st_chain : chain (omem s') (chunk (stack s')) [new];
  st_limit : chunk_limit (stack s') = new.2;
  st_mask : alignment_mask (stack s') = 2 ^ k - 1;
  st_base : object_base (stack s') = first_of k new.1;
  st_free : next_free (stack s') = object_base (stack s');
  st_room : first_of k new.1 ≤ new.2;
  st_fresh : absent (omem s) new;
  st_rest : ∀ a, outside new a → omem s' !! a = omem s !! a }.

Definition wanted_alignment (alignment k : Z) : Prop := alignment = 0 ∨ alignment = 2 ^ k.

Class ObstackLaws {api : ObstackApi} : Prop := {
  newchunk_ok : ∀ k len old cs s,
    0 ≤ k → 0 ≤ len < 2 ^ 31 → alignment_mask (stack s) = 2 ^ k - 1 →
    chain (omem s) (chunk (stack s)) (old :: cs) → all_apart (old :: cs) →
    chunk_limit (stack s) = old.2 →
    first_of k old.1 ≤ object_base (stack s) ≤ next_free (stack s) →
    next_free (stack s) ≤ old.2 →
    wpx (_obstack_newchunk len) s (λ _ s', ∃ keep new, moved k len old cs keep new s s');
  free_ok : ∀ obj gone c cs s,
    chain (omem s) (chunk (stack s)) (gone ++ c :: cs) → all_apart (gone ++ c :: cs) →
    Forall (λ g, ¬ g.1 < obj ≤ g.2) gone → c.1 < obj ≤ c.2 →
    wp (__obstack_free obj) s (λ _ s', released obj gone c s s');
  begin_ok : ∀ size alignment chunkfun freefun s,
    0 ≤ size < 2 ^ 31 → (∃ k, 0 ≤ k < 31 ∧ wanted_alignment alignment k) →
    wpx (_obstack_begin size alignment chunkfun freefun) s (λ _ s',
      ∃ k new, 0 ≤ k ∧ wanted_alignment alignment k ∧ started k new s s') }.
End chain.
#[global] Arguments ObstackLaws host {api}.

(** ** Objects *)

(** Objects between [lo] and [top], the newest first. *)
Abbreviation object := (Z * list Z)%type.
Definition osize (o : object) : Z := Z.of_nat (length o.2).

Fixpoint stacked (lo top : Z) (os : list object) : Prop :=
  match os with [] => lo ≤ top | o :: os => o.1 + osize o ≤ top ∧ stacked lo o.1 os end.

Lemma stacked_le lo top os : stacked lo top os → lo ≤ top.
Proof.
  revert top. induction os as [|o os IH]; intros top; [done|]. intros [H1 H2%IH].
  unfold osize in H1. lia.
Qed.

Lemma stacked_mono lo top top' os : top ≤ top' → stacked lo top os → stacked lo top' os.
Proof. destruct os as [|o os]; cbn [stacked]; [lia|]. intros H [? ?]. split; [lia|done]. Qed.

Lemma stacked_elem lo top os o : stacked lo top os → o ∈ os → lo ≤ o.1 ∧ o.1 + osize o ≤ top.
Proof.
  revert top. induction os as [|o' os IH]; intros top Hs Ho; [by apply not_elem_of_nil in Ho|].
  destruct Hs as [H1 H2]. pose proof (stacked_le _ _ _ H2).
  apply elem_of_cons in Ho as [->|Ho]; [lia|]. apply (IH _ H2) in Ho. unfold osize in *. lia.
Qed.

Lemma stacked_app lo top os1 o os2 : stacked lo top (os1 ++ o :: os2) → stacked lo o.1 os2.
Proof. revert top. induction os1 as [|o1 os1 IH]; intros top; cbn; [tauto|]. intros [_ H]. by eapply IH. Qed.

(** Nothing but empty objects fits into no room. *)
Lemma stacked_none lo os : stacked lo lo os → Forall (λ o, o.2 ≠ []) os → os = [].
Proof.
  destruct os as [|o os]; [done|]. intros [H1 H2%stacked_le] [Ho _]%Forall_cons_1.
  destruct (nil_or_length_pos o.2) as [?|?]; [done|]. unfold osize in H1. lia.
Qed.

(** A chunk with its finished objects. *)
Record block : Type := Block { b_chunk : Z * Z; b_objs : list object }.
Definition objects (bs : list block) : list object := concat (b_objs <$> bs).

(** ** The representation *)

Record rep (host : order) (m0 : bmem) (k : Z) (s : ostate) (b : block) (bs : list block)
    (g : list Z) : Prop := {
  r_mask : 0 ≤ k ∧ alignment_mask (stack s) = 2 ^ k - 1;
  r_chain : chain host (omem s) (chunk (stack s)) (b_chunk <$> b :: bs);
  r_apart : all_apart (b_chunk <$> b :: bs);
  r_user : m0 ⊆ omem s;
  r_foreign : Forall (absent m0) (b_chunk <$> b :: bs);
  r_limit : chunk_limit (stack s) = (b_chunk b).2;
  r_objs : stacked (first_of k (b_chunk b).1) (object_base (stack s)) (b_objs b);
  r_older : Forall (λ b, stacked (first_of k (b_chunk b).1) (b_chunk b).2 (b_objs b)) bs;
  r_bytes : Forall (λ o, bytes_at (omem s) o.1 o.2) (objects (b :: bs));
  r_free : next_free (stack s) = object_base (stack s) + Z.of_nat (length g);
  r_fits : next_free (stack s) ≤ chunk_limit (stack s);
  r_growing : bytes_at (omem s) (object_base (stack s)) g;
  r_aligned : Forall (λ b,
    Forall (λ o : object, o.1 mod 2 ^ k = 0 ∨ o.1 = (b_chunk b).2) (b_objs b)) (b :: bs);
  r_base : object_base (stack s) mod 2 ^ k = 0 ∨ object_base (stack s) = chunk_limit (stack s);
  r_empty : maybe_empty_object (stack s) = false → Forall (λ o : object, o.2 ≠ []) (b_objs b) }.

(** Memory under a list of bytes is there, and keeps its bytes where memory stays the same. *)
Lemma bytes_at_ext m m' p l :
  bytes_at m p l → (∀ a, p ≤ a < p + Z.of_nat (length l) → m' !! a = m !! a) → bytes_at m' p l.
Proof.
  revert p. induction l as [|b l IH]; intros p; [done|]. cbn [length]. intros [H1 H2] H.
  split; [rewrite H by lia; done|]. apply IH; [done|]. intros a Ha. apply H. lia.
Qed.

Lemma bytes_at_is_Some m p l a :
  bytes_at m p l → p ≤ a < p + Z.of_nat (length l) → is_Some (m !! a).
Proof. intros H. apply (region_is_Some m p (length l)). by exists l. Qed.

Lemma present_region m c p n :
  present m c → c.1 ≤ p → p + Z.of_nat n ≤ c.2 → region m p n.
Proof.
  revert p. induction n as [|n IH]; intros p H H1 H2; [by exists []|].
  destruct (H p ltac:(lia)) as [b Hb]. destruct (IH (p + 1)) as (l & <- & Hl); [done|lia..|].
  exists (b :: l). by split.
Qed.

Lemma apart_fresh m c d : c.1 < c.2 → d.1 < d.2 → absent m c → present m d → apart c d.
Proof.
  intros Hc Hd Ha Hp. unfold apart. destruct (Z.leb_spec (c.2) (d.1)); [by left|].
  destruct (Z.leb_spec (d.2) (c.1)); [by right|].
  destruct (Hp (Z.max (c.1) (d.1))) as [b Hb]; [lia|]. rewrite Ha in Hb by lia. done.
Qed.

Lemma apart_outside c d a : apart c d → d.1 ≤ a < d.2 → outside c a.
Proof. unfold apart, outside. lia. Qed.

Section chains.
Context {host : order}.

Lemma chain_elem m p cs c :
  chain host m p cs → c ∈ cs → 0 < c.1 ∧ c.1 + 16 ≤ c.2 < 2 ^ 64 ∧ present m c.
Proof.
  revert p. induction cs as [|d cs IH]; intros p H Hc; [by apply not_elem_of_nil in Hc|].
  destruct H as (_ & H1 & H2 & H3 & _ & q & _ & _ & H4).
  apply elem_of_cons in Hc as [->|Hc]; [done|by eapply IH].
Qed.

(** Only the headers matter, and that the rest is there. *)
Lemma chain_ext m m' p cs :
  chain host m p cs →
  (∀ c a, c ∈ cs → c.1 ≤ a < c.1 + 16 → m' !! a = m !! a) →
  (∀ c a, c ∈ cs → c.1 ≤ a < c.2 → is_Some (m !! a) → is_Some (m' !! a)) →
  chain host m' p cs.
Proof.
  revert p. induction cs as [|c cs IH]; intros p H Hh Hp; [done|].
  destruct H as (-> & H1 & H2 & H3 & H4 & q & H5 & Hq & H6).
  assert (∀ d, d ∈ cs → d ∈ c :: cs) as Hin by (intros d; rewrite elem_of_cons; tauto).
  assert (c ∈ c :: cs) as Hc by (rewrite elem_of_cons; tauto).
  split_and!; try done; try lia.
  - intros a Ha. apply (Hp c a Hc Ha). by apply H3.
  - apply (bytes_at_ext m); [done|]. intros a Ha. rewrite length_bytes_in in Ha.
    apply (Hh c); [done|]. unfold limit_at in Ha. lia.
  - exists q. split; [|split; [done|]].
    + apply (bytes_at_ext m); [done|]. intros a Ha. rewrite length_bytes_in in Ha.
      apply (Hh c); [done|]. unfold prev_at in Ha. lia.
    + apply IH; eauto.
Qed.

(** The memory of every chunk is as it was. *)
Lemma chain_same m m' p cs :
  chain host m p cs → (∀ c a, c ∈ cs → c.1 ≤ a < c.2 → m' !! a = m !! a) → chain host m' p cs.
Proof.
  intros H Hs. apply (chain_ext m); [done|..].
  - intros c a Hc Ha. apply (Hs c); [done|]. destruct (chain_elem _ _ _ _ H Hc). lia.
  - intros c a Hc Ha. by rewrite (Hs c).
Qed.

Lemma chain_tail m p c cs : chain host m p (c :: cs) → ∃ q, chain host m q cs.
Proof. intros (_ & _ & _ & _ & _ & q & _ & _ & H). by exists q. Qed.

Lemma chain_app m p cs d ds : chain host m p (cs ++ d :: ds) → chain host m d.1 (d :: ds).
Proof.
  revert p. induction cs as [|c cs IH]; intros p; cbn [app].
  - intros H. by destruct H as (-> & ?).
  - intros [q H]%chain_tail. by eapply IH.
Qed.
End chains.

Lemma all_apart_app cs ds :
  all_apart (cs ++ ds) ↔ all_apart cs ∧ all_apart ds ∧ Forall (λ c, Forall (apart c) ds) cs.
Proof.
  induction cs as [|c cs IH]; cbn [app all_apart].
  - split; [intros H; split_and!; [done|done|constructor]|tauto].
  - rewrite IH, Forall_app, Forall_cons_iff. tauto.
Qed.

Lemma apart_sym c d : apart c d → apart d c.
Proof. unfold apart. tauto. Qed.
