(* ===== verification/ObstackRep.v ===== *)
(** * Object stacks: what keeps the representation

    Writing into the free room, moving to a larger chunk, finishing an object and going back
    to one, each on the relation [rep]. *)

From Stdlib Require Import ZArith Lia.
From stdpp Require Import base list gmap numbers.
From S2P Require Import Prelude Bits ByteOrder ByteOrderSpec ByteOrderMem Obstack ObstackSpec.

#[local] Open Scope Z_scope.

Lemma elem_of_objects (o : object) bs : o ∈ objects bs ↔ ∃ b, b ∈ bs ∧ o ∈ b_objs b.
Proof.
  unfold objects. induction bs as [|b bs IH]; cbn [fmap list_fmap concat].
  - split; [intros H|intros (b & H & _)]; by apply not_elem_of_nil in H.
  - rewrite elem_of_app, IH. setoid_rewrite elem_of_cons. naive_solver.
Qed.

Section rep.
Context {host : order} {m0 : bmem} {k : Z} {s : ostate} {b : block} {bs : list block}
  {g : list Z} (R : rep host m0 k s b bs g).

Lemma rep_first :
  (b_chunk b).1 + 16 ≤ first_of k (b_chunk b).1 ≤ object_base (stack s).
Proof.
  pose proof (first_of_spec k (b_chunk b).1 (proj1 (r_mask _ _ _ _ _ _ _ R))).
  pose proof (stacked_le _ _ _ (r_objs _ _ _ _ _ _ _ R)). lia.
Qed.

Lemma rep_bounds :
  object_base (stack s) ≤ next_free (stack s) ≤ (b_chunk b).2.
Proof. rewrite <- (r_limit _ _ _ _ _ _ _ R). destruct R. lia. Qed.

(** Where a finished object lies. *)
Lemma rep_object o :
  o ∈ objects (b :: bs) →
  first_of k (b_chunk b).1 ≤ o.1 ∧ o.1 + osize o ≤ object_base (stack s) ∧ o ∈ b_objs b ∨
  ∃ b', b' ∈ bs ∧ (b_chunk b').1 + 16 ≤ o.1 ∧ o.1 + osize o ≤ (b_chunk b').2 ∧ o ∈ b_objs b'.
Proof.
  intros (b' & Hb' & Ho)%elem_of_objects. apply elem_of_cons in Hb' as [->|Hb'].
  - left. pose proof (stacked_elem _ _ _ _ (r_objs _ _ _ _ _ _ _ R) Ho). tauto.
  - right. exists b'. pose proof (first_of_spec k (b_chunk b').1 (proj1 (r_mask _ _ _ _ _ _ _ R))).
    pose proof (proj1 (list.Forall_forall _ _) (r_older _ _ _ _ _ _ _ R) b' Hb') as Hs.
    pose proof (stacked_elem _ _ _ _ Hs Ho). split_and!; done || lia.
Qed.

Lemma rep_older_apart b' : b' ∈ bs → apart (b_chunk b) (b_chunk b').
Proof.
  intros Hb'. destruct (r_apart _ _ _ _ _ _ _ R) as [Ha _]. rewrite list.Forall_forall in Ha.
  apply Ha. apply list_elem_of_fmap. by exists b'.
Qed.

(** Every byte of a finished object, of another chunk's header and of the user's memory is
    outside the free room. *)
Lemma rep_object_outside o a :
  o ∈ objects (b :: bs) → o.1 ≤ a < o.1 + osize o →
  a < next_free (stack s) ∨ chunk_limit (stack s) ≤ a.
Proof.
  intros Ho Ha. pose proof rep_bounds. rewrite (r_limit _ _ _ _ _ _ _ R).
  destruct (rep_object o Ho) as [(H1 & H2 & _)|(b' & Hb' & H1 & H2 & _)]; [lia|].
  pose proof rep_first. pose proof (rep_older_apart b' Hb') as Hap.
  apply (apart_outside _ _ a) in Hap; [|lia]. unfold outside in Hap. lia.
Qed.

Lemma rep_user_outside a :
  is_Some (m0 !! a) → a < (b_chunk b).1 ∨ (b_chunk b).2 ≤ a.
Proof.
  intros Ha. destruct (Z.ltb_spec a (b_chunk b).1); [by left|].
  destruct (Z.leb_spec (b_chunk b).2 a); [by right|].
  destruct (Forall_cons_1 _ _ _ (r_foreign _ _ _ _ _ _ _ R)) as [Hf _].
  rewrite Hf in Ha by lia. by destruct Ha.
Qed.

(** Writing into the free room. *)
Lemma rep_mem m' :
  (∀ a, is_Some (omem s !! a) → is_Some (m' !! a)) →
  (∀ a, a < next_free (stack s) ∨ chunk_limit (stack s) ≤ a → m' !! a = omem s !! a) →
  rep host m0 k (OState (stack s) m') b bs g.
Proof.
  intros Hp Hs. pose proof rep_first as Hf. pose proof rep_bounds as Hb.
  pose proof (r_limit _ _ _ _ _ _ _ R) as Hl.
  destruct R as [H1 H2 H3 H4 H5 H6 H7 H8 H9 H10 H11 H12 H13 H14 H15].
  split; cbn [stack omem] in *; try done.
  - eapply chain_ext; [exact H2| |by auto]. intros c a Hc Ha. apply Hs.
    apply list_elem_of_fmap in Hc as (b' & -> & Hb'). apply elem_of_cons in Hb' as [->|Hb']; [lia|].
    pose proof (rep_older_apart b' Hb') as Hap.
    destruct (chain_elem _ _ _ (b_chunk b') H2) as (_ & Hc & _).
    { apply list_elem_of_fmap. exists b'. rewrite elem_of_cons. tauto. }
    apply (apart_outside _ _ a) in Hap; [|lia]. unfold outside in Hap. lia.
  - apply map_subseteq_spec. intros a v Ha. rewrite map_subseteq_spec in H4.
    rewrite Hs; [by apply H4|].
    pose proof (rep_user_outside a (mk_is_Some _ _ Ha)). lia.
  - rewrite list.Forall_forall in H9 |- *. intros o Ho.
    eapply bytes_at_ext; [by apply H9|]. intros a Ha. apply Hs. by eapply rep_object_outside.
  - eapply bytes_at_ext; [exact H12|]. intros a Ha. apply Hs. lia.
Qed.
End rep.

(** The control structure with other temporaries. *)
Definition same_stack (h h' : obstack) : Prop :=
  chunk h' = chunk h ∧ object_base h' = object_base h ∧ next_free h' = next_free h ∧
  chunk_limit h' = chunk_limit h ∧ alignment_mask h' = alignment_mask h ∧
  maybe_empty_object h' = maybe_empty_object h.

Lemma rep_same host m0 k h h' m b bs g :
  same_stack h h' → rep host m0 k (OState h m) b bs g → rep host m0 k (OState h' m) b bs g.
Proof.
  intros (E1 & E2 & E3 & E4 & E5 & E6) [].
  split; cbn [stack omem] in *; rewrite ?E1, ?E2, ?E3, ?E4, ?E5, ?E6; done.
Qed.

(** The bytes at the end of the growing object become part of it, or are cut off. *)
Lemma rep_grown host m0 k h m b bs g g' :
  rep host m0 k (OState h m) b bs g →
  bytes_at m (object_base h) g' → object_base h + Z.of_nat (length g') ≤ chunk_limit h →
  rep host m0 k (OState (with_next_free (object_base h + Z.of_nat (length g')) h) m) b bs g'.
Proof. intros [] Hg Hf. split; cbn [stack omem with_next_free] in *; done. Qed.

(** ** A larger chunk *)

Section larger.
Context {host : order} {m0 : bmem} {k : Z} {s s' : ostate} {b : block} {bs : list block}
  {g : list Z} {len : Z} {keep : bool} {new : Z * Z} (Hlen : 0 ≤ len)
  (R : rep host m0 k s b bs g) (V : moved host k len (b_chunk b) (b_chunk <$> bs) keep new s s').

#[local] Abbreviation older := (if keep then b :: bs else bs).

(** A chunk is only freed when there is no object in it. *)
Lemma moved_none : keep = false → b_objs b = [].
Proof.
  intros [E1 E2]%(mv_freed _ _ _ _ _ _ _ _ _ V). apply (stacked_none (first_of k (b_chunk b).1)).
  - rewrite <- E1 at 2. apply R.
  - by apply R.
Qed.

Lemma moved_objects : objects (Block new [] :: older) = objects (b :: bs).
Proof. pose proof moved_none as H. destruct keep; [done|]. unfold objects. cbn. by rewrite H. Qed.

Lemma moved_chunks :
  b_chunk <$> Block new [] :: older
  = new :: (if keep then b_chunk b :: (b_chunk <$> bs) else b_chunk <$> bs).
Proof. by destruct keep. Qed.

Lemma moved_apart c : c ∈ b_chunk <$> b :: bs → apart new c.
Proof.
  intros Hc. destruct (chain_elem _ _ _ _ (r_chain _ _ _ _ _ _ _ R) Hc) as (? & ? & Hp).
  destruct (chain_elem _ _ _ new (mv_chain _ _ _ _ _ _ _ _ _ V)) as (? & ? & _);
    [rewrite elem_of_cons; tauto|].
  apply (apart_fresh (omem s)); try done; try lia. apply V.
Qed.

Lemma moved_outside a : is_Some (omem s !! a) → outside new a.
Proof.
  intros Ha. unfold outside. destruct (Z.ltb_spec a new.1); [by left|].
  destruct (Z.leb_spec new.2 a); [by right|].
  rewrite (mv_fresh _ _ _ _ _ _ _ _ _ V) in Ha by lia. by destruct Ha.
Qed.

Lemma moved_user : m0 ⊆ omem s'.
Proof.
  pose proof (r_user _ _ _ _ _ _ _ R) as Hu. rewrite map_subseteq_spec in Hu |- *.
  intros a v Ha. pose proof (rep_user_outside R a (mk_is_Some _ _ Ha)) as Hout.
  rewrite (mv_rest _ _ _ _ _ _ _ _ _ V); [by apply Hu| |by right].
  apply moved_outside. by rewrite (Hu _ _ Ha).
Qed.

Lemma moved_foreign : Forall (absent m0) (b_chunk <$> Block new [] :: older).
Proof.
  rewrite moved_chunks. pose proof (r_foreign _ _ _ _ _ _ _ R) as Hr. cbn [fmap list_fmap] in Hr.
  apply Forall_cons_1 in Hr as [Hr1 Hr2]. constructor; [|destruct keep; [by constructor|done]].
  intros a Ha. destruct (m0 !! a) as [v|] eqn:E; [|done].
  pose proof (lookup_weaken _ _ _ _ E (r_user _ _ _ _ _ _ _ R)) as E'.
  by rewrite (mv_fresh _ _ _ _ _ _ _ _ _ V) in E'.
Qed.

Lemma moved_bytes :
  Forall (λ o, bytes_at (omem s') o.1 o.2) (objects (Block new [] :: older)).
Proof.
  rewrite moved_objects. pose proof moved_none as Hnone.
  pose proof (r_bytes _ _ _ _ _ _ _ R) as Hby. rewrite list.Forall_forall in Hby |- *.
  intros o Ho. eapply bytes_at_ext; [by apply Hby|]. intros a Ha.
  assert (is_Some (omem s !! a)) as Hsome by (eapply bytes_at_is_Some; [by apply Hby|done]).
  apply (mv_rest _ _ _ _ _ _ _ _ _ V); [by apply moved_outside|].
  destruct keep; [by left|right].
  destruct (rep_object R o Ho) as [(_ & _ & Hin)|(b' & Hb' & H1 & H2 & _)].
  - rewrite Hnone in Hin by done. by apply not_elem_of_nil in Hin.
  - eapply apart_outside; [by apply (rep_older_apart R)|]. unfold osize in H2. lia.
Qed.

Lemma rep_moved :
  ∃ b' bs', rep host m0 k s' b' bs' g ∧ objects (b' :: bs') = objects (b :: bs) ∧
    next_free (stack s') + len ≤ chunk_limit (stack s').
Proof.
  pose proof (rep_first R) as Hf. pose proof (rep_bounds R) as Hb.
  exists (Block new []), older. split; [|split; [apply moved_objects|]].
  2: { rewrite (mv_limit _ _ _ _ _ _ _ _ _ V). apply V. }
  pose proof (first_of_spec k new.1 (proj1 (r_mask _ _ _ _ _ _ _ R))) as Hn.
  pose proof moved_apart as Hnew. pose proof (r_free _ _ _ _ _ _ _ R) as Hg.
  destruct V as [V1 V2 V3 Vt V4 V5 V6 V7 V8 V9 V10].
  split; rewrite ?moved_objects, ?moved_chunks, ?V2, ?V3, ?V4;
    try done; try apply R; try apply moved_user; try lia.
  - pose proof (r_apart _ _ _ _ _ _ _ R) as Ha. cbn [fmap list_fmap all_apart] in Ha, Hnew.
    split; [|by destruct keep; [|destruct Ha]]. apply list.Forall_forall. intros c Hc. apply Hnew.
    destruct keep; [done|]. rewrite elem_of_cons. by right.
  - rewrite <- moved_chunks. apply moved_foreign.
  - cbn. lia.
  - destruct keep; [|apply R]. constructor; [|apply R]. eapply stacked_mono; [|apply R]. lia.
  - rewrite <- moved_objects. apply moved_bytes.
  - rewrite <- V4. apply V7; [apply R|lia].
  - pose proof (r_aligned _ _ _ _ _ _ _ R) as Ha. constructor; [constructor|].
    destruct keep; [done|by apply Forall_cons_1 in Ha as [_ Ha]].
Qed.
End larger.

(** ** Finishing *)

Definition finished_at (k : Z) (h : obstack) : Z :=
  Z.min (align_up (2 ^ k) (next_free h)) (chunk_limit h).

Lemma rep_finished host m0 k h h' m b bs g :
  rep host m0 k (OState h m) b bs g →
  chunk h' = chunk h → chunk_limit h' = chunk_limit h → alignment_mask h' = alignment_mask h →
  object_base h' = finished_at k h → next_free h' = finished_at k h →
  maybe_empty_object h' = (next_free h =? object_base h) || maybe_empty_object h →
  rep host m0 k (OState h' m) (Block (b_chunk b) ((object_base h, g) :: b_objs b)) bs [].
Proof.
  intros R E1 E2 E3 E4 E5 E6. pose proof (rep_bounds R) as Hb.
  destruct R as [H1 H2 H3 H4 H5 H6 H7 H8 H9 H10 H11 H12 H13 H14 H15].
  cbn [stack omem] in *. pose proof (pow2_pos k (proj1 H1)) as Hk.
  destruct (align_up_spec (2 ^ k) (next_free h) Hk) as [Hal1 Hal2].
  assert (next_free h ≤ finished_at k h ≤ chunk_limit h) as Hf by (unfold finished_at; lia).
  split; cbn [stack omem b_chunk b_objs fmap list_fmap objects concat] in *;
    rewrite ?E1, ?E2, ?E3, ?E4, ?E5, ?E6; try done; try lia.
  - split; [|done]. unfold osize. cbn [fst snd]. lia.
  - unfold objects in *. cbn [fmap list_fmap b_objs concat app] in *. by constructor.
  - cbn [length]. lia.
  - apply Forall_cons_1 in H13 as [H13 H13']. constructor; [|done]. constructor; [|done].
    cbn [fst]. destruct H14 as [?|H14]; [by left|right]. by rewrite H14.
  - unfold finished_at. destruct (Z.min_spec (align_up (2 ^ k) (next_free h)) (chunk_limit h))
      as [[_ ->]|[_ ->]]; [by left|by right].
  - destruct (Z.eqb_spec (next_free h) (object_base h)) as [?|Hne]; [done|]. intros Hm.
    constructor; [|by apply H15]. cbn. intros ->. cbn in H10. lia.
Qed.

(** ** Going back *)

Lemma objects_split bs newer (o : object) older :
  objects bs = newer ++ o :: older →
  ∃ xs x ys os1 os2, bs = xs ++ x :: ys ∧ b_objs x = os1 ++ o :: os2 ∧
    newer = objects xs ++ os1 ∧ older = os2 ++ objects ys.
Proof.
  unfold objects. revert newer. induction bs as [|b bs IH]; intros newer; cbn [fmap list_fmap concat].
  { intros H. by destruct newer. }
  intros H. apply app_eq_inv in H as [(l & H1 & H2)|(l & H1 & H2)].
  - destruct l as [|o' l].
    + rewrite app_nil_r in H1. subst newer. destruct (IH [] (eq_sym H2)) as
        (xs & x & ys & os1 & os2 & -> & Hx & Hn & ->).
      exists (b :: xs), x, ys, os1, os2. split_and!; [done|done| |done].
      cbn. rewrite <- app_assoc, <- Hn. by rewrite app_nil_r.
    + injection H2 as <- ->. exists [], b, bs, newer, l. by split_and!.
  - destruct (IH l H2) as (xs & x & ys & os1 & os2 & -> & Hx & -> & ->).
    exists (b :: xs), x, ys, os1, os2. split_and!; [done|done| |done].
    rewrite H1. cbn. by rewrite app_assoc.
Qed.

Section back.
Context {host : order} {m0 : bmem} {k : Z} {s s' : ostate} {b x : block} {bs xs ys : list block}
  {g : list Z} {os1 os2 : list object} {p : Z} {l : list Z} (R : rep host m0 k s b bs g)
  (E : b :: bs = xs ++ x :: ys) (Ex : b_objs x = os1 ++ (p, l) :: os2).

#[local] Abbreviation gone := (b_chunk <$> xs).

(** The object lies in its chunk, behind the header, and in no chunk above. *)
Lemma back_stacked : ∃ top, top ≤ (b_chunk x).2 ∧ stacked (first_of k (b_chunk x).1) top (b_objs x).
Proof.
  destruct xs as [|x' xs']; injection E as -> ->.
  - exists (object_base (stack s)). split; [|apply R]. pose proof (rep_bounds R). lia.
  - exists (b_chunk x).2. split; [lia|]. pose proof (r_older _ _ _ _ _ _ _ R) as Ho.
    rewrite list.Forall_forall in Ho. apply Ho. rewrite elem_of_app, elem_of_cons. tauto.
Qed.

Lemma back_inside : (b_chunk x).1 + 16 ≤ p ≤ (b_chunk x).2.
Proof.
  destruct back_stacked as (top & Htop & Hs).
  assert ((p, l) ∈ b_objs x) as Hin by (rewrite Ex, elem_of_app, elem_of_cons; tauto).
  destruct (stacked_elem _ _ _ _ Hs Hin) as [H1 H2]. unfold osize in H2. cbn [fst snd] in *.
  pose proof (first_of_spec k (b_chunk x).1 (proj1 (r_mask _ _ _ _ _ _ _ R))). lia.
Qed.

Lemma back_chunks : b_chunk <$> b :: bs = gone ++ b_chunk x :: (b_chunk <$> ys).
Proof. by rewrite E, fmap_app. Qed.

Lemma back_apart : all_apart (gone ++ b_chunk x :: (b_chunk <$> ys)).
Proof. rewrite <- back_chunks. apply R. Qed.

Lemma back_above : Forall (λ c, ¬ c.1 < p ≤ c.2) gone.
Proof.
  pose proof back_inside. pose proof back_apart as (_ & _ & Ha)%all_apart_app.
  rewrite list.Forall_forall in Ha |- *. intros c Hc.
  destruct (Forall_cons_1 _ _ _ (Ha c Hc)) as [Hap _]. unfold apart in Hap. lia.
Qed.

(** Everything below keeps its memory. *)
Lemma back_same (V : released p gone (b_chunk x) s s') c a :
  c ∈ b_chunk <$> x :: ys → c.1 ≤ a < c.2 → omem s' !! a = omem s !! a.
Proof.
  intros Hc Ha. apply (rl_rest _ _ _ _ _ V). pose proof back_apart as (_ & _ & Hap)%all_apart_app.
  rewrite list.Forall_forall in Hap |- *. intros d Hd. specialize (Hap d Hd).
  rewrite list.Forall_forall in Hap. apply (apart_outside _ c); [by apply Hap|done].
Qed.

Lemma back_older P : Forall P bs → Forall P ys.
Proof.
  destruct xs as [|x' xs']; injection E as _ ->; [done|].
  intros [_ HP]%Forall_app. by apply Forall_cons_1 in HP as [_ HP].
Qed.

Lemma back_bytes (V : released p gone (b_chunk x) s s') :
  Forall (λ o, bytes_at (omem s') o.1 o.2) (objects (Block (b_chunk x) os2 :: ys)).
Proof.
  pose proof (r_bytes _ _ _ _ _ _ _ R) as Hby. rewrite list.Forall_forall in Hby |- *.
  destruct back_stacked as (top & Htop & Hst).
  pose proof (r_mask _ _ _ _ _ _ _ R) as [Hk _].
  assert (∀ o b', b' ∈ x :: ys → o ∈ b_objs b' →
    (∃ top, top ≤ (b_chunk b').2 ∧ stacked (first_of k (b_chunk b').1) top (b_objs b')) →
    bytes_at (omem s') o.1 o.2) as Hkeep.
  { intros o b' Hb' Ho (t & Ht & Hs). eapply bytes_at_ext.
    - apply Hby, elem_of_objects. exists b'. rewrite E, elem_of_app. tauto.
    - intros a Ha. apply (back_same V (b_chunk b')); [apply list_elem_of_fmap; by exists b'|].
      pose proof (stacked_elem _ _ _ _ Hs Ho) as [Hlo Hhi]. unfold osize in Hhi.
      pose proof (first_of_spec k (b_chunk b').1 Hk). lia. }
  intros o (b' & Hb' & Ho)%elem_of_objects. apply elem_of_cons in Hb' as [->|Hb'].
  - apply (Hkeep o x); [rewrite elem_of_cons; tauto| |by exists top].
    rewrite Ex, elem_of_app, elem_of_cons. tauto.
  - apply (Hkeep o b'); [rewrite elem_of_cons; tauto|done|]. exists (b_chunk b').2. split; [lia|].
    pose proof (back_older _ (r_older _ _ _ _ _ _ _ R)) as Hold.
    rewrite list.Forall_forall in Hold. by apply Hold.
Qed.

Lemma rep_back :
  released p gone (b_chunk x) s s' → rep host m0 k s' (Block (b_chunk x) os2) ys [].
Proof.
  intros V. destruct back_stacked as (top & Htop & Hst). pose proof back_inside as Hin.
  pose proof (back_same V) as Hsame. pose proof back_apart as (_ & Hap & _)%all_apart_app.
  assert (chain host (omem s) (b_chunk x).1 (b_chunk <$> x :: ys)) as Hch.
  { change (chain host (omem s) (b_chunk x).1 (b_chunk x :: (b_chunk <$> ys))).
    apply (chain_app _ (chunk (stack s)) gone). rewrite <- back_chunks. apply R. }
  destruct V as [V1 V2 V3 V4 V5 V6 V7]. destruct R as [H1 H2 H3 H4 H5 H6 H7 H8 H9 H10 H11 H12 H13 H14 H15].
  assert (∀ P : block → Prop, Forall P (b :: bs) → P x ∧ Forall P ys) as Hsub.
  { intros P. rewrite E. intros [_ HP]%Forall_app. by apply Forall_cons_1 in HP. }
  split; cbn [b_chunk b_objs]; rewrite ?V1, ?V2, ?V3, ?V4, ?V5; try done; try lia.
  - by apply (chain_same (omem s)).
  - rewrite map_subseteq_spec in H4 |- *. intros a v Ha. rewrite V7; [by apply H4|].
    rewrite back_chunks in H5. apply Forall_app in H5 as [H5 _].
    eapply Forall_impl; [|exact H5]. intros c Hc. unfold outside.
    destruct (Z.ltb_spec a c.1), (Z.leb_spec c.2 a); try tauto. by rewrite Hc in Ha by lia.
  - rewrite back_chunks in H5. by apply Forall_app in H5 as [_ H5].
  - rewrite Ex in Hst. by apply stacked_app in Hst.
  - by apply back_older.
  - by apply back_bytes.
  - cbn [length]. lia.
  - apply Hsub in H13 as [H13 H13']. constructor; [|done]. rewrite Ex in H13.
    apply Forall_app in H13 as [_ H13]. by apply Forall_cons_1 in H13 as [_ H13].
  - apply Hsub in H13 as [H13 _]. rewrite Ex in H13.
    apply Forall_app in H13 as [_ H13]. by apply Forall_cons_1 in H13 as [H13 _].
  - intros [Hxs Hme]%V6. apply H15 in Hme. apply fmap_nil_inv in Hxs. destruct xs; [|done].
    injection E as -> _. rewrite Ex in Hme. apply Forall_app in Hme as [_ Hme].
    by apply Forall_cons_1 in Hme as [_ Hme].
Qed.
End back.

(** ** The first chunk *)

Lemma rep_started host k new s s' :
  0 ≤ k → started host k new s s' → rep host (omem s) k s' (Block new []) [] [].
Proof.
  intros Hk [V1 V2 V3 V4 V5 V6 V7 V8].
  assert (∀ a, is_Some (omem s !! a) → outside new a) as Hout.
  { intros a Ha. unfold outside. destruct (Z.ltb_spec a new.1); [by left|].
    destruct (Z.leb_spec new.2 a); [by right|]. rewrite V7 in Ha by lia. by destruct Ha. }
  pose proof (first_of_spec k new.1 Hk) as [_ Hal].
  split; cbn [b_chunk b_objs fmap list_fmap]; rewrite ?V2, ?V3, ?V5, ?V4; try done.
  - apply map_subseteq_spec. intros a v Ha. rewrite V8; [done|]. apply Hout. by rewrite Ha.
  - by repeat constructor.
  - cbn. lia.
  - cbn [length]. lia.
  - by repeat constructor.
  - by left.
Qed.
