(* ===== verification/ObstackOpsSpec.v ===== *)
(** * Object stacks: the macros

    What every macro does to the stack of finished objects and the growing one ([holds]), as
    a class that both versions of the header are instances of. *)

From Stdlib Require Import ZArith Lia.
From stdpp Require Import base list gmap numbers.
From S2P Require Import Prelude Bits ByteOrder ByteOrderSpec ByteOrderMem Obstack ObstackSpec ObstackRep.

#[local] Open Scope Z_scope.

(** The finished objects [fin], the newest first, and the growing one [g]; [m0] is the memory
    of the user. *)
Definition holds (host : order) (m0 : bmem) (s : ostate) (fin : list object) (g : list Z) : Prop :=
  ∃ k b bs, rep host m0 k s b bs g ∧ fin = objects (b :: bs).

(** ** The contract of the macros *)

Class ObstackOpsLaws (host : order) (m0 : bmem) (ops : ObstackOps) : Prop := {
  law_grow : ∀ s fin g src l,
    holds host m0 s fin g → bytes_at m0 src l → Z.of_nat (length l) < 2 ^ 31 →
    wpx (op_grow src (Z.of_nat (length l))) s (λ _ s', holds host m0 s' fin (g ++ l));
  law_grow0 : ∀ s fin g src l,
    holds host m0 s fin g → bytes_at m0 src l → Z.of_nat (length l) < 2 ^ 31 - 1 →
    wpx (op_grow0 src (Z.of_nat (length l))) s (λ _ s', holds host m0 s' fin (g ++ l ++ [0]));
  law_1grow : ∀ s fin g datum,
    holds host m0 s fin g →
    wpx (op_1grow datum) s (λ _ s', holds host m0 s' fin (g ++ bytes_in host 1 datum));
  law_ptr_grow : ∀ s fin g datum,
    holds host m0 s fin g →
    wpx (op_ptr_grow datum) s (λ _ s', holds host m0 s' fin (g ++ bytes_in host 8 datum));
  law_int_grow : ∀ s fin g datum,
    holds host m0 s fin g →
    wpx (op_int_grow datum) s (λ _ s', holds host m0 s' fin (g ++ bytes_in host 4 datum));
  law_blank_up : ∀ s fin g n,
    holds host m0 s fin g → Z.of_nat n < 2 ^ 31 →
    wpx (op_blank (Z.of_nat n)) s (λ _ s',
      ∃ l, length l = n ∧ holds host m0 s' fin (g ++ l));
  law_blank_down : ∀ s fin g n,
    holds host m0 s fin g → (n ≤ length g)%nat → Z.of_nat n < 2 ^ 31 →
    wp (op_blank (- Z.of_nat n)) s (λ _ s', holds host m0 s' fin (take (length g - n) g));
  law_make_room : ∀ s fin g n,
    holds host m0 s fin g → 0 ≤ n < 2 ^ 31 →
    wpx (op_make_room n) s (λ _ s',
      holds host m0 s' fin g ∧ next_free (stack s') + n ≤ chunk_limit (stack s'));
  law_finish : ∀ s fin g,
    holds host m0 s fin g → wp op_finish s (λ p s', holds host m0 s' ((p, g) :: fin) []);
  law_alloc : ∀ s fin g n,
    holds host m0 s fin g → Z.of_nat n < 2 ^ 31 →
    wpx (op_alloc (Z.of_nat n)) s (λ p s',
      ∃ l, length l = n ∧ holds host m0 s' ((p, g ++ l) :: fin) []);
  law_copy : ∀ s fin g src l,
    holds host m0 s fin g → bytes_at m0 src l → Z.of_nat (length l) < 2 ^ 31 →
    wpx (op_copy src (Z.of_nat (length l))) s (λ p s', holds host m0 s' ((p, g ++ l) :: fin) []);
  law_copy0 : ∀ s fin g src l,
    holds host m0 s fin g → bytes_at m0 src l → Z.of_nat (length l) < 2 ^ 31 - 1 →
    wpx (op_copy0 src (Z.of_nat (length l))) s (λ p s',
      holds host m0 s' ((p, g ++ l ++ [0]) :: fin) []);
  law_free : ∀ s newer p l older g,
    holds host m0 s (newer ++ (p, l) :: older) g →
    wp (op_free p) s (λ _ s', holds host m0 s' older []);
  law_size : ∀ s fin g,
    holds host m0 s fin g → Z.of_nat (length g) < 2 ^ 32 →
    wp op_object_size s (λ n s', n = Z.of_nat (length g) ∧ s' = s);
  law_empty_p : ∀ s fin g,
    holds host m0 s fin g →
    wp op_empty_p s (λ e s', s' = s ∧
      (e = true → g = [] ∧ Forall (λ o : object, o.2 = []) fin)) }.

Lemma wp_on_mem {A} (c : M bmem A) s (Q : A → ostate → Prop) :
  wp (on_mem c) s Q ↔ wp c (omem s) (λ a m, Q a (OState (stack s) m)).
Proof. unfold wp, on_mem. by destruct (c (omem s)) as [[a m]| |]. Qed.

Lemma wpx_on_mem {A} (c : M bmem A) s (Q : A → ostate → Prop) :
  wp c (omem s) (λ a m, Q a (OState (stack s) m)) → wpx (on_mem c) s Q.
Proof. intros H. by apply wpx_wp, wp_on_mem. Qed.

(** Push [wp] and [wpx] through the accesses to the structure. *)
Ltac owp := repeat match goal with
  | |- wp (mbind _ _) _ _ => apply wp_bind
  | |- wp oget _ _ => apply wp_gets
  | |- wp (oset _) _ _ => apply wp_modify
  | |- wp (on_mem _) _ _ => apply wp_on_mem
  | |- wp (mret _) _ _ => apply wp_ret
  | |- wpx (mbind _ _) _ _ => apply wpx_bind
  | |- wpx oget _ _ => apply wpx_wp, wp_gets
  | |- wpx (oset _) _ _ => apply wpx_wp, wp_modify
  | |- wpx (on_mem _) _ _ => apply wpx_on_mem
  | |- wpx (mret _) _ _ => apply wpx_wp, wp_ret
  end; cbn [stack omem].

Section shared.
Context {api : ObstackApi} {host : order} {laws : ObstackLaws host} {m0 : bmem}.

Lemma holds_fits s fin g :
  holds host m0 s fin g →
  next_free (stack s) = object_base (stack s) + Z.of_nat (length g) ∧
  next_free (stack s) ≤ chunk_limit (stack s).
Proof. by intros (k & b & bs & [] & _). Qed.

Lemma holds_user s fin g p l : holds host m0 s fin g → bytes_at m0 p l → bytes_at (omem s) p l.
Proof.
  intros (k & b & bs & R & _) H. pose proof (r_user _ _ _ _ _ _ _ R) as Hu.
  revert p H. induction l as [|c l IH]; intros p; [done|]. intros [H1 H2].
  split; [by eapply lookup_weaken|by apply IH].
Qed.

Lemma holds_same s h' fin g :
  holds host m0 s fin g → same_stack (stack s) h' → holds host m0 (OState h' (omem s)) fin g.
Proof.
  destruct s as [h m]. intros (k & b & bs & R & ->) E. exists k, b, bs. split; [|done].
  by eapply rep_same.
Qed.

(** Enough room, in this chunk or in a new one. *)
Lemma wp_room s fin g n (c : bool) :
  holds host m0 s fin g → 0 ≤ n < 2 ^ 31 →
  (c = false → next_free (stack s) + n ≤ chunk_limit (stack s)) →
  wpx (if c then _obstack_newchunk n else mret tt) s (λ _ s',
    holds host m0 s' fin g ∧ next_free (stack s') + n ≤ chunk_limit (stack s') ∧
    temp (stack s') = temp (stack s)).
Proof.
  intros H Hn Hc. destruct c; [|by apply wpx_wp, wp_ret; auto].
  destruct H as (k & b & bs & R & ->). pose proof (rep_first R). pose proof (rep_bounds R).
  eapply wpx_mono.
  - apply (newchunk_ok _ k n (b_chunk b) (b_chunk <$> bs)); try apply R; done || lia.
  - intros [] s' (keep & new & V). destruct (rep_moved (proj1 Hn) R V) as (b' & bs' & R' & E & Hr).
    split; [|split; [done|apply V]]. exists k, b', bs'. by rewrite E.
Qed.

(** The free room is memory, and writing into it disturbs nothing. *)
Lemma holds_region s fin g n :
  holds host m0 s fin g → next_free (stack s) + Z.of_nat n ≤ chunk_limit (stack s) →
  region (omem s) (next_free (stack s)) n.
Proof.
  intros (k & b & bs & R & _) Hn. pose proof (rep_first R). pose proof (rep_bounds R).
  rewrite (r_limit _ _ _ _ _ _ _ R) in Hn.
  destruct (chain_elem _ _ _ (b_chunk b) (r_chain _ _ _ _ _ _ _ R)) as (_ & _ & Hp).
  { cbn. rewrite elem_of_cons. tauto. }
  eapply present_region; [exact Hp|lia..].
Qed.

Lemma holds_written s fin g l h' m' :
  holds host m0 s fin g → next_free (stack s) + Z.of_nat (length l) ≤ chunk_limit (stack s) →
  bytes_at m' (next_free (stack s)) l →
  only_bytes (next_free (stack s)) (Z.of_nat (length l)) (omem s) m' →
  same_stack (with_next_free (next_free (stack s) + Z.of_nat (length l)) (stack s)) h' →
  holds host m0 (OState h' m') fin (g ++ l).
Proof.
  intros (k & b & bs & R & ->) Hn Hl Ho Hh. exists k, b, bs. split; [|done].
  pose proof (rep_bounds R) as Hb. pose proof (r_free _ _ _ _ _ _ _ R) as Hf.
  assert (rep host m0 k (OState (stack s) m') b bs g) as R'.
  { apply rep_mem; [done| |].
    - intros a Ha. destruct (decide (next_free (stack s) ≤ a < next_free (stack s) + Z.of_nat (length l))).
      + by eapply bytes_at_is_Some.
      + rewrite Ho by lia. done.
    - intros a Ha. apply Ho. lia. }
  eapply rep_same; [exact Hh|].
  replace (next_free (stack s) + Z.of_nat (length l))
    with (object_base (stack s) + Z.of_nat (length (g ++ l))) by (rewrite length_app; lia).
  apply (rep_grown _ _ _ _ _ _ _ g); [done| |rewrite length_app; lia].
  apply bytes_at_app. split; [apply R'|]. by rewrite <- Hf.
Qed.

Lemma holds_cut s fin g n h' :
  holds host m0 s fin g → (n ≤ length g)%nat →
  same_stack (with_next_free (next_free (stack s) - Z.of_nat n) (stack s)) h' →
  holds host m0 (OState h' (omem s)) fin (take (length g - n) g).
Proof.
  destruct s as [h m]. intros (k & b & bs & R & ->) Hn Hh. exists k, b, bs. split; [|done].
  eapply rep_same; [exact Hh|]. pose proof (rep_bounds R) as Hb.
  pose proof (r_free _ _ _ _ _ _ _ R) as Hf. pose proof (r_limit _ _ _ _ _ _ _ R) as Hl.
  pose proof (r_growing _ _ _ _ _ _ _ R) as Hg. cbn [stack omem] in *.
  replace (next_free h - Z.of_nat n)
    with (object_base h + Z.of_nat (length (take (length g - n) g)))
    by (rewrite length_take; lia).
  eapply rep_grown; [exact R| |rewrite length_take; lia].
  rewrite <- (take_drop (length g - n) g) in Hg. by apply bytes_at_app in Hg as [Hg _].
Qed.

(** The end of a finished object: aligned, but not behind the chunk. *)
Definition end_of (h : obstack) : Z :=
  let e := __PTR_ALIGN (object_base h) (next_free h) (alignment_mask h) in
  if chunk_limit h - chunk h <? e - chunk h then chunk_limit h else e.

Lemma holds_finished s fin g h' :
  holds host m0 s fin g →
  chunk h' = chunk (stack s) → chunk_limit h' = chunk_limit (stack s) →
  alignment_mask h' = alignment_mask (stack s) →
  object_base h' = end_of (stack s) → next_free h' = end_of (stack s) →
  maybe_empty_object h' =
    (next_free (stack s) =? object_base (stack s)) || maybe_empty_object (stack s) →
  holds host m0 (OState h' (omem s)) ((object_base (stack s), g) :: fin) [].
Proof.
  destruct s as [h m]. intros (k & b & bs & R & ->) E1 E2 E3 E4 E5 E6.
  exists k, (Block (b_chunk b) ((object_base h, g) :: b_objs b)), bs. split; [|done].
  destruct (r_mask _ _ _ _ _ _ _ R) as [Hk Hm]. cbn [stack omem] in *.
  assert (end_of h = finished_at k h) as Ee.
  { unfold end_of, finished_at. rewrite Hm, ptr_align_up by done.
    destruct (Z.ltb_spec (chunk_limit h - chunk h) (align_up (2 ^ k) (next_free h) - chunk h)); lia. }
  rewrite Ee in E4, E5. by eapply rep_finished.
Qed.

(** Going back to the object at [p] in the current chunk. *)
Lemma holds_back_here s newer p l older g h' :
  holds host m0 s (newer ++ (p, l) :: older) g →
  chunk (stack s) < p < chunk_limit (stack s) →
  same_stack (with_next_free p (with_object_base p (stack s))) h' →
  holds host m0 (OState h' (omem s)) older [].
Proof.
  intros (k & b & bs & R & E) Hp Hh. symmetry in E.
  apply objects_split in E as (xs & x & ys & os1 & os2 & E & Ex & _ & ->).
  pose proof (back_above R E Ex) as Ha. pose proof (r_limit _ _ _ _ _ _ _ R) as Hl.
  assert (chunk (stack s) = (b_chunk b).1) as Hc by (by destruct (r_chain _ _ _ _ _ _ _ R)).
  assert (xs = []) as ->.
  { destruct xs as [|b' xs]; [done|]. injection E as -> _.
    apply Forall_cons_1 in Ha as [Ha _]. lia. }
  injection E as -> ->. exists k, (Block (b_chunk x) os2), ys. split; [|done].
  eapply rep_same; [exact Hh|]. eapply (rep_back R (xs := []) eq_refl Ex).
  split; cbn; try done; try lia.
Qed.

(** Going back through the library. *)
Lemma holds_back_far s newer p l older g :
  holds host m0 s (newer ++ (p, l) :: older) g →
  wp (__obstack_free p) s (λ _ s', holds host m0 s' older []).
Proof.
  intros (k & b & bs & R & E). symmetry in E.
  apply objects_split in E as (xs & x & ys & os1 & os2 & E & Ex & _ & ->).
  pose proof (back_inside R E Ex) as Hin. pose proof (back_chunks E) as Hch.
  eapply wp_mono.
  - apply (free_ok host p (b_chunk <$> xs) (b_chunk x) (b_chunk <$> ys)).
    + rewrite <- Hch. apply R.
    + by eapply back_apart.
    + by eapply back_above.
    + lia.
  - intros [] s' V. exists k, (Block (b_chunk x) os2), ys. split; [|done].
    by eapply rep_back.
Qed.

(** Only empty objects fit before the first address. *)
Lemma holds_empty s fin g :
  holds host m0 s fin g →
  wp (load_int host 8 (prev_at (chunk (stack s)))) (omem s) (λ v m', m' = omem s ∧
    (v = 0 → next_free (stack s) =
       __PTR_ALIGN (chunk (stack s)) (contents_of (chunk (stack s))) (alignment_mask (stack s)) →
     g = [] ∧ Forall (λ o : object, o.2 = []) fin)).
Proof.
  intros (k & b & bs & R & ->). pose proof (r_chain _ _ _ _ _ _ _ R) as Hch.
  destruct Hch as (Hc & _ & _ & _ & _ & q & Hq & Hr & Hch). rewrite <- Hc in Hq.
  eapply wp_mono; [by eapply wp_load_int|]. intros v m' [-> ->]. split; [done|].
  rewrite of_bytes_in_bytes, Z.mod_small by done. intros -> Hn.
  destruct (r_mask _ _ _ _ _ _ _ R) as [Hk Hm]. rewrite Hm in Hn.
  fold (first_of k (chunk (stack s))) in Hn. rewrite Hc in Hn.
  pose proof (rep_first R) as Hf. pose proof (r_free _ _ _ _ _ _ _ R) as Hg.
  pose proof (r_objs _ _ _ _ _ _ _ R) as Hs.
  split; [destruct g; [done|cbn in Hg; lia]|].
  destruct bs as [|b' bs].
  - unfold objects. cbn. rewrite app_nil_r. replace (object_base (stack s)) with
      (first_of k (b_chunk b).1) in Hs by lia.
    apply list.Forall_forall. intros o Ho. pose proof (stacked_elem _ _ _ _ Hs Ho) as Hin.
    unfold osize in Hin. destruct o.2; [done|cbn in Hin; lia].
  - cbn in Hch. destruct Hch as (Hz & Hpos & _). lia.
Qed.
End shared.
