(* ===== verification/ObstackVersions.v ===== *)
(** * Object stacks: both versions of the macros keep the contract *)

From Stdlib Require Import ZArith Lia.
From stdpp Require Import base list gmap numbers.
From S2P Require Import Prelude Bits ByteOrder ByteOrderSpec ByteOrderMem Obstack ObstackSpec ObstackRep.
From S2P Require Import ObstackOpsSpec.

#[local] Open Scope Z_scope.

Section versions.
Context {api : ObstackApi} {host : order} {laws : ObstackLaws host} {m0 : bmem}.

#[local] Abbreviation holds := (holds host m0).

(** ** The parts of a macro *)

(** Room, then the rest on the state with room. *)
Lemma wp_room_then {B} s fin g n (c : bool) (k : unit → M ostate B) Q :
  holds s fin g → 0 ≤ n < 2 ^ 31 →
  (c = false → next_free (stack s) + n ≤ chunk_limit (stack s)) →
  (∀ s', holds s' fin g → next_free (stack s') + n ≤ chunk_limit (stack s') →
    temp (stack s') = temp (stack s) → wpx (k tt) s' Q) →
  wpx (if c then _obstack_newchunk n else mret tt) s (λ a s', wpx (k a) s' Q).
Proof.
  intros H Hn Hc Hk. eapply wpx_mono; [by eapply wp_room|].
  intros [] s' (H' & Hr & Ht). by apply Hk.
Qed.

Lemma wp_copy_in s fin g src l :
  holds s fin g → bytes_at m0 src l →
  next_free (stack s) + Z.of_nat (length l) ≤ chunk_limit (stack s) →
  wp (copy_in (next_free (stack s)) src (Z.of_nat (length l))) s (λ _ s',
    stack s' = stack s ∧ bytes_at (omem s') (next_free (stack s)) l ∧
    only_bytes (next_free (stack s)) (Z.of_nat (length l)) (omem s) (omem s')).
Proof.
  intros H Hl Hr. unfold copy_in. rewrite (proj2 (Z.ltb_ge _ _)) by lia. apply wp_on_mem.
  eapply wp_mono; [apply wp_memcpy; [by eapply holds_user|by eapply holds_region]|].
  by intros [] m' [H1 H2].
Qed.

Lemma wp_store_free s fin g n v :
  holds s fin g → next_free (stack s) + Z.of_nat n ≤ chunk_limit (stack s) →
  wp (store_int host n (next_free (stack s)) v) (omem s) (λ _ m', ∀ h',
    same_stack (with_next_free (next_free (stack s) + Z.of_nat n) (stack s)) h' →
    holds (OState h' m') fin (g ++ bytes_in host n v)).
Proof.
  intros H Hr. eapply wp_mono; [apply wp_store_region; by eapply holds_region|].
  intros [] m' [H1 H2] h' Hh.
  eapply (holds_written s fin g); rewrite ?length_bytes_in; try done.
Qed.

(** A block of the user's memory, appended. *)
Lemma holds_copied s s' h' fin g l :
  holds s fin g → next_free (stack s) + Z.of_nat (length l) ≤ chunk_limit (stack s) →
  bytes_at (omem s') (next_free (stack s)) l →
  only_bytes (next_free (stack s)) (Z.of_nat (length l)) (omem s) (omem s') →
  same_stack (with_next_free (next_free (stack s) + Z.of_nat (length l)) (stack s)) h' →
  holds (OState h' (omem s')) fin (g ++ l).
Proof. intros. by eapply holds_written. Qed.

(** Whatever is in the free room becomes part of the object. *)
Lemma holds_blank s fin g n h' :
  holds s fin g → next_free (stack s) + Z.of_nat n ≤ chunk_limit (stack s) →
  same_stack (with_next_free (next_free (stack s) + Z.of_nat n) (stack s)) h' →
  ∃ l, length l = n ∧ holds (OState h' (omem s)) fin (g ++ l).
Proof.
  intros H Hr Hh. destruct (holds_region s fin g n H Hr) as (l & <- & Hl).
  exists l. split; [done|]. by eapply holds_written.
Qed.

(** ** GNU C *)

Lemma gnu_grow s fin g src l :
  holds s fin g → bytes_at m0 src l → Z.of_nat (length l) < 2 ^ 31 →
  wpx (Gnu.obstack_grow src (Z.of_nat (length l))) s (λ _ s', holds s' fin (g ++ l)).
Proof.
  intros H Hl Hn. unfold Gnu.obstack_grow. rewrite swrap_small by lia. owp.
  eapply wp_room_then; [done|lia|rewrite Z.ltb_ge; lia|]. intros s1 H1 Hr1 _. owp.
  eapply wpx_mono; [by eapply wpx_wp, wp_copy_in|]. intros [] s2 (E & Hb & Ho). owp. rewrite E.
  by eapply holds_copied.
Qed.

Lemma gnu_grow0 s fin g src l :
  holds s fin g → bytes_at m0 src l → Z.of_nat (length l) < 2 ^ 31 - 1 →
  wpx (Gnu.obstack_grow0 host src (Z.of_nat (length l))) s (λ _ s', holds s' fin (g ++ l ++ [0])).
Proof.
  intros H Hl Hn. unfold Gnu.obstack_grow0. rewrite swrap_small by lia. owp.
  eapply wp_room_then; [done|lia|rewrite Z.ltb_ge; lia|]. intros s1 H1 Hr1 _. owp.
  eapply wpx_mono; [eapply wpx_wp, wp_copy_in; [done..|lia]|]. intros [] s2 (E & Hb & Ho). owp. rewrite E.
  assert (holds (OState (with_next_free (next_free (stack s1) + Z.of_nat (length l)) (stack s1))
                   (omem s2)) fin (g ++ l)) as H2 by (eapply holds_copied; done || lia).
  eapply wp_mono; [apply (wp_store_free _ _ _ 1 0 H2); cbn; lia|].
  intros [] m' H3. rewrite app_assoc. replace [0] with (bytes_in host 1 0) by by destruct host.
  by apply H3.
Qed.

Lemma wp_1grow_fast s fin g datum :
  holds s fin g → next_free (stack s) + 1 ≤ chunk_limit (stack s) →
  wp (obstack_1grow_fast host datum) s (λ _ s', holds s' fin (g ++ bytes_in host 1 datum)).
Proof.
  intros H Hr. unfold obstack_1grow_fast. owp.
  eapply wp_mono; [by apply (wp_store_free _ _ _ 1 datum H)|]. intros [] m' Hm. by apply Hm.
Qed.

Lemma gnu_1grow s fin g datum :
  holds s fin g →
  wpx (Gnu.obstack_1grow host datum) s (λ _ s', holds s' fin (g ++ bytes_in host 1 datum)).
Proof.
  intros H. unfold Gnu.obstack_1grow. owp.
  eapply wp_room_then; [done|lia|rewrite Z.ltb_ge; lia|]. intros s1 H1 Hr1 _.
  by apply wpx_wp, wp_1grow_fast.
Qed.

Lemma gnu_ptr_grow s fin g datum :
  holds s fin g →
  wpx (Gnu.obstack_ptr_grow host datum) s (λ _ s', holds s' fin (g ++ bytes_in host 8 datum)).
Proof.
  intros H. unfold Gnu.obstack_ptr_grow, Gnu.obstack_ptr_grow_fast, sizeof_pointer. owp.
  eapply wp_room_then; [done|lia|rewrite Z.ltb_ge; lia|]. intros s1 H1 Hr1 _. owp.
  eapply wp_mono; [by apply (wp_store_free _ _ _ 8 datum H1)|]. intros [] m' Hm. owp.
  by apply Hm.
Qed.

Lemma gnu_int_grow s fin g datum :
  holds s fin g →
  wpx (Gnu.obstack_int_grow host datum) s (λ _ s', holds s' fin (g ++ bytes_in host 4 datum)).
Proof.
  intros H. unfold Gnu.obstack_int_grow, Gnu.obstack_int_grow_fast, sizeof_int. owp.
  eapply wp_room_then; [done|lia|rewrite Z.ltb_ge; lia|]. intros s1 H1 Hr1 _. owp.
  eapply wp_mono; [by apply (wp_store_free _ _ _ 4 datum H1)|]. intros [] m' Hm. owp.
  by apply Hm.
Qed.

Lemma gnu_blank_up s fin g n :
  holds s fin g → Z.of_nat n < 2 ^ 31 →
  wpx (Gnu.obstack_blank (Z.of_nat n)) s (λ _ s', ∃ l, length l = n ∧ holds s' fin (g ++ l)).
Proof.
  intros H Hn. unfold Gnu.obstack_blank, obstack_blank_fast. rewrite swrap_small by lia. owp.
  eapply wp_room_then; [done|lia|rewrite Z.ltb_ge; lia|]. intros s1 H1 Hr1 _. owp.
  by eapply holds_blank.
Qed.

Lemma gnu_blank_down s fin g n :
  holds s fin g → (n ≤ length g)%nat → Z.of_nat n < 2 ^ 31 →
  wp (Gnu.obstack_blank (- Z.of_nat n)) s (λ _ s', holds s' fin (take (length g - n) g)).
Proof.
  intros H Hg Hn. pose proof (holds_fits _ _ _ H).
  unfold Gnu.obstack_blank, obstack_blank_fast. rewrite swrap_small by lia. owp.
  rewrite (proj2 (Z.ltb_ge _ _)) by lia. owp. by eapply holds_cut.
Qed.

Lemma gnu_make_room s fin g n :
  holds s fin g → 0 ≤ n < 2 ^ 31 →
  wpx (Gnu.obstack_make_room n) s (λ _ s',
    holds s' fin g ∧ next_free (stack s') + n ≤ chunk_limit (stack s')).
Proof.
  intros H Hn. unfold Gnu.obstack_make_room. rewrite swrap_small by lia. owp.
  eapply wpx_mono; [eapply wp_room; [done..|rewrite Z.ltb_ge; lia]|]. by intros [] s' (? & ? & _).
Qed.

(** The two tests of [obstack_finish], and what the fields are then. *)
Ltac finish_cases s :=
  destruct (next_free (stack s) =? object_base (stack s)) eqn:?; owp;
  cbn [stack omem with_next_free with_maybe_empty with_temp with_object_base chunk chunk_limit
       next_free object_base alignment_mask maybe_empty_object temp];
  destruct (chunk_limit (stack s) - chunk (stack s) <?
    __PTR_ALIGN (object_base (stack s)) (next_free (stack s)) (alignment_mask (stack s))
      - chunk (stack s)) eqn:?; owp;
  eapply holds_finished; try done; cbn; unfold end_of;
  repeat match goal with E : _ = true |- _ => rewrite E | E : _ = false |- _ => rewrite E end; done.

Lemma gnu_finish s fin g :
  holds s fin g → wp Gnu.obstack_finish s (λ p s', holds s' ((p, g) :: fin) []).
Proof. intros H. unfold Gnu.obstack_finish. owp. finish_cases s. Qed.

Lemma gnu_free s newer p l older g :
  holds s (newer ++ (p, l) :: older) g →
  wp (Gnu.obstack_free p) s (λ _ s', holds s' older []).
Proof.
  intros H. unfold Gnu.obstack_free. owp.
  destruct (Z.ltb_spec (chunk (stack s)) p) as [H1|H1]; cbn [andb]; [|by eapply holds_back_far].
  destruct (Z.ltb_spec p (chunk_limit (stack s))) as [H2|H2]; [|by eapply holds_back_far]. owp.
  by eapply holds_back_here.
Qed.

Lemma gnu_size s fin g :
  holds s fin g → Z.of_nat (length g) < 2 ^ 32 →
  wp Gnu.obstack_object_size s (λ n s', n = Z.of_nat (length g) ∧ s' = s).
Proof.
  intros H Hg. pose proof (holds_fits _ _ _ H). unfold Gnu.obstack_object_size. owp.
  rewrite uwrap_small by lia. split; [lia|done].
Qed.

Lemma gnu_empty_p s fin g :
  holds s fin g →
  wp (Gnu.obstack_empty_p host) s (λ e s', s' = s ∧
    (e = true → g = [] ∧ Forall (λ o : object, o.2 = []) fin)).
Proof.
  intros H. unfold Gnu.obstack_empty_p. owp.
  eapply wp_mono; [by eapply holds_empty|]. intros v m' [-> Hv]. owp. split; [by destruct s|].
  rewrite andb_true_iff, !Z.eqb_eq. tauto.
Qed.

(** A macro that grows the object and then finishes it. *)
Lemma wpx_alloc (blank : M ostate unit) finish s fin g n :
  wpx blank s (λ _ s', ∃ l, length l = n ∧ holds s' fin (g ++ l)) →
  (∀ s g, holds s fin g → wp finish s (λ p s', holds s' ((p, g) :: fin) [])) →
  wpx (blank;; finish) s (λ p s', ∃ l, length l = n ∧ holds s' ((p, g ++ l) :: fin) []).
Proof.
  intros Hb Hf. apply wpx_bind. eapply wpx_mono; [exact Hb|]. intros [] s1 (l & Hl & H1).
  apply wpx_wp. eapply wp_mono; [by apply Hf|]. eauto.
Qed.

Lemma wpx_copy (grow : M ostate unit) finish s fin g :
  wpx grow s (λ _ s', holds s' fin g) →
  (∀ s g, holds s fin g → wp finish s (λ p s', holds s' ((p, g) :: fin) [])) →
  wpx (grow;; finish) s (λ p s', holds s' ((p, g) :: fin) []).
Proof.
  intros Hg Hf. apply wpx_bind. eapply wpx_mono; [exact Hg|]. intros [] s1 H1.
  by apply wpx_wp, Hf.
Qed.

#[export] Instance gnu_laws : ObstackOpsLaws host m0 (gnu_obstack host).
Proof.
  split.
  - exact gnu_grow.
  - exact gnu_grow0.
  - exact gnu_1grow.
  - exact gnu_ptr_grow.
  - exact gnu_int_grow.
  - exact gnu_blank_up.
  - exact gnu_blank_down.
  - exact gnu_make_room.
  - exact gnu_finish.
  - intros. apply wpx_alloc; [by apply gnu_blank_up|intros; by apply gnu_finish].
  - intros. apply wpx_copy; [by apply gnu_grow|intros; by apply gnu_finish].
  - intros. apply wpx_copy; [by apply gnu_grow0|intros; by apply gnu_finish].
  - exact gnu_free.
  - exact gnu_size.
  - exact gnu_empty_p.
Qed.

(** ** Other compilers *)

(** The state after the length is stored in [temp]. *)
Lemma holds_temp s fin g v :
  holds s fin g → holds (OState (with_temp v (stack s)) (omem s)) fin g.
Proof. intros H. by apply holds_same. Qed.

Lemma portable_grow s fin g src l :
  holds s fin g → bytes_at m0 src l → Z.of_nat (length l) < 2 ^ 31 →
  wpx (Portable.obstack_grow src (Z.of_nat (length l))) s (λ _ s', holds s' fin (g ++ l)).
Proof.
  intros H%(holds_temp _ _ _ (Z.of_nat (length l))) Hl Hn. unfold Portable.obstack_grow. owp.
  cbn [temp with_temp]. rewrite swrap_small by lia.
  eapply wp_room_then; [exact H|lia|cbn; rewrite Z.ltb_ge; lia|]. intros s1 H1 Hr1 Ht. owp.
  cbn in Ht. rewrite Ht.
  eapply wpx_mono; [by eapply wpx_wp, wp_copy_in|]. intros [] s2 (E & Hb & Ho). owp. rewrite E, Ht.
  by eapply holds_copied.
Qed.

Lemma portable_grow0 s fin g src l :
  holds s fin g → bytes_at m0 src l → Z.of_nat (length l) < 2 ^ 31 - 1 →
  wpx (Portable.obstack_grow0 host src (Z.of_nat (length l))) s
    (λ _ s', holds s' fin (g ++ l ++ [0])).
Proof.
  intros H%(holds_temp _ _ _ (Z.of_nat (length l))) Hl Hn. unfold Portable.obstack_grow0. owp.
  cbn [temp with_temp]. rewrite swrap_small by lia.
  eapply wp_room_then; [exact H|lia|cbn; rewrite Z.ltb_ge; lia|]. intros s1 H1 Hr1 Ht. owp.
  cbn in Ht. rewrite Ht.
  eapply wpx_mono; [eapply wpx_wp, wp_copy_in; [done..|lia]|]. intros [] s2 (E & Hb & Ho). owp.
  rewrite E, Ht.
  assert (holds (OState (with_next_free (next_free (stack s1) + Z.of_nat (length l)) (stack s1))
                   (omem s2)) fin (g ++ l)) as H2 by (eapply holds_copied; done || lia).
  eapply wp_mono; [apply (wp_store_free _ _ _ 1 0 H2); cbn; lia|].
  intros [] m' H3. rewrite app_assoc. replace [0] with (bytes_in host 1 0) by by destruct host.
  by apply H3.
Qed.

Lemma portable_ptr_grow s fin g datum :
  holds s fin g →
  wpx (Portable.obstack_ptr_grow host datum) s (λ _ s', holds s' fin (g ++ bytes_in host 8 datum)).
Proof.
  intros H. unfold Portable.obstack_ptr_grow, Portable.obstack_ptr_grow_fast, sizeof_pointer. owp.
  eapply wp_room_then; [done|lia|rewrite Z.ltb_ge; lia|]. intros s1 H1 Hr1 _. owp.
  cbn [next_free with_next_free].
  replace (next_free (stack s1) + 8 + -1 * 8) with (next_free (stack s1)) by lia.
  eapply wp_mono; [by apply (wp_store_free _ _ _ 8 datum H1)|]. intros [] m' Hm. by apply Hm.
Qed.

Lemma portable_int_grow s fin g datum :
  holds s fin g →
  wpx (Portable.obstack_int_grow host datum) s (λ _ s', holds s' fin (g ++ bytes_in host 4 datum)).
Proof.
  intros H. unfold Portable.obstack_int_grow, Portable.obstack_int_grow_fast, sizeof_int. owp.
  eapply wp_room_then; [done|lia|rewrite Z.ltb_ge; lia|]. intros s1 H1 Hr1 _. owp.
  cbn [next_free with_next_free].
  replace (next_free (stack s1) + 4 + -1 * 4) with (next_free (stack s1)) by lia.
  eapply wp_mono; [by apply (wp_store_free _ _ _ 4 datum H1)|]. intros [] m' Hm. by apply Hm.
Qed.

Lemma portable_blank_up s fin g n :
  holds s fin g → Z.of_nat n < 2 ^ 31 →
  wpx (Portable.obstack_blank (Z.of_nat n)) s (λ _ s', ∃ l, length l = n ∧ holds s' fin (g ++ l)).
Proof.
  intros H%(holds_temp _ _ _ (Z.of_nat n)) Hn.
  unfold Portable.obstack_blank, obstack_blank_fast. owp.
  cbn [temp with_temp]. rewrite swrap_small by lia.
  eapply wp_room_then; [exact H|lia|cbn; rewrite Z.ltb_ge; lia|]. intros s1 H1 Hr1 Ht. owp.
  cbn in Ht. rewrite Ht. by eapply holds_blank.
Qed.

Lemma portable_blank_down s fin g n :
  holds s fin g → (n ≤ length g)%nat → Z.of_nat n < 2 ^ 31 →
  wp (Portable.obstack_blank (- Z.of_nat n)) s (λ _ s', holds s' fin (take (length g - n) g)).
Proof.
  intros H Hg Hn. pose proof (holds_fits _ _ _ H).
  unfold Portable.obstack_blank, obstack_blank_fast. owp. cbn [temp with_temp chunk_limit next_free].
  rewrite (proj2 (Z.ltb_ge _ _)) by lia. owp. by eapply holds_cut.
Qed.

Lemma portable_make_room s fin g n :
  holds s fin g → 0 ≤ n < 2 ^ 31 →
  wpx (Portable.obstack_make_room n) s (λ _ s',
    holds s' fin g ∧ next_free (stack s') + n ≤ chunk_limit (stack s')).
Proof.
  intros H%(holds_temp _ _ _ n) Hn. unfold Portable.obstack_make_room. owp.
  cbn [temp with_temp]. rewrite swrap_small by lia.
  eapply wpx_mono; [eapply wp_room; [exact H|done|cbn; rewrite Z.ltb_ge; lia]|].
  by intros [] s' (? & ? & _).
Qed.

Lemma portable_finish s fin g :
  holds s fin g → wp Portable.obstack_finish s (λ p s', holds s' ((p, g) :: fin) []).
Proof. intros H. unfold Portable.obstack_finish. owp. finish_cases s. Qed.

Lemma portable_free s newer p l older g :
  holds s (newer ++ (p, l) :: older) g →
  wp (Portable.obstack_free p) s (λ _ s', holds s' older []).
Proof.
  intros H. pose proof (holds_temp _ _ _ (p - chunk (stack s)) H) as Ht.
  unfold Portable.obstack_free. owp. cbn [temp with_temp chunk chunk_limit].
  replace (p - chunk (stack s) + chunk (stack s)) with p by lia.
  destruct (Z.ltb_spec 0 (p - chunk (stack s))) as [H1|H1]; cbn [andb];
    [|by eapply holds_back_far].
  destruct (Z.ltb_spec (p - chunk (stack s)) (chunk_limit (stack s) - chunk (stack s)))
    as [H2|H2]; [|by eapply holds_back_far]. owp. cbn [temp chunk with_object_base with_temp].
  replace (p - chunk (stack s) + chunk (stack s)) with p by lia.
  eapply holds_back_here; [exact H| |done]. lia.
Qed.

#[export] Instance portable_laws : ObstackOpsLaws host m0 (portable_obstack host).
Proof.
  split.
  - exact portable_grow.
  - exact portable_grow0.
  - exact gnu_1grow.
  - exact portable_ptr_grow.
  - exact portable_int_grow.
  - exact portable_blank_up.
  - exact portable_blank_down.
  - exact portable_make_room.
  - exact portable_finish.
  - intros. apply wpx_alloc; [by apply portable_blank_up|intros; by apply portable_finish].
  - intros. apply wpx_copy; [by apply portable_grow|intros; by apply portable_finish].
  - intros. apply wpx_copy; [by apply portable_grow0|intros; by apply portable_finish].
  - exact portable_free.
  - exact gnu_size.
  - exact gnu_empty_p.
Qed.
End versions.
