(* ===== verification/ObstackTheory.v ===== *)
(** * Object stacks: programs

    Any program that uses an object stack by the rules ([safe]) runs without an error, and
    the objects it finished stay where they are with the bytes that were put into them. *)

From Stdlib Require Import ZArith Lia.
From stdpp Require Import base list gmap numbers.
From S2P Require Import Prelude Bits ByteOrder ByteOrderSpec ByteOrderMem Obstack ObstackSpec ObstackRep.
From S2P Require Import ObstackOpsSpec ObstackVersions.

#[local] Open Scope Z_scope.

(** ** Programs *)

(** A program sees finished objects and the growing one, decides what to do next by the
    results it gets, and reads blocks of its own memory. *)
Inductive command : Type :=
  | Grow (src : Z) (l : list Z)
  | Grow0 (src : Z) (l : list Z)
  | Grow1 (datum : Z)
  | PtrGrow (datum : Z)
  | IntGrow (datum : Z)
  | Blank (n : nat)
  | Shrink (n : nat)
  | MakeRoom (n : nat)
  | Finish
  | Alloc (n : nat)
  | Copy (src : Z) (l : list Z)
  | Copy0 (src : Z) (l : list Z)
  | Free (p : Z)
  | Size.

Inductive client : Type := Done | Do (c : command) (k : Z → client).

Definition perform (ops : ObstackOps) (c : command) : M ostate Z :=
  match c with
  | Grow src l => op_grow src (Z.of_nat (length l));; mret 0
  | Grow0 src l => op_grow0 src (Z.of_nat (length l));; mret 0
  | Grow1 d => op_1grow d;; mret 0
  | PtrGrow d => op_ptr_grow d;; mret 0
  | IntGrow d => op_int_grow d;; mret 0
  | Blank n => op_blank (Z.of_nat n);; mret 0
  | Shrink n => op_blank (- Z.of_nat n);; mret 0
  | MakeRoom n => op_make_room (Z.of_nat n);; mret 0
  | Finish => op_finish
  | Alloc n => op_alloc (Z.of_nat n)
  | Copy src l => op_copy src (Z.of_nat (length l))
  | Copy0 src l => op_copy0 src (Z.of_nat (length l))
  | Free p => op_free p;; mret 0
  | Size => op_object_size
  end.

Fixpoint run (ops : ObstackOps) (p : client) : M ostate unit :=
  match p with Done => mret tt | Do c k => r ← perform ops c; run ops (k r) end.

(** ** What they mean *)

(** The finished objects, the newest first, and the growing one. *)
Abbreviation view := (list object * list Z)%type.

(** Back to before the newest object at [p]. *)
Fixpoint drop_to (p : Z) (fin : list object) : list object :=
  match fin with [] => [] | o :: fin => if o.1 =? p then fin else drop_to p fin end.

Section meaning.
Context (host : order).

Definition allowed (m0 : bmem) (v : view) (c : command) : Prop :=
  match c with
  | Grow src l | Copy src l => bytes_at m0 src l ∧ Z.of_nat (length l) < 2 ^ 31
  | Grow0 src l | Copy0 src l => bytes_at m0 src l ∧ Z.of_nat (length l) < 2 ^ 31 - 1
  | Blank n | Alloc n | MakeRoom n => Z.of_nat n < 2 ^ 31
  | Shrink n => (n ≤ length v.2)%nat ∧ Z.of_nat n < 2 ^ 31
  | Free p => p ∈ v.1.*1
  | Size => Z.of_nat (length v.2) < 2 ^ 32
  | _ => True
  end.

Definition step (c : command) (v : view) (r : Z) (v' : view) : Prop :=
  match c with
  | Grow _ l => v' = (v.1, v.2 ++ l)
  | Grow0 _ l => v' = (v.1, v.2 ++ l ++ [0])
  | Grow1 d => v' = (v.1, v.2 ++ bytes_in host 1 d)
  | PtrGrow d => v' = (v.1, v.2 ++ bytes_in host 8 d)
  | IntGrow d => v' = (v.1, v.2 ++ bytes_in host 4 d)
  | Blank n => ∃ l, length l = n ∧ v' = (v.1, v.2 ++ l)
  | Shrink n => v' = (v.1, take (length v.2 - n) v.2)
  | MakeRoom _ => v' = v
  | Finish => v' = ((r, v.2) :: v.1, [])
  | Alloc n => ∃ l, length l = n ∧ v' = ((r, v.2 ++ l) :: v.1, [])
  | Copy _ l => v' = ((r, v.2 ++ l) :: v.1, [])
  | Copy0 _ l => v' = ((r, v.2 ++ l ++ [0]) :: v.1, [])
  | Free p => v' = (drop_to p v.1, [])
  | Size => r = Z.of_nat (length v.2) ∧ v' = v
  end.

Fixpoint safe (m0 : bmem) (v : view) (p : client) : Prop :=
  match p with
  | Done => True
  | Do c k => allowed m0 v c ∧ ∀ r v', step c v r v' → safe m0 v' (k r)
  end.

Fixpoint yields (v : view) (p : client) (v' : view) : Prop :=
  match p with Done => v' = v | Do c k => ∃ r v1, step c v r v1 ∧ yields v1 (k r) v' end.
End meaning.

(** ** What stands in memory *)

Definition disjoint (o o' : object) : Prop := o.1 + osize o ≤ o'.1 ∨ o'.1 + osize o' ≤ o.1.
Fixpoint separate (os : list object) : Prop :=
  match os with [] => True | o :: os => Forall (disjoint o) os ∧ separate os end.

Record stands (m0 : bmem) (v : view) (s : ostate) : Prop := {
  sd_user : m0 ⊆ omem s;
  sd_objects : Forall (λ o, bytes_at (omem s) o.1 o.2) v.1;
  sd_growing : bytes_at (omem s) (object_base (stack s)) v.2;
  sd_end : next_free (stack s) = object_base (stack s) + Z.of_nat (length v.2);
  sd_separate : separate ((object_base (stack s), v.2) :: v.1);
  sd_foreign : Forall (λ o, ∀ a, o.1 ≤ a < o.1 + osize o → m0 !! a = None) v.1;
  sd_aligned : Forall (λ o, o.2 ≠ [] → o.1 mod (alignment_mask (stack s) + 1) = 0) v.1 }.

Lemma disjoint_sym o o' : disjoint o o' → disjoint o' o.
Proof. unfold disjoint. tauto. Qed.

Lemma separate_app os os' :
  separate os → separate os' → (∀ o o', o ∈ os → o' ∈ os' → disjoint o o') → separate (os ++ os').
Proof.
  induction os as [|o os IH]; [done|]. intros [H1 H2] H3 H4. cbn [app separate]. split.
  - apply Forall_app. split; [done|]. apply list.Forall_forall. intros o' Ho'.
    apply H4; [rewrite elem_of_cons; tauto|done].
  - apply IH; [done..|]. intros o1 o2 Ho1 Ho2. apply H4; [rewrite elem_of_cons; tauto|done].
Qed.

Lemma stacked_separate lo top os : stacked lo top os → separate os.
Proof.
  revert top. induction os as [|o os IH]; intros top; [done|]. intros [H1 H2]. split; [|by eapply IH].
  apply list.Forall_forall. intros o' Ho'. pose proof (stacked_elem _ _ _ _ H2 Ho').
  right. lia.
Qed.

(** Objects in chunks that are apart. *)
Lemma blocks_separate (bs : list block) :
  all_apart (b_chunk <$> bs) →
  Forall (λ b, ∃ lo top, (b_chunk b).1 ≤ lo ∧ top ≤ (b_chunk b).2 ∧ stacked lo top (b_objs b)) bs →
  separate (objects bs).
Proof.
  unfold objects. induction bs as [|b bs IH]; cbn [fmap list_fmap all_apart concat]; [done|].
  intros [Ha1 Ha2] [(lo & top & Hlo & Htop & Hs) Hbs]%Forall_cons_1.
  apply separate_app; [by eapply stacked_separate|by apply IH|].
  intros o o' Ho (b' & Hb' & Ho')%elem_of_objects.
  rewrite list.Forall_forall in Ha1. rewrite list.Forall_forall in Hbs.
  destruct (Hbs _ Hb') as (lo' & top' & Hlo' & Htop' & Hs').
  pose proof (stacked_elem _ _ _ _ Hs Ho) as [H1 H2].
  pose proof (stacked_elem _ _ _ _ Hs' Ho') as [H3 H4].
  destruct (Ha1 (b_chunk b')) as [H|H]; [apply list_elem_of_fmap; by exists b'|left; lia|right; lia].
Qed.

Section stands.
Context {host : order} {m0 : bmem} {k : Z} {s : ostate} {b : block} {bs : list block}
  {g : list Z} (R : rep host m0 k s b bs g).

Lemma rep_separate : separate ((object_base (stack s), g) :: objects (b :: bs)).
Proof.
  pose proof (rep_first R) as Hf. pose proof (rep_bounds R) as Hb.
  pose proof (r_mask _ _ _ _ _ _ _ R) as [Hk _]. pose proof (r_free _ _ _ _ _ _ _ R) as Hg.
  apply (blocks_separate (Block (b_chunk b) ((object_base (stack s), g) :: b_objs b) :: bs)).
  { apply R. }
  constructor; cbn [b_chunk b_objs].
  - exists (first_of k (b_chunk b).1), (next_free (stack s)).
    split; [lia|]. split; [lia|]. split; [unfold osize; cbn [fst snd]; lia|apply R].
  - eapply Forall_impl; [|apply R]. cbn. intros b' Hs. do 2 eexists. split_and!; [|done|exact Hs].
    pose proof (first_of_spec k (b_chunk b').1 Hk). lia.
Qed.

Lemma rep_foreign :
  Forall (λ o, ∀ a, o.1 ≤ a < o.1 + osize o → m0 !! a = None) (objects (b :: bs)).
Proof.
  apply list.Forall_forall. intros o Ho a Ha. destruct (m0 !! a) as [v|] eqn:E; [|done].
  exfalso. pose proof (r_foreign _ _ _ _ _ _ _ R) as Hfo. rewrite list.Forall_forall in Hfo.
  pose proof (rep_first R) as Hf. pose proof (rep_bounds R) as Hb.
  destruct (rep_object R o Ho) as [(H1 & H2 & _)|(b' & Hb' & H1 & H2 & _)].
  - rewrite (Hfo (b_chunk b)) in E; [done|cbn; rewrite elem_of_cons; tauto|lia].
  - rewrite (Hfo (b_chunk b')) in E; [done| |lia].
    apply list_elem_of_fmap. exists b'. rewrite elem_of_cons. tauto.
Qed.

Lemma rep_aligned : Forall (λ o, o.2 ≠ [] → o.1 mod 2 ^ k = 0) (objects (b :: bs)).
Proof.
  apply list.Forall_forall. intros o Ho Hne. pose proof (rep_bounds R) as Hb.
  pose proof (r_aligned _ _ _ _ _ _ _ R) as Hal. rewrite list.Forall_forall in Hal.
  assert (∀ b', b' ∈ b :: bs → o ∈ b_objs b' → o.1 + osize o ≤ (b_chunk b').2 →
    o.1 mod 2 ^ k = 0) as Hin.
  { intros b' Hb' Ho' He. specialize (Hal _ Hb'). rewrite list.Forall_forall in Hal.
    destruct (Hal _ Ho') as [?|El]; [done|]. destruct o as [q [|c l]]; [done|].
    unfold osize in He. cbn in He, El. lia. }
  destruct (rep_object R o Ho) as [(H1 & H2 & Hi)|(b' & Hb' & H1 & H2 & Hi)].
  - apply (Hin b); [rewrite elem_of_cons; tauto|done|lia].
  - apply (Hin b'); [rewrite elem_of_cons; tauto|done|lia].
Qed.
End stands.

Lemma holds_stands host m0 s fin g : holds host m0 s fin g → stands m0 (fin, g) s.
Proof.
  intros (k & b & bs & R & ->). pose proof (r_mask _ _ _ _ _ _ _ R) as [Hk Hm].
  split; cbn [fst snd]; try apply R.
  - exact (rep_separate R).
  - exact (rep_foreign R).
  - rewrite Hm. replace (2 ^ k - 1 + 1) with (2 ^ k) by lia. exact (rep_aligned R).
Qed.

(** ** Every step *)

Lemma drop_to_spec p fin :
  p ∈ fin.*1 → ∃ newer l, fin = newer ++ (p, l) :: drop_to p fin.
Proof.
  induction fin as [|[q l] fin IH]; cbn; [intros H; by apply not_elem_of_nil in H|].
  destruct (Z.eqb_spec q p) as [->|Hne]; [by exists [], l|].
  intros [->|H]%elem_of_cons; [done|]. destruct (IH H) as (newer & l' & E).
  exists ((q, l) :: newer), l'. by rewrite E at 1.
Qed.

Section programs.
Context {host : order} {m0 : bmem} {ops : ObstackOps} {laws : ObstackOpsLaws host m0 ops}.

Lemma wpx_then_0 (c : M ostate unit) s (Q : Z → ostate → Prop) :
  wpx c s (λ _ s', Q 0 s') → wpx (c;; mret 0) s Q.
Proof. intros H. apply wpx_bind. eapply wpx_mono; [exact H|]. by intros [] s'. Qed.

(** The law of a macro, and the view after it. *)
Ltac by_law L := eapply wpx_mono; [first [eapply L | eapply wpx_wp, L]; try eassumption; try tauto|].

Lemma request_stands c s v :
  holds host m0 s v.1 v.2 → allowed m0 v c →
  wpx (perform ops c) s (λ r s', ∃ v', step host c v r v' ∧ holds host m0 s' v'.1 v'.2).
Proof.
  destruct v as [fin g]. cbn [fst snd]. intros H Ha.
  destruct c; cbn [perform allowed step fst snd] in *; try apply wpx_then_0.
  - by_law law_grow. intros [] s' H'. by exists (fin, g ++ l).
  - by_law law_grow0. intros [] s' H'. by exists (fin, g ++ l ++ [0]).
  - by_law law_1grow. intros [] s' H'. by exists (fin, g ++ bytes_in host 1 datum).
  - by_law law_ptr_grow. intros [] s' H'. by exists (fin, g ++ bytes_in host 8 datum).
  - by_law law_int_grow. intros [] s' H'. by exists (fin, g ++ bytes_in host 4 datum).
  - by_law law_blank_up. intros [] s' (l & Hl & H'). exists (fin, g ++ l). eauto.
  - by_law law_blank_down. intros [] s' H'. by exists (fin, take (length g - n) g).
  - by_law law_make_room; [lia|]. intros [] s' [H' _]. by exists (fin, g).
  - by_law law_finish. intros p s' H'. by exists ((p, g) :: fin, []).
  - by_law law_alloc. intros p s' (l & Hl & H'). exists ((p, g ++ l) :: fin, []). eauto.
  - by_law law_copy. intros p s' H'. by exists ((p, g ++ l) :: fin, []).
  - by_law law_copy0. intros p s' H'. by exists ((p, g ++ l ++ [0]) :: fin, []).
  - destruct (drop_to_spec p fin Ha) as (newer & l & E). rewrite E in H.
    by_law law_free. intros [] s' H'. by exists (drop_to p fin, []).
  - by_law law_size. intros r s' [-> ->]. by exists (fin, g).
Qed.

Lemma requests_stand p s v :
  holds host m0 s v.1 v.2 → safe host m0 v p →
  wpx (run ops p) s (λ _ s', ∃ v', yields host v p v' ∧ holds host m0 s' v'.1 v'.2).
Proof.
  revert s v. induction p as [|c k IH]; intros s v H Hs; cbn [run safe yields] in *.
  - apply wpx_wp, wp_ret. by exists v.
  - destruct Hs as [Ha Hk]. apply wpx_bind. eapply wpx_mono; [by apply (request_stands c s v)|].
    intros r s1 (v1 & Hv1 & H1). eapply wpx_mono; [by apply (IH r s1 v1); [|apply Hk]|].
    intros [] s2 (v2 & Hv2 & H2). exists v2. split; [by exists r, v1|done].
Qed.
End programs.

(** C11: in both versions of the macros, a program that starts an object stack and uses it
    by the rules never goes wrong: it ends in the failure handler because memory ran out, or at
    its end the objects it finished and did not free are at
    the addresses it was given, with the bytes it put into them, aligned, apart from each
    other and from its own memory, and the growing object ends where the next byte goes. *)
Theorem obstack_objects_stand {api : ObstackApi} (host : order) (gnuc : bool)
    (alloc free : Z) (p : client) (s : ostate) :
  ObstackLaws host → safe host (omem s) ([], []) p →
  wpx (obstack_init alloc free;; run (if gnuc then gnu_obstack host else portable_obstack host) p) s
    (λ _ s', ∃ v, yields host ([], []) p v ∧ stands (omem s) v s').
Proof.
  intros Hlaws Hp. apply wpx_bind. eapply wpx_mono.
  - unfold obstack_init. apply (begin_ok host 0 0); [lia|]. exists 0. split; [lia|by left].
  - intros r s1 (k & new & Hk & _ & V). pose proof (rep_started _ _ _ _ _ Hk V) as R.
    assert (holds host (omem s) s1 [] []) as H1 by by exists k, (Block new []), [].
    assert (ObstackOpsLaws host (omem s) (if gnuc then gnu_obstack host else portable_obstack host))
      as Hops by (destruct gnuc; apply _).
    eapply wpx_mono; [by apply (requests_stand p s1 ([], []) H1)|].
    intros [] s2 ([fin g] & Hv & H2). exists (fin, g). split; [done|]. by eapply holds_stands.
Qed.
