(* ===== verification/ObstackDemo.v ===== *)
(** * Object stacks: a library

    Functions of [obstack.c] that keep [ObstackLaws]: chunks are placed behind all memory in
    use, and nothing is freed.  A program that moves to new chunks and goes back. *)

From Stdlib Require Import ZArith Lia.
From stdpp Require Import base list gmap numbers.
From S2P Require Import Prelude Bits ByteOrder ByteOrderSpec ByteOrderMem Obstack ObstackSpec ObstackRep.
From S2P Require Import ObstackOpsSpec ObstackVersions ObstackTheory.

#[local] Open Scope Z_scope.

(** ** Fresh memory *)

Definition fresh (m : bmem) : Z := align_up 16 (foldr Z.max 0 (map_to_list m).*1 + 1).

Lemma fresh_spec m : 0 < fresh m ∧ ∀ a, fresh m ≤ a → m !! a = None.
Proof.
  unfold fresh. set (t := foldr Z.max 0 (map_to_list m).*1).
  assert (0 ≤ t ∧ ∀ a, a ∈ (map_to_list m).*1 → a ≤ t) as [H0 Ht].
  { subst t. induction (map_to_list m).*1 as [|b l [IH1 IH2]]; cbn [foldr].
    - split; [lia|]. intros a Ha. by apply not_elem_of_nil in Ha.
    - split; [lia|]. intros a [->|Ha]%elem_of_cons; [lia|]. specialize (IH2 a Ha). lia. }
  destruct (align_up_spec 16 (t + 1)) as [_ Hal]; [lia|]. split; [lia|].
  intros a Ha. destruct (m !! a) as [v|] eqn:E; [|done].
  assert (a ≤ t); [|lia]. apply Ht, list_elem_of_fmap. exists (a, v). split; [done|].
  by apply elem_of_map_to_list.
Qed.

Fixpoint put (m : bmem) (p : Z) (l : list Z) : bmem :=
  match l with [] => m | b :: l => <[p := b]> (put m (p + 1) l) end.

Lemma put_only m p l : only_bytes p (Z.of_nat (length l)) m (put m p l).
Proof.
  revert p. induction l as [|b l IH]; intros p a Ha; [done|]. cbn [length put] in *.
  rewrite lookup_insert_ne by lia. apply IH. lia.
Qed.

Lemma put_bytes m p l : bytes_at (put m p l) p l.
Proof.
  revert p. induction l as [|b l IH]; intros p; [done|]. cbn [put]. split.
  - apply lookup_insert_eq.
  - eapply bytes_at_ext; [apply IH|]. intros a Ha. rewrite lookup_insert_ne; [done|lia].
Qed.

(** ** The functions *)

Section library.
Context (host : order).

(** A chunk with its header and [content] as the growing object, and [spare] bytes. *)
Definition chunk_bytes (c prev first spare : Z) (content : list Z) : list Z :=
  bytes_in host 8 (first + Z.of_nat (length content) + spare) ++ bytes_in host 8 prev ++
  replicate (Z.to_nat (first - (c + 16))) 0 ++ content ++ replicate (Z.to_nat spare) 0.

Definition new_chunk (mask prev spare : Z) (content : list Z) (h : obstack) : M ostate unit :=
  s ← mget;
  let c := fresh (omem s) in
  let first := __PTR_ALIGN c (contents_of c) mask in
  let free := first + Z.of_nat (length content) in
  if 2 ^ 64 <=? free + spare then mub Terminated
  else mmodify (λ _, OState
    (Obstack (chunk_size h) c first free (free + spare) (temp h) mask (chunkfun h) (freefun h)
       (extra_arg h) (use_extra_arg h) false (alloc_failed h))
    (put (omem s) c (chunk_bytes c prev first spare content))).

Definition lib_newchunk (len : Z) : M ostate unit :=
  s ← mget; let h := stack s in
  obj ← on_mem (read_bytes (Z.to_nat (next_free h - object_base h)) (object_base h));
  new_chunk (alignment_mask h) (chunk h) (len + 100) obj h.

Definition lib_begin (size alignment chunkfun freefun : Z) : M ostate Z :=
  s ← mget;
  new_chunk (if alignment =? 0 then 15 else alignment - 1) 0 (size + 100) [] (stack s);; mret 1.

(** [while (lp != 0 && (lp >= obj || lp->limit < obj))]. *)
Fixpoint free_loop (fuel : nat) (lp obj : Z) : M ostate unit :=
  match fuel with
  | O => λ _, OutOfFuel
  | S fuel =>
    if lp =? 0 then mub Terminated
    else
      lim ← on_mem (load_int host 8 (limit_at lp));
      if (obj <=? lp) || (lim <? obj) then
        prev ← on_mem (load_int host 8 (prev_at lp));
        oset (with_maybe_empty true);; free_loop fuel prev obj
      else
        oset (λ h, Obstack (chunk_size h) lp obj obj lim (temp h) (alignment_mask h) (chunkfun h)
          (freefun h) (extra_arg h) (use_extra_arg h) (maybe_empty_object h) (alloc_failed h))
  end.

Definition lib_free (obj : Z) : M ostate unit :=
  s ← mget; free_loop (S (size (omem s))) (chunk (stack s)) obj.

#[local] Instance library : ObstackApi := {
  _obstack_newchunk := lib_newchunk;
  __obstack_free := lib_free;
  _obstack_begin := lib_begin;
  _obstack_begin_1 size alignment chunkfun freefun arg := lib_begin size alignment chunkfun freefun;
  _obstack_memory_used := s ← mget; mret (Z.of_nat (size (omem s))) }.

(** ** A new chunk *)

Lemma length_chunk_bytes c prev k spare content :
  0 ≤ k → 0 ≤ spare →
  Z.of_nat (length (chunk_bytes c prev (first_of k c) spare content)) =
  first_of k c + Z.of_nat (length content) + spare - c.
Proof.
  intros Hk Hs. pose proof (first_of_spec k c Hk) as [Hf _]. unfold chunk_bytes.
  rewrite !length_app, !length_bytes_in, !length_replicate. lia.
Qed.

(** What [new_chunk] leaves behind. *)
Record placed (k prev spare : Z) (content : list Z) (h : obstack) (c : Z) (s s' : ostate) : Prop := {
  pl_fresh : 0 < c ∧ absent (omem s) (c, first_of k c + Z.of_nat (length content) + spare);
  pl_room : first_of k c + Z.of_nat (length content) + spare < 2 ^ 64;
  pl_stack : stack s' = Obstack (chunk_size h) c (first_of k c)
    (first_of k c + Z.of_nat (length content))
    (first_of k c + Z.of_nat (length content) + spare) (temp h) (2 ^ k - 1) (chunkfun h)
    (freefun h) (extra_arg h) (use_extra_arg h) false (alloc_failed h);
  pl_rest : ∀ a, outside (c, first_of k c + Z.of_nat (length content) + spare) a →
    omem s' !! a = omem s !! a;
  pl_present : present (omem s') (c, first_of k c + Z.of_nat (length content) + spare);
  pl_limit : bytes_at (omem s') (limit_at c)
    (bytes_in host 8 (first_of k c + Z.of_nat (length content) + spare));
  pl_prev : bytes_at (omem s') (prev_at c) (bytes_in host 8 prev);
  pl_content : bytes_at (omem s') (first_of k c) content }.

Lemma new_chunk_ok k prev spare content h s :
  0 ≤ k → 0 ≤ spare →
  wpx (new_chunk (2 ^ k - 1) prev spare content h) s (λ _ s', ∃ c,
    placed k prev spare content h c s s').
Proof.
  intros Hk Hs. unfold new_chunk. apply wpx_bind, wpx_wp, wp_get.
  set (c := fresh (omem s)). fold (first_of k c).
  destruct (Z.leb_spec (2 ^ 64) (first_of k c + Z.of_nat (length content) + spare)); [done|].
  apply wpx_wp, wp_modify. exists c.
  destruct (fresh_spec (omem s)) as [Hpos Hfresh]. fold c in Hpos, Hfresh.
  pose proof (first_of_spec k c Hk) as [Hf _].
  pose proof (length_chunk_bytes c prev k spare content Hk Hs) as Hlen.
  pose proof (put_bytes (omem s) c (chunk_bytes c prev (first_of k c) spare content)) as Hput.
  pose proof (put_only (omem s) c (chunk_bytes c prev (first_of k c) spare content)) as Honly.
  pose proof (λ a, bytes_at_is_Some _ _ _ a Hput) as Hpres.
  rewrite Hlen in Honly, Hpres.
  split; cbn [omem stack]; try done.
  - split; [done|]. intros a Ha. apply Hfresh. cbn in Ha. lia.
  - intros a Ha. apply Honly. unfold outside in Ha. cbn in Ha. lia.
  - intros a Ha. apply Hpres. cbn in Ha. lia.
  - unfold chunk_bytes in Hput. by apply bytes_at_app in Hput as [Hput _].
  - unfold chunk_bytes in Hput. apply bytes_at_app in Hput as [_ Hput].
    rewrite length_bytes_in in Hput. by apply bytes_at_app in Hput as [Hput _].
  - unfold chunk_bytes in Hput. apply bytes_at_app in Hput as [_ Hput].
    rewrite length_bytes_in in Hput. apply bytes_at_app in Hput as [_ Hput].
    rewrite length_bytes_in in Hput. apply bytes_at_app in Hput as [_ Hput].
    rewrite length_replicate in Hput. apply bytes_at_app in Hput as [Hput _].
    assert (c + Z.of_nat 8 + Z.of_nat 8 + Z.of_nat (Z.to_nat (first_of k c - (c + 16)))
            = first_of k c) as E by lia.
    by rewrite E in Hput.
Qed.

(** Memory in use is outside a fresh chunk. *)
Lemma fresh_outside m c a : absent m c → is_Some (m !! a) → outside c a.
Proof.
  intros Hc Ha. unfold outside. destruct (Z.ltb_spec a c.1); [by left|].
  destruct (Z.leb_spec c.2 a); [by right|]. rewrite Hc in Ha by lia. by destruct Ha.
Qed.

Lemma lib_newchunk_ok k len old cs s :
  0 ≤ k → 0 ≤ len < 2 ^ 31 → alignment_mask (stack s) = 2 ^ k - 1 →
  chain host (omem s) (chunk (stack s)) (old :: cs) →
  first_of k old.1 ≤ object_base (stack s) ≤ next_free (stack s) →
  next_free (stack s) ≤ old.2 →
  wpx (lib_newchunk len) s (λ _ s', ∃ keep new, moved host k len old cs keep new s s').
Proof.
  intros Hk Hlen Hm Hch Hb Hn. pose proof Hch as (Hold & Hpos & Hlim & Hpres & _).
  pose proof (first_of_spec k old.1 Hk) as [Hf _].
  destruct (present_region (omem s) old (object_base (stack s))
    (Z.to_nat (next_free (stack s) - object_base (stack s)))) as (obj & Hl & Hobj); [done|lia..|].
  unfold lib_newchunk. apply wpx_bind, wpx_wp, wp_get. cbn beta zeta. apply wpx_bind, wpx_on_mem.
  rewrite <- Hl. eapply wp_mono; [by apply wp_read_bytes|]. intros l m' [-> ->].
  replace (OState (stack s) (omem s)) with s by by destruct s.
  rewrite Hm. eapply wpx_mono; [apply new_chunk_ok; lia|].
  intros [] s' (c & [P1 P2 P3 P4 P5 P6 P7 P8]). exists true.
  exists (c, first_of k c + Z.of_nat (length obj) + (len + 100)).
  pose proof (first_of_spec k c Hk) as [Hc _].
  split; rewrite ?P3; cbn [fst snd chunk chunk_limit alignment_mask temp object_base next_free];
    try done; try lia.
  - cbn [chain fst snd]. split; [done|]. split; [tauto|]. split; [lia|]. split; [done|].
    split; [done|]. exists (chunk (stack s)). split; [done|]. split; [lia|].
    change (chain host (omem s') (chunk (stack s)) (old :: cs)).
    apply (chain_same (omem s)); [done|]. intros d a Hd Ha. apply P4.
    eapply fresh_outside; [apply P1|]. destruct (chain_elem _ _ _ _ Hch Hd) as (_ & _ & Hp).
    by apply Hp.
  - intros l Hl1 Hl2. assert (l = obj) as ->; [|done].
    eapply bytes_at_inj; [exact Hl1|exact Hobj|lia].
  - apply P1.
  - intros a Ha _. by apply P4.
Qed.

Lemma lib_begin_ok size alignment chunkfun freefun s :
  0 ≤ size < 2 ^ 31 → (∃ k, 0 ≤ k < 31 ∧ wanted_alignment alignment k) →
  wpx (lib_begin size alignment chunkfun freefun) s (λ _ s',
    ∃ k new, 0 ≤ k ∧ wanted_alignment alignment k ∧ started host k new s s').
Proof.
  intros Hs (k0 & Hk0 & Hal).
  assert (∃ k, 0 ≤ k ∧ wanted_alignment alignment k ∧
    (if alignment =? 0 then 15 else alignment - 1) = 2 ^ k - 1) as (k & Hk & Hw & E).
  { destruct (Z.eqb_spec alignment 0) as [->|Hne].
    - exists 4. split_and!; [lia|by left|done].
    - exists k0. destruct Hal as [?|E]; [done|]. split_and!; [lia|by right|by rewrite E]. }
  unfold lib_begin. apply wpx_bind, wpx_wp, wp_get. rewrite E. apply wpx_bind.
  eapply wpx_mono; [apply new_chunk_ok; lia|]. intros [] s' (c & [P1 P2 P3 P4 P5 P6 P7 P8]).
  apply wpx_wp, wp_ret. exists k, (c, first_of k c + Z.of_nat (length (@nil Z)) + (size + 100)).
  pose proof (first_of_spec k c Hk) as [Hc _].
  split; [done|]. split; [done|].
  split; rewrite ?P3; cbn [fst snd chunk chunk_limit alignment_mask temp object_base next_free length];
    try done; try lia.
  - cbn [chain fst snd]. split; [done|]. split; [tauto|]. split; [cbn [length]; lia|]. split; [done|].
    split; [done|]. exists 0. split; [done|]. split; [lia|done].
  - apply P1.
Qed.

(** The walk needs one step more than there are chunks, and memory has a byte of each. *)
Lemma chain_length m p cs : chain host m p cs → all_apart cs → (length cs ≤ size m)%nat.
Proof.
  intros Hch Hap.
  assert (NoDup cs.*1) as Hnd.
  { assert (∀ c, c ∈ cs → c.1 < c.2) as Hne.
    { intros c Hc. destruct (chain_elem _ _ _ _ Hch Hc). lia. }
    clear Hch. induction cs as [|c cs IH]; [constructor|]. destruct Hap as [Ha Hap].
    cbn. constructor.
    - intros (d & Ed & Hd)%list_elem_of_fmap. rewrite list.Forall_forall in Ha.
      pose proof (Ha d Hd) as Hd'. unfold apart in Hd'.
      assert (c.1 < c.2) by (apply Hne; rewrite elem_of_cons; tauto).
      assert (d.1 < d.2) by (apply Hne; rewrite elem_of_cons; tauto). lia.
    - apply IH; [done|]. intros d Hd. apply Hne. rewrite elem_of_cons. tauto. }
  rewrite <- (length_fmap fst), <- (size_list_to_set (C := gset Z)) by done.
  rewrite <- (size_dom (D := gset Z)). apply subseteq_size. intros a Ha.
  apply elem_of_list_to_set, list_elem_of_fmap in Ha as (c & -> & Hc).
  destruct (chain_elem _ _ _ _ Hch Hc) as (_ & Hlim & Hp). apply elem_of_dom, Hp. lia.
Qed.

(** Walking up to the chunk of an object. *)
Lemma free_loop_ok obj gone c cs p s fuel :
  chain host (omem s) p (gone ++ c :: cs) → (length gone < fuel)%nat →
  Forall (λ g, ¬ g.1 < obj ≤ g.2) gone → c.1 < obj ≤ c.2 →
  wp (free_loop fuel p obj) s (λ _ s', released obj gone c s s').
Proof.
  revert p s fuel. induction gone as [|d gone IH]; intros p s [|fuel] Hch Hf Hg Hc;
    cbn [length app] in *; try lia; cbn [free_loop].
  - destruct Hch as (-> & Hpos & Hlim & _ & Hl & _).
    rewrite (proj2 (Z.eqb_neq _ _)) by lia. owp.
    eapply wp_mono; [by eapply wp_load_int|]. intros v m' [-> ->].
    rewrite of_bytes_in_bytes, Z.mod_small by (change (8 * Z.of_nat 8) with 64; lia).
    replace (OState (stack s) (omem s)) with s by by destruct s.
    rewrite (proj2 (Z.leb_gt _ _)), (proj2 (Z.ltb_ge _ _)) by lia. cbn [orb]. owp.
    split; cbn; try done.
  - destruct Hch as (-> & Hpos & Hlim & _ & Hl & q & Hq & Hqr & Hch).
    apply Forall_cons_1 in Hg as [Hd Hg].
    rewrite (proj2 (Z.eqb_neq _ _)) by lia. owp.
    eapply wp_mono; [by eapply wp_load_int|]. intros v m' [-> ->].
    rewrite of_bytes_in_bytes, Z.mod_small by (change (8 * Z.of_nat 8) with 64; lia).
    replace (OState (stack s) (omem s)) with s by by destruct s.
    replace ((obj <=? d.1) || (d.2 <? obj)) with true
      by (symmetry; apply orb_true_iff; rewrite Z.leb_le, Z.ltb_lt; lia). owp.
    eapply wp_mono; [by eapply wp_load_int|]. intros v m' [-> ->].
    rewrite of_bytes_in_bytes, Z.mod_small by done. owp.
    eapply wp_mono; [apply IH; [done|lia|done..]|]. intros [] s' V.
    destruct V as [V1 V2 V3 V4 V5 V6 V7]. split; try done.
    + intros Hm. by apply V6 in Hm as [_ Hm].
    + intros a Ha. apply Forall_cons_1 in Ha as [_ Ha]. by rewrite V7.
Qed.

#[local] Instance library_laws : ObstackLaws host.
Proof.
  split.
  - intros. by apply lib_newchunk_ok.
  - intros obj gone c cs s Hch Hap Hg Hc. unfold __obstack_free, library, lib_free. owp.
    apply wp_get. apply (free_loop_ok obj gone c cs); try done.
    pose proof (chain_length _ _ _ Hch Hap) as Hl. rewrite length_app in Hl. cbn in Hl. lia.
  - apply lib_begin_ok.
Qed.
End library.

(** ** A program *)

Definition demo_state : ostate :=
  OState (Obstack 0 0 0 0 0 0 0 0 0 0 false false false) {[ 100 := 104; 101 := 105 ]}.

(** It finishes a word, copies another, fills more than the first chunk holds, and goes back
    to the second word. *)
Definition demo_client : client :=
  Do (Grow 100 [104; 105]) (λ _, Do (Grow1 33) (λ _, Do Finish (λ _,
  Do (Copy0 100 [104; 105]) (λ q, Do (IntGrow 7) (λ _, Do (Blank 200) (λ _, Do (Shrink 100) (λ _,
  Do Finish (λ _, Do (Alloc 3) (λ _, Do (Free q) (λ _, Do (PtrGrow 513) (λ _, Done))))))))))).

Lemma demo_safe host : safe host (omem demo_state) ([], []) demo_client.
Proof.
  assert (bytes_at (omem demo_state) 100 [104; 105]) as Hsrc by done.
  cbn [safe demo_client allowed]. split; [done|]. intros z1 v1 E; cbn in E; subst v1.
  cbn [fst snd app]. split; [done|]. intros z2 v2 E; cbn in E; subst v2.
  cbn [fst snd app]. split; [done|]. intros w1 v3 E; cbn in E; subst v3.
  cbn [fst snd app]. split; [done|]. intros w2 v4 E; cbn in E; subst v4.
  cbn [fst snd app]. split; [done|]. intros z3 v5 E; cbn in E; subst v5.
  cbn [fst snd app]. split; [done|]. intros z4 v6 (l & Hl & ->).
  cbn [fst snd app]. split; [rewrite length_app; lia|]. intros z5 v7 E; cbn [step] in E; subst v7.
  cbn [fst snd]. split; [done|]. intros w3 v8 E; cbn [step] in E; subst v8.
  cbn [fst snd]. split; [done|]. intros w4 v9 (l' & Hl' & ->).
  cbn [fst snd fmap list_fmap]. split; [rewrite !elem_of_cons; by auto|].
  intros z6 v10 E; cbn [step] in E; subst v10. by split.
Qed.

Definition demo_run (gnuc : bool) : outcome (unit * ostate) :=
  (obstack_init (api := library Little) 0 0;;
   run (if gnuc then gnu_obstack (api := library Little) Little
        else portable_obstack (api := library Little) Little) demo_client) demo_state.

(** What there is at the end: the first word at 128, and a growing pointer at 144. *)
Definition demo_end (o : outcome (unit * ostate)) : bool :=
  match o with
  | Ret (_, s) =>
      bool_decide ((λ a, omem s !! a) <$> [128; 129; 130] = [Some 104; Some 105; Some 33]) &&
      bool_decide ((λ a, omem s !! a) <$> [144; 145; 146] = [Some 1; Some 2; Some 0]) &&
      (object_base (stack s) =? 144) && (next_free (stack s) =? 152)
  | _ => false
  end.

Lemma obstack_objects_stand_witness :
  (wpx (obstack_init (api := library Little) 0 0;;
        run (gnu_obstack (api := library Little) Little) demo_client) demo_state
     (λ _ s', ∃ v, yields Little ([], []) demo_client v ∧ stands (omem demo_state) v s')) ∧
  demo_end (demo_run true) = true ∧ demo_end (demo_run false) = true.
Proof.
  split; [|split; vm_compute; reflexivity].
  apply (obstack_objects_stand (api := library Little) Little true 0 0 demo_client demo_state);
    [apply library_laws|apply demo_safe].
Defined.
