(* ===== verification/RecordWalk.v ===== *)
(** * Buffers of records

    What the macros for stepping through a buffer have in common ([Records], [RecordsLaws]):
    a record starts with its length, the next one is aligned.  Against this interface: the
    loop that every reader writes never leaves the buffer, whatever the buffer holds, and
    finds all records of a buffer that was laid out by the macros. *)

From Stdlib Require Import ZArith Lia.
From stdpp Require Import base list gmap numbers.
From S2P Require Import Prelude Bits ByteOrder ByteOrderSpec ByteOrderMem.

#[local] Open Scope Z_scope.

(** The operations; [rc_left] bounds the bytes that [rc_ok] may touch behind the buffer. *)
Class Records : Type := {
  rc_host : order;
  rc_width : nat;
  rc_header : Z;
  rc_left : Z;
  rc_len : Z → M bmem Z;
  rc_ok : Z → Z → M bmem bool;
  rc_next : Z → Z → M bmem (Z * Z);
  rc_length : Z → Z;
  rc_space : Z → Z;
  rc_data : Z → Z;
  rc_payload : Z → M bmem Z }.

Definition bytes_ok (m : bmem) : Prop := map_Forall (λ _ b, 0 ≤ b < 256) m.

Class RecordsLaws (R : Records) : Prop := {
  rl_header : 4 ≤ rc_header ≤ 16 ∧ 0 ≤ rc_left;
  rl_width : (2 ≤ rc_width ≤ 4)%nat;
  rl_field : ∀ p, rc_len p = load_int rc_host rc_width p;
  rl_length : ∀ n, 0 ≤ n < 2 ^ 31 - 32 → rc_length n = rc_header + n;
  rl_stop : ∀ m p len, bytes_ok m → len < rc_header →
    region m p (Z.to_nat (len + rc_left)) → rc_ok p len m = Ret (false, m);
  rl_ok : ∀ m p len l, rc_header ≤ len < 2 ^ 31 → rc_len p m = Ret (l, m) →
    rc_ok p len m = Ret (bool_decide (rc_header ≤ l ≤ len), m);
  rl_next : ∀ m p len l, rc_header ≤ l ≤ len → len < 2 ^ 31 → rc_len p m = Ret (l, m) →
    rc_next p len m = Ret ((len - align_up 4 l, p + align_up 4 l), m);
  rl_space : ∀ n, 0 ≤ n < 2 ^ 31 - 32 → rc_space n = align_up 4 (rc_header + n);
  rl_data : ∀ p, rc_data p = p + rc_header;
  rl_payload : ∀ m p l, rc_header ≤ l < 2 ^ 32 → rc_len p m = Ret (l, m) →
    rc_payload p m = Ret (l - rc_header, m) }.

(** [for (h = p; OK(h, len); h = NEXT(h, len)) ...]: the records it visits. *)
Fixpoint walk {R : Records} (fuel : nat) (p len : Z) : M bmem (list (Z * Z)) :=
  match fuel with
  | O => λ _, OutOfFuel
  | S fuel =>
      ok ← rc_ok p len;
      if (ok : bool) then
        l ← rc_len p; n ← rc_next p len;
        rest ← walk fuel (n : Z * Z).2 n.1; mret ((p, l) :: rest)
      else mret []
  end.

Section walk.
Context {R : Records} {L : RecordsLaws R}.

(** Records one behind the other between [lo] and [hi]. *)
Fixpoint in_sequence (lo hi : Z) (rs : list (Z * Z)) : Prop :=
  match rs with
  | [] => True
  | (p, l) :: rs => p = lo ∧ rc_header ≤ l ∧ p + l ≤ hi ∧ in_sequence (p + align_up 4 l) hi rs
  end.

Lemma region_sub m p n q k :
  region m p n → p ≤ q → q + Z.of_nat k ≤ p + Z.of_nat n → region m q k.
Proof.
  intros H H1 H2. replace n with (Z.to_nat (q - p) + (k + (n - k - Z.to_nat (q - p))))%nat in H by lia.
  apply region_split in H as [_ H]. apply region_split in H as [H _].
  by replace (p + Z.of_nat (Z.to_nat (q - p))) with q in H by lia.
Qed.

(** The length field can be read wherever there is memory for a header. *)
Lemma load_int_runs o n m p :
  bytes_ok m → region m p n → ∃ l, load_int o n p m = Ret (l, m) ∧ 0 ≤ l < 2 ^ (8 * Z.of_nat n).
Proof.
  intros Hm (l & <- & Hl). exists (of_bytes_in o l). split.
  - unfold load_int. pose proof (wp_read_bytes _ _ _ Hl) as Hr.
    apply wp_run in Hr as (l' & m' & E & -> & ->). by rewrite (bind_eval _ _ _ _ _ E).
  - apply of_bytes_in_range; [|done]. clear -Hm Hl. revert p Hl.
    induction l as [|b l IH]; intros p; [constructor|]. intros [H1 H2].
    constructor; [by apply (Hm p)|by apply (IH (p + 1))].
Qed.

Lemma rc_len_runs m p :
  bytes_ok m → region m p (Z.to_nat rc_header) → ∃ l, rc_len p m = Ret (l, m) ∧ 0 ≤ l.
Proof.
  intros Hm Hr. destruct rl_header as (Hh & _). pose proof rl_width.
  destruct (load_int_runs rc_host rc_width m p Hm) as (l & E & Hl).
  - eapply region_sub; [exact Hr|lia..].
  - exists l. rewrite rl_field. split; [done|lia].
Qed.

(** One round of the loop. *)
Lemma walk_step fuel m p len l :
  rc_header ≤ l ≤ len → len < 2 ^ 31 → rc_len p m = Ret (l, m) →
  walk (S fuel) p len m =
  (rest ← walk fuel (p + align_up 4 l) (len - align_up 4 l); mret ((p, l) :: rest)) m.
Proof.
  intros Hl Hlen E. cbn [walk]. assert (rc_header ≤ len < 2 ^ 31) as Hlen' by lia.
  rewrite (bind_eval _ _ _ _ _ (rl_ok m p len l Hlen' E)), bool_decide_eq_true_2 by done.
  rewrite (bind_eval _ _ _ _ _ E). by rewrite (bind_eval _ _ _ _ _ (rl_next m p len l Hl Hlen E)).
Qed.

(** The end of the loop. *)
Lemma walk_end fuel m p len b :
  rc_ok p len m = Ret (b, m) → b = false → walk (S fuel) p len m = Ret ([], m).
Proof. intros E ->. cbn [walk]. by rewrite (bind_eval _ _ _ _ _ E). Qed.

Lemma walk_inside fuel m p len :
  bytes_ok m → len < 2 ^ 31 → region m p (Z.to_nat (len + rc_left)) →
  len < rc_header * Z.of_nat fuel →
  ∃ rs, walk (S fuel) p len m = Ret (rs, m) ∧ in_sequence p (p + len) rs.
Proof.
  intros Hm. destruct rl_header as (Hh & Hs).
  revert p len. induction fuel as [|fuel IH]; intros p len Hlen Hr Hf;
    (destruct (Z.ltb_spec len rc_header) as [Hstop|Hgo];
      [ exists []; split; [|done]; eapply walk_end; [by apply rl_stop|done] | ]); [lia|].
  destruct (rc_len_runs m p Hm) as (l & El & Hl0); [eapply region_sub; [exact Hr|lia..]|].
  destruct (decide (rc_header ≤ l ≤ len)) as [Hl|Hl].
  - rewrite (walk_step _ _ _ _ l) by done. destruct (align_up_spec 4 l) as [_ Hal]; [lia|].
    assert (rc_header ≤ align_up 4 l) by lia.
    destruct (IH (p + align_up 4 l) (len - align_up 4 l)) as (rs & Hrs & Hin).
    + lia.
    + destruct (Z.leb_spec (len - align_up 4 l + rc_left) 0) as [H0|H0].
      * exists []. split; [cbn; lia|done].
      * eapply region_sub; [exact Hr|lia..].
    + lia.
    + exists ((p, l) :: rs). split; [by rewrite (bind_eval _ _ _ _ _ Hrs)|].
      split; [done|]. split; [lia|]. split; [lia|].
      by replace (p + len) with (p + align_up 4 l + (len - align_up 4 l)) by lia.
  - exists []. split; [|done]. eapply walk_end; [by apply rl_ok|]. by apply bool_decide_eq_false_2.
Qed.

(** ** Buffers that were laid out *)

(** Records with payloads of [ns] bytes from [p], and the bytes they take. *)
Fixpoint places (p : Z) (ns : list Z) : list (Z * Z) :=
  match ns with [] => [] | n :: ns => (p, rc_header + n) :: places (p + rc_space n) ns end.
Definition taken (ns : list Z) : Z := sumZ (rc_space <$> ns).

Definition payload_ok (n : Z) : Prop := 0 ≤ n < 2 ^ 16 - 16.

Lemma space_of n : payload_ok n → rc_space n = align_up 4 (rc_header + n).
Proof. intros Hn. apply rl_space. unfold payload_ok in Hn. lia. Qed.

Lemma taken_nonneg ns : Forall payload_ok ns → 0 ≤ taken ns.
Proof.
  intros H. apply sumZ_nonneg, Forall_fmap. eapply Forall_impl; [|exact H]. intros n Hn. cbn.
  rewrite space_of by done. destruct rl_header as (Hh & _). unfold payload_ok in Hn.
  destruct (align_up_spec 4 (rc_header + n)); lia.
Qed.

(** The last record need not be padded. *)
Fixpoint extent (ns : list Z) : Z :=
  match ns with
  | [] => 0
  | n :: ns' => match ns' with [] => rc_header + n | _ => rc_space n + extent ns' end
  end.

Lemma extent_nonneg ns : Forall payload_ok ns → 0 ≤ extent ns.
Proof.
  destruct rl_header as (Hh & _).
  induction 1 as [|n ns Hn Hns IH]; [done|]. cbn [extent]. pose proof Hn as [? ?].
  destruct ns; [lia|]. rewrite space_of by done. destruct (align_up_spec 4 (rc_header + n)); lia.
Qed.

Lemma walk_finds fuel m p ns len :
  bytes_ok m → Forall payload_ok ns →
  Forall (λ r, rc_len r.1 m = Ret (r.2, m)) (places p ns) →
  (ns = [] ∨ extent ns ≤ len) → len ≤ taken ns → len < 2 ^ 31 →
  region m p (Z.to_nat (len + rc_left)) → (length ns ≤ fuel)%nat →
  walk (S fuel) p len m = Ret (places p ns, m).
Proof.
  intros Hm. destruct rl_header as (Hh & Hs). revert p ns len.
  induction fuel as [|fuel IH]; intros p [|n ns] len; cbn [places length fmap list_fmap];
    intros Hn Hl He Ht Hlen Hr Hf; try lia.
  1,2: eapply walk_end; [apply rl_stop; [done| |done]|done]; unfold taken in Ht; cbn in Ht; lia.
  destruct He as [?|He]; [done|].
  apply Forall_cons_1 in Hn as [Hn Hns]. apply Forall_cons_1 in Hl as [El Hl]. cbn [fst snd] in El.
  pose proof (space_of n Hn) as Es. destruct Hn as [Hn1 Hn2].
  destruct (align_up_spec 4 (rc_header + n)) as [_ Hal]; [lia|]. rewrite <- Es in Hal.
  pose proof (extent_nonneg ns Hns) as Hns0. unfold taken in Ht. cbn [fmap list_fmap sumZ] in Ht.
  assert ((ns = [] ∨ extent ns ≤ len - rc_space n) ∧ rc_header + n ≤ len) as [He' Hlen'].
  { cbn [extent] in He. destruct ns; [split; [by left|lia]|split; [right; lia|lia]]. }
  rewrite (walk_step _ _ _ _ (rc_header + n)) by (done || lia).
  rewrite <- Es. erewrite bind_eval; [done|]. apply IH; try done; try lia.
  - unfold taken. cbn. lia.
  - destruct (Z.leb_spec (len - rc_space n + rc_left) 0) as [H0|H0].
    + exists []. split; [cbn; lia|done].
    + eapply region_sub; [exact Hr|lia..].
Qed.

(** ** Laying out and reading back *)

(** [h->len = LENGTH(n); memcpy(DATA(h), d, n); h += SPACE(n)] for each payload. *)
Fixpoint lay (p : Z) (ds : list (list Z)) : M bmem unit :=
  match ds with
  | [] => mret tt
  | d :: ds =>
      let n := Z.of_nat (length d) in
      store_int rc_host rc_width p (rc_length n);; write_bytes (rc_data p) d;;
      lay (p + rc_space n) ds
  end.

(** The payloads of the records that were visited. *)
Fixpoint payloads (rs : list (Z * Z)) : M bmem (list (list Z)) :=
  match rs with
  | [] => mret []
  | r :: rs =>
      n ← rc_payload r.1; d ← read_bytes (Z.to_nat n) (rc_data r.1);
      ds ← payloads rs; mret (d :: ds)
  end.

Definition sizes (ds : list (list Z)) : list Z := (λ d, Z.of_nat (length d)) <$> ds.
Definition is_data (d : list Z) : Prop :=
  Forall (λ b, 0 ≤ b < 256) d ∧ payload_ok (Z.of_nat (length d)).

Fixpoint laid (m : bmem) (p : Z) (ds : list (list Z)) : Prop :=
  match ds with
  | [] => True
  | d :: ds =>
      bytes_at m p (bytes_in rc_host rc_width (rc_header + Z.of_nat (length d))) ∧
      bytes_at m (p + rc_header) d ∧ laid m (p + rc_space (Z.of_nat (length d))) ds
  end.

Lemma bytes_ok_only m m' p l :
  bytes_ok m → Forall (λ b, 0 ≤ b < 256) l → bytes_at m' p l →
  only_bytes p (Z.of_nat (length l)) m m' → bytes_ok m'.
Proof.
  intros Hm Hl Hb Ho a b Hab. cbn.
  destruct (decide (p ≤ a < p + Z.of_nat (length l))) as [Ha|Ha].
  - clear -Hl Hb Hab Ha. revert p Hb Ha. induction Hl as [|c l Hc Hl IH]; intros p Hb Ha;
      cbn [length] in Ha; [lia|]. destruct Hb as [H1 H2].
    destruct (decide (a = p)) as [->|Hne]; [rewrite Hab in H1; by injection H1 as ->|].
    apply (IH (p + 1)); [done|lia].
  - rewrite Ho in Hab by lia. by apply (Hm a).
Qed.

Lemma laid_only m m' p n q ds :
  Forall is_data ds → only_bytes p n m m' → p + n ≤ q → laid m q ds → laid m' q ds.
Proof.
  intros Hds Ho. destruct rl_header as (Hh & _). revert q.
  induction Hds as [|d ds Hd Hds IH]; intros q Hq; cbn [laid]; [done|].
  intros (H1 & H2 & H3). rewrite space_of by apply Hd.
  destruct Hd as [_ [Hd1 Hd2]]. destruct (align_up_spec 4 (rc_header + Z.of_nat (length d))); [lia|].
  split; [by eapply bytes_at_only; [exact Ho|lia|]|]. split; [by eapply bytes_at_only; [exact Ho|lia|]|].
  apply IH; [lia|]. by rewrite space_of in H3.
Qed.

(** The extent of one record: its header, its data, and the padding. *)
Lemma is_data_space d :
  is_data d → rc_header + Z.of_nat (length d) ≤ rc_space (Z.of_nat (length d)) <
    rc_header + Z.of_nat (length d) + 4.
Proof.
  intros [_ Hd]. rewrite space_of by done. destruct rl_header as (Hh & _). destruct Hd as [Hd1 Hd2].
  destruct (align_up_spec 4 (rc_header + Z.of_nat (length d))); lia.
Qed.

Lemma taken_sizes_nonneg ds : Forall is_data ds → 0 ≤ taken (sizes ds).
Proof.
  intros H. apply taken_nonneg, Forall_fmap. eapply Forall_impl; [|exact H]. by intros d [_ Hd].
Qed.

(** Writing one record. *)
Lemma lay_one m p d :
  bytes_ok m → is_data d → region m p (Z.to_nat (rc_space (Z.of_nat (length d)))) →
  wp (store_int rc_host rc_width p (rc_length (Z.of_nat (length d)));; write_bytes (rc_data p) d) m
    (λ _ m', bytes_at m' p (bytes_in rc_host rc_width (rc_header + Z.of_nat (length d))) ∧
      bytes_at m' (p + rc_header) d ∧ bytes_ok m' ∧ grows m m' ∧
      only_bytes p (rc_space (Z.of_nat (length d))) m m').
Proof.
  intros Hm Hd Hr. pose proof (is_data_space d Hd) as Hs. destruct Hd as [Hd [Hd1 Hd2]].
  destruct rl_header as (Hh & _). pose proof rl_width as Hw.
  rewrite rl_length, rl_data by lia. apply wp_bind. eapply wp_mono.
  { apply wp_store_region. eapply region_sub; [exact Hr|lia..]. }
  intros [] m1 [Hb1 Ho1]. eapply wp_mono.
  { apply wp_write_region. eapply region_only; [exact Ho1|lia|]. eapply region_sub; [exact Hr|lia..]. }
  intros [] m2 [Hb2 Ho2].
  assert (only_bytes p (rc_space (Z.of_nat (length d))) m m2) as Ho.
  { eapply only_bytes_trans; (eapply only_bytes_mono; [| |eassumption]; lia). }
  split_and!; [|done| | |done].
  - eapply bytes_at_only; [exact Ho2|rewrite length_bytes_in; lia|done].
  - eapply (bytes_ok_only m1); [|exact Hd|exact Hb2|exact Ho2].
    eapply (bytes_ok_only m); [done|apply bytes_in_range|exact Hb1|by rewrite length_bytes_in].
  - intros a Ha. eapply written_grows; [exact Hb2|exact Ho2|].
    eapply written_grows; [exact Hb1|by rewrite length_bytes_in|done].
Qed.

Lemma lay_ok m p ds :
  bytes_ok m → Forall is_data ds → region m p (Z.to_nat (taken (sizes ds))) →
  wp (lay p ds) m (λ _ m', laid m' p ds ∧ bytes_ok m' ∧ grows m m' ∧
    only_bytes p (taken (sizes ds)) m m').
Proof.
  intros Hm Hds. revert m p Hm. induction Hds as [|d ds Hd Hds IH]; intros m p Hm Hr; cbn [lay laid].
  { apply wp_ret. split_and!; [done|done|by intros a|done]. }
  pose proof (is_data_space d Hd) as Hs. pose proof (taken_sizes_nonneg ds Hds) as Ht.
  destruct rl_header as (Hh & _).
  assert (taken (sizes (d :: ds)) = rc_space (Z.of_nat (length d)) + taken (sizes ds)) as Et by done.
  rewrite Et in *. apply wp_bind2. eapply wp_mono.
  { apply lay_one; [done|done|]. eapply region_sub; [exact Hr|lia..]. }
  intros [] m1 (H1 & H2 & H3 & Hg & H4). eapply wp_mono.
  { apply IH; [done|]. eapply region_only; [exact H4|lia|]. eapply region_sub; [exact Hr|lia..]. }
  intros [] m2 (H5 & H6 & Hg' & H7). destruct Hd as [_ [Hd _]]. pose proof rl_width.
  split_and!; try done.
  - eapply bytes_at_only; [exact H7|rewrite length_bytes_in; lia|done].
  - eapply bytes_at_only; [exact H7|lia|done].
  - intros a Ha. by apply Hg', Hg.
  - eapply only_bytes_trans; (eapply only_bytes_mono; [| |eassumption]; lia).
Qed.

(** Reading the fields back. *)
Lemma laid_len m p d :
  is_data d → bytes_at m p (bytes_in rc_host rc_width (rc_header + Z.of_nat (length d))) →
  rc_len p m = Ret (rc_header + Z.of_nat (length d), m).
Proof.
  intros [_ [Hd1 Hd2]] H. destruct rl_header as (Hh & _). pose proof rl_width as Hw.
  rewrite rl_field. pose proof (wp_load_int _ _ _ _ _ H rc_host) as Hl.
  apply wp_run in Hl as (l & m' & E & -> & ->). rewrite E, of_bytes_in_bytes, Z.mod_small; [done|].
  split; [lia|]. assert (2 ^ (8 * 2) ≤ 2 ^ (8 * Z.of_nat rc_width)) by (apply Z.pow_le_mono_r; lia).
  lia.
Qed.

Lemma laid_places m p ds :
  Forall is_data ds → laid m p ds →
  Forall (λ r, rc_len r.1 m = Ret (r.2, m)) (places p (sizes ds)).
Proof.
  intros Hds. revert p. induction Hds as [|d ds Hd Hds IH]; intros p; [constructor|].
  intros (H1 & H2 & H3). constructor; [by apply laid_len|by apply IH].
Qed.

Lemma laid_payloads m p ds :
  Forall is_data ds → laid m p ds → payloads (places p (sizes ds)) m = Ret (ds, m).
Proof.
  intros Hds. revert p. induction Hds as [|d ds Hd Hds IH]; intros p; [done|]. intros (H1 & H2 & H3).
  cbn [sizes fmap list_fmap places payloads fst]. pose proof Hd as [_ [Hd1 Hd2]].
  destruct rl_header as (Hh & _).
  assert (rc_header ≤ rc_header + Z.of_nat (length d) < 2 ^ 32) as Hl by lia.
  rewrite (bind_eval _ _ _ _ _ (rl_payload m p _ Hl (laid_len m p d Hd H1))), rl_data.
  replace (Z.to_nat (rc_header + Z.of_nat (length d) - rc_header)) with (length d) by lia.
  pose proof (wp_read_bytes _ _ _ H2) as Hr. apply wp_run in Hr as (l & m' & E & -> & ->).
  rewrite (bind_eval _ _ _ _ _ E). by rewrite (bind_eval _ _ _ _ _ (IH _ H3)).
Qed.

Lemma lay_walk m p ds len :
  bytes_ok m → Forall is_data ds → region m p (Z.to_nat (taken (sizes ds) + rc_left)) →
  extent (sizes ds) ≤ len ≤ taken (sizes ds) → len < 2 ^ 31 →
  wp (lay p ds;; rs ← walk (S (length ds)) p len; payloads rs) m (λ ds' m',
    ds' = ds ∧ only_bytes p (taken (sizes ds)) m m').
Proof.
  intros Hm Hds Hr Hlen Hmax. pose proof (taken_sizes_nonneg ds Hds) as Ht.
  destruct rl_header as (_ & Hleft). apply wp_bind. eapply wp_mono.
  { apply lay_ok; [done..|]. eapply region_sub; [exact Hr|lia..]. }
  intros [] m' (H1 & H2 & Hg & H3).
  assert (walk (S (length ds)) p len m' = Ret (places p (sizes ds), m')) as E.
  { apply walk_finds; try done.
    - apply Forall_fmap. eapply Forall_impl; [|exact Hds]. by intros d [_ Hd].
    - by apply laid_places.
    - right. lia.
    - lia.
    - eapply region_grows; [exact Hg|]. eapply region_sub; [exact Hr|lia..].
    - unfold sizes. by rewrite length_fmap. }
  apply wp_run. exists ds, m'. split; [|done].
  by rewrite (bind_eval _ _ _ _ _ E), laid_payloads.
Qed.
End walk.
