(* ===== verification/Netlink.v ===== *)
(** * Netlink messages and attributes ([linux/netlink.h], [linux/rtnetlink.h], ...)

    The macros that step through a buffer of records: messages ([NLMSG_]), attributes
    ([RTA_]), next hops ([RTNH_]) and the older netfilter attributes ([NFA_]).  A record
    starts with its length; the next one is at the next multiple of four.  The macros take
    the number of bytes left as an [int] variable, which [NEXT] decreases: it is returned
    with the pointer.  The length of a payload is a [size_t].  Memory is the bytes of
    [ByteOrder]; [host] is the order of the machine. *)

From stdpp Require Import base list gmap numbers.
From Stdlib Require Import ZArith Lia.
From S2P Require Import Prelude Bits ByteOrder ByteOrderSpec ByteOrderMem.
From S2P Require Import RecordWalk.

#[local] Open Scope c_scope.
#[local] Open Scope Z_scope.

Section netlink.
Context (host : order).

(** ** Messages *)

(** [struct nlmsghdr]: [nlmsg_len] at 0, then 12 bytes. *)
Definition nlmsg_len (nlh : Z) : M bmem Z := load_int host 4 nlh.
Definition sizeof_nlmsghdr : Z := 4 + 2 + 2 + 4 + 4.

Definition NLMSG_ALIGNTO : Z := 4.
(** The mask is an [unsigned int]: it keeps 32 bits of an argument of any type. *)
Definition NLMSG_ALIGN (len : Z) : Z :=
  u32 (len + NLMSG_ALIGNTO - 1) .& u32 (Z.lnot (NLMSG_ALIGNTO - 1)).
Definition NLMSG_HDRLEN : Z := i32 (NLMSG_ALIGN sizeof_nlmsghdr).
Definition NLMSG_LENGTH (len : Z) : Z := u64 (len + NLMSG_HDRLEN).
Definition NLMSG_SPACE (len : Z) : Z := NLMSG_ALIGN (NLMSG_LENGTH len).
Definition NLMSG_DATA (nlh : Z) : Z := nlh + NLMSG_LENGTH 0.

Definition NLMSG_NEXT (nlh len : Z) : M bmem (Z * Z) :=
  l ← nlmsg_len nlh; let len := i32 (u32 len - NLMSG_ALIGN l) in
  l ← nlmsg_len nlh; mret (len, nlh + NLMSG_ALIGN l).

Definition NLMSG_OK (nlh len : Z) : M bmem bool :=
  if sizeof_nlmsghdr <=? len then
    l ← nlmsg_len nlh;
    if sizeof_nlmsghdr <=? l then l ← nlmsg_len nlh; mret (l <=? u32 len) else mret false
  else mret false.

Definition NLMSG_PAYLOAD (nlh len : Z) : M bmem Z :=
  l ← nlmsg_len nlh; mret (u64 (l - NLMSG_SPACE len)).

(** ** Attributes *)

(** [struct rtattr]: [rta_len] at 0, [rta_type] at 2. *)
Definition rta_len (rta : Z) : M bmem Z := load_int host 2 rta.
Definition sizeof_rtattr : Z := 2 + 2.

Definition RTA_ALIGNTO : Z := 4.
Definition RTA_ALIGN (len : Z) : Z :=
  u32 (len + RTA_ALIGNTO - 1) .& u32 (Z.lnot (RTA_ALIGNTO - 1)).

Definition RTA_OK (rta len : Z) : M bmem bool :=
  if sizeof_rtattr <=? len then
    l ← rta_len rta;
    if sizeof_rtattr <=? l then l ← rta_len rta; mret (l <=? len) else mret false
  else mret false.

Definition RTA_NEXT (rta attrlen : Z) : M bmem (Z * Z) :=
  l ← rta_len rta; let attrlen := i32 (u32 attrlen - RTA_ALIGN l) in
  l ← rta_len rta; mret (attrlen, rta + RTA_ALIGN l).

Definition RTA_LENGTH (len : Z) : Z := u64 (RTA_ALIGN sizeof_rtattr + len).
Definition RTA_SPACE (len : Z) : Z := RTA_ALIGN (RTA_LENGTH len).
Definition RTA_DATA (rta : Z) : Z := rta + RTA_LENGTH 0.
Definition RTA_PAYLOAD (rta : Z) : M bmem Z := l ← rta_len rta; mret (u64 (l - RTA_LENGTH 0)).

(** ** Netfilter attributes *)

(** [struct nfattr]: [nfa_len] at 0, [nfa_type] at 2. *)
Definition nfa_len (nfa : Z) : M bmem Z := load_int host 2 nfa.
Definition nfa_type (nfa : Z) : M bmem Z := load_int host 2 (nfa + 2).
Definition sizeof_nfattr : Z := 2 + 2.

Definition NFA_TYPE (attr : Z) : M bmem Z := t ← nfa_type attr; mret (t .& 0x7fff).

Definition NFA_ALIGNTO : Z := 4.
(** The mask is an [int], extended with its sign. *)
Definition NFA_ALIGN (len : Z) : Z := (len + NFA_ALIGNTO - 1) .& Z.lnot (NFA_ALIGNTO - 1).

Definition NFA_OK (nfa len : Z) : M bmem bool :=
  if 0 <? len then
    l ← nfa_len nfa;
    if sizeof_nfattr <=? l then l ← nfa_len nfa; mret (l <=? len) else mret false
  else mret false.

Definition NFA_NEXT (nfa attrlen : Z) : M bmem (Z * Z) :=
  l ← nfa_len nfa; let attrlen := i32 (attrlen - NFA_ALIGN l) in
  l ← nfa_len nfa; mret (attrlen, nfa + NFA_ALIGN l).

Definition NFA_LENGTH (len : Z) : Z := u64 (NFA_ALIGN sizeof_nfattr + len).
Definition NFA_SPACE (len : Z) : Z := u64 (NFA_ALIGN (NFA_LENGTH len)).
Definition NFA_DATA (nfa : Z) : Z := nfa + NFA_LENGTH 0.
Definition NFA_PAYLOAD (nfa : Z) : M bmem Z := l ← nfa_len nfa; mret (u64 (l - NFA_LENGTH 0)).

(** ** Next hops *)

(** [struct rtnexthop]: [rtnh_len] at 0, [rtnh_flags], [rtnh_hops], [rtnh_ifindex] at 4. *)
Definition rtnh_len (rtnh : Z) : M bmem Z := load_int host 2 rtnh.
Definition sizeof_rtnexthop : Z := 2 + 1 + 1 + 4.

Definition RTNH_ALIGNTO : Z := 4.
Definition RTNH_ALIGN (len : Z) : Z := (len + RTNH_ALIGNTO - 1) .& Z.lnot (RTNH_ALIGNTO - 1).

Definition RTNH_OK (rtnh len : Z) : M bmem bool :=
  l ← rtnh_len rtnh;
  if sizeof_rtnexthop <=? l then l ← rtnh_len rtnh; mret (l <=? len) else mret false.

Definition RTNH_NEXT (rtnh : Z) : M bmem Z := l ← rtnh_len rtnh; mret (rtnh + RTNH_ALIGN l).

Definition RTNH_LENGTH (len : Z) : Z := u64 (RTNH_ALIGN sizeof_rtnexthop + len).
Definition RTNH_SPACE (len : Z) : Z := u64 (RTNH_ALIGN (RTNH_LENGTH len)).
Definition RTNH_DATA (rtnh : Z) : Z := rtnh + RTNH_LENGTH 0.

(** ** Attributes behind the fixed part of a message *)

Definition sizeof_rtmsg : Z := 8 * 1 + 4.
Definition sizeof_tcmsg : Z := 1 + 1 + 2 + 4 + 4 + 4 + 4.
Definition sizeof_tcamsg : Z := 1 + 1 + 2.
Definition sizeof_ifinfomsg : Z := 1 + 1 + 2 + 4 + 4 + 4.
Definition sizeof_ifaddrmsg : Z := 4 * 1 + 4.
Definition sizeof_nfgenmsg : Z := 1 + 1 + 2.

Definition RTM_RTA (r : Z) : Z := r + NLMSG_ALIGN sizeof_rtmsg.
Definition RTM_PAYLOAD (n : Z) : M bmem Z := NLMSG_PAYLOAD n sizeof_rtmsg.
Definition TCA_RTA (r : Z) : Z := r + NLMSG_ALIGN sizeof_tcmsg.
Definition TCA_PAYLOAD (n : Z) : M bmem Z := NLMSG_PAYLOAD n sizeof_tcmsg.
Definition TA_RTA (r : Z) : Z := r + NLMSG_ALIGN sizeof_tcamsg.
Definition TA_PAYLOAD (n : Z) : M bmem Z := NLMSG_PAYLOAD n sizeof_tcamsg.
Definition IFLA_RTA (r : Z) : Z := r + NLMSG_ALIGN sizeof_ifinfomsg.
Definition IFLA_PAYLOAD (n : Z) : M bmem Z := NLMSG_PAYLOAD n sizeof_ifinfomsg.
Definition IFA_RTA (r : Z) : Z := r + NLMSG_ALIGN sizeof_ifaddrmsg.
Definition IFA_PAYLOAD (n : Z) : M bmem Z := NLMSG_PAYLOAD n sizeof_ifaddrmsg.
Definition NFM_NFA (n : Z) : Z := n + NLMSG_ALIGN sizeof_nfgenmsg.
Definition NFM_PAYLOAD (n : Z) : M bmem Z := NLMSG_PAYLOAD n sizeof_nfgenmsg.
End netlink.

(** ** Netlink: buffers of messages and attributes

    The macros of the three headers are instances of [RecordsLaws]. *)

(** ** Alignment *)

(** The alignment to four, with a mask of 32 bits and with a mask that extends its sign. *)
Lemma align_u32 x : 0 ≤ x < 2 ^ 32 - 4 → u32 (x + 4 - 1) .& u32 (Z.lnot (4 - 1)) = align_up 4 x.
Proof.
  intros Hx. change (4 - 1) with (2 ^ 2 - 1). rewrite uwrap_small by lia.
  rewrite land_lnot_low by lia. done.
Qed.

Lemma align_int x : (x + 4 - 1) .& Z.lnot (4 - 1) = align_up 4 x.
Proof.
  change (4 - 1) with (Z.ones 2). rewrite <- Z.ldiff_land, Z.ldiff_ones_r by lia.
  by rewrite Z.shiftl_mul_pow2, Z.shiftr_div_pow2 by lia.
Qed.

Lemma align_up_small x : 0 ≤ x < 2 ^ 31 - 16 → 0 ≤ align_up 4 x < 2 ^ 31.
Proof. intros Hx. destruct (align_up_spec 4 x); lia. Qed.

Section instances.
Context (host : order).

Definition nlmsg_records : Records := {|
  rc_host := host; rc_width := 4; rc_header := sizeof_nlmsghdr; rc_left := 0;
  rc_length := NLMSG_LENGTH;
  rc_len := nlmsg_len host; rc_ok := NLMSG_OK host; rc_next := NLMSG_NEXT host;
  rc_space := NLMSG_SPACE; rc_data := NLMSG_DATA; rc_payload p := NLMSG_PAYLOAD host p 0 |}.

Definition rta_records : Records := {|
  rc_host := host; rc_width := 2; rc_header := sizeof_rtattr; rc_left := 0;
  rc_length := RTA_LENGTH;
  rc_len := rta_len host; rc_ok := RTA_OK host; rc_next := RTA_NEXT host;
  rc_space := RTA_SPACE; rc_data := RTA_DATA; rc_payload := RTA_PAYLOAD host |}.

Definition nfa_records : Records := {|
  rc_host := host; rc_width := 2; rc_header := sizeof_nfattr; rc_left := 1;
  rc_length := NFA_LENGTH;
  rc_len := nfa_len host; rc_ok := NFA_OK host; rc_next := NFA_NEXT host;
  rc_space := NFA_SPACE; rc_data := NFA_DATA; rc_payload := NFA_PAYLOAD host |}.

(** The field is read twice by [OK] and by [NEXT]. *)
#[local] Ltac reads E := rewrite ?(bind_eval _ _ _ _ _ E); cbn beta zeta.

Lemma ok_law (len_of : Z → M bmem Z) (h len' : Z) m p len l :
  h ≤ len → len' = len → len_of p m = Ret (l, m) →
  (l ← len_of p;
   if h <=? l then l ← len_of p; mret (l <=? len') else mret false) m =
  Ret (bool_decide (h ≤ l ≤ len), m).
Proof.
  intros Hlen -> E. reads E. destruct (Z.leb_spec h l) as [H|H]; reads E.
  - destruct (Z.leb_spec l len) as [H'|H'].
    + by rewrite bool_decide_eq_true_2 by lia.
    + by rewrite bool_decide_eq_false_2 by lia.
  - by rewrite bool_decide_eq_false_2 by lia.
Qed.

Lemma next_law (len_of : Z → M bmem Z) (al rest : Z → Z) m p len l :
  0 ≤ l ≤ len → len < 2 ^ 31 → al l = align_up 4 l →
  rest (al l) = i32 (len - align_up 4 l) → len_of p m = Ret (l, m) →
  (l ← len_of p; let len := rest (al l) in l ← len_of p; mret (len, p + al l)) m =
  Ret ((len - align_up 4 l, p + align_up 4 l), m).
Proof.
  intros Hl Hlen Ha Hr E. reads E. rewrite Hr, Ha.
  destruct (align_up_spec 4 l) as [_ Hal]; [lia|]. by rewrite swrap_small by lia.
Qed.

#[export] Instance nlmsg_laws : RecordsLaws nlmsg_records.
Proof.
  split; cbn [rc_host rc_width rc_header rc_left rc_length rc_len rc_ok rc_next rc_space rc_data rc_payload nlmsg_records];
    change sizeof_nlmsghdr with 16.
  - done.
  - lia.
  - done.
  - intros n Hn. unfold NLMSG_LENGTH. change NLMSG_HDRLEN with 16. rewrite uwrap_small; lia.
  - intros m p len Hm Hlen _. unfold NLMSG_OK. by rewrite (proj2 (Z.leb_gt _ _)).
  - intros m p len l Hlen E. unfold NLMSG_OK. change sizeof_nlmsghdr with 16.
    rewrite (proj2 (Z.leb_le _ _)) by lia.
    apply ok_law; [lia|apply uwrap_small; lia|done].
  - intros m p len l Hl Hlen E.
    assert (NLMSG_ALIGN l = align_up 4 l) as Ea by (apply align_u32; lia).
    apply (next_law (nlmsg_len host) NLMSG_ALIGN (λ a, i32 (u32 len - a))); try done; [lia|].
    rewrite Ea, uwrap_small by lia. done.
  - intros n Hn. unfold NLMSG_SPACE, NLMSG_LENGTH. change NLMSG_HDRLEN with 16.
    rewrite uwrap_small by lia. rewrite Z.add_comm. apply align_u32. lia.
  - done.
  - intros m p l Hl E. unfold NLMSG_PAYLOAD. reads E. change (NLMSG_SPACE 0) with 16.
    by rewrite uwrap_small by lia.
Qed.

#[export] Instance rta_laws : RecordsLaws rta_records.
Proof.
  split; cbn [rc_host rc_width rc_header rc_left rc_length rc_len rc_ok rc_next rc_space rc_data rc_payload rta_records];
    change sizeof_rtattr with 4.
  - done.
  - lia.
  - done.
  - intros n Hn. unfold RTA_LENGTH. change (RTA_ALIGN sizeof_rtattr) with 4. rewrite uwrap_small; lia.
  - intros m p len Hm Hlen _. unfold RTA_OK. by rewrite (proj2 (Z.leb_gt _ _)).
  - intros m p len l Hlen E. unfold RTA_OK. change sizeof_rtattr with 4.
    rewrite (proj2 (Z.leb_le _ _)) by lia. by apply ok_law; [lia|..].
  - intros m p len l Hl Hlen E.
    assert (RTA_ALIGN l = align_up 4 l) as Ea by (apply align_u32; lia).
    apply (next_law (rta_len host) RTA_ALIGN (λ a, i32 (u32 len - a))); try done; [lia|].
    rewrite Ea, uwrap_small by lia. done.
  - intros n Hn. unfold RTA_SPACE, RTA_LENGTH. change (RTA_ALIGN sizeof_rtattr) with 4.
    rewrite uwrap_small by lia. apply align_u32. lia.
  - done.
  - intros m p l Hl E. unfold RTA_PAYLOAD. reads E. change (RTA_LENGTH 0) with 4.
    by rewrite uwrap_small by lia.
Qed.

#[export] Instance nfa_laws : RecordsLaws nfa_records.
Proof.
  split; cbn [rc_host rc_width rc_header rc_left rc_length rc_len rc_ok rc_next rc_space rc_data rc_payload nfa_records];
    change sizeof_nfattr with 4.
  - done.
  - lia.
  - done.
  - intros n Hn. unfold NFA_LENGTH. change (NFA_ALIGN sizeof_nfattr) with 4. rewrite uwrap_small; lia.
  - intros m p len Hm Hlen Hr. unfold NFA_OK. change sizeof_nfattr with 4.
    destruct (Z.ltb_spec 0 len) as [H|H]; [|done].
    destruct (load_int_runs host 2 m p Hm) as (l & E & Hl); [eapply region_sub; [exact Hr|lia..]|].
    change (load_int host 2 p) with (nfa_len host p) in E. reads E.
    destruct (Z.leb_spec 4 l); [|done]. reads E. by rewrite (proj2 (Z.leb_gt _ _)) by lia.
  - intros m p len l Hlen E. unfold NFA_OK. change sizeof_nfattr with 4.
    rewrite (proj2 (Z.ltb_lt _ _)) by lia. by apply ok_law; [lia|..].
  - intros m p len l Hl Hlen E.
    apply (next_law (nfa_len host) NFA_ALIGN (λ a, i32 (len - a))); try done; [lia|apply align_int|].
    by rewrite (align_int l : NFA_ALIGN l = _).
  - intros n Hn. unfold NFA_SPACE, NFA_LENGTH. change (NFA_ALIGN sizeof_nfattr) with 4.
    rewrite (uwrap_small 64 (4 + n)) by lia. rewrite (align_int (4 + n) : NFA_ALIGN (4 + n) = _).
    apply uwrap_small. pose proof (align_up_small (4 + n)). lia.
  - done.
  - intros m p l Hl E. unfold NFA_PAYLOAD. reads E. change (NFA_LENGTH 0) with 4.
    by rewrite uwrap_small by lia.
Qed.
End instances.

(** ** The three headers *)

Inductive record_kind : Type := Messages | Attributes | NetfilterAttributes.

Definition records_of (host : order) (k : record_kind) : Records :=
  match k with
  | Messages => nlmsg_records host
  | Attributes => rta_records host
  | NetfilterAttributes => nfa_records host
  end.

#[export] Instance records_of_laws host k : RecordsLaws (records_of host k).
Proof. destruct k; apply _. Qed.

(** C24: the loop over a buffer of messages or attributes ends, whatever bytes the buffer
    holds; it reads nothing behind the buffer, except for one byte with [NFA_OK], and the
    records it visits lie one behind the other in the buffer. *)
Theorem records_stay_inside (k : record_kind) (host : order) (m : bmem) (p len : Z) :
  let R := records_of host k in
  bytes_ok m → 0 ≤ len < 2 ^ 31 → region m p (Z.to_nat (len + rc_left)) →
  ∃ rs, walk (S (S (Z.to_nat len))) p len m = Ret (rs, m) ∧ in_sequence p (p + len) rs.
Proof.
  intros R Hm Hlen Hr. destruct (rl_header (R := R)) as (Hh & _). apply walk_inside; [done|lia|done|nia].
Qed.

(** C23: payloads that were laid out with [LENGTH], [DATA] and [SPACE] are found by the loop
    with [OK] and [NEXT] and read back with [PAYLOAD], in order, on both kinds of host; the
    length of the buffer may or may not count the padding of the last record. *)
Theorem records_roundtrip (k : record_kind) (host : order) (m : bmem) (p len : Z)
    (ds : list (list Z)) :
  let R := records_of host k in
  bytes_ok m → Forall is_data ds → region m p (Z.to_nat (taken (sizes ds) + rc_left)) →
  extent (sizes ds) ≤ len ≤ taken (sizes ds) → len < 2 ^ 31 →
  wp (lay p ds;; rs ← walk (S (length ds)) p len; payloads rs) m (λ ds' m',
    ds' = ds ∧ only_bytes p (taken (sizes ds)) m m').
Proof. intros R. apply lay_walk. Qed.

(** [NFA_OK] reads the length field of two bytes when one byte is left. *)
Lemma NFA_OK_overreads host m p b :
  m !! p = Some b → m !! (p + 1) = None → NFA_OK host p 1 m = UB OutOfBounds.
Proof.
  intros H1 H2. unfold NFA_OK. cbn [Z.ltb Z.compare]. unfold nfa_len, load_int.
  apply bind_ub, bind_ub. cbn [read_bytes]. unfold mbind, M_bind, mget, moption, mret, M_ret.
  by rewrite H1, H2.
Qed.

(** [RTNH_OK] reads the length field without a look at the number of bytes that are left. *)
Lemma RTNH_OK_overreads host m p len : m !! p = None → RTNH_OK host p len m = UB OutOfBounds.
Proof.
  intros H. unfold RTNH_OK, rtnh_len, load_int. apply bind_ub, bind_ub. cbn [read_bytes].
  unfold mbind, M_bind, mget, moption. by rewrite H.
Qed.

(** An attribute shorter than its header passes for an enormous payload. *)
Lemma RTA_PAYLOAD_wraps host m p l :
  rta_len host p m = Ret (l, m) → 0 ≤ l < 4 → RTA_PAYLOAD host p m = Ret (2 ^ 64 - 4 + l, m).
Proof.
  intros E Hl. unfold RTA_PAYLOAD. rewrite (bind_eval _ _ _ _ _ E). change (RTA_LENGTH 0) with 4.
  unfold uwrap. rewrite <- (Z.mod_add _ 1) by done. rewrite Z.mod_small by lia.
  apply (f_equal (λ x, Ret (x, m))). lia.
Qed.

(** ** A buffer *)

Definition netlink_demo_memory : bmem := list_to_map ((λ i, (4096 + Z.of_nat i, 0)) <$> seq 0 64).

Lemma netlink_demo_ok : bytes_ok netlink_demo_memory.
Proof. apply (bool_decide_unpack _). by vm_compute. Qed.

Lemma netlink_demo_region (n : nat) : (n ≤ 64)%nat → region netlink_demo_memory 4096 n.
Proof.
  intros Hn. apply (region_sub _ 4096 64); [|lia|lia].
  exists (replicate 64 0). split; [done|]. cbn. by repeat split.
Qed.

(** An empty buffer of zeros has no records; a length of zero ends the loop. *)
Lemma records_stay_inside_witness :
  (∃ rs, walk (R := records_of Little NetfilterAttributes) (S (S (Z.to_nat 63))) 4096 63
     netlink_demo_memory = Ret (rs, netlink_demo_memory) ∧
   in_sequence (R := records_of Little NetfilterAttributes) 4096 (4096 + 63) rs) ∧
  walk (R := records_of Little Messages) 65 4096 63 netlink_demo_memory =
    Ret ([], netlink_demo_memory).
Proof.
  split; [|vm_compute; reflexivity].
  apply (records_stay_inside NetfilterAttributes Little netlink_demo_memory 4096 63);
    [apply netlink_demo_ok|lia|apply netlink_demo_region; vm_compute; lia].
Defined.

(** Three attributes, the last one without its padding. *)
Lemma records_roundtrip_witness :
  wp (lay (R := records_of Big Attributes) 4096 [[1; 2; 3]; []; [4; 5; 6; 7; 8]];;
      rs ← walk (R := records_of Big Attributes) 4 4096 21;
      payloads (R := records_of Big Attributes) rs) netlink_demo_memory (λ ds' m',
    ds' = [[1; 2; 3]; []; [4; 5; 6; 7; 8]] ∧
    only_bytes 4096 (taken (R := records_of Big Attributes) [3; 0; 5]) netlink_demo_memory m') ∧
  taken (R := records_of Big Attributes) [3; 0; 5] = 24.
Proof.
  split; [|reflexivity].
  apply (records_roundtrip Attributes Big netlink_demo_memory 4096 21
    [[1; 2; 3]; []; [4; 5; 6; 7; 8]]);
    [ apply netlink_demo_ok
    | repeat constructor; lia
    | apply netlink_demo_region; vm_compute; lia
    | vm_compute; split; discriminate
    | lia ].
Defined.
