(* ===== verification/Cmsg.v ===== *)
(** * Ancillary data ([bits/socket.h])

    The macros that step through the control messages of a [struct msghdr].  Memory is the
    bytes of [ByteOrder]; sizes are [size_t], so aligning a length can wrap. *)

From Stdlib Require Import ZArith Lia.
From stdpp Require Import base list gmap numbers.
From S2P Require Import Prelude Bits ByteOrder ByteOrderSpec ByteOrderMem RecordWalk.

#[local] Open Scope c_scope.
#[local] Open Scope Z_scope.

(** ** The code *)

Record msghdr : Type := Msghdr {
  msg_name : Z; msg_namelen : Z; msg_iov : Z; msg_iovlen : Z;
  msg_control : Z; msg_controllen : Z; msg_flags : Z }.

(** [struct cmsghdr]: [cmsg_len] at 0, [cmsg_level] at 8, [cmsg_type] at 12. *)
Definition sizeof_cmsghdr : Z := 8 + 4 + 4.
Definition sizeof_size_t : Z := 8.

Section cmsg.
Context (host : order).

Definition cmsg_len (cmsg : Z) : M bmem Z := load_int host 8 cmsg.

Definition CMSG_DATA (cmsg : Z) : Z := cmsg + 1 * sizeof_cmsghdr.
Definition CMSG_FIRSTHDR (mhdr : msghdr) : Z :=
  if sizeof_cmsghdr <=? msg_controllen mhdr then msg_control mhdr else 0.
Definition CMSG_ALIGN (len : Z) : Z :=
  u64 (len + sizeof_size_t - 1) .& u64 (Z.lnot (sizeof_size_t - 1)).
Definition CMSG_SPACE (len : Z) : Z := u64 (CMSG_ALIGN len + CMSG_ALIGN sizeof_cmsghdr).
Definition CMSG_LEN (len : Z) : Z := u64 (CMSG_ALIGN sizeof_cmsghdr + len).

Definition __cmsg_nxthdr (__mhdr : msghdr) (__cmsg : Z) : M bmem Z :=
  l ← cmsg_len __cmsg;
  if l <? sizeof_cmsghdr then mret 0
  else
    l ← cmsg_len __cmsg;
    let __cmsg := __cmsg + CMSG_ALIGN l in
    let end_ := msg_control __mhdr + msg_controllen __mhdr in
    if end_ <? __cmsg + 1 * sizeof_cmsghdr then mret 0
    else
      l ← cmsg_len __cmsg;
      if end_ <? __cmsg + CMSG_ALIGN l then mret 0 else mret __cmsg.
Definition CMSG_NXTHDR (mhdr : msghdr) (cmsg : Z) : M bmem Z := __cmsg_nxthdr mhdr cmsg.

(** [for (c = CMSG_FIRSTHDR(h); c != NULL; c = CMSG_NXTHDR(h, c))]: the headers visited. *)
Fixpoint cmsg_walk (fuel : nat) (h : msghdr) (c : Z) : M bmem (list Z) :=
  match fuel with
  | O => λ _, OutOfFuel
  | S fuel =>
      if c =? 0 then mret []
      else n ← CMSG_NXTHDR h c; cs ← cmsg_walk fuel h n; mret (c :: cs)
  end.

(** ** Lengths *)

Lemma CMSG_ALIGN_up x : 0 ≤ x < 2 ^ 64 - 7 → CMSG_ALIGN x = align_up 8 x.
Proof.
  intros Hx. unfold CMSG_ALIGN, sizeof_size_t. change (8 - 1) with (2 ^ 3 - 1).
  rewrite uwrap_small by lia. rewrite land_lnot_low by lia. done.
Qed.

Lemma CMSG_ALIGN_wraps x : 2 ^ 64 - 7 ≤ x < 2 ^ 64 → CMSG_ALIGN x = 0.
Proof.
  intros Hx. unfold CMSG_ALIGN, sizeof_size_t. change (8 - 1) with (2 ^ 3 - 1).
  replace (u64 (x + 8 - 1)) with (x + 8 - 1 - 2 ^ 64).
  - rewrite land_lnot_low by lia. rewrite Z.div_small by lia. done.
  - unfold uwrap. rewrite <- (Z.mod_add (x + 8 - 1) (-1)) by done.
    by rewrite Z.mod_small by lia.
Qed.

Lemma CMSG_SPACE_eq n : 0 ≤ n < 2 ^ 63 → CMSG_SPACE n = 16 + align_up 8 n.
Proof.
  intros Hn. unfold CMSG_SPACE. change (CMSG_ALIGN sizeof_cmsghdr) with 16.
  rewrite CMSG_ALIGN_up by lia. destruct (align_up_spec 8 n); [lia|].
  rewrite uwrap_small by lia. lia.
Qed.

Lemma align_up_16 n : 0 ≤ n → align_up 8 (16 + n) = 16 + align_up 8 n.
Proof. intros Hn. by apply align_up_add. Qed.

(** ** Steps *)

(** What a step returns, from the fields it reads. *)
Lemma nxthdr_eval h c l l' m :
  cmsg_len c m = Ret (l, m) → sizeof_cmsghdr ≤ l →
  cmsg_len (c + CMSG_ALIGN l) m = Ret (l', m) →
  CMSG_NXTHDR h c m = Ret (if bool_decide (c + CMSG_ALIGN l + 16 ≤ msg_control h + msg_controllen h ∧
    c + CMSG_ALIGN l + CMSG_ALIGN l' ≤ msg_control h + msg_controllen h)
    then c + CMSG_ALIGN l else 0, m).
Proof.
  intros E Hl E'. unfold CMSG_NXTHDR, __cmsg_nxthdr. change sizeof_cmsghdr with 16 in *.
  rewrite (bind_eval _ _ _ _ _ E), (proj2 (Z.ltb_ge _ _)) by lia.
  rewrite (bind_eval _ _ _ _ _ E). cbn beta zeta.
  destruct (Z.ltb_spec (msg_control h + msg_controllen h) (c + CMSG_ALIGN l + 1 * 16)) as [H1|H1].
  { by rewrite bool_decide_eq_false_2 by lia. }
  rewrite (bind_eval _ _ _ _ _ E').
  destruct (Z.ltb_spec (msg_control h + msg_controllen h) (c + CMSG_ALIGN l + CMSG_ALIGN l')) as [H2|H2].
  - by rewrite bool_decide_eq_false_2 by lia.
  - by rewrite bool_decide_eq_true_2 by lia.
Qed.

Lemma nxthdr_end h c l m :
  cmsg_len c m = Ret (l, m) → sizeof_cmsghdr ≤ l →
  msg_control h + msg_controllen h < c + CMSG_ALIGN l + 16 →
  CMSG_NXTHDR h c m = Ret (0, m).
Proof.
  intros E Hl H. unfold CMSG_NXTHDR, __cmsg_nxthdr. change sizeof_cmsghdr with 16 in *.
  rewrite (bind_eval _ _ _ _ _ E), (proj2 (Z.ltb_ge _ _)) by lia.
  rewrite (bind_eval _ _ _ _ _ E). cbn beta zeta. by rewrite (proj2 (Z.ltb_lt _ _)) by lia.
Qed.

(** ** Whole buffers *)

(** Control messages with [ns] bytes of data, one behind the other from [p]. *)
Fixpoint control_at (m : bmem) (p : Z) (ns : list Z) : Prop :=
  match ns with
  | [] => True
  | n :: ns => cmsg_len p m = Ret (CMSG_LEN n, m) ∧ control_at m (p + CMSG_SPACE n) ns
  end.
Fixpoint control_places (p : Z) (ns : list Z) : list Z :=
  match ns with [] => [] | n :: ns => p :: control_places (p + CMSG_SPACE n) ns end.
Definition control_space (ns : list Z) : Z := sumZ (CMSG_SPACE <$> ns).

Lemma control_space_nonneg ns : Forall (λ n, 0 ≤ n < 2 ^ 32) ns → 0 ≤ control_space ns.
Proof.
  intros H. apply sumZ_nonneg, Forall_fmap. eapply Forall_impl; [|exact H]. intros n [Hn1 Hn2]. cbn.
  rewrite CMSG_SPACE_eq by lia. destruct (align_up_spec 8 n); lia.
Qed.

Lemma CMSG_LEN_eq n : 0 ≤ n < 2 ^ 32 → CMSG_LEN n = 16 + n ∧ CMSG_ALIGN (CMSG_LEN n) = CMSG_SPACE n.
Proof.
  intros Hn. assert (CMSG_LEN n = 16 + n) as E.
  { unfold CMSG_LEN. change (CMSG_ALIGN sizeof_cmsghdr) with 16. rewrite uwrap_small; lia. }
  split; [done|]. rewrite E, CMSG_ALIGN_up, CMSG_SPACE_eq, align_up_16; lia.
Qed.

Lemma cmsg_walk_from h m p ns n :
  Forall (λ n, 0 ≤ n < 2 ^ 32) (n :: ns) → 0 < p → control_at m p (n :: ns) →
  msg_control h + msg_controllen h = p + control_space (n :: ns) →
  cmsg_walk (S (length (n :: ns))) h p m = Ret (control_places p (n :: ns), m).
Proof.
  intros Hns. revert p n Hns. induction ns as [|n' ns IH]; intros p n Hns Hp Hc Hend;
    apply Forall_cons_1 in Hns as [Hn Hns]; destruct Hc as [E Hc];
    destruct (CMSG_LEN_eq n Hn) as [El Ea]; cbn [length cmsg_walk control_places];
    rewrite (proj2 (Z.eqb_neq _ _)) by lia; pose proof (CMSG_SPACE_eq n ltac:(lia)) as Es;
    destruct (align_up_spec 8 n) as [_ Hal]; [lia| |lia|];
    unfold control_space in Hend; cbn [fmap list_fmap sumZ] in Hend.
  - erewrite bind_eval.
    2: { eapply nxthdr_end; [exact E|change sizeof_cmsghdr with 16; lia|]. rewrite Ea. lia. }
    done.
  - pose proof Hc as [E' _]. apply Forall_cons_1 in Hns as [Hn' Hns].
    destruct (CMSG_LEN_eq n' Hn') as [El' Ea'].
    pose proof (CMSG_SPACE_eq n' ltac:(lia)) as Es'. destruct (align_up_spec 8 n') as [_ Hal']; [lia|].
    pose proof (control_space_nonneg ns Hns) as Hrest. unfold control_space in Hrest.
    erewrite bind_eval.
    2: { eapply nxthdr_eval; [exact E|change sizeof_cmsghdr with 16; lia|]. by rewrite Ea. }
    rewrite bool_decide_eq_true_2 by (rewrite Ea, Ea'; lia). rewrite Ea.
    erewrite bind_eval.
    2: { apply IH; [by constructor|lia|done|unfold control_space; cbn [fmap list_fmap sumZ]; lia]. }
    done.
Qed.

(** The loop from [CMSG_FIRSTHDR] with [CMSG_NXTHDR] visits exactly the control messages
    that were laid out with [CMSG_LEN] and [CMSG_SPACE], in order, and ends. *)
Theorem cmsg_loop_finds (h : msghdr) (m : bmem) (ns : list Z) :
  0 < msg_control h → Forall (λ n, 0 ≤ n < 2 ^ 32) ns → control_at m (msg_control h) ns →
  msg_controllen h = control_space ns →
  cmsg_walk (S (length ns)) h (CMSG_FIRSTHDR h) m = Ret (control_places (msg_control h) ns, m).
Proof.
  intros Hp Hns Hc Hlen. unfold CMSG_FIRSTHDR. change sizeof_cmsghdr with 16. rewrite Hlen.
  destruct ns as [|n ns]; [done|]. pose proof Hns as [Hn Hns']%Forall_cons_1.
  pose proof (control_space_nonneg ns Hns') as Hrest.
  assert (control_space (n :: ns) = CMSG_SPACE n + control_space ns) as E by done.
  pose proof (CMSG_SPACE_eq n ltac:(lia)). destruct (align_up_spec 8 n); [lia|].
  rewrite (proj2 (Z.leb_le _ _)) by lia. apply cmsg_walk_from; [done..|lia].
Qed.

(** A control message whose length is one of the seven largest numbers is its own
    successor: the aligned length wraps to zero, and the loop over a buffer that another
    process can fill never ends. *)
Theorem cmsg_loop_never_ends (h : msghdr) (m : bmem) (c l : Z) (fuel : nat) :
  0 < c → cmsg_len c m = Ret (l, m) → 2 ^ 64 - 7 ≤ l < 2 ^ 64 →
  c + sizeof_cmsghdr ≤ msg_control h + msg_controllen h →
  CMSG_NXTHDR h c m = Ret (c, m) ∧ cmsg_walk fuel h c m = OutOfFuel.
Proof.
  intros Hc E Hl Hend. change sizeof_cmsghdr with 16 in Hend.
  assert (CMSG_NXTHDR h c m = Ret (c, m)) as En.
  { pose proof (CMSG_ALIGN_wraps l Hl) as Ew.
    rewrite (nxthdr_eval h c l l m); [|done|change sizeof_cmsghdr with 16; lia|].
    - rewrite Ew, Z.add_0_r, bool_decide_eq_true_2 by lia. done.
    - by rewrite Ew, Z.add_0_r. }
  split; [done|]. induction fuel as [|fuel IH]; [done|]. cbn [cmsg_walk].
  rewrite (proj2 (Z.eqb_neq _ _)) by lia. rewrite (bind_eval _ _ _ _ _ En).
  unfold mbind, M_bind. by rewrite IH.
Qed.
End cmsg.

(** ** Concrete buffers *)

Definition cmsg_demo_header : msghdr := Msghdr 0 0 0 0 4096 40 0.
Definition cmsg_memory (l : list Z) : bmem :=
  list_to_map ((λ ib, (4096 + Z.of_nat ib.1, ib.2)) <$> imap pair l).

(** Two messages: four bytes of data, and none. *)
Definition cmsg_demo : bmem :=
  cmsg_memory (bytes_in Little 8 20 ++ replicate 16 0 ++ bytes_in Little 8 16 ++ replicate 8 0).

Lemma cmsg_loop_finds_witness :
  cmsg_walk Little 3 cmsg_demo_header (CMSG_FIRSTHDR cmsg_demo_header) cmsg_demo =
    Ret (control_places 4096 [4; 0], cmsg_demo) ∧ control_places 4096 [4; 0] = [4096; 4120].
Proof.
  split; [|reflexivity].
  apply (cmsg_loop_finds Little cmsg_demo_header cmsg_demo [4; 0]);
    [reflexivity|repeat constructor; lia|split; [|split; [|exact I]]; vm_compute; reflexivity|reflexivity].
Defined.

(** A received length of 2^64 - 1. *)
Lemma cmsg_loop_never_ends_witness :
  let m := cmsg_memory (replicate 16 255) in
  CMSG_NXTHDR Little cmsg_demo_header 4096 m = Ret (4096, m) ∧
  cmsg_walk Little 1000 cmsg_demo_header 4096 m = OutOfFuel.
Proof.
  apply (cmsg_loop_never_ends Little cmsg_demo_header (cmsg_memory (replicate 16 255)) 4096
           (2 ^ 64 - 1) 1000);
    [reflexivity|vm_compute; reflexivity|split; [vm_compute; discriminate|reflexivity]|vm_compute; discriminate].
Defined.
