(* ===== verification/Tables.v ===== *)
(** * Packet filter tables ([linux/netfilter/x_tables.h], [linux/netfilter_bridge/ebtables.h])

    The macros that call a function on every match of a rule, on every watcher, or on every
    rule of a table.  The function is a parameter, as in C: it takes the address of the
    element and may change memory.  Offsets are [unsigned int]s and wrap.  A rule type is
    described by its size and the places of its fields ([layout]). *)

From Stdlib Require Import ZArith Lia.
From stdpp Require Import base list gmap numbers.
From S2P Require Import Prelude Bits ByteOrder ByteOrderSpec ByteOrderMem RecordWalk.

#[local] Open Scope c_scope.
#[local] Open Scope Z_scope.

(** ** The structures *)

(** A rule: [sizeof(type)], and where its [target_offset] and [next_offset] are. *)
Record layout : Type := Layout {
  sizeof_type : Z; target_offset_at : Z; next_offset_at : Z }.

(** [struct ipt_entry], [struct ip6t_entry], [struct arpt_entry]: after the addresses come
    [nfcache], the two offsets, [comefrom] and two counters of 64 bits. *)
Definition ipt_entry : layout := Layout 112 88 90.
Definition ip6t_entry : layout := Layout 168 140 142.
Definition arpt_entry : layout := Layout 192 168 170.

(** [struct ebt_entry] has three offsets of 32 bits; [struct ebt_entry_match] and
    [struct ebt_entry_watcher] have a size behind a name of 32 bytes, their data is
    aligned to 8. *)
Definition sizeof_ebt_entry : Z := 112.
Definition bitmask_at (e : Z) : Z := e.
Definition watchers_offset_at (e : Z) : Z := e + 100.
Definition ebt_target_offset_at (e : Z) : Z := e + 104.
Definition ebt_next_offset_at (e : Z) : Z := e + 108.
Definition sizeof_ebt_entry_match : Z := 40.
Definition match_size_at (m : Z) : Z := m + 32.
Definition sizeof_ebt_entry_watcher : Z := 40.
Definition watcher_size_at (w : Z) : Z := w + 32.
Definition sizeof_ebt_entries : Z := 48.

Definition EINVAL : Z := 22.

Definition alignof_xt_align : Z := 8.
Definition __ALIGN_KERNEL_MASK (x mask : Z) : Z := u32 (x + mask) .& u32 (Z.lnot mask).
Definition __ALIGN_KERNEL (x a : Z) : Z := __ALIGN_KERNEL_MASK x (u32 a - 1).
Definition XT_ALIGN (s : Z) : Z := __ALIGN_KERNEL s alignof_xt_align.

(** [struct xt_counters]. *)
Record xt_counters : Type := Counters { pcnt : Z; bcnt : Z }.
Definition SET_COUNTER (c : xt_counters) (b p : Z) : xt_counters := Counters (u64 p) (u64 b).
Definition ADD_COUNTER (c : xt_counters) (b p : Z) : xt_counters :=
  Counters (u64 (pcnt c + p)) (u64 (bcnt c + b)).

(** ** Loops *)

Section loops.
Context (host : order).

Definition u16_at (p : Z) : M bmem Z := load_int host 2 p.
Definition u32_at (p : Z) : M bmem Z := load_int host 4 p.

(** [for (; i < bound; i += step(base + i)) { ret = fn(base + i); if (ret != 0) break; }]
    from [i], with the value of [ret] and of [i] at the end; [bound] and [step] read memory. *)
Fixpoint for_offsets (fuel : nat) (base i : Z) (bound : M bmem Z) (step fn : Z → M bmem Z)
    : M bmem (Z * Z) :=
  match fuel with
  | O => λ _, OutOfFuel
  | S fuel =>
      b ← bound;
      if i <? b then
        ret ← fn (base + i);
        if negb (ret =? 0) then mret (ret, i)
        else d ← step (base + i); for_offsets fuel base (u32 (i + d)) bound step fn
      else mret (0, i)
  end.

(** The macros below take the fuel of their loop; the theorems are about every fuel that is
    larger than the number of elements. *)
Definition XT_MATCH_ITERATE (steps : nat) (type : layout) (e : Z) (fn : Z → M bmem Z) : M bmem Z :=
  r ← for_offsets steps e (sizeof_type type) (u16_at (e + target_offset_at type)) u16_at fn;
  mret r.1.

(** The rules before number [n] are passed over: [__n] counts with [__i]. *)
Fixpoint entries_loop (fuel : nat) (type : layout) (entries size n __i __n : Z)
    (fn : Z → M bmem Z) : M bmem Z :=
  match fuel with
  | O => λ _, OutOfFuel
  | S fuel =>
      if __i <? size then
        let __entry := entries + __i in
        let next :=
          d ← u16_at (__entry + next_offset_at type);
          entries_loop fuel type entries size n (u32 (__i + d)) (u32 (__n + 1)) fn in
        if __n <? n then next
        else ret ← fn __entry; if negb (ret =? 0) then mret ret else next
      else mret 0
  end.

Definition XT_ENTRY_ITERATE_CONTINUE (steps : nat) (type : layout) (entries size n : Z) (fn : Z → M bmem Z)
    : M bmem Z :=
  entries_loop steps type entries size n 0 0 fn.
Definition XT_ENTRY_ITERATE (steps : nat) (type : layout) (entries size : Z)
    (fn : Z → M bmem Z) : M bmem Z :=
  XT_ENTRY_ITERATE_CONTINUE steps type entries size 0 fn.

Definition IPT_MATCH_ITERATE (steps : nat) (e : Z) (fn : Z → M bmem Z) : M bmem Z :=
  XT_MATCH_ITERATE steps ipt_entry e fn.
Definition IPT_ENTRY_ITERATE (steps : nat) (entries size : Z) (fn : Z → M bmem Z)
    : M bmem Z :=
  XT_ENTRY_ITERATE steps ipt_entry entries size fn.
Definition IP6T_MATCH_ITERATE (steps : nat) (e : Z) (fn : Z → M bmem Z) : M bmem Z :=
  XT_MATCH_ITERATE steps ip6t_entry e fn.
Definition IP6T_ENTRY_ITERATE (steps : nat) (entries size : Z) (fn : Z → M bmem Z)
    : M bmem Z :=
  XT_ENTRY_ITERATE steps ip6t_entry entries size fn.
Definition ARPT_ENTRY_ITERATE (steps : nat) (entries size : Z) (fn : Z → M bmem Z)
    : M bmem Z :=
  XT_ENTRY_ITERATE steps arpt_entry entries size fn.

(** The element behind the matches. *)
Definition ipt_get_target (e : Z) : M bmem Z :=
  o ← u16_at (e + target_offset_at ipt_entry); mret (e + o).
Definition ip6t_get_target (e : Z) : M bmem Z :=
  o ← u16_at (e + target_offset_at ip6t_entry); mret (e + o).
Definition arpt_get_target (e : Z) : M bmem Z :=
  o ← u16_at (e + target_offset_at arpt_entry); mret (e + o).
Definition ebt_get_target (e : Z) : M bmem Z := o ← u32_at (ebt_target_offset_at e); mret (e + o).

(** [if (ret == 0) { if (i != bound) ret = -EINVAL; }]. *)
Definition check_end (r : Z * Z) (bound : M bmem Z) : M bmem Z :=
  if r.1 =? 0 then b ← bound; mret (if negb (r.2 =? b) then - EINVAL else r.1) else mret r.1.

Definition EBT_MATCH_ITERATE (steps : nat) (e : Z) (fn : Z → M bmem Z) : M bmem Z :=
  r ← for_offsets steps e sizeof_ebt_entry (u32_at (watchers_offset_at e))
        (λ __match, d ← u32_at (match_size_at __match); mret (u64 (d + sizeof_ebt_entry_match))) fn;
  check_end r (u32_at (watchers_offset_at e)).

Definition EBT_WATCHER_ITERATE (steps : nat) (e : Z) (fn : Z → M bmem Z) : M bmem Z :=
  i ← u32_at (watchers_offset_at e);
  r ← for_offsets steps e i (u32_at (ebt_target_offset_at e))
        (λ __watcher, d ← u32_at (watcher_size_at __watcher);
                      mret (u64 (d + sizeof_ebt_entry_watcher))) fn;
  check_end r (u32_at (ebt_target_offset_at e)).

Definition EBT_ENTRY_ITERATE (steps : nat) (entries size : Z) (fn : Z → M bmem Z) : M bmem Z :=
  r ← for_offsets steps entries 0 (mret size)
        (λ __entry, b ← u32_at (bitmask_at __entry);
                    if negb (b =? 0) then u32_at (ebt_next_offset_at __entry)
                    else mret sizeof_ebt_entries) fn;
  check_end r (mret size).
End loops.

(** ** What the loops compute *)

(** The reference: call a function on some addresses until a result is not 0. *)
Fixpoint call_until (fn : Z → M bmem Z) (ps : list Z) : M bmem Z :=
  match ps with
  | [] => mret 0
  | p :: ps => ret ← fn p; if negb (ret =? 0) then mret ret else call_until fn ps
  end.

(** Elements of [ds] bytes from offset [i]. *)
Fixpoint offsets (i : Z) (ds : list Z) : list Z :=
  match ds with [] => [] | d :: ds => i :: offsets (i + d) ds end.

(** Two runs that continue alike after the same first part. *)
Lemma bind_cong {St A B} (m : M St A) (f g : A → M St B) s :
  (∀ a s', m s = Ret (a, s') → f a s' = g a s') → (m ≫= f) s = (m ≫= g) s.
Proof. unfold mbind, M_bind. intros H. destruct (m s) as [[a s']| |]; [by apply H|done..]. Qed.

Lemma bind_bind {St A B C} (m : M St A) (f : A → M St B) (g : B → M St C) s :
  ((m ≫= f) ≫= g) s = (m ≫= (λ a, f a ≫= g)) s.
Proof. unfold mbind, M_bind. by destruct (m s) as [[a s']| |]. Qed.

Section correct.
Context (P : bmem → Prop) (base b : Z) (bound : M bmem Z) (step fn : Z → M bmem Z)
  (Hb : ∀ m, P m → bound m = Ret (b, m)).

(** The function may change memory, but leaves what [P] says of it. *)
Definition keeps (p : Z) : Prop := ∀ m ret m', P m → fn p m = Ret (ret, m') → P m'.

(** Every element starts before the bound and has its size. *)
Definition elements (i : Z) (ds : list Z) : Prop :=
  Forall (λ id, id.1 < b ∧ (∀ m, P m → step (base + id.1) m = Ret (id.2, m)) ∧
                keeps (base + id.1)) (zip (offsets i ds) ds).

(** A loop that goes on with [k] is the reference that goes on with [k'] when [k] does so
    after a result and at the end. *)
Lemma for_offsets_ok (k : Z * Z → M bmem Z) (k' : Z → M bmem Z) ds : ∀ i fuel m,
  P m → elements i ds → 0 ≤ i → Forall (λ d, 0 ≤ d) ds → b ≤ i + sumZ ds < 2 ^ 32 →
  (length ds < fuel)%nat →
  (∀ ret j m, ret ≠ 0 → k (ret, j) m = k' ret m) →
  (∀ m, P m → k (0, i + sumZ ds) m = k' 0 m) →
  (r ← for_offsets fuel base i bound step fn; k r) m =
  (ret ← call_until fn (Z.add base <$> offsets i ds); k' ret) m.
Proof.
  induction ds as [|d ds IH]; intros i [|fuel] m Hm He Hi Hds Hend Hf Hret H0;
    cbn [length] in Hf; try lia; cbn [for_offsets offsets fmap list_fmap call_until];
    rewrite bind_bind, (bind_eval _ _ _ _ _ (Hb m Hm)).
  - cbn [sumZ] in *. rewrite (proj2 (Z.ltb_ge _ _)) by lia. rewrite Z.add_0_r in H0.
    do 2 erewrite bind_eval by reflexivity. by apply H0.
  - unfold elements in He. cbn [offsets zip zip_with] in He.
    apply Forall_cons_1 in He as [(Hlt & Hstep & Hkeep) He]. cbn [fst snd] in *.
    apply Forall_cons_1 in Hds as [Hd Hds]. cbn [sumZ] in *.
    assert (0 ≤ sumZ ds) by (by apply sumZ_nonneg).
    rewrite (proj2 (Z.ltb_lt _ _)) by lia. rewrite !bind_bind. apply bind_cong.
    intros ret m1 E. pose proof (Hkeep _ _ _ Hm E) as Hm1.
    destruct (Z.eqb_spec ret 0) as [->|Hne]; cbn [negb].
    + rewrite bind_bind, (bind_eval _ _ _ _ _ (Hstep _ Hm1)), uwrap_small by lia.
      apply IH; [done|done|lia|done|lia|lia|done|]. intros m2 Hm2. rewrite <- H0 by done.
      f_equal. f_equal. lia.
    + do 2 erewrite bind_eval by reflexivity. by apply Hret.
Qed.
End correct.

Section iterators.
Context (host : order) (fn : Z → M bmem Z).

(** The matches of a rule are passed to the function in order until one result is not 0. *)
Theorem xt_matches_in_order (P : bmem → Prop) type steps e b ds m :
  (∀ m, P m → u16_at host (e + target_offset_at type) m = Ret (b, m)) →
  P m → elements P e b (u16_at host) fn (sizeof_type type) ds →
  0 ≤ sizeof_type type → Forall (λ d, 0 ≤ d) ds → b ≤ sizeof_type type + sumZ ds < 2 ^ 32 →
  (length ds < steps)%nat →
  XT_MATCH_ITERATE host steps type e fn m =
  call_until fn (Z.add e <$> offsets (sizeof_type type) ds) m.
Proof.
  intros Hb Hm He Hi Hds Hend Hf. unfold XT_MATCH_ITERATE.
  rewrite (for_offsets_ok P e b _ (u16_at host) fn Hb _ mret ds) by done.
  unfold mbind, M_bind. by destruct (call_until _ _ m) as [[]| |].
Qed.

(** A match of size 0 is visited again and again. *)
Lemma XT_MATCH_ITERATE_stuck type e b m :
  u16_at host (e + target_offset_at type) m = Ret (b, m) →
  0 ≤ sizeof_type type < 2 ^ 32 → sizeof_type type < b →
  fn (e + sizeof_type type) m = Ret (0, m) → u16_at host (e + sizeof_type type) m = Ret (0, m) →
  ∀ fuel, for_offsets fuel e (sizeof_type type) (u16_at host (e + target_offset_at type))
    (u16_at host) fn m = OutOfFuel.
Proof.
  intros Hb Hi Hlt E1 E2 fuel. induction fuel as [|fuel IH]; [done|]. cbn [for_offsets].
  rewrite (bind_eval _ _ _ _ _ Hb), (proj2 (Z.ltb_lt _ _)) by lia.
  rewrite (bind_eval _ _ _ _ _ E1). cbn [Z.eqb negb]. rewrite (bind_eval _ _ _ _ _ E2).
  by rewrite Z.add_0_r, uwrap_small by lia.
Qed.

(** A bridge rule in memory: where its watchers and its target start, and the sizes of the
    data of its matches and its watchers, which end in front of the target. *)
Record ebt_rule (e w t : Z) (ms ws : list Z) (m : bmem) : Prop := {
  er_watchers : u32_at host (watchers_offset_at e) m = Ret (w, m);
  er_target : u32_at host (ebt_target_offset_at e) m = Ret (t, m);
  er_match_sizes : Forall (λ ls, u32_at host (match_size_at (e + ls.1)) m = Ret (ls.2, m))
    (zip (offsets sizeof_ebt_entry (Z.add sizeof_ebt_entry_match <$> ms)) ms);
  er_watcher_sizes : Forall (λ ls, u32_at host (watcher_size_at (e + ls.1)) m = Ret (ls.2, m))
    (zip (offsets w (Z.add sizeof_ebt_entry_watcher <$> ws)) ws) }.

(** The elements behind each other, with their headers, starting before [limit]. *)
Definition laid_out (limit i : Z) (ss : list Z) (header : Z) : Prop :=
  Forall (λ s, 0 ≤ s) ss ∧ Forall (λ l, l < limit) (offsets i (Z.add header <$> ss)) ∧
  limit ≤ i + sumZ (Z.add header <$> ss) < 2 ^ 32.

Lemma laid_out_sizes limit i ss header :
  laid_out limit i ss header → 0 ≤ header → Forall (λ d, 0 ≤ d) (Z.add header <$> ss).
Proof.
  intros (H & _ & _) Hh. apply Forall_fmap. eapply Forall_impl; [|exact H]. intros d. simpl. lia.
Qed.

(** The sizes in memory are the steps of the loop. *)
Lemma laid_out_elements (P : bmem → Prop) (size_at : Z → Z) (e limit header : Z) ss : ∀ i,
  0 ≤ header → 0 ≤ i → laid_out limit i ss header →
  (∀ m, P m → Forall (λ ls, u32_at host (size_at (e + ls.1)) m = Ret (ls.2, m))
                     (zip (offsets i (Z.add header <$> ss)) ss)) →
  Forall (λ l, keeps P fn (e + l)) (offsets i (Z.add header <$> ss)) →
  elements P e limit (λ p, d ← u32_at host (size_at p); mret (u64 (d + header))) fn i
    (Z.add header <$> ss).
Proof.
  induction ss as [|s ss IH]; intros i Hh Hi (Hss & Hlt & Hend) Hsz Hk; [constructor|].
  rewrite !fmap_cons in *. cbn [offsets sumZ zip zip_with] in *.
  apply Forall_cons_1 in Hss as [Hs Hss]. apply Forall_cons_1 in Hlt as [Hl Hlt].
  apply Forall_cons_1 in Hk as [Hk0 Hk].
  assert (0 ≤ sumZ (Z.add header <$> ss)).
  { apply sumZ_nonneg, Forall_fmap. eapply Forall_impl; [|exact Hss]. intros d. simpl. lia. }
  constructor.
  - cbn [fst snd]. split; [done|]. split; [|done]. intros m Hm. specialize (Hsz m Hm).
    apply Forall_cons_1 in Hsz as [E _]. rewrite (bind_eval _ _ _ _ _ E). cbn [snd].
    rewrite uwrap_small by lia. by rewrite Z.add_comm.
  - apply (IH (i + (header + s))); [done|lia|split; [done|split; [done|lia]]| |done].
    intros m Hm. specialize (Hsz m Hm). by apply Forall_cons_1 in Hsz as [_ Hsz].
Qed.

(** C32: the matches of a bridge rule, and its watchers, are passed to the function in order
    until one result is not 0, which is returned; when all are 0, the result is 0 if the last
    element ends exactly where its part of the rule ends, and [-EINVAL] if it reaches
    further.  The function may do anything, also fault, as long as it leaves the offsets of
    the rule and the sizes of its elements; there may be any number of elements, but their
    sizes may not wrap the [unsigned int] offset. *)
Theorem ebt_iterators_in_order (steps : nat) (e w t : Z) (ms ws : list Z) (m : bmem) :
  ebt_rule e w t ms ws m →
  laid_out w sizeof_ebt_entry ms sizeof_ebt_entry_match →
  laid_out t w ws sizeof_ebt_entry_watcher → 0 ≤ w →
  (length ms < steps)%nat → (length ws < steps)%nat →
  let matches := offsets sizeof_ebt_entry (Z.add sizeof_ebt_entry_match <$> ms) in
  let watchers := offsets w (Z.add sizeof_ebt_entry_watcher <$> ws) in
  Forall (λ l, keeps (ebt_rule e w t ms ws) fn (e + l)) (matches ++ watchers) →
  let ends_at i ss := i + sumZ (Z.add 40 <$> ss) in
  EBT_MATCH_ITERATE host steps e fn m =
    (ret ← call_until fn (Z.add e <$> matches);
     mret (if (ret =? 0) && negb (ends_at sizeof_ebt_entry ms =? w) then - EINVAL else ret)) m ∧
  EBT_WATCHER_ITERATE host steps e fn m =
    (ret ← call_until fn (Z.add e <$> watchers);
     mret (if (ret =? 0) && negb (ends_at w ws =? t) then - EINVAL else ret)) m.
Proof.
  intros Hrule Hms Hws Hw Hfm Hfw matches watchers [Hkm Hkw]%Forall_app ends_at.
  assert (∀ (ret j b : Z) (bound : M bmem Z) m, ret ≠ 0 → check_end (ret, j) bound m =
    Ret (if (ret =? 0) && negb (j =? b) then - EINVAL else ret, m)) as Hret.
  { intros ret j b bound m' Hne. unfold check_end. cbn [fst snd].
    by rewrite (proj2 (Z.eqb_neq ret 0)). }
  split.
  - unfold EBT_MATCH_ITERATE. eapply (for_offsets_ok (ebt_rule e w t ms ws) e w _ _ fn);
      [intros m' []; done|done| |done|by eapply laid_out_sizes|apply Hms|by rewrite length_fmap| |].
    + apply laid_out_elements; [done|done|done|by intros m' []|done].
    + intros ret j m' Hne. rewrite (Hret _ _ w) by done. by rewrite (proj2 (Z.eqb_neq ret 0)).
    + intros m' Hm'. unfold check_end. cbn [fst snd Z.eqb].
      by rewrite (bind_eval _ _ _ _ _ (er_watchers _ _ _ _ _ _ Hm')).
  - unfold EBT_WATCHER_ITERATE. rewrite (bind_eval _ _ _ _ _ (er_watchers _ _ _ _ _ _ Hrule)).
    eapply (for_offsets_ok (ebt_rule e w t ms ws) e t _ _ fn);
      [intros m' []; done|done| |done|by eapply laid_out_sizes|apply Hws|by rewrite length_fmap| |].
    + apply laid_out_elements; [done|done|done|by intros m' []|done].
    + intros ret j m' Hne. rewrite (Hret _ _ t) by done. by rewrite (proj2 (Z.eqb_neq ret 0)).
    + intros m' Hm'. unfold check_end. cbn [fst snd Z.eqb].
      by rewrite (bind_eval _ _ _ _ _ (er_target _ _ _ _ _ _ Hm')).
Qed.
(** Rules of a table: the first [n] are passed over. *)
Lemma entries_loop_ok (P : bmem → Prop) type entries size n ds : ∀ i k fuel m,
  P m →
  Forall (λ id, id.1 < size ∧ keeps P fn (entries + id.1) ∧
    ∀ m, P m → u16_at host (entries + id.1 + next_offset_at type) m = Ret (id.2, m))
    (zip (offsets i ds) ds) →
  0 ≤ i → Forall (λ d, 0 ≤ d) ds → size ≤ i + sumZ ds < 2 ^ 32 → 0 ≤ k →
  k + Z.of_nat (length ds) < 2 ^ 32 → (length ds < fuel)%nat →
  entries_loop host fuel type entries size n i k fn m =
  call_until fn (Z.add entries <$> drop (Z.to_nat (n - k)) (offsets i ds)) m.
Proof.
  induction ds as [|d ds IH]; intros i k [|fuel] m Hm He Hi Hds Hend Hk Hkn Hf;
    cbn [length] in *; try lia; cbn [entries_loop].
  - cbn [sumZ] in Hend. rewrite (proj2 (Z.ltb_ge _ _)) by lia. by destruct (Z.to_nat (n - k)).
  - cbn [offsets zip zip_with] in He. apply Forall_cons_1 in He as [(Hlt & Hkeep & Hnext) He].
    cbn [fst snd] in *. apply Forall_cons_1 in Hds as [Hd Hds]. cbn [sumZ] in Hend.
    assert (0 ≤ sumZ ds) by (by apply sumZ_nonneg).
    rewrite (proj2 (Z.ltb_lt _ _)) by lia.
    assert (∀ m1, P m1 → (d ← u16_at host (entries + i + next_offset_at type);
        entries_loop host fuel type entries size n (u32 (i + d)) (u32 (k + 1)) fn) m1 =
      call_until fn (Z.add entries <$> drop (Z.to_nat (n - (k + 1))) (offsets (i + d) ds)) m1)
      as Hrest.
    { intros m1 Hm1. rewrite (bind_eval _ _ _ _ _ (Hnext m1 Hm1)), !uwrap_small by lia.
      apply IH; done || lia. }
    cbn [offsets]. destruct (Z.ltb_spec k n) as [Hn|Hn].
    + replace (Z.to_nat (n - k)) with (S (Z.to_nat (n - (k + 1)))) by lia. by apply Hrest.
    + replace (Z.to_nat (n - k)) with 0%nat by lia. cbn [drop fmap list_fmap call_until].
      apply bind_cong. intros ret m1 E. destruct (negb (ret =? 0)); [done|].
      rewrite Hrest by (by eapply Hkeep).
      by replace (Z.to_nat (n - (k + 1))) with 0%nat by lia.
Qed.

(** The rules of a table from number [n] on are passed to the function in order until one
    result is not 0, which is returned; otherwise the result is 0. *)
Theorem xt_entries_in_order (P : bmem → Prop) (steps : nat) (type : layout)
    (entries size n : Z) (ds : list Z) (m : bmem) :
  P m →
  Forall (λ id, id.1 < size ∧ keeps P fn (entries + id.1) ∧
    ∀ m, P m → u16_at host (entries + id.1 + next_offset_at type) m = Ret (id.2, m))
    (zip (offsets 0 ds) ds) →
  Forall (λ d, 0 ≤ d) ds → size ≤ sumZ ds < 2 ^ 32 → Z.of_nat (length ds) < 2 ^ 32 →
  (length ds < steps)%nat → 0 ≤ n →
  XT_ENTRY_ITERATE_CONTINUE host steps type entries size n fn m =
  call_until fn (Z.add entries <$> drop (Z.to_nat n) (offsets 0 ds)) m.
Proof.
  intros Hm He Hds Hend Hl Hf Hn. unfold XT_ENTRY_ITERATE_CONTINUE.
  rewrite <- (Z.sub_0_r n) at 2. by apply entries_loop_ok with P.
Qed.
End iterators.

(** ** Concrete rules *)

(** Memory with words of [n] bytes. *)
Definition words (n : nat) (ws : list (Z * Z)) : bmem :=
  list_to_map (concat ((λ w, imap (λ i b, (w.1 + Z.of_nat i, b)) (bytes_in Little n w.2)) <$> ws)).

(** Two matches of 48 and 40 bytes fill their part; one watcher of 44 bytes reaches four bytes
    into the target. *)
Definition ebt_demo : bmem :=
  words 4 [(4196, 200); (4200, 240); (4240, 8); (4288, 0); (4328, 4)].

(** It counts its calls in the byte at 1, and answers 7 for the second match. *)
Definition demo_fn (p : Z) : M bmem Z :=
  mmodify (λ m, <[1 := default 0 (m !! 1) + 1]> m);; mret (if p =? 4256 then 7 else 0).

(** What is stored at another address is still there. *)
Lemma read_bytes_insert n : ∀ q a v m l m',
  a < q → read_bytes n q m = Ret (l, m') →
  m' = m ∧ read_bytes n q (<[a := v]> m) = Ret (l, <[a := v]> m).
Proof.
  induction n as [|n IH]; intros q a v m l m' Hq E; cbn [read_bytes] in *; [by injection E as <- <-|].
  revert E. unfold mbind, M_bind, mget, moption. rewrite lookup_insert_ne by lia.
  destruct (m !! q); [|done]. destruct (read_bytes n (q + 1) m) as [[l1 m1]| |] eqn:E'; [|done..].
  destruct (IH (q + 1) a v m l1 m1 ltac:(lia) E') as [-> ->]. by intros [= <- <-].
Qed.

Lemma load_int_insert o n p a v m x m' :
  a < p → load_int o n p m = Ret (x, m') → load_int o n p (<[a := v]> m) = Ret (x, <[a := v]> m).
Proof.
  intros Ha. unfold load_int, mbind, M_bind.
  destruct (read_bytes n p m) as [[l m1]| |] eqn:E; [|done..].
  destruct (read_bytes_insert n p a v m l m1 Ha E) as [-> ->]. by intros [= <- <-].
Qed.

(** Words above address 1. *)
Lemma sizes_insert (size_at : Z → Z) l v m :
  Forall (λ ls : Z * Z, 1 < size_at (4096 + ls.1)) l →
  Forall (λ ls, u32_at Little (size_at (4096 + ls.1)) m = Ret (ls.2, m)) l →
  Forall (λ ls, u32_at Little (size_at (4096 + ls.1)) (<[1 := v]> m) = Ret (ls.2, <[1 := v]> m)) l.
Proof.
  induction 1 as [|ls l Hlt _ IH]; intros H; [constructor|]. apply Forall_cons_1 in H as [E H].
  constructor; [by eapply load_int_insert|by apply IH].
Qed.

Lemma demo_fn_keeps p : keeps (ebt_rule Little 4096 200 240 [8; 0] [4]) demo_fn p.
Proof.
  intros m ret m' [Hw Ht Hm Hws] E. injection E as <- <-.
  split; [by eapply load_int_insert|by eapply load_int_insert|apply sizes_insert|apply sizes_insert];
    try done; repeat constructor.
Qed.

Lemma ebt_iterators_in_order_witness :
  (EBT_MATCH_ITERATE Little 3 4096 demo_fn ebt_demo = Ret (7, <[1 := 2]> ebt_demo) ∧
   EBT_WATCHER_ITERATE Little 3 4096 demo_fn ebt_demo = Ret (-22, <[1 := 1]> ebt_demo)).
Proof.
  destruct (ebt_iterators_in_order Little demo_fn 3 4096 200 240 [8; 0] [4] ebt_demo) as [-> ->].
  - split; try (vm_compute; reflexivity);
      repeat (constructor; [vm_compute; reflexivity|]); constructor.
  - split; [repeat constructor; discriminate|]. split; [repeat constructor|by vm_compute].
  - split; [repeat constructor; discriminate|]. split; [repeat constructor|by vm_compute].
  - lia.
  - simpl. lia.
  - simpl. lia.
  - repeat (constructor; [apply demo_fn_keeps|]). constructor.
  - split; vm_compute; reflexivity.
Defined.

(** Three rules; the first is passed over. *)
Definition xt_demo : bmem := words 2 [(4096 + 90, 120); (4216 + 90, 112); (4328 + 90, 130)].

Lemma xt_entries_in_order_witness :
  XT_ENTRY_ITERATE_CONTINUE Little 4 ipt_entry 4096 362 1
    (λ p, mret (if p =? 4096 then 5 else if p =? 4328 then 9 else 0)) xt_demo = Ret (9, xt_demo).
Proof.
  rewrite (xt_entries_in_order Little
    (λ p, mret (if p =? 4096 then 5 else if p =? 4328 then 9 else 0)) (λ m, m = xt_demo) 4
    ipt_entry 4096 362 1 [120; 112; 130] xt_demo).
  - vm_compute. reflexivity.
  - reflexivity.
  - repeat (constructor; [split; [vm_compute; reflexivity|split;
      [intros ? ? ? -> E; by injection E|intros ? ->; vm_compute; reflexivity]]|]). constructor.
  - repeat constructor; discriminate.
  - by vm_compute.
  - reflexivity.
  - simpl. lia.
  - lia.
Defined.
